(* ===== verification/_CoqProject ===== *)
-Q . S2P
Prelude.v
Range.v
RuleValue.v
Mempool.v
StaticPool.v
MockPool.v
Node.v
NodeLemmas.v
Search.v
Layer.v
LayerSearch.v
Trie.v
TrieCheck.v
Footprint.v
Slots.v
TrieSearch.v
Insert.v
LookupSpec.v
Split.v
Chain.v
InsertLayer.v
InsertRoot.v
Decompress.v
Integrity.v
SearchPath.v
InsertNext.v
KeyUpdate.v
InsertWalk.v
InsertAct.v
TrieInsert.v
InsertSpec.v
Build.v
BuildSpec.v
Balance.v
KeyIterator.v
IterSpec.v
Collision.v
ToRules.v
Remove.v
Schedule.v
DimOrder.v
Common.v
BTreeImpl.v
Destroy.v
CollisionSpec.v
Rotate.v
RemoveSpec.v
RemoveRule.v
RulesSpec.v
Facade.v
TreeInterface.v
Classifier.v
ClassifierSpec.v
ClassifierTrees.v
ClassifierInsert.v
ListTree.v
BTreeLaws.v
Rule.v
Trace.v
RuleVec.v
RuleParser.v
ParserSpec.v
Printer.v
Scenarios.v
