(* ===== verification/Prelude.v ===== *)
(** * Verification of the pclass-vectorized packet classification library

    ** The program

    [src/] is a C++ library that classifies packets with PartitionSort: the
    rules are distributed over a few trees ([partition_sort_classifier.h]), a
    packet is looked up in every tree that can still improve the result, and
    the match of the greatest priority wins.  A tree ([b_tree_impl.h]) is a
    B-tree of B-trees: a layer holds disjoint ranges of one dimension, a key
    has the value of a rule that ends there and the next layer for the next
    dimension of the tree's own order of dimensions; chains of single keys are
    packed into one compressed node.  Nodes live in a pool
    ([mempool_dynamic.h]) and refer to each other by pool indexes.  Around it
    are the rule types with their conversion to arrays of 16-bit ranges
    ([rule.h], [rule.cpp], [rule_vec_utils.h]), the readers and printers of
    rule files ([classbench_rule_parser.cpp]) and a trace generator
    ([trace_tools.cpp]).

    ** Reading the model

    Definitions keep the names of the source.  Stateful code is a computation
    [M S A] over an explicit state: the pool of nodes ([Heap]) for the trees,
    the classifier with the pool for the classifier, a cursor for the field
    writers, the engine for the traces.  An exception, a violated [assert] and
    undefined behaviour are values of [error]; the build modelled is the one
    with assertions, whose debug code can fail.  Integers are [Z] with the
    width written out, indexes and counters that cannot wrap are [nat].
    Pointers to nodes are pool indexes; reading a dead node, or an array
    outside of its bounds, is [undefined_behaviour].

    ** Files

    - [Prelude]: the monad, loops, total-correctness rules, the tactics that
      run a computation ([run_ok], [run_step]), lemmas on lists and integers.
    - [Range] ([range.h]), [RuleValue] ([rule_value_int.h], [key_info.h]):
      ranges with their masks and byte orders; the interface [RuleValue] of
      the stored values and its instance [RuleValueInt].
    - [Mempool] ([mempool_dynamic.h]), [StaticPool] ([mempool.h]), [MockPool]
      ([mempool_mock.h]): the three allocators.
    - [Node] ([b_tree_cfg.h], [b_tree_node.h], [b_tree_node_navigator.h], and
      [destroy_node] of [b_tree.h]), [Search] ([b_tree_search.h]), [Insert]
      ([b_tree_insert.h]), [KeyIterator], [Collision], [ToRules], [Remove]
      (the headers [b_tree_*.h] of these names), [BTreeImpl] ([b_tree_impl.h],
      and [TREE_T], the interface the classifier is written against).
    - The tree as data.  [Layer]: one B-tree as a ghost structure, [rep].
      [Trie]: the stored trie, what a packet finds in it ([deepest]), the
      ghost structure [gtrie] with [g_rep], and [abs], which forgets how the
      trie is stored.  [TrieCheck]: both are decidable on a concrete memory.
      [Footprint] and [Slots]: which nodes a step may change, and runs of keys
      moved between nodes.  [NodeLemmas]: accesses to live nodes.
    - Lookup: [LayerSearch], [TrieSearch], [LookupSpec].
    - Insertion, by the function that is treated: [Split], [Chain],
      [InsertLayer], [InsertRoot], [Decompress], [Integrity], [SearchPath],
      [InsertNext], [KeyUpdate], [InsertWalk], [InsertAct]; [TrieInsert] has
      the facts on the abstract insertion [t_insert], [InsertSpec] the
      refinement, [Build] and [BuildSpec] the sequences of insertions.
    - [Balance]: the shape of the layers and their height.
    - Removal: [Rotate] (keys and children moved between siblings),
      [RemoveSpec] (the deletion from a layer), [RemoveRule] ([remove] itself).
    - Other operations on stored trees: [Destroy], [CollisionSpec],
      [RulesSpec], [Facade], [IterSpec].
    - [Schedule] ([weighted_interval_scheduling_solver.h]), [DimOrder]
      ([dimension_order_resolver.h]), [Common] ([array_resorter.h],
      [array_hasher.h], [rulespec_hasher.h]), [Classifier]
      ([partition_sort_classifier.h]).  [TreeInterface]: what a tree promises
      to the classifier ([TREE_LAWS]), the linear search, and rules under
      another order of the dimensions.  [ClassifierSpec] and
      [ClassifierTrees]: the lookup; [ClassifierInsert]: the insertion.  Two
      kinds of trees keep the promises: a list of rules ([ListTree]) and, for
      prefix rules of at most two ranges, the B-trees ([BTreeLaws]).
    - [Rule] ([rule.h], [rule.cpp]), [RuleVec] ([rule_vec_utils.h]), [Trace]
      ([trace_tools.cpp]), [RuleParser] and [ParserSpec]
      ([classbench_rule_parser.cpp]), [Printer] ([b_tree_printer.h], the text
      of a tree in the dot format).
    - [Scenarios]: the classifier over B-trees evaluated on concrete rules:
      witnesses of the theorems on the lookup, and histories in which the
      program damages a tree or leaves the trees unsorted.

    ** What is shown

    - Trees.  [g_rep] ties a trie to the memory; [stores] adds the pool.  An
      insertion refines [t_insert] ([insert_rule_refines]), a sequence of
      insertions of compatible rules always succeeds, as long as no rule that
      is stored at the last level is inserted again ([insert_rules_refines]),
      and the tree then answers every packet like a linear search
      ([build_classifies]); after one insertion a packet finds the longest
      matching path, old or new ([insert_then_search]).  Every lookup on a
      represented tree finds the longest stored path that matches
      ([search_vec_deepest]); [search_path] follows a rule as far as the trie
      does, and its outcome is known on every rule ([search_path_longest]);
      [integrity_check], [size] ([btree_size_counts]), [to_rules],
      [destroy_node] and the key iterator return and do what they say
      ([iter_keys_layer] for the last); the collision test decides whether a
      rule can be inserted ([does_rule_colide_decides]); listing the rules of a
      built tree gives the inserted rules back ([build_to_rules]).  Removing a
      key from a layer whose keys have no next layers is the deletion from the
      list of its keys, and the layer stays balanced ([remove_1d_refines]), as
      the layers of every built tree are ([build_balanced]); on trees of one
      layer a removed rule is gone and the others are found as before
      ([build_remove_classifies]), and a value in front of a next layer is
      cleared ([remove_rule_clears]).  The printed text of a tree has every
      node once ([print_stored]).
    - Classifier.  Against any [TREE_T] the lookup returns an answer of the
      greatest priority though it stops early ([search_best]); over B-trees of
      compatible rules, sorted by a bound of their priorities, it is a linear
      search through all rules ([classifier_linear]).  Against any [TREE_LAWS],
      and while no tree with rules is rebuilt, insertions of rules with
      different ranges store every rule until the trees run out and keep the
      trees sorted, so that the lookup is the linear search through the
      inserted rules ([classifier_insert_search]).  For prefix rules of at most
      two ranges the same is proved of the classifier over its B-trees, down to
      the pool of nodes ([btree_classifier_correct]).  The order of dimensions,
      its scores and the sorted array of trees ([resolve_spec],
      [findMaxWeightIntervalSequence_optimal], [array_resort_spec]); the hash
      maps ([hash_maps_keys_ok]).
    - Allocators.  [get], [release] and [size] of the dynamic pool on every
      branch, the static pool as a stack of free indexes, the tables of the
      mock pool.
    - Rules.  Masks and prefixes of ranges, rules as arrays of 16-bit ranges,
      fields written and read again, bounds of the packed rule value; a
      printed ClassBench file is read back; packets of a trace lie in rules.
    - Defects: a theorem states what the code does, also where it is not what
      the code means to do (an intersection [overlaps] misses, the double free
      that is not detected, the read out of bounds in [search_path], words
      read back in the reverse order); removal across layers, insertion into a
      tree whose order was kept and trees left unsorted by an insertion that
      rebuilds one are runs in [Scenarios].

    ** Assumptions, fuel and bounds

    Rules are _compatible_ when the ranges in which they first differ, in the
    order of the tree, are disjoint; this is what the classifier asks of a
    tree. The collision test of the B-tree does not establish it in general:
    [overlaps] misses one case, and compressed nodes below another layer are
    compared from their second key. It is a hypothesis where trees are built,
    and the test is proved right where both defects are excluded
    ([exact_overlaps], [plain]). [TREE_LAWS] asks for an exact test, as the
    priorities of a tree are right only then: the test of the B-tree also
    admits a rule whose path continues the path of another one, and the lookup
    takes the longer path whatever its priority ([search_vec_deepest]). The
    laws are therefore for rules with a property of the tree ([law_rule]): the
    B-trees keep them for rules of at most two ranges, all prefixes and none a
    wildcard, as then every path ends at the last level, [overlaps] is exact
    and the only compressed node of a tree is its root.

    The build with assertions reads [dimension_order[level + 1]] in
    [search_path] before it knows that there is a next level: the read is out
    of bounds when the path of a rule is stored down to the last level and ends
    there in a node that is not compressed.  An insertion can meet it only when
    such a rule is repeated; the theorems on insertion exclude the repetition
    ([full_keys], [unrepeated]), and [insert_twice_overreads] shows the read.
    Insertion is proved with [PATH_COMPRESSION], the default: without it
    prefixes of a rule get its value.

    The theorem on insertion into the classifier is for
    [TREE_FIXATION_THRESHOLD] at most one: a tree that is rebuilt can leave the
    trees unsorted ([insert_unsorts_trees]). Removal is specified where it is
    right: on one layer that is not the last level, and at a key in front of a
    next layer; below other layers and inside of compressed nodes it damages
    the tree ([remove_loses_neighbours]). [KEY_SIZE = 2] where a packet is an
    array of 16-bit fields. [std::sort] is any function that meets [StdSort];
    it leaves the order of equal ends open, on which the score of a dimension
    depends ([order_dependent]), so that its optimality is stated for the order
    at hand and for every order only where no interval of one value stands at
    the end of another one. The hash primitives, [aligned_alloc] and the random
    engine are parameters with their documented laws, what a read through an
    erased iterator yields is one without any.

    Recursive functions of the source take [fuel].  A layer of height at most
    [H] in a tree with the order [order] needs [S H * length order] for a walk
    through all layers, [fuel_bound H order] behind a longest path and
    [insert_fuel H order] for an insertion; an insertion raises a layer by at
    most one level and takes at most [H + D + 10] nodes, so [nodes_needed]
    sums up a sequence.  The theorems conclude that the code returns whenever
    the fuel is at least the bound.  The loops of the source that may run
    forever end in [no_fuel].

    ** Not modelled

    The vectorised scan of a node and its helpers ([b_tree_search.cpp], the
    first lines of [b_tree_search.h]), which nothing calls and which consist
    of processor intrinsics; timers and benchmark statistics ([src/utils]);
    everything under [benchmarks], which compares the library with other
    classifiers, with Open vSwitch and with DPDK. *)
From stdpp Require Export base list gmap strings numbers option sorting.
From Stdlib Require Export ZArith Lia.

#[export] Set Default Goal Selector "!".

Declare Scope pcv_scope.
Delimit Scope pcv_scope with pcv.

(** The equations that run a computation. *)
Create HintDb run.

(** ** Errors and the state-and-error monad *)

(** The ways a call can fail to return: the exceptions the source throws, a
    violated [assert], behaviour C++ leaves undefined (an index out of the
    bounds of an array, a null or dangling pointer), a lock that is never
    released, and a bounded loop of the model that ran out of fuel. *)
Inductive error : Type :=
| bad_alloc
| runtime_error (msg : string)
| out_of_range
| invalid_argument
| ios_failure (msg : string)
| assert_failed
| undefined_behaviour
| deadlock
| no_fuel.

Inductive result (A : Type) : Type :=
| Ok (a : A)
| Err (e : error).
Arguments Ok {A} _.
Arguments Err {A} _.

#[export] Instance error_eq_dec : EqDecision error.
Proof. solve_decision. Defined.

#[export] Instance result_eq_dec {A} `{EqDecision A} : EqDecision (result A).
Proof. solve_decision. Defined.

(** A computation over the state [S]: an exception keeps the state it was
    raised in, as a C++ exception does. *)
Definition M (S A : Type) : Type := S → result A * S.

#[export] Instance M_ret {S} : MRet (M S) := λ A a s, (Ok a, s).

#[export] Instance M_bind {S} : MBind (M S) := λ A B f m s,
  match m s with
  | (Ok a, s') => f a s'
  | (Err e, s') => (Err e, s')
  end.

Definition throw {S A} (e : error) : M S A := λ s, (Err e, s).

Definition gets {S A} (f : S → A) : M S A := λ s, (Ok (f s), s).

Definition modify {S} (f : S → S) : M S unit := λ s, (Ok tt, f s).

(** [assert (b)] of the C library, with assertions compiled in. *)
Definition assert_ {S} (b : bool) : M S unit :=
  if b then mret tt else throw assert_failed.

(** A partial read: [None] is an access outside of the object. *)
Definition or_ub {S A} (o : option A) : M S A :=
  match o with
  | Some a => mret a
  | None => throw undefined_behaviour
  end.

(** [for (i : l) body(i);] *)
Fixpoint for_each {S A} (l : list A) (body : A → M S unit) : M S unit :=
  match l with
  | [] => mret tt
  | x :: l' => body x ;; for_each l' body
  end.

(** [for (i : l) acc = body(acc, i);] *)
Fixpoint fold_each {S A B} (l : list A) (acc : B) (body : B → A → M S B) : M S B :=
  match l with
  | [] => mret acc
  | x :: l' => acc' ← body acc x; fold_each l' acc' body
  end.

(** [for (i = a; i < b; i++)] and the descending
    [for (i = b - 1; i >= a; i--)]. *)
Definition range_up (a b : nat) : list nat := seq a (b - a).

Definition range_down (a b : nat) : list nat := reverse (seq a (b - a)).

(** ** Total-correctness triples

    [wp m s Q]: run from [s], the computation [m] returns normally, in a state
    and with a value that satisfy [Q]. *)
Definition wp {S A} (m : M S A) (s : S) (Q : A → S → Prop) : Prop :=
  match m s with
  | (Ok a, s') => Q a s'
  | (Err _, _) => False
  end.

Section wp_rules.
Context {S A B : Type}.
Implicit Types (m : M S A) (s : S).

Lemma wp_ret (a : A) s (Q : A → S → Prop) : wp (mret a) s Q ↔ Q a s.
Proof. done. Qed.

Lemma wp_bind m (f : A → M S B) s (Q : B → S → Prop) :
  wp (m ≫= f) s Q ↔ wp m s (λ a s', wp (f a) s' Q).
Proof. unfold wp, mbind, M_bind. by destruct (m s) as [[a|e] s']. Qed.

Lemma wp_gets (f : S → A) s (Q : A → S → Prop) : wp (gets f) s Q ↔ Q (f s) s.
Proof. done. Qed.

Lemma wp_modify (f : S → S) s (Q : unit → S → Prop) :
  wp (modify f) s Q ↔ Q tt (f s).
Proof. done. Qed.

Lemma wp_assert (b : bool) s (Q : unit → S → Prop) :
  wp (assert_ b) s Q ↔ b = true ∧ Q tt s.
Proof. destruct b; cbn; naive_solver. Qed.

Lemma wp_or_ub (o : option A) s (Q : A → S → Prop) :
  wp (or_ub o) s Q ↔ ∃ a, o = Some a ∧ Q a s.
Proof. destruct o; cbn; naive_solver. Qed.

Lemma wp_mono m s (P Q : A → S → Prop) :
  wp m s P → (∀ a s', P a s' → Q a s') → wp m s Q.
Proof. unfold wp. destruct (m s) as [[a|e] s']; naive_solver. Qed.

Lemma wp_ok m s (Q : A → S → Prop) :
  wp m s Q ↔ ∃ a s', m s = (Ok a, s') ∧ Q a s'.
Proof. unfold wp. destruct (m s) as [[a|e] s']; naive_solver. Qed.

Lemma wp_conj m s (P Q : A → S → Prop) :
  wp m s P → wp m s Q → wp m s (λ a s', P a s' ∧ Q a s').
Proof. unfold wp. destruct (m s) as [[a|e] s']; naive_solver. Qed.
End wp_rules.

(** Unfold the monadic combinators of a goal [wp _ _ _] one step. *)
Ltac wp_step :=
  first
    [ rewrite wp_bind | rewrite wp_ret | rewrite wp_gets | rewrite wp_modify
    | rewrite wp_assert | rewrite wp_or_ub ].

Ltac wp_steps := repeat wp_step.

(** ** Running a computation step by step *)

Section run_rules.
Context {S A B : Type}.
Implicit Types (m : M S A) (s : S).

Lemma bind_ok m (f : A → M S B) s a s' :
  m s = (Ok a, s') → (m ≫= f) s = f a s'.
Proof. intros H. unfold mbind, M_bind. by rewrite H. Qed.

Lemma bind_err m (f : A → M S B) s e s' :
  m s = (Err e, s') → (m ≫= f) s = (Err e, s').
Proof. intros H. unfold mbind, M_bind. by rewrite H. Qed.

Lemma bind_ret (a : A) (f : A → M S B) s : (mret a ≫= f) s = f a s.
Proof. done. Qed.

Lemma bind_gets (g : S → A) (f : A → M S B) s : (gets g ≫= f) s = f (g s) s.
Proof. done. Qed.

Lemma bind_modify (g : S → S) (f : unit → M S B) s : (modify g ≫= f) s = f tt (g s).
Proof. done. Qed.

Lemma bind_throw (e : error) (f : A → M S B) s : (throw e ≫= f) s = (Err e, s).
Proof. done. Qed.

Lemma bind_assert (b : bool) (f : unit → M S B) s :
  b = true → (assert_ b ≫= f) s = f tt s.
Proof. by intros ->. Qed.

Lemma bind_assert_false (b : bool) (f : unit → M S B) s :
  b = false → (assert_ b ≫= f) s = (Err assert_failed, s).
Proof. by intros ->. Qed.

Lemma bind_some (o : option A) a (f : A → M S B) s :
  o = Some a → (or_ub o ≫= f) s = f a s.
Proof. by intros ->. Qed.

Lemma bind_assoc {C} m (f : A → M S B) (g : B → M S C) s :
  ((m ≫= f) ≫= g) s = (m ≫= (λ a, f a ≫= g)) s.
Proof. unfold mbind, M_bind. by destruct (m s) as [[a|e] s']. Qed.

Lemma bind_Ok_inv m (f : A → M S B) s b s' :
  (m ≫= f) s = (Ok b, s') → ∃ a s1, m s = (Ok a, s1) ∧ f a s1 = (Ok b, s').
Proof. unfold mbind, M_bind. destruct (m s) as [[a|e] s1]; [by eexists _, _|done]. Qed.
End run_rules.

(** [m] run from [s] returns [a] in the state [s'], or fails with [e]. *)
Notation "⟪ m , s ⟫ ⇓ ⟪ a , s' ⟫" := (m s = (Ok a, s'))
  (at level 70, m at level 69, s at level 69, a at level 69, s' at level 69, no associativity) : pcv_scope.
Notation "⟪ m , s ⟫ ⇑ e" := ((m s).1 = Err e)
  (at level 70, m at level 69, s at level 69, e at level 69, no associativity) : pcv_scope.

#[export] Hint Rewrite @bind_ret @bind_gets @bind_modify @bind_throw @bind_assoc : run.

(** Run the calls that read the state or compute a value. *)
Ltac run_pure := autorewrite with run; cbv beta.

(** Closes the side conditions of the steps. *)
Ltac side_cond :=
  first
    [ done | lia | eassumption
    | apply bool_decide_true; first [done | congruence | naive_solver]
    | apply Nat.ltb_lt; first [assumption | lia | cbn; lia]
    | apply Nat.leb_le; cbn; lia
    | apply bool_decide_false; first [done | congruence | naive_solver] ].

(** One step of [(m ≫= f) s] in the goal. *)
Ltac run_step :=
  first
    [ rewrite bind_assoc | rewrite bind_ret | rewrite bind_gets | rewrite bind_modify
    | rewrite bind_throw
    | rewrite bind_assert by side_cond
    | erewrite bind_some by side_cond
    | erewrite bind_ok by side_cond ]; cbv beta.

Ltac run_steps := repeat run_step.

(** Run the first call of the goal with a given equation for it. *)
Tactic Notation "run_ok" "by" tactic3(t) :=
  first [erewrite bind_ok by t | rewrite !bind_assoc; erewrite bind_ok by t]; cbv beta iota.

(** ** Loops

    A loop keeps an invariant of the index and the state. *)

Lemma for_each_up {S} (body : nat → M S unit) (I : nat → S → Prop) (a b : nat) (s : S) :
  a ≤ b → I a s →
  (∀ i s, a ≤ i < b → I i s → ∃ s', body i s = (Ok tt, s') ∧ I (Datatypes.S i) s') →
  ∃ s', for_each (range_up a b) body s = (Ok tt, s') ∧ I b s'.
Proof.
  intros Hab HI Hb. unfold range_up. remember (b - a) as n eqn:Hn.
  revert a s Hab HI Hb Hn. induction n as [|n IH]; intros a s Hab HI Hb Hn.
  - exists s. replace b with a by lia. done.
  - cbn. destruct (Hb a s) as (s1 & H1 & HI1); [lia|done|]. rewrite (bind_ok _ _ _ _ _ H1).
    apply (IH (Datatypes.S a)); [lia|done| |lia]. intros i s2 Hi. apply Hb. lia.
Qed.

Lemma fold_each_up {S B} (body : B → nat → M S B) (I : B → S → Prop) (a b : nat) (acc : B) (s : S) :
  I acc s →
  (∀ i acc s, a ≤ i < b → I acc s → ∃ acc' s', body acc i s = (Ok acc', s') ∧ I acc' s') →
  ∃ acc' s', fold_each (range_up a b) acc body s = (Ok acc', s') ∧ I acc' s'.
Proof.
  intros HI Hb. unfold range_up. assert (∀ i, a ≤ i < a + (b - a) → a ≤ i < b) as Hr by lia.
  revert Hr. generalize (b - a) as n. intros n Hr.
  assert (∀ i acc s, a ≤ i < a + n → I acc s → ∃ acc' s', body acc i s = (Ok acc', s') ∧ I acc' s') as Hbody.
  { intros i acc' s' Hi. by apply Hb, Hr. }
  clear Hb Hr. revert a acc s HI Hbody. induction n as [|n IH]; intros a acc s HI Hb; [by exists acc, s|].
  cbn. destruct (Hb a acc s) as (acc1 & s1 & H1 & HI1); [lia|done|]. rewrite (bind_ok _ _ _ _ _ H1).
  apply IH; [done|]. intros i acc2 s2 Hi. apply Hb. lia.
Qed.

(** A loop that only reads. *)
Lemma for_each_pure {S} (body : nat → M S unit) (a b : nat) (s : S) :
  (∀ i, a ≤ i < b → body i s = (Ok tt, s)) → for_each (range_up a b) body s = (Ok tt, s).
Proof.
  intros Hb. destruct (decide (a ≤ b)) as [Hab|Hab].
  - destruct (for_each_up body (λ _ s', s' = s) a b s) as (s' & Hr & ->); [done|done| |done].
    intros i s' Hi ->. exists s. split; [by apply Hb|done].
  - unfold range_up. by replace (b - a) with 0 by lia.
Qed.

Lemma for_each_app {S A} (l1 l2 : list A) (body : A → M S unit) s s1 :
  for_each l1 body s = (Ok tt, s1) → for_each (l1 ++ l2) body s = for_each l2 body s1.
Proof.
  revert s. induction l1 as [|x l1 IH]; intros s; cbn; [by intros [= ->]|].
  unfold mbind, M_bind. destruct (body x s) as [[[]|e] s2]; [|done]. apply IH.
Qed.

Lemma for_each_down {S} (body : nat → M S unit) (I : nat → S → Prop) (a b : nat) (s : S) :
  a ≤ b → I b s →
  (∀ i s, a ≤ i < b → I (Datatypes.S i) s → ∃ s', body i s = (Ok tt, s') ∧ I i s') →
  ∃ s', for_each (range_down a b) body s = (Ok tt, s') ∧ I a s'.
Proof.
  intros Hab HI Hb. unfold range_down. remember (b - a) as n eqn:Hn.
  revert a b s Hab HI Hb Hn. induction n as [|n IH]; intros a b s Hab HI Hb Hn.
  - exists s. replace a with b by lia. done.
  - replace b with (Datatypes.S (a + n)) in * by lia.
    rewrite seq_S, reverse_snoc.
    destruct (Hb (a + n) s) as (s1 & H1 & HI1); [lia|done|].
    cbn [for_each]. rewrite (bind_ok _ _ _ _ _ H1).
    apply (IH a (a + n) s1); [lia|done| |lia]. intros i s2 Hi. apply Hb. lia.
Qed.

(** ** Unsigned integers *)

(** [n - 1], converted to an unsigned integer of [w] bits: it wraps around at
    zero. *)
Definition pred_w (w : Z) (n : nat) : nat :=
  match n with
  | O => Z.to_nat (2 ^ w - 1)
  | Datatypes.S m => m
  end.

Lemma pred_w_pos w n : 0 < n → pred_w w n = n - 1.
Proof. destruct n; cbn; lia. Qed.

(** ** Lists *)

Lemma StronglySorted_lookup {A} (R : relation A) (l : list A) (i j : nat) (x y : A) :
  StronglySorted R l → l !! i = Some x → l !! j = Some y → i < j → R x y.
Proof.
  intros Hl. revert i j. induction Hl as [|z l _ IH Hz]; [done|].
  intros [|i] [|j] Hx Hy Hij; cbn in *; try lia.
  - simplify_eq. rewrite Forall_forall in Hz. by eapply Hz, list_elem_of_lookup_2.
  - apply (IH i j); [done..|lia].
Qed.

Lemma StronglySorted_weaken {A} (R R' : relation A) (l : list A) :
  (∀ x y, R x y → R' x y) → StronglySorted R l → StronglySorted R' l.
Proof.
  intros HR. induction 1 as [|z l _ IH Hz]; constructor; [done|].
  eapply Forall_impl; [exact Hz|]. cbn. auto.
Qed.

Lemma elem_of_concat {A} (x : A) (ls : list (list A)) :
  x ∈ concat ls ↔ ∃ l, x ∈ l ∧ l ∈ ls.
Proof.
  induction ls as [|l ls IH]; cbn.
  - split; [by intros ?%not_elem_of_nil|]. by intros (l & _ & ?%not_elem_of_nil).
  - rewrite elem_of_app, IH. setoid_rewrite elem_of_cons. naive_solver.
Qed.

(** Lists without duplicates whose concatenation has none. *)
Lemma NoDup_concat_part {A} (ls : list (list A)) l : NoDup (concat ls) → l ∈ ls → NoDup l.
Proof.
  induction ls as [|l' ls IH]; intros Hnd Hl; [by apply not_elem_of_nil in Hl|].
  cbn in Hnd. apply NoDup_app in Hnd as (H1 & _ & H2).
  apply elem_of_cons in Hl as [->|Hl]; auto.
Qed.

Lemma NoDup_concat_inj {A} (ls : list (list A)) i j l l' x :
  NoDup (concat ls) → ls !! i = Some l → ls !! j = Some l' → x ∈ l → x ∈ l' → i = j.
Proof.
  revert i j. induction ls as [|k ls IH]; intros i j Hnd Hi Hj Hx Hx'; [done|].
  cbn in Hnd. apply NoDup_app in Hnd as (_ & Hd & Hnd).
  assert (∀ n m, ls !! n = Some m → x ∈ m → x ∈ concat ls) as Hin.
  { intros n m Hn Hm. apply elem_of_concat. exists m. split; [done|].
    by eapply list_elem_of_lookup_2. }
  destruct i as [|i], j as [|j]; cbn in Hi, Hj; simplify_eq; [done| | |f_equal; eauto].
  - destruct (Hd x); eauto.
  - destruct (Hd x); eauto.
Qed.

Lemma list_alter_inv {A} (f : A → A) (l : list A) j i x :
  alter f j l !! i = Some x → ∃ y, l !! i = Some y ∧ x = if decide (i = j) then f y else y.
Proof.
  case_decide as He.
  - subst i. rewrite list_lookup_alter_eq. intros (y & Hy & ->)%fmap_Some. by exists y.
  - rewrite list_lookup_alter_ne by done. intros Hx. by exists x.
Qed.

Lemma last_cons_default {A} (c : A) (cs : list A) : last (c :: cs) = Some (List.last cs c).
Proof. revert c. induction cs as [|y ys IH]; intros c; [done|]. destruct ys; [done|]. exact (IH c). Qed.

(** ** Integers *)

(** A value below [2^n] put under a shifted one. *)
Lemma lor_shiftl_add (a b n : Z) :
  (0 ≤ n → 0 ≤ b < 2 ^ n → Z.lor (Z.shiftl a n) b = a * 2 ^ n + b)%Z.
Proof.
  intros Hn Hb. rewrite <- Z.shiftl_mul_pow2 by done.
  assert (Z.land (Z.shiftl a n) b = 0)%Z as Hl.
  { apply Z.bits_inj'. intros i Hi. rewrite Z.land_spec, Z.bits_0.
    destruct (Z.lt_ge_cases i n); [by rewrite Z.shiftl_spec_low|].
    destruct (Z.eq_dec b 0) as [->|]; [by rewrite Z.bits_0, andb_false_r|].
    rewrite (Z.bits_above_log2 b i), andb_false_r; [done|lia|].
    apply Z.log2_lt_pow2; [lia|]. eapply Z.lt_le_trans; [apply Hb|].
    apply Z.pow_le_mono_r; lia. }
  pose proof (Z.add_lor_land (Z.shiftl a n) b). lia.
Qed.

Lemma land_ones_mod (a n : Z) : (0 ≤ n → Z.land a (2 ^ n - 1) = a mod 2 ^ n)%Z.
Proof. intros Hn. rewrite <- Z.land_ones by done. by rewrite Z.ones_equiv, Z.sub_1_r. Qed.
