(* ===== verification/Range.v ===== *)
(** * Ranges of match-field values ([include/pcv/common/range.h])

    [Range1d<T>] for an unsigned [T] of [sz] bytes: a closed interval of
    integers, its comparisons, the overlap test, and the extraction of the
    common prefix of its two ends as a bit mask, in both byte orders.  Values
    are [Z]; the width is the argument [sz], the [sizeof (T)] of the source. *)
From S2P Require Import Prelude.
Local Open Scope Z_scope.

(** ** Data *)

Record Range1d : Type := mkRange { low : Z; high : Z }.

#[export] Instance Range1d_eq_dec : EqDecision Range1d.
Proof. solve_decision. Defined.

#[export] Instance Range1d_inhabited : Inhabited Range1d := populate (mkRange 0 0).

(** [std::numeric_limits<T>::max()] *)
Definition T_max (sz : nat) : Z := 2 ^ (8 * Z.of_nat sz) - 1.

(** Conversion of an integer to the unsigned [T]. *)
Definition to_T (sz : nat) (v : Z) : Z := v mod 2 ^ (8 * Z.of_nat sz).

(** [reinterpret_cast<const uint8_t *>(&v)[b]] on a little-endian machine. *)
Definition byte_of (v : Z) (b : nat) : Z := Z.land (Z.shiftr v (8 * Z.of_nat b)) 255.

(** [reinterpret_cast<uint8_t *>(&m)[b] = x] *)
Definition set_byte (m : Z) (b : nat) (x : Z) : Z :=
  Z.lor (Z.ldiff m (Z.shiftl 255 (8 * Z.of_nat b))) (Z.shiftl x (8 * Z.of_nat b)).

(** [__builtin_bswap] of a [sz]-byte value. *)
Fixpoint bswap (sz : nat) (v : Z) : Z :=
  match sz with
  | O => 0
  | S n => Z.lor (Z.shiftl (byte_of v 0) (8 * Z.of_nat n)) (bswap n (Z.shiftr v 8))
  end.

Definition bytePrefix : list nat :=
  [
   8; 7; 6; 6; 5; 5; 5; 5; 4; 4; 4; 4; 4; 4; 4; 4;
   3; 3; 3; 3; 3; 3; 3; 3; 3; 3; 3; 3; 3; 3; 3; 3;
   2; 2; 2; 2; 2; 2; 2; 2; 2; 2; 2; 2; 2; 2; 2; 2;
   2; 2; 2; 2; 2; 2; 2; 2; 2; 2; 2; 2; 2; 2; 2; 2;
   1; 1; 1; 1; 1; 1; 1; 1; 1; 1; 1; 1; 1; 1; 1; 1;
   1; 1; 1; 1; 1; 1; 1; 1; 1; 1; 1; 1; 1; 1; 1; 1;
   1; 1; 1; 1; 1; 1; 1; 1; 1; 1; 1; 1; 1; 1; 1; 1;
   1; 1; 1; 1; 1; 1; 1; 1; 1; 1; 1; 1; 1; 1; 1; 1;
   0; 0; 0; 0; 0; 0; 0; 0; 0; 0; 0; 0; 0; 0; 0; 0;
   0; 0; 0; 0; 0; 0; 0; 0; 0; 0; 0; 0; 0; 0; 0; 0;
   0; 0; 0; 0; 0; 0; 0; 0; 0; 0; 0; 0; 0; 0; 0; 0;
   0; 0; 0; 0; 0; 0; 0; 0; 0; 0; 0; 0; 0; 0; 0; 0;
   0; 0; 0; 0; 0; 0; 0; 0; 0; 0; 0; 0; 0; 0; 0; 0;
   0; 0; 0; 0; 0; 0; 0; 0; 0; 0; 0; 0; 0; 0; 0; 0;
   0; 0; 0; 0; 0; 0; 0; 0; 0; 0; 0; 0; 0; 0; 0; 0;
   0; 0; 0; 0; 0; 0; 0; 0; 0; 0; 0; 0; 0; 0; 0; 0
  ]%nat.

Definition mask_val : list Z := [0; 128; 192; 224; 240; 248; 252; 254; 255].

Definition get_common_prefix_length (a b : Z) : nat * Z :=
  let pl := nth (Z.to_nat (Z.lxor a b)) bytePrefix 0%nat in
  (pl, nth pl mask_val 0).

(** ** Constructors *)

Definition Range1d_default : Range1d := mkRange 0 0.

(** The constructor asserts the order of the two ends unless the value is in
    network byte order; [None] is the failed assertion. *)
Definition Range1d_ctor (low_ high_ : Z) (_be : bool) : option Range1d :=
  if _be || (low_ <=? high_) then Some (mkRange low_ high_) else None.

Definition from_mask (sz : nat) (low_ mask : Z) : option Range1d :=
  Range1d_ctor low_ (to_T sz (Z.lor low_ (Z.lnot mask))) false.

(** ** Comparisons *)

Definition range_lt (a other : Range1d) : bool := low a <? low other.

Definition range_lt_val (a : Range1d) (other : Z) : bool := low a <? other.

Definition range_gt (a other : Range1d) : bool := low a >? low other.

Definition range_eq (a other : Range1d) : bool :=
  (low a =? low other) && (high a =? high other).

Definition range_ne (a other : Range1d) : bool :=
  negb (low a =? low other) || negb (high a =? high other).

Definition overlaps (a other : Range1d) : bool :=
  ((low a <=? low other) && (high a >=? low other))
  || ((low other <=? low a) && (high other >=? high a)).

Definition is_wildcard (sz : nat) (a : Range1d) : bool :=
  (low a =? 0) && (high a =? T_max sz).

Definition in_range (a : Range1d) (val : Z) : bool :=
  (val >=? low a) && (val <=? high a).

Definition set_wildcard (sz : nat) : Range1d := mkRange 0 (T_max sz).

(** ** Masks *)

(** The loop of [_get_mask_le], from byte [b - 1] down to byte 0. *)
Fixpoint get_mask_le_loop (l h : Z) (b : nat) (mask : Z) (prefix_len : nat) : Z * nat :=
  match b with
  | O => (mask, prefix_len)
  | S b' =>
      let '(pl, pm) := get_common_prefix_length (byte_of l b') (byte_of h b') in
      let mask := set_byte mask b' pm in
      let prefix_len := (prefix_len + pl)%nat in
      if (pl =? 8)%nat then get_mask_le_loop l h b' mask prefix_len
      else (mask, prefix_len)
  end.

Definition _get_mask_le (sz : nat) (a : Range1d) : Z * nat :=
  get_mask_le_loop (low a) (high a) sz 0 0.

(** The loop of [_get_mask_be], [n] bytes from byte [b] up. *)
Fixpoint get_mask_be_loop (l h : Z) (b n : nat) (mask : Z) (prefix_len : nat) : Z * nat :=
  match n with
  | O => (mask, prefix_len)
  | S n' =>
      let '(pl, pm) := get_common_prefix_length (byte_of l b) (byte_of h b) in
      let mask := set_byte mask b pm in
      let prefix_len := (prefix_len + pl)%nat in
      if (pl =? 8)%nat then get_mask_be_loop l h (S b) n' mask prefix_len
      else (mask, prefix_len)
  end.

Definition _get_mask_be (sz : nat) (a : Range1d) : Z * nat :=
  get_mask_be_loop (low a) (high a) 0 sz 0 0.

Definition get_mask_le (sz : nat) (a : Range1d) : Z := (_get_mask_le sz a).1.

Definition get_mask_be (sz : nat) (a : Range1d) : Z := (_get_mask_be sz a).1.

Definition to_be (sz : nat) (a : Range1d) : Range1d :=
  mkRange (bswap sz (low a)) (bswap sz (high a)).

Definition prefix_len_le (sz : nat) (a : Range1d) : nat := (_get_mask_le sz a).2.

Definition prefix_len_be (sz : nat) (a : Range1d) : nat := prefix_len_le sz (to_be sz a).

Definition max_prefix_len (sz : nat) : nat := (sz * 8)%nat.

(** ** The order of ranges and the overlap test *)

(** A range the checked constructor builds. *)
Definition range_ok (r : Range1d) : Prop := low r ≤ high r.

Lemma in_range_spec (r : Range1d) (v : Z) : in_range r v = true ↔ low r ≤ v ≤ high r.
Proof. unfold in_range. rewrite andb_true_iff, Z.geb_le, Z.leb_le. lia. Qed.

Lemma range_eq_spec (a b : Range1d) : range_eq a b = true ↔ a = b.
Proof.
  destruct a, b. unfold range_eq. cbn. rewrite andb_true_iff, !Z.eqb_eq. naive_solver.
Qed.

Lemma range_ne_spec (a b : Range1d) : range_ne a b = negb (range_eq a b).
Proof. unfold range_ne, range_eq. by rewrite negb_andb. Qed.

(** What the overlap test decides, exactly: the two ranges share a value,
    except when [other] starts below [a] and ends inside of it, a case the
    two disjuncts of the source do not cover. *)
Lemma overlaps_iff (a other : Range1d) :
  range_ok a → range_ok other →
  overlaps a other = true ↔
    (∃ v, in_range a v = true ∧ in_range other v = true)
    ∧ ¬ (low other < low a ∧ high other < high a).
Proof.
  unfold overlaps, range_ok. intros Ha Hb.
  rewrite orb_true_iff, !andb_true_iff, !Z.leb_le, !Z.geb_le.
  setoid_rewrite in_range_spec. split.
  - intros H. split; [exists (Z.max (low a) (low other))|]; lia.
  - intros [[v Hv] Hn]. lia.
Qed.

Lemma overlaps_sound (a other : Range1d) :
  range_ok a → range_ok other → overlaps a other = true →
  ∃ v, in_range a v = true ∧ in_range other v = true.
Proof. intros Ha Hb H. by apply overlaps_iff in H as [? _]. Qed.

(** ** Bytes and bits *)

Lemma byte_of_testbit (v : Z) (b : nat) (i : Z) :
  0 ≤ i → Z.testbit (byte_of v b) i = (i <? 8) && Z.testbit v (8 * Z.of_nat b + i).
Proof.
  intros Hi. unfold byte_of. change 255 with (Z.ones 8).
  rewrite Z.land_spec, Z.testbit_ones_nonneg, Z.shiftr_spec by lia.
  rewrite andb_comm. f_equal. f_equal. lia.
Qed.

Lemma byte_of_div v i : byte_of v i = v / 2 ^ (8 * Z.of_nat i) mod 256.
Proof.
  unfold byte_of. change 255 with (2 ^ 8 - 1).
  by rewrite land_ones_mod, Z.shiftr_div_pow2 by lia.
Qed.

Lemma byte_of_range (v : Z) (b : nat) : 0 ≤ byte_of v b < 256.
Proof.
  unfold byte_of. change 255 with (Z.ones 8). rewrite Z.land_ones by lia.
  apply Z.mod_pos_bound. lia.
Qed.

(** A bit test over a window of a shifted value. *)
Lemma byte_of_lxor_testbit (l h : Z) (b : nat) (i : Z) :
  8 * Z.of_nat b ≤ i < 8 * Z.of_nat b + 8 →
  Z.testbit (Z.lxor (byte_of l b) (byte_of h b)) (i - 8 * Z.of_nat b) =
  xorb (Z.testbit l i) (Z.testbit h i).
Proof.
  intros Hi. rewrite Z.lxor_spec, !byte_of_testbit by lia.
  replace (i - 8 * Z.of_nat b <? 8) with true by lia. cbn.
  by replace (8 * Z.of_nat b + (i - 8 * Z.of_nat b)) with i by lia.
Qed.

Lemma lxor_byte_range (l h : Z) (b : nat) :
  0 ≤ Z.lxor (byte_of l b) (byte_of h b) < 256.
Proof.
  pose proof (byte_of_range l b). pose proof (byte_of_range h b).
  assert (0 ≤ Z.lxor (byte_of l b) (byte_of h b)) by (apply Z.lxor_nonneg; lia).
  split; [done|].
  destruct (Z.eq_dec (Z.lxor (byte_of l b) (byte_of h b)) 0) as [->|]; [lia|].
  apply Z.log2_lt_pow2 with (b := 8); [lia|].
  eapply Z.le_lt_trans; [apply Z.log2_lxor; lia|].
  assert (Hlog : ∀ x, 0 ≤ x < 256 → Z.log2 x < 8); [|by apply Z.max_lub_lt; apply Hlog].
  intros x Hx. destruct (Z.eq_dec x 0) as [->|]; [done|].
  apply Z.log2_lt_pow2; lia.
Qed.

(** The 256-entry table and the nine masks, entry by entry. *)
Definition prefix_entry_ok (x : nat) : bool :=
  let pl := nth x bytePrefix 0%nat in
  (pl <=? 8)%nat
  && (nth pl mask_val 0 =? 256 - 2 ^ (8 - Z.of_nat pl))
  && (Z.of_nat x <? 2 ^ (8 - Z.of_nat pl))
  && ((pl =? 8)%nat || Z.testbit (Z.of_nat x) (7 - Z.of_nat pl)).

Lemma prefix_table_ok : forallb prefix_entry_ok (seq 0 256) = true.
Proof. by vm_compute. Qed.

Lemma common_prefix_spec (x : Z) :
  0 ≤ x < 256 →
  let pl := nth (Z.to_nat x) bytePrefix 0%nat in
  (pl ≤ 8)%nat ∧ nth pl mask_val 0 = 256 - 2 ^ (8 - Z.of_nat pl)
  ∧ x < 2 ^ (8 - Z.of_nat pl)
  ∧ (pl ≠ 8%nat → Z.testbit x (7 - Z.of_nat pl) = true).
Proof.
  intros Hx pl.
  assert (Hin : In (Z.to_nat x) (seq 0 256)) by (apply in_seq; lia).
  pose proof (proj1 (forallb_forall _ _) prefix_table_ok _ Hin) as H.
  unfold prefix_entry_ok in H. fold pl in H. rewrite Z2Nat.id in H by lia.
  rewrite !andb_true_iff, orb_true_iff, Nat.leb_le, Z.eqb_eq, Z.ltb_lt, Nat.eqb_eq in H.
  naive_solver.
Qed.

(** ** The common-prefix mask *)

Lemma lor_add_disjoint (q x k w : Z) :
  0 ≤ k → 0 ≤ w → 0 ≤ x < 2 ^ w →
  Z.lor (q * 2 ^ (k + w)) (Z.shiftl x k) = q * 2 ^ (k + w) + x * 2 ^ k.
Proof.
  intros Hk Hw Hx. rewrite <- (Z.shiftl_mul_pow2 q), <- (Z.shiftl_mul_pow2 x) by lia.
  assert (Hd : Z.land (Z.shiftl q (k + w)) (Z.shiftl x k) = 0).
  { apply Z.bits_inj'. intros i Hi. rewrite Z.land_spec, !Z.shiftl_spec, Z.bits_0 by lia.
    destruct (Z.lt_ge_cases i (k + w)) as [Hlt|Hge].
    - by rewrite Z.testbit_neg_r by lia.
    - rewrite <- (Z.mod_small x (2 ^ w)) by lia.
      by rewrite Z.mod_pow2_bits_high, andb_false_r by lia. }
  rewrite (Z.add_nocarry_lxor (Z.shiftl q _)) by done. symmetry. by apply Z.lxor_lor.
Qed.

Lemma set_byte_above (q x : Z) (b : nat) :
  0 ≤ x < 256 →
  set_byte (q * 2 ^ (8 * Z.of_nat b + 8)) b x =
  q * 2 ^ (8 * Z.of_nat b + 8) + x * 2 ^ (8 * Z.of_nat b).
Proof.
  intros Hx. unfold set_byte.
  replace (Z.ldiff (q * 2 ^ (8 * Z.of_nat b + 8)) (Z.shiftl 255 (8 * Z.of_nat b)))
    with (q * 2 ^ (8 * Z.of_nat b + 8)).
  { apply lor_add_disjoint; lia. }
  rewrite <- Z.shiftl_mul_pow2 by lia. apply Z.bits_inj'. intros i Hi.
  change 255 with (Z.ones 8).
  rewrite Z.ldiff_spec, !Z.shiftl_spec by lia.
  destruct (Z.lt_ge_cases i (8 * Z.of_nat b + 8)) as [Hlt|Hge].
  - by rewrite Z.testbit_neg_r by lia.
  - by rewrite Z.ones_spec_high, andb_true_r by lia.
Qed.

(** The longest common prefix of two [w]-bit values: [p] leading bits agree
    and, when [p < w], the next bit differs. *)
Definition common_prefix (w p : Z) (l h : Z) : Prop :=
  0 ≤ p ≤ w ∧ Z.shiftr l (w - p) = Z.shiftr h (w - p)
  ∧ (p < w → Z.testbit l (w - p - 1) ≠ Z.testbit h (w - p - 1)).

Lemma shiftr_eq_extend (l h : Z) (b : nat) (k : Z) :
  0 ≤ k ≤ 8 →
  Z.shiftr l (8 * Z.of_nat b + 8) = Z.shiftr h (8 * Z.of_nat b + 8) →
  Z.lxor (byte_of l b) (byte_of h b) < 2 ^ k →
  Z.shiftr l (8 * Z.of_nat b + k) = Z.shiftr h (8 * Z.of_nat b + k).
Proof.
  intros Hk Hhi Hx. pose proof (lxor_byte_range l h b) as Hr.
  apply Z.bits_inj'. intros i Hi. rewrite !Z.shiftr_spec by lia.
  destruct (Z.lt_ge_cases (i + k) 8) as [Hlt|Hge].
  - apply xorb_eq. rewrite <- (byte_of_lxor_testbit l h b) by lia.
    rewrite <- (Z.mod_small (Z.lxor _ _) (2 ^ k)) by lia.
    apply Z.mod_pow2_bits_high. lia.
  - apply (f_equal (λ v, Z.testbit v (i + k - 8))) in Hhi.
    rewrite !Z.shiftr_spec in Hhi by lia.
    by replace (i + (8 * Z.of_nat b + k)) with (i + k - 8 + (8 * Z.of_nat b + 8)) by lia.
Qed.

Lemma get_mask_le_loop_spec (sz b : nat) (l h : Z) :
  (b ≤ sz)%nat →
  Z.shiftr l (8 * Z.of_nat b) = Z.shiftr h (8 * Z.of_nat b) →
  let W := 8 * Z.of_nat sz in
  let r := get_mask_le_loop l h b (2 ^ W - 2 ^ (8 * Z.of_nat b)) (8 * (sz - b)) in
  common_prefix W (Z.of_nat r.2) l h ∧ r.1 = 2 ^ W - 2 ^ (W - Z.of_nat r.2).
Proof.
  intros Hb Heq W. revert Hb Heq. induction b as [|b IH]; intros Hb Heq.
  { cbn. replace (Z.of_nat _) with W by lia. rewrite Z.sub_diag.
    split; [|done]. unfold common_prefix. rewrite Z.sub_diag. split; [lia|].
    split; [done|]. lia. }
  cbn [get_mask_le_loop]. unfold get_common_prefix_length. cbv zeta beta iota.
  pose proof (lxor_byte_range l h b) as Hr.
  destruct (common_prefix_spec _ Hr) as (Hpl & Hm & Hlt & Hbit).
  set (pl := nth (Z.to_nat (Z.lxor (byte_of l b) (byte_of h b))) bytePrefix 0%nat) in *.
  replace (8 * Z.of_nat (S b)) with (8 * Z.of_nat b + 8) in * by lia.
  assert (HW : 2 ^ W = 2 ^ (W - (8 * Z.of_nat b + 8)) * 2 ^ (8 * Z.of_nat b + 8)).
  { rewrite <- Z.pow_add_r by lia. f_equal. lia. }
  assert (Hset : set_byte (2 ^ W - 2 ^ (8 * Z.of_nat b + 8)) b (nth pl mask_val 0) =
                 2 ^ W - 2 ^ (8 * Z.of_nat b + 8 - Z.of_nat pl)).
  { rewrite HW at 1.
    replace (_ - 2 ^ (8 * Z.of_nat b + 8)) with
      ((2 ^ (W - (8 * Z.of_nat b + 8)) - 1) * 2 ^ (8 * Z.of_nat b + 8)) by lia.
    rewrite set_byte_above by (rewrite Hm; pose proof (Z.pow_le_mono_r 2 (8 - Z.of_nat pl) 8);
      pose proof (Z.pow_pos_nonneg 2 (8 - Z.of_nat pl)); lia).
    rewrite Hm.
    replace (8 * Z.of_nat b + 8 - Z.of_nat pl) with (8 * Z.of_nat b + (8 - Z.of_nat pl)) by lia.
    rewrite !(Z.pow_add_r 2 (8 * Z.of_nat b)) by lia. rewrite HW.
    rewrite !(Z.pow_add_r 2 (8 * Z.of_nat b)) by lia. lia. }
  rewrite Hset.
  replace (8 * (sz - S b) + pl)%nat with (8 * sz - 8 * b - 8 + pl)%nat by lia.
  pose proof (shiftr_eq_extend l h b (8 - Z.of_nat pl) ltac:(lia) Heq Hlt) as Hext.
  destruct (Nat.eqb_spec pl 8) as [Hpl8|Hpl8].
  - rewrite Hpl8 in Hext |- *.
    replace (8 * sz - 8 * b - 8 + 8)%nat with (8 * (sz - b))%nat by lia.
    replace (8 * Z.of_nat b + 8 - Z.of_nat 8) with (8 * Z.of_nat b) by lia.
    replace (8 * Z.of_nat b + (8 - Z.of_nat 8)) with (8 * Z.of_nat b) in Hext by lia.
    apply IH; [lia|done].
  - cbn [fst snd].
    assert (Hidx : W - Z.of_nat (8 * sz - 8 * b - 8 + pl) = 8 * Z.of_nat b + (8 - Z.of_nat pl))
      by lia.
    unfold common_prefix. rewrite Hidx. split; [split; [lia|split; [done|]]|f_equal; f_equal; lia].
    intros _ Hbits. specialize (Hbit Hpl8).
    replace (7 - Z.of_nat pl) with
      ((8 * Z.of_nat b + (8 - Z.of_nat pl) - 1) - 8 * Z.of_nat b) in Hbit by lia.
    rewrite byte_of_lxor_testbit, Hbits, xorb_nilpotent in Hbit by lia. done.
Qed.

(** C30. [_get_mask_le] returns the longest common prefix of the two ends of
    the range and the mask that selects exactly those leading bits, for a
    value of any width. *)
Theorem get_mask_le_spec (sz : nat) (r : Range1d) :
  0 ≤ low r < 2 ^ (8 * Z.of_nat sz) → 0 ≤ high r < 2 ^ (8 * Z.of_nat sz) →
  let W := 8 * Z.of_nat sz in
  let p := Z.of_nat (prefix_len_le sz r) in
  common_prefix W p (low r) (high r) ∧ get_mask_le sz r = 2 ^ W - 2 ^ (W - p).
Proof.
  intros Hl Hh W p. unfold p, get_mask_le, prefix_len_le, _get_mask_le.
  pose proof (get_mask_le_loop_spec sz sz (low r) (high r)) as H. cbv zeta in H.
  rewrite Z.sub_diag, Nat.sub_diag in H. apply H; [lia|].
  rewrite !Z.shiftr_div_pow2, !Z.div_small by lia. done.
Qed.

Lemma common_prefix_unique (w p p' : Z) (l h : Z) :
  common_prefix w p l h → common_prefix w p' l h → p = p'.
Proof.
  assert (Hlt : ∀ p p', common_prefix w p l h → common_prefix w p' l h → ¬ p < p').
  { intros q q' (Hq & _ & Hd) (Hq' & He & _) Hlt. apply (Hd ltac:(lia)).
    apply (f_equal (λ v, Z.testbit v (q' - q - 1))) in He.
    rewrite !Z.shiftr_spec in He by lia.
    by replace (w - q - 1) with (q' - q - 1 + (w - q')) by lia. }
  intros H1 H2. pose proof (Hlt _ _ H1 H2). pose proof (Hlt _ _ H2 H1). lia.
Qed.

(** The mask of a prefix of [p] of [w] bits, and the range it makes of an
    aligned value. *)
Definition prefix_mask (w p : Z) : Z := 2 ^ w - 2 ^ (w - p).

Lemma prefix_mask_shiftl (w p : Z) :
  0 ≤ p ≤ w → prefix_mask w p = Z.shiftl (Z.ones p) (w - p).
Proof.
  intros Hp. unfold prefix_mask. rewrite Z.shiftl_mul_pow2, Z.ones_equiv by lia.
  rewrite <- (Z.sub_1_r (2 ^ p)), Z.mul_sub_distr_r, <- Z.pow_add_r by lia.
  replace (p + (w - p)) with w by lia. lia.
Qed.

Lemma to_T_lor_lnot (w p q : Z) :
  0 ≤ p ≤ w → 0 ≤ q < 2 ^ p →
  Z.lor (q * 2 ^ (w - p)) (Z.lnot (prefix_mask w p)) mod 2 ^ w =
  q * 2 ^ (w - p) + 2 ^ (w - p) - 1.
Proof.
  intros Hp Hq.
  transitivity (Z.lor (q * 2 ^ (0 + (w - p))) (Z.shiftl (Z.ones (w - p)) 0)).
  - rewrite prefix_mask_shiftl by lia. rewrite <- Z.land_ones by lia.
    rewrite Z.shiftl_0_r, Z.add_0_l, <- Z.shiftl_mul_pow2 by lia.
    apply Z.bits_inj'. intros i Hi.
    rewrite Z.land_spec, !Z.lor_spec, Z.lnot_spec, !Z.shiftl_spec by lia.
    rewrite !Z.testbit_ones by lia.
    destruct (Z.lt_ge_cases i (w - p)) as [Hlt|Hge].
    + replace (0 <=? i - (w - p)) with false by lia.
      rewrite (Z.testbit_neg_r q) by lia. cbn.
      replace (i <? w) with true by lia. replace (i <? w - p) with true by lia.
      by replace (0 <=? i) with true by lia.
    + replace (0 <=? i - (w - p)) with true by lia.
      replace (0 <=? i) with true by lia. replace (i <? w - p) with false by lia.
      replace (i - (w - p) <? p) with (i <? w) by lia.
      rewrite orb_false_r. destruct (Z.ltb_spec i w) as [Hi'|Hi']; cbn.
      * by rewrite andb_true_r, orb_false_r.
      * rewrite andb_false_r. rewrite <- (Z.mod_small q (2 ^ p)) by lia.
        symmetry. apply Z.mod_pow2_bits_high. lia.
  - rewrite lor_add_disjoint by (rewrite ?Z.ones_equiv;
      pose proof (Z.pow_pos_nonneg 2 (w - p)); lia).
    rewrite Z.ones_equiv, Z.add_0_l. lia.
Qed.

(** C31. Round trip: the range made of an aligned value and a prefix mask has
    that value as its lower end, covers exactly the [2^(w-p)] values of the
    prefix, and gives the mask back. *)
Theorem from_mask_roundtrip (sz : nat) (p q : Z) :
  let w := 8 * Z.of_nat sz in
  0 ≤ p ≤ w → 0 ≤ q < 2 ^ p →
  ∃ r, from_mask sz (q * 2 ^ (w - p)) (prefix_mask w p) = Some r
       ∧ low r = q * 2 ^ (w - p) ∧ high r = q * 2 ^ (w - p) + 2 ^ (w - p) - 1
       ∧ get_mask_le sz r = prefix_mask w p ∧ prefix_len_le sz r = Z.to_nat p.
Proof.
  intros w Hp Hq. pose proof (Z.pow_pos_nonneg 2 (w - p) ltac:(lia) ltac:(lia)) as Hpos.
  assert (Hw : 2 ^ w = 2 ^ p * 2 ^ (w - p)) by (rewrite <- Z.pow_add_r by lia; f_equal; lia).
  unfold from_mask, to_T. fold w. rewrite to_T_lor_lnot by done.
  unfold Range1d_ctor. replace (_ <=? _) with true by lia. cbn [orb].
  eexists. split; [done|]. cbn [low high]. split; [done|]. split; [done|].
  set (r := mkRange _ _).
  destruct (get_mask_le_spec sz r) as [Hc Hm]; [cbn; fold w; nia..|]. fold w in Hc, Hm.
  assert (Hcp : common_prefix w p (low r) (high r)).
  { unfold common_prefix. cbn [low high r]. split; [done|].
    rewrite !Z.shiftr_div_pow2 by lia. split.
    - rewrite Z.div_mul by lia. rewrite <- Z.add_sub_assoc, Z.div_add_l by lia.
      rewrite Z.div_small by lia. lia.
    - intros Hlt. replace (q * 2 ^ (w - p) + 2 ^ (w - p) - 1) with
        (Z.lor (q * 2 ^ (0 + (w - p))) (Z.shiftl (Z.ones (w - p)) 0)).
      + rewrite Z.shiftl_0_r, Z.add_0_l, Z.lor_spec, Z.ones_spec_low by lia.
        rewrite Z.mul_pow2_bits_low by lia. done.
      + rewrite lor_add_disjoint by (rewrite ?Z.ones_equiv; lia).
        rewrite Z.ones_equiv, Z.add_0_l. lia. }
  pose proof (common_prefix_unique _ _ _ _ _ Hc Hcp) as Hpe.
  rewrite Hm. unfold prefix_mask. rewrite Hpe. split; [done|]. lia.
Qed.

Lemma from_mask_roundtrip_witness :
  ∃ r, from_mask 4 (0xF256C * 2 ^ (32 - 20)) (prefix_mask 32 20) = Some r
       ∧ low r = 0xF256C * 2 ^ (32 - 20)
       ∧ high r = 0xF256C * 2 ^ (32 - 20) + 2 ^ (32 - 20) - 1
       ∧ get_mask_le 4 r = prefix_mask 32 20 ∧ prefix_len_le 4 r = Z.to_nat 20.
Proof. apply (from_mask_roundtrip 4 20 0xF256C); cbn; lia. Defined.

Lemma get_mask_le_spec_witness :
  let r := mkRange 0xfff0 0xffff in
  common_prefix 16 (Z.of_nat (prefix_len_le 2 r)) (low r) (high r)
  ∧ get_mask_le 2 r = 2 ^ 16 - 2 ^ (16 - Z.of_nat (prefix_len_le 2 r)).
Proof. apply (get_mask_le_spec 2 (mkRange 0xfff0 0xffff)); cbn; lia. Defined.

(** C37. The overlap test decides that two ranges share a value, except when
    [other] starts below [a] and ends inside of it: there the test answers
    [false] although the ranges intersect. *)
Theorem overlaps_spec (a other : Range1d) :
  range_ok a → range_ok other →
  overlaps a other = true ↔
    (∃ v, in_range a v = true ∧ in_range other v = true)
    ∧ ¬ (low other < low a ∧ high other < high a).
Proof. apply overlaps_iff. Qed.

Lemma overlaps_spec_witness :
  range_ok (mkRange 3 10) ∧ range_ok (mkRange 0 5)
  ∧ (overlaps (mkRange 3 10) (mkRange 0 5) = true ↔
     (∃ v, in_range (mkRange 3 10) v = true ∧ in_range (mkRange 0 5) v = true)
     ∧ ¬ (0 < 3 ∧ 5 < 10)).
Proof.
  assert (H1 : range_ok (mkRange 3 10)) by (unfold range_ok; cbn; lia).
  assert (H2 : range_ok (mkRange 0 5)) by (unfold range_ok; cbn; lia).
  split; [done|]. split; [done|]. exact (overlaps_spec _ _ H1 H2).
Defined.
