(* ===== verification/RuleValue.v ===== *)
(** * The values stored with a rule
      ([include/pcv/partition_sort/rule_value_int.h], [key_info.h])

    [RuleValue] is what the tree and the classifier require of the template
    argument [Value_t]; [RuleValueInt] is the implementation with an 8-bit
    priority and a 24-bit identifier packed in one word. *)
From S2P Require Import Prelude Range.
Local Open Scope Z_scope.

(** ** The interface *)

(** A value type: the default-constructed value, validity, priority and
    [operator==]. *)
Class RuleValue (V : Type) : Type := {
  rv_default : V;
  is_valid : V → bool;
  priority : V → Z;
  rv_eqb : V → V → bool;
}.

(** What the algorithms rely on: the default value stands for no rule and the
    comparison decides equality. *)
Class RuleValueLaws (V : Type) `{!RuleValue V} : Prop := {
  default_invalid : is_valid rv_default = false;
  rv_eqb_spec : ∀ a b : V, rv_eqb a b = true ↔ a = b;
}.

(** A rule: one range per field, and the value. *)
Record rule_spec_t (V : Type) : Type := mkRule { fields : list Range1d; rvalue : V }.
Arguments mkRule {V} _ _.
Arguments fields {V} _.
Arguments rvalue {V} _.

#[export] Instance rule_spec_eq_dec {V} `{EqDecision V} : EqDecision (rule_spec_t V).
Proof. solve_decision. Defined.

(** ** [RuleValueInt] *)

Definition INVALID_RULE : Z := Z.shiftl 1 24 - 1.

Record RuleValueInt : Type := mkRuleValueInt { rvi_priority : Z; rvi_rule_id : Z }.

#[export] Instance RuleValueInt_eq_dec : EqDecision RuleValueInt.
Proof. solve_decision. Defined.

Definition RuleValueInt_default : RuleValueInt := mkRuleValueInt 0 INVALID_RULE.

(** The constructor: the arguments are stored in an 8-bit and a 24-bit field. *)
Definition RuleValueInt_ctor (priority_ rule_id_ : Z) : RuleValueInt :=
  mkRuleValueInt (priority_ mod 2 ^ 8) (rule_id_ mod 2 ^ 24).

Definition RuleValueInt_is_valid (v : RuleValueInt) : bool :=
  negb (rvi_rule_id v =? INVALID_RULE).

Definition RuleValueInt_eq (a other : RuleValueInt) : bool :=
  (rvi_priority a =? rvi_priority other) && (rvi_rule_id a =? rvi_rule_id other).

Definition RuleValueInt_ne (a other : RuleValueInt) : bool :=
  negb (rvi_priority a =? rvi_priority other) || negb (rvi_rule_id a =? rvi_rule_id other).

#[export] Instance RuleValueInt_ops : RuleValue RuleValueInt := {|
  rv_default := RuleValueInt_default;
  is_valid := RuleValueInt_is_valid;
  priority := rvi_priority;
  rv_eqb := RuleValueInt_eq;
|}.

(** [get_rule_mask]: the prefix mask of every field. *)
Definition get_rule_mask {V} (sz : nat) (rule : rule_spec_t V) : list Z :=
  get_mask_le sz <$> fields rule.

(** ** [_KeyInfo] *)

Record KeyInfo (V : Type) : Type := mkKeyInfo {
  key : Range1d;
  kvalue : V;
  knext_level : Z;
}.
Arguments mkKeyInfo {V} _ _ _.
Arguments key {V} _.
Arguments kvalue {V} _.
Arguments knext_level {V} _.

Definition key_lt_range {V} (k : KeyInfo V) (other : Range1d) : bool := range_lt (key k) other.

Definition key_lt_val {V} (k : KeyInfo V) (other : Z) : bool := range_lt_val (key k) other.

Definition key_gt_range {V} (k : KeyInfo V) (other : Range1d) : bool := range_gt (key k) other.

(** ** Laws *)

#[export] Instance RuleValueInt_laws : RuleValueLaws RuleValueInt.
Proof.
  split; [done|]. intros [p i] [p' i']. cbn. unfold RuleValueInt_eq. cbn.
  rewrite andb_true_iff, !Z.eqb_eq. naive_solver.
Qed.

Lemma RuleValueInt_ne_spec (a b : RuleValueInt) :
  RuleValueInt_ne a b = negb (RuleValueInt_eq a b).
Proof. unfold RuleValueInt_ne, RuleValueInt_eq. by rewrite negb_andb. Qed.

(** The packed value keeps the priority and the identifier it was built
    from exactly when they fit in 8 and 24 bits; the identifier [2^24 - 1],
    and every identifier congruent to it, makes an invalid value. *)
Theorem RuleValueInt_ctor_spec (p i : Z) :
  0 ≤ p → 0 ≤ i →
  (rvi_priority (RuleValueInt_ctor p i) = p ∧ rvi_rule_id (RuleValueInt_ctor p i) = i
     ↔ p < 2 ^ 8 ∧ i < 2 ^ 24)
  ∧ (is_valid (RuleValueInt_ctor p i) = false ↔ (i + 1) mod 2 ^ 24 = 0).
Proof.
  intros Hp Hi. cbn [rvi_priority rvi_rule_id RuleValueInt_ctor]. split.
  - split; [intros [<- <-]; split; apply Z.mod_pos_bound; lia|].
    intros [? ?]. rewrite !Z.mod_small by lia. done.
  - cbn [is_valid RuleValueInt_ops]. unfold RuleValueInt_is_valid, RuleValueInt_ctor.
    cbn [rvi_rule_id]. rewrite negb_false_iff, Z.eqb_eq.
    change INVALID_RULE with (2 ^ 24 - 1). rewrite <- Zplus_mod_idemp_l.
    pose proof (Z.mod_pos_bound i (2 ^ 24) ltac:(lia)) as Hm. split.
    + intros ->. done.
    + intros H. destruct (Z.eq_dec (i mod 2 ^ 24) (2 ^ 24 - 1)) as [|Hne]; [done|].
      rewrite Z.mod_small in H by lia. lia.
Qed.

Lemma RuleValueInt_ctor_spec_witness :
  (rvi_priority (RuleValueInt_ctor 300 5) = 300 ∧ rvi_rule_id (RuleValueInt_ctor 300 5) = 5
     ↔ 300 < 2 ^ 8 ∧ 5 < 2 ^ 24)
  ∧ (is_valid (RuleValueInt_ctor 300 5) = false ↔ (5 + 1) mod 2 ^ 24 = 0).
Proof. apply (RuleValueInt_ctor_spec 300 5); lia. Defined.
