(* ===== verification/Mempool.v ===== *)
(** * The memory pool of the tree nodes
      ([include/pcv/partition_sort/mempool_dynamic.h])

    [DynamicMempool<T, THREAD_SAFE>]: storage for [ITEM_CNT] objects and a
    singly linked list of the free ones threaded through [mempool_info].  A
    pointer into the pool is the index of the object it points to; the map
    [mempool] holds the objects whose lifetime has begun and not ended.  A
    [next_free] of [nullptr] marks an allocated object and also ends the free
    list. *)
From stdpp Require Import pretty.
From S2P Require Import Prelude.

Module Pool.

(** ** State *)

Record DynamicMempool (T : Type) : Type := mkPool {
  mempool : gmap nat T;
  mempool_info : list (option nat);
  m_first_free : option nat;
  lock : bool;
  ITEM_CNT : nat;
}.
Arguments mkPool {T} _ _ _ _ _.
Arguments mempool {T} _.
Arguments mempool_info {T} _.
Arguments m_first_free {T} _.
Arguments lock {T} _.
Arguments ITEM_CNT {T} _.

Section operations.
Context {T : Type}.
Implicit Types (p : DynamicMempool T).

(** ** Accesses to the fields *)

Definition set_mempool (m : gmap nat T) p : DynamicMempool T :=
  mkPool m (mempool_info p) (m_first_free p) (lock p) (ITEM_CNT p).

Definition set_first_free (f : option nat) p : DynamicMempool T :=
  mkPool (mempool p) (mempool_info p) f (lock p) (ITEM_CNT p).

Definition set_lock (b : bool) p : DynamicMempool T :=
  mkPool (mempool p) (mempool_info p) (m_first_free p) b (ITEM_CNT p).

Definition set_info (i : nat) (nf : option nat) p : DynamicMempool T :=
  mkPool (mempool p) (<[i := nf]> (mempool_info p)) (m_first_free p) (lock p) (ITEM_CNT p).

(** [item->next_free]: reading through a null or foreign pointer is
    undefined. *)
Definition next_free (item : option nat) : M (DynamicMempool T) (option nat) :=
  i ← or_ub item;
  l ← gets mempool_info;
  or_ub (l !! i).

(** ** Operations *)

Definition acquire_lock (THREAD_SAFE : bool) : M (DynamicMempool T) unit :=
  if THREAD_SAFE then
    l ← gets lock;
    if l : bool then throw deadlock else modify (set_lock true)
  else mret tt.

Definition release_lock (THREAD_SAFE : bool) : M (DynamicMempool T) unit :=
  if THREAD_SAFE then modify (set_lock false) else mret tt.

Definition DynamicMempool_ctor (ITEM_CNT : nat) : result (DynamicMempool T) :=
  if 1 <? ITEM_CNT then
    let linked := (λ i, Some (S i)) <$> seq 0 ITEM_CNT in
    Ok (mkPool ∅ (<[ITEM_CNT - 1 := None]> linked) (Some 0) false ITEM_CNT)
  else Err assert_failed.

(** The loop of [size]: the assertion bounds it by [ITEM_CNT] steps. *)
Fixpoint count_free (fuel : nat) (unused : nat) (i : option nat) :
    M (DynamicMempool T) nat :=
  match i with
  | None => mret unused
  | Some _ =>
      match fuel with
      | O => throw no_fuel
      | S fuel =>
          let unused := S unused in
          i' ← next_free i;
          n ← gets ITEM_CNT;
          assert_ (unused <=? n);;
          count_free fuel unused i'
      end
  end.

Definition size (THREAD_SAFE : bool) : M (DynamicMempool T) nat :=
  acquire_lock THREAD_SAFE;;
  i ← gets m_first_free;
  match i with
  | None => mret 0
  | Some _ =>
      n ← gets ITEM_CNT;
      unused ← count_free (S n) 0 i;
      release_lock THREAD_SAFE;;
      mret (n - unused)
  end.

Definition get (THREAD_SAFE : bool) (new_T : T) : M (DynamicMempool T) nat :=
  acquire_lock THREAD_SAFE;;
  ff ← gets m_first_free;
  match ff with
  | None => throw bad_alloc
  | Some indx =>
      n ← gets ITEM_CNT;
      assert_ (indx <? n);;
      tmp ← next_free (Some indx);
      assert_ (bool_decide (tmp ≠ None));;
      modify (set_info indx None);;
      modify (set_first_free tmp);;
      nf ← next_free tmp;
      assert_ (bool_decide (nf ≠ None));;
      assert_ (bool_decide (nf ≠ tmp));;
      nnf ← next_free nf;
      assert_ (bool_decide (nnf ≠ tmp));;
      release_lock THREAD_SAFE;;
      modify (λ p, set_mempool (<[indx := new_T]> (mempool p)) p);;
      mret indx
  end.

Definition release (THREAD_SAFE : bool) (addr : nat) : M (DynamicMempool T) unit :=
  acquire_lock THREAD_SAFE;;
  modify (λ p, set_mempool (delete addr (mempool p)) p);;
  n ← gets ITEM_CNT;
  assert_ (addr <? n);;
  nf ← next_free (Some addr);
  match nf with
  | Some _ => throw (runtime_error ("Double free " +:+ pretty (N.of_nat addr)))
  | None =>
      ff ← gets m_first_free;
      assert_ (bool_decide (ff ≠ None));;
      modify (set_info addr ff);;
      modify (set_first_free (Some addr));;
      assert_ (bool_decide (ff ≠ Some addr));;
      nnf ← next_free ff;
      assert_ (bool_decide (nnf ≠ Some addr));;
      release_lock THREAD_SAFE
  end.

Definition deallocated (id : nat) : string :=
  "Item " +:+ pretty (N.of_nat id) +:+ " is deallocated".

Definition getById (id : nat) : M (DynamicMempool T) nat :=
  n ← gets ITEM_CNT;
  assert_ (id <? n);;
  nf ← next_free (Some id);
  match nf with
  | Some _ => throw (runtime_error (deallocated id))
  | None => mret id
  end.

Definition getId (addr : nat) : M (DynamicMempool T) nat :=
  n ← gets ITEM_CNT;
  assert_ (addr <? n);;
  nf ← next_free (Some addr);
  match nf with
  | Some _ => throw (runtime_error (deallocated addr))
  | None => mret addr
  end.

(** The destructor asserts that every object was returned; its count does not
    bound the walk, so a cyclic list does not terminate. *)
Fixpoint count_list (fuel : nat) (cnt : nat) (item : option nat) :
    M (DynamicMempool T) nat :=
  match item with
  | None => mret cnt
  | Some _ =>
      match fuel with
      | O => throw no_fuel
      | S fuel => item' ← next_free item; count_list fuel (S cnt) item'
      end
  end.

Definition DynamicMempool_dtor (fuel : nat) : M (DynamicMempool T) unit :=
  item ← gets m_first_free;
  n ← gets ITEM_CNT;
  cnt ← (match item with None => mret 0 | Some _ => count_list fuel 0 item end);
  assert_ (bool_decide (item ≠ None) && (cnt =? n)).

(** Access to an object through a pointer. *)
Definition load (a : nat) : M (DynamicMempool T) T :=
  m ← gets mempool;
  or_ub (m !! a).

Definition store (a : nat) (x : T) : M (DynamicMempool T) unit :=
  _ ← load a;
  modify (λ p, set_mempool (<[a := x]> (mempool p)) p).

(** ** The invariant *)

(** The list threaded from [o] through [info] is [fl]. *)
Fixpoint chain (info : list (option nat)) (o : option nat) (fl : list nat) : Prop :=
  match fl with
  | [] => o = None
  | i :: fl' => o = Some i ∧ ∃ nf, info !! i = Some nf ∧ chain info nf fl'
  end.

Definition allocated p (i : nat) : Prop := is_Some (mempool p !! i).

(** [fl] is the free list: a duplicate-free chain, its members are not
    allocated, and every other index of the pool holds a live object and a
    null link. *)
Record pool_wf p (fl : list nat) : Prop := {
  wf_len : length (mempool_info p) = ITEM_CNT p;
  wf_chain : chain (mempool_info p) (m_first_free p) fl;
  wf_nodup : NoDup fl;
  wf_bound : ∀ i, i ∈ fl → i < ITEM_CNT p;
  wf_live : ∀ i, allocated p i ↔ i < ITEM_CNT p ∧ i ∉ fl;
  wf_mark : ∀ i, allocated p i → mempool_info p !! i = Some None;
}.
End operations.

(** ** The free list *)

Section chain_lemmas.
Implicit Types (info : list (option nat)) (fl : list nat).

Lemma chain_unique info o fl fl' : chain info o fl → chain info o fl' → fl = fl'.
Proof.
  revert o fl'. induction fl as [|i fl IH]; intros o [|j fl'] H1 H2; cbn in *.
  - done.
  - naive_solver.
  - naive_solver.
  - destruct H1 as (-> & nf & Hn & H1). destruct H2 as ([= <-] & nf' & Hn' & H2).
    simplify_eq. f_equal. by eapply IH.
Qed.

Lemma chain_insert info o fl i nf :
  i ∉ fl → chain info o fl → chain (<[i := nf]> info) o fl.
Proof.
  revert o. induction fl as [|j fl IH]; intros o Hi H; cbn in *; [done|].
  destruct H as (-> & nf' & Hn & H). apply not_elem_of_cons in Hi as [Hij Hi].
  split; [done|]. exists nf'. rewrite list_lookup_insert_ne by done. auto.
Qed.

Lemma chain_head info o fl :
  chain info o fl → o = head fl.
Proof. destruct fl; cbn; naive_solver. Qed.

(** Every free item but the last links to another free item. *)
Lemma chain_next info o fl i :
  chain info o fl → i ∈ fl → last fl ≠ Some i → ∃ j, j ∈ fl ∧ info !! i = Some (Some j).
Proof.
  revert o. induction fl as [|x fl IH]; intros o Hc Hi Hl; [set_solver|].
  destruct Hc as (-> & nf & Hn & Hc). destruct fl as [|y fl]; [set_solver|].
  apply elem_of_cons in Hi as [->|Hi].
  - exists y. rewrite Hn, (chain_head _ _ _ Hc). split; [set_solver|done].
  - destruct (IH nf Hc Hi Hl) as (j & Hj & He). exists j. split; [set_solver|done].
Qed.

Lemma chain_last info o fl i : chain info o (fl ++ [i]) → info !! i = Some None.
Proof.
  revert o. induction fl as [|x fl IH]; intros o; cbn.
  - intros (_ & nf & Hn & ->). done.
  - intros (_ & nf & _ & Hc). by eapply IH.
Qed.

(** A non-empty set of items closed under links threads no finite list. *)
Lemma chain_closed_absurd info (S : list nat) fl x :
  (∀ y, y ∈ S → ∃ z, z ∈ S ∧ info !! y = Some (Some z)) →
  x ∈ S → ¬ chain info (Some x) fl.
Proof.
  intros HS. revert x. induction fl as [|y fl IH]; intros x Hx Hc; cbn in Hc; [done|].
  destruct Hc as ([= ->] & nf & Hn & Hc). destruct (HS y Hx) as (z & Hz & Hn').
  simplify_eq. by apply (IH z Hz).
Qed.

Lemma chain_seq n k :
  k < n →
  chain (<[n - 1 := None]> ((λ i, Some (S i)) <$> seq 0 n)) (Some k) (seq k (n - k)).
Proof.
  intros Hk. remember (n - k) as d eqn:Hd. revert k Hk Hd.
  induction d as [|d IH]; intros k Hk Hd; [lia|].
  cbn. split; [done|]. destruct (decide (k = n - 1)) as [->|Hne].
  - exists None. rewrite list_lookup_insert_eq by (rewrite length_fmap, length_seq; lia).
    split; [done|]. by replace d with 0 by lia.
  - exists (Some (S k)). rewrite list_lookup_insert_ne by done.
    rewrite list_lookup_fmap, lookup_seq_lt by lia. cbn. split; [done|].
    apply IH; lia.
Qed.
End chain_lemmas.

Section pool_lemmas.
Context {T : Type}.
Implicit Types (p : DynamicMempool T) (fl : list nat) (x : T).

Lemma wf_head p fl : pool_wf p fl → m_first_free p = head fl.
Proof. intros H. eapply chain_head, wf_chain, H. Qed.

(** The link of the [k]-th free item is the next one of the list. *)
Lemma wf_link p i fl :
  pool_wf p (i :: fl) → mempool_info p !! i = Some (head fl).
Proof.
  intros H. destruct (wf_chain _ _ H) as (_ & nf & Hn & Hc).
  by rewrite Hn, (chain_head _ _ _ Hc).
Qed.

Lemma wf_alive p fl i : pool_wf p fl → allocated p i → i < ITEM_CNT p.
Proof. intros H Ha. by apply (wf_live _ _ H) in Ha as [? _]. Qed.

Lemma wf_free_dead p fl i : pool_wf p fl → i ∈ fl → mempool p !! i = None.
Proof.
  intros H Hi. apply eq_None_not_Some. intros Ha. by apply (wf_live _ _ H) in Ha as [_ ?].
Qed.

Lemma pool_wf_lock p fl b : pool_wf p fl → pool_wf (set_lock b p) fl.
Proof. intros [H1 H2 H3 H4 H5 H6]. by split. Qed.

(** Taking the head of the free list. *)
Lemma pool_wf_take p i fl x b :
  pool_wf p (i :: fl) →
  pool_wf (mkPool (<[i := x]> (mempool p)) (<[i := None]> (mempool_info p))
             (head fl) b (ITEM_CNT p)) fl.
Proof.
  intros H. pose proof (wf_bound _ _ H i ltac:(left)) as Hi.
  destruct (wf_chain _ _ H) as (_ & nf & Hn & Hc).
  pose proof (wf_nodup _ _ H) as Hnd. apply NoDup_cons in Hnd as [Hni Hnd].
  split; cbn.
  - by rewrite length_insert, (wf_len _ _ H).
  - rewrite <- (chain_head _ _ _ Hc). by apply chain_insert.
  - done.
  - intros j Hj. apply (wf_bound _ _ H). by right.
  - intros j. unfold allocated. cbn. rewrite lookup_insert_is_Some.
    pose proof (wf_live _ _ H j) as Hl. unfold allocated in Hl. rewrite Hl.
    rewrite not_elem_of_cons. destruct (decide (i = j)) as [->|]; naive_solver.
  - intros j Hj. destruct (decide (i = j)) as [->|Hne].
    + apply list_lookup_insert_eq. rewrite (wf_len _ _ H). done.
    + rewrite list_lookup_insert_ne by done. apply (wf_mark _ _ H).
      unfold allocated in *. cbn in Hj. by rewrite lookup_insert_ne in Hj.
Qed.

(** Returning a live object to a non-empty free list. *)
Lemma pool_wf_put p i fl b :
  pool_wf p fl → allocated p i → fl ≠ [] →
  pool_wf (mkPool (delete i (mempool p)) (<[i := head fl]> (mempool_info p))
             (Some i) b (ITEM_CNT p)) (i :: fl).
Proof.
  intros H Ha Hne. apply (wf_live _ _ H) in Ha as Hl. destruct Hl as [Hi Hni].
  split; cbn.
  - by rewrite length_insert, (wf_len _ _ H).
  - split; [done|]. exists (head fl).
    rewrite list_lookup_insert_eq by (rewrite (wf_len _ _ H); done). split; [done|].
    apply chain_insert; [done|]. rewrite <- (wf_head _ _ H). apply (wf_chain _ _ H).
  - apply NoDup_cons. split; [done|]. apply (wf_nodup _ _ H).
  - intros j [->|Hj]%elem_of_cons; [done|]. by apply (wf_bound _ _ H).
  - intros j. unfold allocated. cbn. rewrite lookup_delete_is_Some.
    pose proof (wf_live _ _ H j) as Hl. unfold allocated in Hl. rewrite Hl.
    rewrite not_elem_of_cons. naive_solver.
  - intros j Hj. unfold allocated in Hj. cbn in Hj. apply lookup_delete_is_Some in Hj as [Hij Hj].
    rewrite list_lookup_insert_ne by done. by apply (wf_mark _ _ H).
Qed.

Lemma next_free_ok p i nf :
  mempool_info p !! i = Some nf → next_free (Some i) p = (Ok nf, p).
Proof. intros H. unfold next_free. rewrite bind_some with (a := i) by done. rewrite bind_gets. unfold or_ub. rewrite H. done. Qed.

Lemma set_info_lookup_ne p i j nf :
  i ≠ j → mempool_info (set_info i nf p) !! j = mempool_info p !! j.
Proof. intros H. cbn. by rewrite list_lookup_insert_ne. Qed.

Lemma acquire_lock_free ts p :
  lock p = false → acquire_lock ts p = (Ok tt, set_lock ts p).
Proof. destruct p, ts; cbn; by intros ->. Qed.

(** A sequence of list heads of a well-formed free list. *)
Lemma wf_link2 p i j fl :
  pool_wf p (i :: j :: fl) → mempool_info p !! j = Some (head fl).
Proof.
  intros H. destruct (wf_chain _ _ H) as (_ & nf & _ & -> & nf' & Hn & Hc).
  by rewrite Hn, (chain_head _ _ _ Hc).
Qed.

Lemma wf_link3 p i j k fl :
  pool_wf p (i :: j :: k :: fl) → mempool_info p !! k = Some (head fl).
Proof.
  intros H. destruct (wf_chain _ _ H) as (_ & nf & _ & -> & nf' & _ & -> & nf'' & Hn & Hc).
  by rewrite Hn, (chain_head _ _ _ Hc).
Qed.

Lemma get_ok ts x p i j k fl :
  pool_wf p (i :: j :: k :: fl) → lock p = false →
  get ts x p =
    (Ok i, mkPool (<[i := x]> (mempool p)) (<[i := None]> (mempool_info p))
             (Some j) false (ITEM_CNT p)).
Proof.
  intros H Hlk. unfold get.
  pose proof (wf_link _ _ _ H) as L1. pose proof (wf_link2 _ _ _ _ H) as L2.
  pose proof (wf_link3 _ _ _ _ _ H) as L3.
  pose proof (wf_nodup _ _ H) as Hnd.
  apply NoDup_cons in Hnd as [Hni Hnd]. apply NoDup_cons in Hnd as [Hnj Hnd].
  assert (i ≠ j ∧ i ≠ k ∧ j ≠ k ∧ j ∉ fl) as (? & ? & ? & ?) by set_solver.
  pose proof (wf_bound _ _ H i ltac:(left)) as Hi.
  run_ok by (by apply acquire_lock_free). run_step.
  replace (m_first_free (set_lock ts p)) with (Some i) by (symmetry; apply (wf_head _ _ H)).
  run_steps. run_ok by (apply next_free_ok; exact L1).
  run_steps. run_ok
    by (apply next_free_ok; cbn; rewrite list_lookup_insert_ne; [exact L2|done]).
  run_steps. run_ok
    by (apply next_free_ok; cbn; rewrite list_lookup_insert_ne; [exact L3|done]).
  rewrite bind_assert.
  - destruct p as [m inf ff lk n]. cbn in Hlk. subst lk. by destruct ts.
  - apply bool_decide_true. destruct fl as [|l fl]; cbn; [done|].
    set_solver.
Qed.

(** The constructor, for more than one item, builds a pool in which every
    index is free and nothing is allocated. *)
Lemma ctor_wf (n : nat) :
  1 < n → ∃ p, DynamicMempool_ctor (T := T) n = Ok p
               ∧ pool_wf p (seq 0 n) ∧ lock p = false ∧ ITEM_CNT p = n.
Proof.
  intros Hn. unfold DynamicMempool_ctor.
  replace (1 <? n) with true by (symmetry; by apply Nat.ltb_lt).
  eexists. split; [done|]. split; [|done]. split; cbn.
  - by rewrite length_insert, length_fmap, length_seq.
  - pose proof (chain_seq n 0 ltac:(lia)) as H. by rewrite Nat.sub_0_r in H.
  - apply NoDup_seq.
  - intros i Hi. apply elem_of_seq in Hi. lia.
  - intros i. unfold allocated. cbn. rewrite lookup_empty, elem_of_seq.
    split; [by intros []|]. lia.
  - intros i []. done.
Qed.

(** Returning a live object: what [release] leaves behind. *)
Lemma release_ok ts p i f fl :
  pool_wf p (f :: fl) → lock p = false → allocated p i →
  release ts i p =
    (Ok tt, mkPool (delete i (mempool p)) (<[i := Some f]> (mempool_info p))
              (Some i) false (ITEM_CNT p)).
Proof.
  intros H Hlk Ha. pose proof (wf_mark _ _ H i Ha) as Hmark.
  apply (wf_live _ _ H) in Ha as [Hi Hni].
  pose proof (wf_link _ _ _ H) as L1. pose proof (wf_head _ _ H) as Hh. cbn in Hh.
  assert (i ≠ f) by set_solver.
  unfold release. run_ok by (by apply acquire_lock_free). run_steps.
  run_ok by (apply next_free_ok; exact Hmark). run_step.
  replace (m_first_free _) with (Some f) by (cbn; congruence). run_steps.
  run_ok
    by (apply next_free_ok; cbn; rewrite list_lookup_insert_ne; [exact L1|done]).
  rewrite bind_assert.
  - destruct p as [m inf ff lk n]. cbn in Hlk. subst lk. by destruct ts.
  - apply bool_decide_true. destruct fl as [|l fl]; cbn; [done|]. set_solver.
Qed.

Lemma count_free_ok p fl o k fuel :
  chain (mempool_info p) o fl → k + length fl ≤ ITEM_CNT p → length fl ≤ fuel →
  count_free fuel k o p = (Ok (k + length fl), p).
Proof.
  revert o k fuel. induction fl as [|i fl IH]; intros o k fuel Hc Hk Hf; cbn in *.
  - subst o. destruct fuel; cbn; by rewrite Nat.add_0_r.
  - destruct Hc as (-> & nf & Hn & Hc). destruct fuel as [|fuel]; [lia|].
    cbn [count_free]. run_ok by (by apply next_free_ok).
    run_steps. rewrite (IH nf) by (done || lia). do 2 f_equal. lia.
Qed.

(** A duplicate-free list of pool indices is no longer than the pool. *)
Lemma wf_free_length p fl : pool_wf p fl → length fl ≤ ITEM_CNT p.
Proof.
  intros H. rewrite <- (length_seq (ITEM_CNT p) 0). apply submseteq_length.
  apply NoDup_submseteq; [apply (wf_nodup _ _ H)|].
  intros i Hi. apply elem_of_seq. pose proof (wf_bound _ _ H i Hi). lia.
Qed.
End pool_lemmas.

(** ** Properties *)

Section theorems.
Context {T : Type}.
Implicit Types (p : DynamicMempool T) (fl : list nat) (x : T).

(** C22. [get] on a well-formed pool, on every branch: no free item is
    [bad_alloc]; one or two free items violate an assertion, so a debug build
    never hands out the last two; otherwise the head of the free list is
    returned, it was not in use, the new object is alive there, every other
    object is untouched and the pool is well-formed again. *)
Theorem get_spec (ts : bool) x p fl :
  pool_wf p fl → lock p = false →
  match fl with
  | [] => (get ts x p).1 = Err bad_alloc
  | [_] | [_; _] => (get ts x p).1 = Err assert_failed
  | i :: fl' =>
      ∃ p', get ts x p = (Ok i, p') ∧ mempool p !! i = None
            ∧ mempool p' = <[i := x]> (mempool p) ∧ pool_wf p' fl'
            ∧ lock p' = false ∧ ITEM_CNT p' = ITEM_CNT p
  end.
Proof.
  intros H Hlk. destruct fl as [|i [|j [|k fl]]].
  1-3: unfold get; run_ok by (by apply acquire_lock_free); run_step;
    replace (m_first_free (set_lock ts p)) with (m_first_free p) by done;
    rewrite (wf_head _ _ H); cbn [head].
  2-3: pose proof (wf_bound _ _ H i ltac:(left)) as Hi; run_steps;
    run_ok by (apply next_free_ok, (wf_link _ _ _ H)).
  - done.
  - by rewrite bind_assert_false.
  - pose proof (wf_nodup _ _ H) as Hnd. apply NoDup_cons in Hnd as [Hni _].
    run_steps. run_ok by (apply next_free_ok; cbn; rewrite list_lookup_insert_ne;
      [apply (wf_link2 _ _ _ _ H)|set_solver]).
    by rewrite bind_assert_false.
  - rewrite (get_ok _ _ _ _ _ _ _ H Hlk). eexists. split; [done|].
    split; [apply (wf_free_dead _ _ _ H); left|]. split; [done|].
    split; [by apply (pool_wf_take p i (j :: k :: fl))|done].
Qed.

(** The last item of the free list carries the mark of an allocated one:
    releasing it again is not detected, and from then on the free list is
    circular, so no list threads the pool. *)
Lemma double_free_last_undetected (ts : bool) p (i j k : nat) fl :
  pool_wf p (j :: k :: fl ++ [i]) → lock p = false →
  ∃ p', release ts i p = (Ok tt, p') ∧ ∀ fl', ¬ pool_wf p' fl'.
Proof.
  intros H Hlk. pose proof (wf_nodup _ _ H) as Hnd.
  pose proof (wf_bound _ _ H i ltac:(set_solver)) as Hi.
  pose proof (chain_last _ _ (j :: k :: fl) _ (wf_chain _ _ H)) as Hlast.
  apply NoDup_cons in Hnd as [Hj Hnd]. apply NoDup_cons in Hnd as [Hk Hnd].
  assert (i ≠ j ∧ i ≠ k) as [Hij Hik] by set_solver.
  unfold release. run_ok by (by apply acquire_lock_free). run_steps.
  run_ok by (apply next_free_ok; exact Hlast). run_step.
  replace (m_first_free _) with (Some j) by (symmetry; apply (wf_head _ _ H)). run_steps.
  run_ok by (apply next_free_ok; cbn;
    rewrite list_lookup_insert_ne by done; exact (wf_link _ _ _ H)).
  rewrite bind_assert by (apply bool_decide_true; cbn; congruence).
  eexists. split; [destruct p as [? ? ? lk ?]; cbn in Hlk; subst lk; by destruct ts|].
  intros fl' H'. pose proof (wf_chain _ _ H') as Hc. revert Hc.
  replace (mempool_info _) with (<[i := Some j]> (mempool_info p)) by (by destruct ts).
  replace (m_first_free _) with (Some i) by (by destruct ts).
  apply chain_closed_absurd with (S := j :: k :: fl ++ [i]); [|set_solver].
  intros y Hy. destruct (decide (y = i)) as [->|Hyi].
  - exists j. split; [set_solver|]. apply list_lookup_insert_eq.
    by rewrite (wf_len _ _ H).
  - rewrite list_lookup_insert_ne by done.
    apply (chain_next _ _ _ _ (wf_chain _ _ H) Hy).
    change (j :: k :: fl ++ [i]) with ((j :: k :: fl) ++ [i]). rewrite last_snoc. congruence.
Qed.

(** With at most two free items an assertion catches the second release of the
    last one. *)
Lemma double_free_short (ts : bool) p (i : nat) fl :
  pool_wf p fl → lock p = false → last fl = Some i → length fl ≤ 2 → (release ts i p).1 = Err assert_failed.
Proof.
  intros H Hlk [l ->]%last_Some Hlen. pose proof (wf_bound _ _ H i ltac:(set_solver)) as Hi.
  pose proof (chain_last _ _ l _ (wf_chain _ _ H)) as Hmark. rewrite length_app in Hlen. cbn in Hlen.
  unfold release. run_ok by (by apply acquire_lock_free). run_steps.
  run_ok by (apply next_free_ok; exact Hmark). run_step.
  destruct l as [|j [|k l]]; cbn in Hlen; [| |lia].
  - replace (m_first_free _) with (Some i) by (symmetry; apply (wf_head _ _ H)). run_steps.
    by rewrite bind_assert_false by (by apply bool_decide_false; intros []).
  - pose proof (wf_nodup _ _ H) as [Hj _]%NoDup_cons. assert (i ≠ j) by set_solver.
    replace (m_first_free _) with (Some j) by (symmetry; apply (wf_head _ _ H)). run_steps.
    run_ok by (apply next_free_ok; cbn;
      rewrite list_lookup_insert_ne by done; exact (wf_link _ _ _ H)).
    by rewrite bind_assert_false by (by apply bool_decide_false; intros []).
Qed.

(** C23. [release] on a well-formed pool, on every branch: a live object is put
    back at the head of a non-empty free list and the pool stays well-formed;
    with an empty free list, or for an address outside of the pool, an
    assertion fails; an index that is free is refused as a double free, unless
    it is the last of the free list, which carries the mark of an allocated
    item.  That one is caught by an assertion when at most two items are free;
    with more, the call returns and the free list is circular. *)
Theorem release_spec (ts : bool) p fl (i : nat) :
  pool_wf p fl → lock p = false →
  (i < ITEM_CNT p → i ∉ fl → fl ≠ [] →
     ∃ p', release ts i p = (Ok tt, p') ∧ mempool p' = delete i (mempool p)
           ∧ pool_wf p' (i :: fl) ∧ lock p' = false ∧ ITEM_CNT p' = ITEM_CNT p)
  ∧ (ITEM_CNT p ≤ i ∨ fl = [] → (release ts i p).1 = Err assert_failed)
  ∧ (i ∈ fl → last fl ≠ Some i →
     (release ts i p).1 = Err (runtime_error ("Double free " +:+ pretty (N.of_nat i))))
  ∧ (last fl = Some i → length fl ≤ 2 → (release ts i p).1 = Err assert_failed)
  ∧ (last fl = Some i → 2 < length fl → ∃ p', release ts i p = (Ok tt, p') ∧ ∀ fl', ¬ pool_wf p' fl').
Proof.
  intros H Hlk. split_and!.
  - intros Hi Hni Hne. destruct fl as [|f fl]; [done|].
    assert (Ha : allocated p i) by (by apply (wf_live _ _ H)).
    rewrite (release_ok _ _ _ _ _ H Hlk Ha). eexists. split; [done|]. split; [done|].
    split; [by apply (pool_wf_put p i (f :: fl))|done].
  - intros Hcase. destruct (decide (i < ITEM_CNT p)) as [Hi|Hi].
    2: { unfold release. run_ok by (by apply acquire_lock_free). run_step. rewrite bind_gets.
         rewrite bind_assert_false; [done|]. apply Nat.ltb_ge. cbn. destruct ts; cbn; lia. }
    destruct Hcase as [?| ->]; [lia|].
    assert (Ha : allocated p i) by (apply (wf_live _ _ H); set_solver).
    unfold release. run_ok by (by apply acquire_lock_free). run_steps.
    run_ok by (apply next_free_ok, (wf_mark _ _ H i Ha)). run_step.
    replace (m_first_free _) with (@None nat) by (symmetry; apply (wf_head _ _ H)).
    by rewrite bind_assert_false.
  - intros Hin Hlast. destruct (chain_next _ _ _ _ (wf_chain _ _ H) Hin Hlast) as (j & _ & Hj).
    pose proof (wf_bound _ _ H i Hin).
    unfold release. run_ok by (by apply acquire_lock_free). run_steps.
    by run_ok by (apply next_free_ok; exact Hj).
  - intros Hlast Hlen. by apply (double_free_short ts p i fl).
  - intros [l ->]%last_Some Hlen. rewrite length_app in Hlen. cbn in Hlen.
    destruct l as [|j [|k l]]; cbn in Hlen; [lia..|]. by apply double_free_last_undetected with j k l.
Qed.

(** [size] on a well-formed pool counts the live objects when some item is
    free; when none is free it answers 0 although every item is in use, and a
    thread-safe pool keeps its lock, so the next operation never returns. *)
Theorem size_spec (ts : bool) p fl :
  pool_wf p fl → lock p = false →
  (fl ≠ [] → size ts p = (Ok (ITEM_CNT p - length fl), p))
  ∧ (fl = [] → size ts p = (Ok 0, set_lock ts p)
              ∧ (ts = true → ∀ x, (get ts x (size ts p).2).1 = Err deadlock)).
Proof.
  intros H Hlk.
  assert (Hp : set_lock false (set_lock ts p) = p) by (destruct p; cbn in *; by subst).
  split.
  - intros Hne. unfold size. run_ok by (by apply acquire_lock_free). run_step.
    replace (m_first_free _) with (head fl) by (symmetry; apply (wf_head _ _ H)).
    destruct fl as [|f fl]; [done|]. cbn [head]. run_step.
    pose proof (wf_free_length _ _ H) as Hlen.
    erewrite bind_ok.
    2:{ apply (count_free_ok _ (f :: fl)); cbn in *; [|lia..].
        pose proof (wf_chain _ _ H) as Hc. by rewrite (wf_head _ _ H) in Hc. }
    transitivity (Ok (A := nat) (ITEM_CNT p - length (f :: fl)), set_lock false (set_lock ts p)).
    + destruct ts; [done|]. by destruct p.
    + by rewrite Hp.
  - intros ->. assert (Hs : size ts p = (Ok 0, set_lock ts p)).
    { unfold size. run_ok by (by apply acquire_lock_free). run_step.
      by replace (m_first_free _) with (@None nat) by (symmetry; apply (wf_head _ _ H)). }
    split; [done|]. intros -> x. by rewrite Hs.
Qed.
End theorems.

(** A pool of four items, all free, and the same pool with two in use. *)
Definition pool4 : DynamicMempool nat :=
  mkPool ∅ [Some 1; Some 2; Some 3; None] (Some 0) false 4.

Lemma pool4_wf : pool_wf pool4 [0; 1; 2; 3].
Proof.
  destruct (ctor_wf (T := nat) 4 ltac:(lia)) as (p & [= <-] & H & _). exact H.
Qed.

Lemma get_spec_witness :
  ∃ p', get false 7 pool4 = (Ok 0, p') ∧ mempool pool4 !! 0 = None
        ∧ mempool p' = <[0 := 7]> (mempool pool4) ∧ pool_wf p' [1; 2; 3]
        ∧ lock p' = false ∧ ITEM_CNT p' = ITEM_CNT pool4.
Proof. exact (get_spec false 7 pool4 [0; 1; 2; 3] pool4_wf eq_refl). Defined.

(** A free item in the middle of the list, and the last one. *)
Lemma release_spec_witness :
  (release false 1 pool4).1 = Err (runtime_error "Double free 1")
  ∧ ∃ p', release false 3 pool4 = (Ok tt, p') ∧ ∀ fl', ¬ pool_wf p' fl'.
Proof.
  destruct (release_spec false pool4 [0; 1; 2; 3] 1 pool4_wf eq_refl) as (_ & _ & H1 & _).
  destruct (release_spec false pool4 [0; 1; 2; 3] 3 pool4_wf eq_refl) as (_ & _ & _ & _ & H3).
  split; [apply H1; [set_solver|done]|]. apply H3; [done|]. cbn. lia.
Defined.

Lemma size_spec_witness : size true pool4 = (Ok (4 - 4), pool4).
Proof.
  destruct (size_spec true pool4 [0; 1; 2; 3] pool4_wf eq_refl) as [H _]. by apply H.
Defined.
End Pool.
