(* ===== verification/StaticPool.v ===== *)
(** * The pool of statically allocated objects ([mempool.h])

    [StaticMempool<T, ITEM_CNT, THREAD_SAFE>]: every member is static, so the
    state exists once and starts zeroed; the first [get] links the free list.
    A pointer to [mempool_info[i]] is [Some i], [mempool_info.end()] is
    [Some ITEM_CNT] and ends the list, [nullptr] is [None] and marks an item
    in use.  The memory of the objects is raw and the pool never reads it. *)
From stdpp Require Import pretty.
From S2P Require Import Prelude.
Local Open Scope pcv_scope.

Module StaticPool.

Record StaticMempool : Type := mkStatic {
  mempool_info : list (option nat);
  m_first_free : option nat;
  lock : bool;
}.

Section operations.
Context (ITEM_CNT : nat) (THREAD_SAFE : bool).
Implicit Types (p : StaticMempool).

(** The static storage before the first call. *)
Definition static_storage : StaticMempool := mkStatic (replicate ITEM_CNT None) None false.

Definition info_end : option nat := Some ITEM_CNT.

Definition set_lock (b : bool) p : StaticMempool := mkStatic (mempool_info p) (m_first_free p) b.
Definition set_first_free (f : option nat) p : StaticMempool := mkStatic (mempool_info p) f (lock p).
Definition set_info (i : nat) (nf : option nat) p : StaticMempool :=
  mkStatic (<[i := nf]> (mempool_info p)) (m_first_free p) (lock p).

(** [item->next_free]; [end()] and [nullptr] do not point to an item. *)
Definition next_free (item : option nat) : M StaticMempool (option nat) :=
  i ← or_ub item;
  l ← gets mempool_info;
  or_ub (l !! i).

Definition init : M StaticMempool unit :=
  assert_ (bool_decide (info_end ≠ None));;
  modify (set_first_free (Some 0));;
  modify (λ p, mkStatic (imap (λ i _, Some (S i)) (mempool_info p)) (m_first_free p) (lock p));;
  n ← gets (λ p, length (mempool_info p));
  _ ← next_free (Some (n - 1));
  modify (set_info (n - 1) info_end).

Definition acquire_lock : M StaticMempool unit :=
  if THREAD_SAFE then
    l ← gets lock;
    if l : bool then throw deadlock else modify (set_lock true)
  else mret tt.

Definition release_lock : M StaticMempool unit :=
  if THREAD_SAFE then modify (set_lock false) else mret tt.

(** The loop of [size]: the assertion bounds it by [ITEM_CNT] steps. *)
Fixpoint count_free (fuel : nat) (unused : nat) (i : option nat) : M StaticMempool nat :=
  if bool_decide (i = info_end) then mret unused
  else
    match fuel with
    | O => throw no_fuel
    | S fuel =>
        i' ← next_free i;
        assert_ (S unused <=? ITEM_CNT);;
        count_free fuel (S unused) i'
    end.

Definition size : M StaticMempool nat :=
  acquire_lock;;
  i ← gets m_first_free;
  match i with
  | None => mret 0
  | Some _ =>
      unused ← count_free (S ITEM_CNT) 0 i;
      release_lock;;
      mret (ITEM_CNT - unused)
  end.

Definition get : M StaticMempool nat :=
  acquire_lock;;
  ff ← gets m_first_free;
  (if bool_decide (ff = info_end) then throw bad_alloc
   else if bool_decide (ff = None) then init else mret tt);;
  ff ← gets m_first_free;
  indx ← or_ub ff;
  assert_ (indx <? ITEM_CNT);;
  tmp ← next_free ff;
  assert_ (bool_decide (tmp ≠ None));;
  modify (set_info indx None);;
  modify (set_first_free tmp);;
  nf ← next_free tmp;
  assert_ (bool_decide (nf ≠ None));;
  assert_ (bool_decide (nf ≠ tmp));;
  nnf ← next_free nf;
  assert_ (bool_decide (nnf ≠ tmp));;
  release_lock;;
  mret indx.

Definition release (addr : nat) : M StaticMempool unit :=
  acquire_lock;;
  assert_ (addr <? ITEM_CNT);;
  nf ← next_free (Some addr);
  match nf with
  | Some _ => throw (runtime_error ("Double free " +:+ pretty (N.of_nat addr)))
  | None =>
      ff ← gets m_first_free;
      assert_ (bool_decide (ff ≠ None));;
      modify (set_info addr ff);;
      modify (set_first_free (Some addr));;
      assert_ (bool_decide (ff ≠ Some addr));;
      nnf ← next_free ff;
      assert_ (bool_decide (nnf ≠ Some addr));;
      release_lock
  end.

Definition deallocated (id : nat) : string := "Item " +:+ pretty (N.of_nat id) +:+ " is deallocated".

Definition getById (id : nat) : M StaticMempool nat :=
  assert_ (id <? ITEM_CNT);;
  nf ← next_free (Some id);
  match nf with
  | Some _ => throw (runtime_error (deallocated id))
  | None => mret id
  end.

(** [getId] reads the mark before it checks the index. *)
Definition getId (addr : nat) : M StaticMempool nat :=
  nf ← next_free (Some addr);
  match nf with
  | Some _ => throw (runtime_error (deallocated addr))
  | None => assert_ (addr <? ITEM_CNT);; mret addr
  end.

(** The loop of the destructor does not advance its [item]. *)
Fixpoint dtor_loop (fuel : nat) (cnt : nat) (item : option nat) : M StaticMempool nat :=
  if bool_decide (item = info_end) then mret cnt
  else match fuel with O => throw no_fuel | S fuel => dtor_loop fuel (S cnt) item end.

Definition StaticMempool_dtor (fuel : nat) : M StaticMempool unit :=
  ff ← gets m_first_free;
  if bool_decide (ff = info_end) then assert_ false
  else
    cnt ← dtor_loop fuel 0 ff;
    if cnt =? ITEM_CNT then mret tt else assert_ false.

(** [ObjectWithStaticMempool]: the operators of a class that lives in the pool. *)
Definition operator_new : M StaticMempool nat := get.
Definition operator_delete (ptr : nat) : M StaticMempool unit := release ptr.
End operations.

(** ** The specification: a stack of free indexes *)

Inductive pool_op : Type := OGet | ORelease (addr : nat) | OSize | OGetById (id : nat) | OGetId (addr : nat).

(** The results of a sequence of calls, up to the first that fails. *)
Fixpoint run_ops {S} (step : pool_op → M S nat) (ops : list pool_op) (s : S) : list (result nat) :=
  match ops with
  | [] => []
  | o :: ops' =>
      match step o s with
      | (Ok a, s') => Ok a :: run_ops step ops' s'
      | (Err e, _) => [Err e]
      end
  end.

Section spec.
Context (ITEM_CNT : nat) (THREAD_SAFE : bool).

Definition pool_step (o : pool_op) : M StaticMempool nat :=
  match o with
  | OGet => operator_new ITEM_CNT THREAD_SAFE
  | ORelease addr => operator_delete ITEM_CNT THREAD_SAFE addr;; mret 0
  | OSize => size ITEM_CNT THREAD_SAFE
  | OGetById id => getById ITEM_CNT id
  | OGetId addr => getId ITEM_CNT addr
  end.

(** The free indexes, [None] before the first allocation, and whether a call
    has kept the lock. *)
Record stack : Type := mkStack { free : option (list nat); held : bool }.

(** A build with assertions never hands out the last two items: the checks of
    [get] and [release] read two links past the new head of the list. *)
Definition stack_step (o : pool_op) : M stack nat := λ s,
  let fl := default [] (free s) in
  match o with
  | OGet =>
      if held s then (Err deadlock, s)
      else match default (seq 0 ITEM_CNT) (free s) with
           | [] => (Err bad_alloc, s)
           | [_] | [_; _] => (Err undefined_behaviour, s)
           | i :: fl' => (Ok i, mkStack (Some fl') false)
           end
  | ORelease i =>
      if held s then (Err deadlock, s)
      else if decide (i < ITEM_CNT) then
        if decide (i ∈ fl) then (Err (runtime_error ("Double free " +:+ pretty (N.of_nat i))), s)
        else match free s with
             | None => (Err assert_failed, s)
             | Some [] => (Err undefined_behaviour, s)
             | Some fl => (Ok 0, mkStack (Some (i :: fl)) false)
             end
      else (Err assert_failed, s)
  | OSize =>
      if held s then (Err deadlock, s)
      else match free s with
           | None => (Ok 0, mkStack None THREAD_SAFE)
           | Some fl => (Ok (ITEM_CNT - length fl), s)
           end
  | OGetById i =>
      if decide (i < ITEM_CNT) then
        if decide (i ∈ fl) then (Err (runtime_error (deallocated i)), s) else (Ok i, s)
      else (Err assert_failed, s)
  | OGetId i =>
      if decide (i < ITEM_CNT) then
        if decide (i ∈ fl) then (Err (runtime_error (deallocated i)), s) else (Ok i, s)
      else (Err undefined_behaviour, s)
  end.
End spec.

(** ** The simulation *)

Section simulation.
Context (ITEM_CNT : nat) (THREAD_SAFE : bool).
Implicit Types (p : StaticMempool) (fl : list nat) (info : list (option nat)).

(** The list threaded from [o] to the end of the pool is [fl]. *)
Fixpoint linked info (o : option nat) fl : Prop :=
  match fl with
  | [] => o = info_end ITEM_CNT
  | i :: fl' => o = Some i ∧ ∃ nf, info !! i = Some nf ∧ linked info nf fl'
  end.

(** The first item of a free list. *)
Definition hd fl : option nat := Some (List.hd ITEM_CNT fl).

Record info_ok info fl : Prop := {
  io_len : length info = ITEM_CNT;
  io_linked : linked info (hd fl) fl;
  io_NoDup : NoDup fl;
  io_bound : ∀ i, i ∈ fl → i < ITEM_CNT;
  io_used : ∀ i, i < ITEM_CNT → i ∉ fl → info !! i = Some None;
}.

Record simulates p (s : stack) : Prop := {
  si_lock : lock p = held s;
  si_safe : held s = true → THREAD_SAFE = true;
  si_free : match free s with
            | None => mempool_info p = replicate ITEM_CNT None ∧ m_first_free p = None
            | Some fl => info_ok (mempool_info p) fl ∧ m_first_free p = hd fl
            end;
}.

Lemma linked_hd info o fl : linked info o fl → o = hd fl.
Proof. destruct fl; [done|]. by intros [-> _]. Qed.

Lemma linked_insert info o fl i nf : i ∉ fl → linked info o fl → linked (<[i := nf]> info) o fl.
Proof.
  revert o. induction fl as [|j fl IH]; intros o Hi H; [done|]. destruct H as (-> & nf' & Hn & H).
  apply not_elem_of_cons in Hi as [Hij Hi]. split; [done|]. exists nf'.
  rewrite list_lookup_insert_ne by done. auto.
Qed.

Lemma linked_tail info o i fl : linked info o (i :: fl) → info !! i = Some (hd fl) ∧ linked info (hd fl) fl.
Proof. intros (-> & nf & Hn & H). by rewrite Hn, <- (linked_hd _ _ _ H). Qed.

Lemma linked_mark info o fl i : linked info o fl → i ∈ fl → ∃ nf, info !! i = Some (Some nf).
Proof.
  revert o. induction fl as [|j fl IH]; intros o H Hi; [by apply elem_of_nil in Hi|].
  apply linked_tail in H as [Hj H]. apply elem_of_cons in Hi as [->|Hi]; [by eexists|by eapply IH].
Qed.

Lemma linked_end info n : 
  length info = ITEM_CNT → n ≤ ITEM_CNT →
  (∀ i, n ≤ i < ITEM_CNT → info !! i = Some (Some (S i))) → linked info (Some n) (seq n (ITEM_CNT - n)).
Proof.
  intros Hl Hn Hi. remember (ITEM_CNT - n) as k eqn:Hk. revert n Hn Hi Hk.
  induction k as [|k IH]; intros n Hn Hi Hk; cbn; [unfold info_end; f_equal; lia|].
  split; [done|]. exists (Some (S n)). split; [apply Hi; lia|]. apply IH; [lia| |lia]. intros i ?. apply Hi. lia.
Qed.

Lemma info_take info i fl : info_ok info (i :: fl) → info_ok (<[i := None]> info) fl.
Proof.
  intros [Hl Hk Hnd Hb Hu]. apply NoDup_cons in Hnd as [Hi Hnd].
  pose proof (Hb i ltac:(left)) as HiN. apply linked_tail in Hk as [_ Hk]. split; [by rewrite length_insert| |done| |].
  - by apply linked_insert.
  - intros j Hj. apply Hb. by right.
  - intros j Hj Hjf. destruct (decide (i = j)) as [->|Hij]; [apply list_lookup_insert_eq; lia|].
    rewrite list_lookup_insert_ne by done. apply Hu; [done|]. by intros [->|?]%elem_of_cons.
Qed.

Lemma info_put info i fl : info_ok info fl → i < ITEM_CNT → i ∉ fl → info_ok (<[i := hd fl]> info) (i :: fl).
Proof.
  intros [Hl Hk Hnd Hb Hu] HiN Hi. split; [by rewrite length_insert| | | |].
  - split; [done|]. exists (hd fl). split; [apply list_lookup_insert_eq; lia|by apply linked_insert].
  - by apply NoDup_cons.
  - by intros j [->|Hj]%elem_of_cons; [|apply Hb].
  - intros j Hj [Hji Hjf]%not_elem_of_cons. rewrite list_lookup_insert_ne by done. by apply Hu.
Qed.

Lemma static_next_ok p i nf : mempool_info p !! i = Some nf → ⟪ next_free (Some i), p ⟫ ⇓ ⟪ nf, p ⟫.
Proof. intros H. unfold next_free. rewrite bind_some with (a := i) by done. run_pure. by rewrite H. Qed.

(** The end of the list is not an item. *)
Lemma next_free_end p : length (mempool_info p) = ITEM_CNT → next_free (info_end ITEM_CNT) p = (Err undefined_behaviour, p).
Proof.
  intros H. unfold next_free. rewrite bind_some with (a := ITEM_CNT) by done. rewrite bind_gets.
  by rewrite (proj2 (lookup_ge_None _ _)) by lia.
Qed.

Lemma init_ok p :
  0 < ITEM_CNT → mempool_info p = replicate ITEM_CNT None →
  ∃ info, init ITEM_CNT p = (Ok tt, mkStatic info (hd (seq 0 ITEM_CNT)) (lock p)) ∧ info_ok info (seq 0 ITEM_CNT).
Proof.
  intros HN Hp. unfold init. rewrite bind_assert by done. run_step. run_step. run_step. cbn. rewrite length_imap, Hp, length_replicate.
  assert (∀ i, i < ITEM_CNT → imap (λ i _, Some (S i)) (replicate ITEM_CNT (@None nat)) !! i = Some (Some (S i))) as Hi.
  { intros i Hi. rewrite list_lookup_imap, lookup_replicate_2 by done. done. }
  run_ok by (apply static_next_ok; cbn; rewrite ?Hp; apply Hi; lia).
  assert (Some 0 = hd (seq 0 ITEM_CNT)) as Hhd by (destruct ITEM_CNT; [lia|done]).
  exists (imap (λ i _, Some (S i)) (replicate ITEM_CNT (@None nat))). split.
  { unfold modify, set_info. cbn [mempool_info m_first_free lock]. rewrite <- Hhd. do 3 f_equal.
    apply list_insert_id. rewrite Hi by lia. unfold info_end. do 2 f_equal. lia. }
  split.
  - by rewrite length_imap, length_replicate.
  - rewrite <- Hhd. replace (seq 0 ITEM_CNT) with (seq 0 (ITEM_CNT - 0)) by (by rewrite Nat.sub_0_r).
    apply linked_end; [by rewrite length_imap, length_replicate|lia|]. intros i ?. apply Hi. lia.
  - apply NoDup_seq.
  - intros i Hi'%elem_of_seq. lia.
  - intros i Hi' Hn. destruct Hn. apply elem_of_seq. lia.
Qed.

Lemma acquire_ok p : lock p = false → ⟪ acquire_lock THREAD_SAFE, p ⟫ ⇓ ⟪ tt, set_lock THREAD_SAFE p ⟫.
Proof. destruct p, THREAD_SAFE; cbn; by intros ->. Qed.

Lemma acquire_held p : lock p = true → THREAD_SAFE = true → acquire_lock THREAD_SAFE p = (Err deadlock, p).
Proof. destruct p; cbn. by intros -> ->. Qed.

(** The result of a call and of its specification, with the states related
    again when it returns. *)
Definition agrees (r : result nat * StaticMempool) (r' : result nat * stack) : Prop :=
  r.1 = r'.1 ∧ ∀ a, r.1 = Ok a → simulates r.2 r'.2.

Lemma agrees_err r (s : stack) e : r.1 = Err e → agrees r (Err e, s).
Proof. intros He. split; [done|]. intros a. by rewrite He. Qed.

Lemma static_get_ok p i j k fl :
  info_ok (mempool_info p) (i :: j :: k :: fl) → m_first_free p = Some i → lock p = false →
  ⟪ get ITEM_CNT THREAD_SAFE, p ⟫ ⇓ ⟪ i, mkStatic (<[i := None]> (mempool_info p)) (Some j) false ⟫.
Proof.
  intros Hok Hff Hlk. pose proof (io_NoDup _ _ Hok) as Hnd.
  apply NoDup_cons in Hnd as [Hi [Hj [Hk _]%NoDup_cons]%NoDup_cons].
  assert (i ≠ j ∧ i ≠ k ∧ j ≠ k ∧ j ∉ fl) as (? & ? & ? & Hjf) by set_solver.
  pose proof (io_bound _ _ Hok i ltac:(left)) as Hin. pose proof (io_bound _ _ Hok j ltac:(set_solver)) as Hjn.
  pose proof (io_linked _ _ Hok) as (Li & (Lj & (Lk & _)%linked_tail)%linked_tail)%linked_tail.
  unfold get. run_ok by (by apply acquire_ok). run_step. cbn [m_first_free set_lock]. rewrite Hff.
  rewrite bool_decide_false by (unfold info_end; intros [= ->]; lia). rewrite bool_decide_false by done.
  run_steps. cbn [m_first_free set_lock]. rewrite Hff. run_steps.
  run_ok by (apply static_next_ok; exact Li). run_steps.
  run_ok by (apply static_next_ok; cbn; rewrite list_lookup_insert_ne; [exact Lj|done]). run_steps.
  run_ok by (apply static_next_ok; cbn; rewrite list_lookup_insert_ne; [exact Lk|done]).
  rewrite bind_assert.
  - destruct p as [inf ff lk]. cbn in Hlk |- *. subst lk. by destruct THREAD_SAFE.
  - apply bool_decide_true. cbn. destruct fl as [|l fl]; unfold hd; cbn; intros [= ->]; [lia|set_solver].
Qed.

(** One or two free items: the assertions read past the end of the list. *)
Lemma get_few p fl :
  info_ok (mempool_info p) fl → m_first_free p = hd fl → lock p = false → 0 < length fl < 3 →
  ⟪ get ITEM_CNT THREAD_SAFE, p ⟫ ⇑ undefined_behaviour.
Proof.
  intros Hok Hff Hlk Hl. destruct fl as [|i fl]; [cbn in Hl; lia|]. 
  pose proof (io_NoDup _ _ Hok) as [Hi _]%NoDup_cons. pose proof (io_len _ _ Hok) as Hlen.
  pose proof (io_bound _ _ Hok i ltac:(left)) as Hin. pose proof (io_linked _ _ Hok) as (Li & Lk)%linked_tail.
  assert (∀ q, mempool_info q = <[i := None]> (mempool_info p) → length (mempool_info q) = ITEM_CNT) as Hq
    by (intros q ->; by rewrite length_insert).
  unfold get. run_ok by (by apply acquire_ok). run_step. cbn [m_first_free set_lock]. rewrite Hff. cbn [hd List.hd].
  rewrite bool_decide_false by (unfold info_end, hd; cbn; intros [= ->]; lia). rewrite bool_decide_false by done.
  run_steps. cbn [m_first_free set_lock]. rewrite Hff. run_steps.
  run_ok by (apply static_next_ok; exact Li). run_steps.
  destruct fl as [|j [|k fl]]; [| |cbn in Hl; lia].
  - erewrite bind_err; [done|]. by apply next_free_end, Hq.
  - apply linked_tail in Lk as [Lj _]. assert (i ≠ j) by set_solver.
    pose proof (io_bound _ _ Hok j ltac:(set_solver)) as Hjn.
    run_ok by (apply static_next_ok; cbn; rewrite list_lookup_insert_ne; [exact Lj|done]).
    run_step. rewrite bind_assert by (apply bool_decide_true; unfold hd; cbn; intros [= ->]; lia).
    erewrite bind_err; [done|]. by apply next_free_end, Hq.
Qed.

(** The first call links the list and goes on as if it had been linked. *)
Lemma get_init p info :
  init ITEM_CNT (set_lock THREAD_SAFE p) = (Ok tt, mkStatic info (hd (seq 0 ITEM_CNT)) THREAD_SAFE) →
  0 < ITEM_CNT → lock p = false → m_first_free p = None →
  get ITEM_CNT THREAD_SAFE p = get ITEM_CNT THREAD_SAFE (mkStatic info (hd (seq 0 ITEM_CNT)) false).
Proof.
  intros Hinit HN Hlk Hff. set (q := mkStatic info (hd (seq 0 ITEM_CNT)) false).
  assert (m_first_free q = Some 0) as Hq by (unfold q, hd; cbn; clear - HN; destruct ITEM_CNT; [lia|done]).
  pose proof (acquire_ok q eq_refl) as Haq. unfold get.
  rewrite (bind_ok _ _ _ _ _ Haq). run_ok by (by apply acquire_ok).
  rewrite !bind_gets. cbn [m_first_free set_lock]. rewrite Hff, Hq, (bool_decide_true (None = None)) by done.
  rewrite !bool_decide_false by (unfold info_end; done || (intros [= <-]; lia)). rewrite bind_ret.
  run_ok by (exact Hinit). unfold q, set_lock. cbn. reflexivity.
Qed.

Lemma get_agrees p s : simulates p s → 0 < ITEM_CNT → agrees (pool_step ITEM_CNT THREAD_SAFE OGet p) (stack_step ITEM_CNT THREAD_SAFE OGet s).
Proof.
  intros [Hlk Hsafe Hfree] HN. cbn [pool_step stack_step]. unfold operator_new. destruct (held s).
  { apply agrees_err. unfold get. by erewrite bind_err by (apply acquire_held; auto). }
  assert (∀ p' fl, info_ok (mempool_info p') fl → m_first_free p' = hd fl → lock p' = false →
    agrees (get ITEM_CNT THREAD_SAFE p') match fl with
           | [] => (Err bad_alloc, s)
           | [_] | [_; _] => (Err undefined_behaviour, s)
           | i :: fl' => (Ok i, mkStack (Some fl') false)
           end) as Hget.
  { clear. intros p' fl Hok Hff Hlk. destruct fl as [|i [|j [|k fl]]].
    - apply agrees_err. unfold get. run_ok by (by apply acquire_ok). run_step. cbn [m_first_free set_lock].
      rewrite Hff. by rewrite bool_decide_true by done.
    - apply agrees_err. cbn. apply (get_few p' [i]); [done..|cbn; lia].
    - apply agrees_err. cbn. apply (get_few p' [i; j]); [done..|cbn; lia].
    - rewrite (static_get_ok p' i j k fl) by done. split; [done|]. intros _ _.
      split; cbn; [done|done|]. split; [by apply info_take|done]. }
  destruct (free s) as [fl|]; cbn [default from_option id]; destruct Hfree as [Hinfo Hff]; [by apply Hget|].
  destruct (init_ok (set_lock THREAD_SAFE p) HN Hinfo) as (info & Hinit & Hok).
  rewrite (get_init p info) by done. by apply Hget.
Qed.

Lemma release_agrees p s addr : simulates p s →
  agrees (pool_step ITEM_CNT THREAD_SAFE (ORelease addr) p) (stack_step ITEM_CNT THREAD_SAFE (ORelease addr) s).
Proof.
  intros [Hlk Hsafe Hfree]. cbn [pool_step stack_step]. unfold operator_delete, release. destruct (held s).
  { apply agrees_err. rewrite bind_assoc. by erewrite bind_err by (apply acquire_held; auto). }
  run_ok by (by apply acquire_ok). destruct (decide (addr < ITEM_CNT)) as [Ha|Ha].
  2: { rewrite ?bind_assoc, bind_assert_false by (by apply Nat.ltb_ge; lia). by apply agrees_err. }
  run_step. rewrite bind_assert by (by apply Nat.ltb_lt).
  destruct (free s) as [fl|]; cbn [default from_option id].
  2: { destruct Hfree as [Hinfo Hff]. destruct (decide (addr ∈ [])) as [?%elem_of_nil|_]; [done|].
    run_ok by (apply static_next_ok; cbn; rewrite Hinfo; by apply lookup_replicate_2).
    run_steps. cbn [m_first_free set_lock]. rewrite Hff, ?bind_assoc, bind_assert_false by done. by apply agrees_err. }
  destruct Hfree as [Hok Hff]. pose proof (io_linked _ _ Hok) as Hlinked.
  destruct (decide (addr ∈ fl)) as [Hin|Hin].
  { destruct (linked_mark _ _ _ _ Hlinked Hin) as [nf Hnf]. run_ok by (apply static_next_ok; exact Hnf).
    by apply agrees_err. }
  run_ok by (apply static_next_ok; by apply (io_used _ _ Hok)). run_steps. cbn [m_first_free set_lock]. rewrite Hff.
  assert (hd fl ≠ Some addr) as Hhd by (destruct fl as [|f fl]; unfold hd; cbn; intros [= ->]; [lia|set_solver]).
  run_steps. rewrite ?bind_assoc.
  destruct fl as [|f fl].
  - erewrite bind_err; [by apply agrees_err|]. apply next_free_end. cbn. rewrite length_insert. apply (io_len _ _ Hok).
  - apply linked_tail in Hlinked as [Lf _]. assert (addr ≠ f) by set_solver.
    run_ok by (apply static_next_ok; cbn; rewrite list_lookup_insert_ne; [exact Lf|done]).
    rewrite ?bind_assoc, bind_assert.
    2: { apply bool_decide_true. destruct fl as [|l fl]; unfold hd; cbn; intros [= ->]; [lia|set_solver]. }
    assert (∀ inf ff, (release_lock THREAD_SAFE;; mret 0) (mkStatic inf ff THREAD_SAFE) = (Ok 0, mkStatic inf ff false)) as Hrl
      by (clear; by destruct THREAD_SAFE).
    unfold set_first_free, set_info, set_lock. cbn [mempool_info m_first_free lock]. rewrite Hrl. split; [done|].
    intros _ _. split; cbn; [done|done|]. split; [by apply info_put|done].
Qed.

Lemma static_count_ok p o fl k fuel :
  linked (mempool_info p) o fl → (∀ i, i ∈ fl → i < ITEM_CNT) → k + length fl ≤ ITEM_CNT → length fl ≤ fuel →
  ⟪ count_free ITEM_CNT fuel k o, p ⟫ ⇓ ⟪ k + length fl, p ⟫.
Proof.
  revert o k fuel. induction fl as [|i fl IH]; intros o k fuel Hc Hb Hk Hf; cbn [length] in *.
  - cbn in Hc. subst o. rewrite Nat.add_0_r. destruct fuel; cbn [count_free]; by rewrite bool_decide_true.
  - pose proof (Hb i ltac:(left)) as Hi. destruct Hc as (-> & nf & Hn & Hc). destruct fuel as [|fuel]; [lia|].
    cbn [count_free]. rewrite bool_decide_false by (unfold info_end; intros [= ->]; lia).
    run_ok by (by apply static_next_ok). rewrite bind_assert by (apply Nat.leb_le; lia).
    rewrite (IH nf) by (done || lia || (intros; apply Hb; by right)). do 2 f_equal. lia.
Qed.

Lemma info_ok_length info fl : info_ok info fl → length fl ≤ ITEM_CNT.
Proof.
  intros H. rewrite <- (length_seq ITEM_CNT 0). apply submseteq_length, NoDup_submseteq; [apply H|].
  intros i Hi%(io_bound _ _ H). apply elem_of_seq. lia.
Qed.

Lemma size_agrees p s : simulates p s →
  agrees (pool_step ITEM_CNT THREAD_SAFE OSize p) (stack_step ITEM_CNT THREAD_SAFE OSize s).
Proof.
  intros [Hlk Hsafe Hfree]. cbn [pool_step stack_step]. unfold size. destruct (held s) eqn:Hheld.
  { apply agrees_err. by erewrite bind_err by (apply acquire_held; auto). }
  run_ok by (by apply acquire_ok). run_step. cbn [m_first_free set_lock].
  destruct (free s) as [fl|] eqn:Hfl; destruct Hfree as [Hok Hff]; rewrite Hff.
  2: { split; [done|]. intros _ _. split; cbn; [done|done|done]. }
  cbn [hd]. run_ok by (apply (static_count_ok _ _ fl); [apply (io_linked _ _ Hok)|apply (io_bound _ _ Hok)
    |cbn; by eapply info_ok_length|pose proof (info_ok_length _ _ Hok); lia]).
  assert (release_lock THREAD_SAFE (set_lock THREAD_SAFE p) = (Ok tt, p)) as Hrl.
  { clear - Hlk. destruct p, THREAD_SAFE; cbn in *; by subst. }
  run_ok by (exact Hrl). split; [done|]. intros _ _. split; cbn; [congruence|congruence|by rewrite Hfl].
Qed.

(** The mark of an item. *)
Lemma next_free_mark p s i : simulates p s → i < ITEM_CNT →
  ∃ nf, next_free (Some i) p = (Ok nf, p) ∧ (nf = None ↔ i ∉ default [] (free s)).
Proof.
  intros [_ _ Hfree] Hi. destruct (free s) as [fl|]; cbn.
  - destruct Hfree as [Hok _]. destruct (decide (i ∈ fl)) as [Hin|Hin].
    + destruct (linked_mark _ _ _ _ (io_linked _ _ Hok) Hin) as [nf Hnf]. exists (Some nf).
      split; [by apply static_next_ok|]. by split.
    + exists None. split; [by apply static_next_ok, (io_used _ _ Hok)|done].
  - destruct Hfree as [Hinfo _]. exists None. split; [|split; [by intros _ ?%elem_of_nil|done]].
    apply static_next_ok. rewrite Hinfo. by apply lookup_replicate_2.
Qed.

Lemma getById_agrees p s id : simulates p s →
  agrees (pool_step ITEM_CNT THREAD_SAFE (OGetById id) p) (stack_step ITEM_CNT THREAD_SAFE (OGetById id) s).
Proof.
  intros Hs. cbn [pool_step stack_step]. unfold getById. destruct (decide (id < ITEM_CNT)) as [Hi|Hi].
  2: { apply agrees_err. by rewrite bind_assert_false by (by apply Nat.ltb_ge; lia). }
  rewrite bind_assert by (by apply Nat.ltb_lt). destruct (next_free_mark p s id Hs Hi) as (nf & Hn & Hm).
  run_ok by (exact Hn). destruct (decide (id ∈ default [] (free s))), nf; first [by apply agrees_err|by split|exfalso; naive_solver].
Qed.

Lemma getId_agrees p s addr : simulates p s →
  agrees (pool_step ITEM_CNT THREAD_SAFE (OGetId addr) p) (stack_step ITEM_CNT THREAD_SAFE (OGetId addr) s).
Proof.
  intros Hs. cbn [pool_step stack_step]. unfold getId. destruct (decide (addr < ITEM_CNT)) as [Hi|Hi].
  - destruct (next_free_mark p s addr Hs Hi) as (nf & Hn & Hm). run_ok by (exact Hn).
    destruct (decide (addr ∈ default [] (free s))), nf;
      try rewrite bind_assert by (by apply Nat.ltb_lt); first [by apply agrees_err|by split|exfalso; naive_solver].
  - apply agrees_err. assert (next_free (Some addr) p = (Err undefined_behaviour, p)) as Hn.
    { unfold next_free. rewrite bind_some with (a := addr) by done. rewrite bind_gets.
      rewrite (proj2 (lookup_ge_None _ _)); [done|]. destruct Hs as [_ _ Hfree]. destruct (free s).
      - destruct Hfree as [Hok _]. rewrite (io_len _ _ Hok). lia.
      - destruct Hfree as [-> _]. rewrite length_replicate. lia. }
    by rewrite (bind_err _ _ _ _ _ Hn).
Qed.

Lemma step_agrees o p s : simulates p s → 0 < ITEM_CNT →
  agrees (pool_step ITEM_CNT THREAD_SAFE o p) (stack_step ITEM_CNT THREAD_SAFE o s).
Proof.
  intros Hs HN. destruct o; [by apply get_agrees|by apply release_agrees|by apply size_agrees
    |by apply getById_agrees|by apply getId_agrees].
Qed.

Lemma run_agrees ops p s : simulates p s → 0 < ITEM_CNT →
  run_ops (pool_step ITEM_CNT THREAD_SAFE) ops p = run_ops (stack_step ITEM_CNT THREAD_SAFE) ops s.
Proof.
  intros Hs HN. revert p s Hs. induction ops as [|o ops IH]; intros p s Hs; [done|]. cbn [run_ops].
  destruct (step_agrees o p s Hs HN) as [Hr Hn].
  destruct (pool_step ITEM_CNT THREAD_SAFE o p) as [[a|e] p'], (stack_step ITEM_CNT THREAD_SAFE o s) as [[a'|e'] s'];
    cbn in Hr; simplify_eq; [|done]. f_equal. apply IH, (Hn a' eq_refl).
Qed.
End simulation.

(** ** Properties *)

(** C24. The pool of static objects implements a stack of free indexes: every
    sequence of calls on the zeroed static storage gives the same results as
    on the stack, up to the first failure and with the same error.  In
    particular every double free is detected. *)
Theorem static_pool_refines (ITEM_CNT : nat) (THREAD_SAFE : bool) (ops : list pool_op) :
  0 < ITEM_CNT →
  run_ops (pool_step ITEM_CNT THREAD_SAFE) ops (static_storage ITEM_CNT)
  = run_ops (stack_step ITEM_CNT THREAD_SAFE) ops (mkStack None false).
Proof. intros HN. by apply run_agrees. Qed.

(** The destructor never returns: its loop does not advance, or its assertion
    fails. *)
Theorem static_dtor_fails (ITEM_CNT fuel : nat) p :
  (StaticMempool_dtor ITEM_CNT fuel p).1 = Err (if bool_decide (m_first_free p = info_end ITEM_CNT) then assert_failed else no_fuel).
Proof.
  unfold StaticMempool_dtor. rewrite bind_gets. case_bool_decide as Hff; [done|].
  assert (∀ cnt, dtor_loop ITEM_CNT fuel cnt (m_first_free p) p = (Err no_fuel, p)) as Hl; [|by erewrite bind_err by apply Hl].
  induction fuel as [|fuel IH]; intros cnt; cbn [dtor_loop]; rewrite bool_decide_false by done; [done|apply IH].
Qed.

Lemma static_pool_refines_witness :
  run_ops (pool_step 4 true) [OGetId 3; OGet; OGet; ORelease 0; OSize; OGet; OGetById 1; OGet] (static_storage 4)
  = [Ok 3; Ok 0; Ok 1; Ok 0; Ok 1; Ok 0; Ok 1; Err undefined_behaviour].
Proof. rewrite (static_pool_refines 4 true) by lia. vm_compute. reflexivity. Defined.
End StaticPool.
