(* ===== verification/MockPool.v ===== *)
(** * The pool that allocates every object on the heap ([mempool_mock.h])

    A second class of the name [StaticMempool], used by the tests: a table
    from identifiers to addresses and a map back, over [aligned_alloc] and
    [free] of the C library.  The allocator is a parameter: it returns an
    address that is not in use, or a null pointer. *)
From S2P Require Import Prelude.
Local Open Scope pcv_scope.

Module MockPool.

Record MockMempool : Type := mkMock {
  addr_to_id : gmap nat nat;
  id_to_addr : list (option nat);
  heap : gset nat;
  lock : bool;
}.

Section operations.
Context (ITEM_CNT : nat) (THREAD_SAFE : bool) (aligned_alloc : gset nat → option nat).
Implicit Types (p : MockMempool).

Definition static_storage (h : gset nat) : MockMempool := mkMock ∅ (replicate ITEM_CNT None) h false.

Definition init : M MockMempool unit :=
  modify (λ p, mkMock (addr_to_id p) ((λ _, None) <$> id_to_addr p) (heap p) (lock p)).

Definition acquire_lock : M MockMempool unit :=
  if THREAD_SAFE then
    l ← gets lock;
    if l : bool then throw deadlock
    else modify (λ p, mkMock (addr_to_id p) (id_to_addr p) (heap p) true)
  else mret tt.

Definition release_lock : M MockMempool unit :=
  if THREAD_SAFE then modify (λ p, mkMock (addr_to_id p) (id_to_addr p) (heap p) false) else mret tt.

(** [free(addr)]: null is ignored, an address that was not allocated or has
    been freed is undefined. *)
Definition free_ (addr : option nat) : M MockMempool unit :=
  match addr with
  | None => mret tt
  | Some a =>
      h ← gets heap;
      if decide (a ∈ h) then modify (λ p, mkMock (addr_to_id p) (id_to_addr p) (h ∖ {[a]}) (lock p))
      else throw undefined_behaviour
  end.

(** The body of the loop of [get] at the first null entry. *)
Definition get_at (i : nat) : M MockMempool nat :=
  h ← gets heap;
  match aligned_alloc h with
  | None => throw bad_alloc
  | Some o =>
      modify (λ p, mkMock (addr_to_id p) (id_to_addr p) ({[o]} ∪ heap p) (lock p));;
      modify (λ p, mkMock (addr_to_id p) (<[i := Some o]> (id_to_addr p)) (heap p) (lock p));;
      modify (λ p, mkMock (<[o := i]> (addr_to_id p)) (id_to_addr p) (heap p) (lock p));;
      mret o
  end.

Fixpoint get_loop (l : list nat) : M MockMempool nat :=
  match l with
  | [] => throw bad_alloc
  | i :: l' =>
      t ← gets id_to_addr;
      a ← or_ub (t !! i);
      if bool_decide (a = None) then get_at i else get_loop l'
  end.

Definition get : M MockMempool nat :=
  n ← gets (λ p, length (id_to_addr p));
  get_loop (range_up 0 n).

Definition release (addr : nat) : M MockMempool unit :=
  m ← gets addr_to_id;
  i ← or_ub (m !! addr);
  t ← gets id_to_addr;
  a ← or_ub (t !! i);
  free_ a;;
  modify (λ p, mkMock (addr_to_id p) (<[i := None]> (id_to_addr p)) (heap p) (lock p));;
  modify (λ p, mkMock (delete addr (addr_to_id p)) (id_to_addr p) (heap p) (lock p)).

Definition getById (id : nat) : M MockMempool nat :=
  t ← gets id_to_addr;
  obj ← or_ub (t !! id);
  assert_ (bool_decide (obj ≠ None));;
  or_ub obj.

Definition getId (addr : nat) : M MockMempool nat :=
  m ← gets addr_to_id;
  or_ub (m !! addr).

Definition MockMempool_dtor : M MockMempool unit :=
  t ← gets id_to_addr;
  for_each t (λ i, assert_ (bool_decide (i = None))).

Definition operator_new : M MockMempool nat := get.
Definition operator_delete (ptr : nat) : M MockMempool unit := release ptr.

(** ** The calls as a transition system *)

Inductive mock_step : relation MockMempool :=
| step_new p a p' : operator_new p = (Ok a, p') → mock_step p p'
| step_delete p a p' : operator_delete a p = (Ok tt, p') → mock_step p p'.

(** The tables are inverse to each other, and every address of them is
    allocated. *)
Record mock_wf p : Prop := {
  mw_len : length (id_to_addr p) = ITEM_CNT;
  mw_inverse : ∀ a i, addr_to_id p !! a = Some i ↔ id_to_addr p !! i = Some (Some a);
  mw_heap : ∀ a i, addr_to_id p !! a = Some i → a ∈ heap p;
}.

Hypothesis aligned_alloc_fresh : ∀ h a, aligned_alloc h = Some a → a ∉ h.

Lemma static_wf h : mock_wf (static_storage h).
Proof.
  split; cbn.
  - apply length_replicate.
  - intros a i. rewrite lookup_empty. split; [done|]. by intros [? _]%lookup_replicate.
  - intros a i. by rewrite lookup_empty.
Qed.

(** The entry a successful [get] fills. *)
Lemma get_loop_inv l p a p' :
  get_loop l p = (Ok a, p') →
  ∃ l1 i l2, l = l1 ++ i :: l2 ∧ (∀ j, j ∈ l1 → ∃ b, id_to_addr p !! j = Some (Some b))
    ∧ id_to_addr p !! i = Some None ∧ a ∉ heap p
    ∧ p' = mkMock (<[a := i]> (addr_to_id p)) (<[i := Some a]> (id_to_addr p)) ({[a]} ∪ heap p) (lock p).
Proof using aligned_alloc_fresh.
  induction l as [|i l IH]; [done|]. cbn [get_loop]. rewrite bind_gets.
  destruct (id_to_addr p !! i) as [[b|]|] eqn:Hi; cbn [or_ub]; rewrite ?bind_ret; [| |done].
  - rewrite bool_decide_false by done. intros (l1 & j & l2 & -> & Hl1 & Hj & Ha & ->)%IH. exists (i :: l1), j, l2.
    split_and!; [done| |done..]. intros k [->|Hk]%elem_of_cons; [by exists b|by apply Hl1].
  - rewrite bool_decide_true by done. unfold get_at. rewrite bind_gets.
    destruct (aligned_alloc (heap p)) as [o|] eqn:Ho; [|done]. intros [= <- <-].
    exists [], i, l. split_and!; [done|by intros j ?%elem_of_nil|done|by apply aligned_alloc_fresh|done].
Qed.

Lemma wf_get p a i :
  mock_wf p → id_to_addr p !! i = Some None → a ∉ heap p →
  mock_wf (mkMock (<[a := i]> (addr_to_id p)) (<[i := Some a]> (id_to_addr p)) ({[a]} ∪ heap p) (lock p)).
Proof.
  intros [Hl Hinv Hh] Hi Ha. pose proof (lookup_lt_Some _ _ _ Hi) as Hlt. split; cbn.
  - by rewrite length_insert.
  - intros b j. destruct (decide (a = b)) as [<-|Hab].
    + rewrite lookup_insert_eq. split; [intros [= <-]; by apply list_lookup_insert_eq|].
      intros [[-> _]|[_ Hj%Hinv%Hh]]%list_lookup_insert_Some; done.
    + rewrite lookup_insert_ne by done. rewrite Hinv, list_lookup_insert_Some. split; [|naive_solver].
      intros Hj. right. split; [|done]. intros ->. by rewrite Hi in Hj.
  - intros b j. rewrite lookup_insert_Some. intros [[<- _]|[_ Hb%Hh]]; set_solver.
Qed.

Lemma wf_release p a p' : mock_wf p → release a p = (Ok tt, p') → mock_wf p' ∧ addr_to_id p' = delete a (addr_to_id p).
Proof.
  intros [Hl Hinv Hh]. unfold release. rewrite bind_gets. destruct (addr_to_id p !! a) as [i|] eqn:Ha; [|done].
  cbn [or_ub]. rewrite bind_ret, bind_gets. pose proof Ha as Hi%Hinv. rewrite Hi. cbn [or_ub]. rewrite bind_ret.
  unfold free_. rewrite bind_assoc, bind_gets. rewrite decide_True by (by eapply Hh). intros [= <-]. split; [|done].
  pose proof (lookup_lt_Some _ _ _ Hi) as Hlt. split; cbn.
  - by rewrite length_insert.
  - intros b j. rewrite lookup_delete_Some, Hinv, list_lookup_insert_Some. split.
    + intros [Hab Hj]. right. split; [intros ->; rewrite Hi in Hj; congruence|done].
    + intros [(_ & ? & _)|[Hij Hj]]; [done|]. split; [|done]. intros <-. apply Hij.
      apply Hinv in Hj. congruence.
  - intros b j [Hab Hb%Hh]%lookup_delete_Some. set_solver.
Qed.

Lemma reachable_wf h p : rtc mock_step (static_storage h) p → mock_wf p.
Proof using aligned_alloc_fresh.
  intros Hr. assert (mock_wf (static_storage h)) as Hwf by apply static_wf. revert Hwf.
  induction Hr as [|p p1 p2 Hs _ IH]; intros Hwf; [done|]. apply IH. destruct Hs as [p a p' Hs|p a p' Hs].
  - unfold operator_new, get in Hs. rewrite bind_gets in Hs.
    apply get_loop_inv in Hs as (l1 & i & l2 & _ & _ & Hi & Ha & ->). by apply wf_get.
  - by eapply wf_release.
Qed.

Lemma getId_iff p a i : ⟪ getId a, p ⟫ ⇓ ⟪ i, p ⟫ ↔ addr_to_id p !! a = Some i.
Proof. unfold getId. run_pure. destruct (addr_to_id p !! a); (split; [by intros [= ->]|by intros [= ->]]). Qed.

Lemma getById_iff p a i : ⟪ getById i, p ⟫ ⇓ ⟪ a, p ⟫ ↔ id_to_addr p !! i = Some (Some a).
Proof. unfold getById. run_pure. destruct (id_to_addr p !! i) as [[b|]|]; (split; [by intros [= ->]|by intros [= ->]]). Qed.

(** The first entries of a range. *)
Lemma range_split n l1 i l2 : range_up 0 n = l1 ++ i :: l2 → l1 = seq 0 i.
Proof.
  unfold range_up. rewrite Nat.sub_0_r. intros H.
  assert (seq 0 n !! length l1 = Some i) as [-> Hi]%lookup_seq by (by rewrite H, list_lookup_middle).
  cbn. pose proof (f_equal (take (length l1)) H) as Ht. rewrite take_app_length, take_seq in Ht.
  rewrite Nat.min_l in Ht by lia. by symmetry.
Qed.

(** C25. In every state that calls can reach the two tables are inverse to each
    other; an allocation takes the lowest free identifier for a new address,
    and a deletion of an address frees its identifier; neither touches the
    other entries. *)
Theorem mock_tables_inverse h p :
  rtc mock_step (static_storage h) p →
  (∀ a i, ⟪ getId a, p ⟫ ⇓ ⟪ i, p ⟫ ↔ ⟪ getById i, p ⟫ ⇓ ⟪ a, p ⟫)
  ∧ (∀ a p', ⟪ operator_new, p ⟫ ⇓ ⟪ a, p' ⟫ →
       ∃ i, ⟪ getId a, p' ⟫ ⇓ ⟪ i, p' ⟫ ∧ a ∉ heap p
         ∧ (∀ j, j < i → ∃ b, ⟪ getById j, p ⟫ ⇓ ⟪ b, p ⟫)
         ∧ ∀ b j, b ≠ a → ⟪ getId b, p' ⟫ ⇓ ⟪ j, p' ⟫ ↔ ⟪ getId b, p ⟫ ⇓ ⟪ j, p ⟫)
  ∧ (∀ a p', ⟪ operator_delete a, p ⟫ ⇓ ⟪ tt, p' ⟫ →
       ∀ b j, ⟪ getId b, p' ⟫ ⇓ ⟪ j, p' ⟫ ↔ b ≠ a ∧ ⟪ getId b, p ⟫ ⇓ ⟪ j, p ⟫).
Proof using aligned_alloc_fresh.
  intros Hr%reachable_wf. split_and!.
  - intros a i. by rewrite getId_iff, getById_iff, (mw_inverse _ Hr).
  - unfold operator_new, get. intros a p'. rewrite bind_gets.
    intros (l1 & i & l2 & Hrange%range_split & Hl1 & Hi & Ha & ->)%get_loop_inv. subst l1. exists i.
    rewrite getId_iff. cbn. rewrite lookup_insert_eq. split_and!; [done|done| |].
    + intros j Hj. destruct (Hl1 j) as [b Hb]; [apply elem_of_seq; lia|]. exists b. by apply getById_iff.
    + intros b j Hb. rewrite !getId_iff. cbn. by rewrite lookup_insert_ne.
  - intros a p' [_ Hd]%wf_release b j; [|done]. rewrite !getId_iff, Hd, lookup_delete_Some. naive_solver.
Qed.
End operations.

(** An allocator that counts. *)
Definition next_address (h : gset nat) : option nat := Some (fresh h).

Lemma mock_tables_inverse_witness :
  ∃ p, rtc (mock_step next_address) (static_storage 4 ∅) p
    ∧ (∀ a i, getId a p = (Ok i, p) ↔ getById i p = (Ok a, p)).
Proof.
  set (p1 := (operator_new next_address (static_storage 4 ∅)).2).
  exists p1. assert (rtc (mock_step next_address) (static_storage 4 ∅) p1) as Hr.
  { apply rtc_once. eapply step_new. vm_compute. reflexivity. }
  split; [exact Hr|].
  apply (mock_tables_inverse 4 next_address) with (h := ∅); [|exact Hr].
  intros h a [= <-]. apply is_fresh.
Defined.
End MockPool.
