(* ===== verification/Node.v ===== *)
(** * B-tree nodes and the memory they live in
      ([b_tree_cfg.h], [b_tree_node.h], [b_tree_node_navigator.h])

    A node is a record of arrays; nodes live in a [DynamicMempool] and are
    referred to by their index in it.  Every access to a node is a computation
    over the pool that fails on a dead node, on an index outside of an array
    and on a violated [assert].  The code under [#ifndef NDEBUG] is included:
    this is the build with assertions. *)
From S2P Require Import Prelude Range RuleValue Mempool.
Local Open Scope Z_scope.

(** ** Configuration ([_BTreeCfg]) *)

Class BTreeCfg : Type := mkCfg {
  KEY_SIZE : nat;          (* sizeof (Key_t) *)
  D : nat;
  MAX_NODE_CNT : Z;
  T : nat;
  PATH_COMPRESSION : bool;
}.

(** A [Node *] is the index of the node in the pool. *)
Notation ptr := nat (only parsing).

Section Node.
Context `{cfg : !BTreeCfg} {V : Type} `{!RuleValue V}.

Definition MIN_DEGREE : nat := (T - 1)%nat.

Definition MAX_DEGREE : nat := (2 * T - 1)%nat.

(** [sizeof (index_t)]: [uint16_t] or [uint32_t]. *)
Definition INDEX_SIZE : nat := if MAX_NODE_CNT <? 65535 then 2%nat else 4%nat.

Definition INVALID_INDEX : Z := T_max INDEX_SIZE.

(** ** The node ([_BTreeNode]) *)

(** An entry of [dim_index] is [None] until it is written: the constructor
    leaves the array uninitialised. *)
Record Node : Type := mkNode {
  keys : list Range1d;
  dim_index : list (option nat);
  nvalue : list V;
  next_level : list Z;
  child_index : list Z;
  key_mask : Z;
  key_cnt : nat;
  is_leaf : bool;
  is_compressed : bool;
  parent : option nat;
}.

Definition clean_children (n : Node) : Node :=
  mkNode (keys n) (dim_index n) (nvalue n)
    (replicate MAX_DEGREE INVALID_INDEX) (replicate (S MAX_DEGREE) INVALID_INDEX)
    (key_mask n) (key_cnt n) (is_leaf n) (is_compressed n) (parent n).

Definition new_Node : Node :=
  let m := T_max KEY_SIZE in
  mkNode (replicate MAX_DEGREE (mkRange m m)) (replicate 16 None)
    (replicate MAX_DEGREE rv_default)
    (replicate MAX_DEGREE INVALID_INDEX) (replicate (S MAX_DEGREE) INVALID_INDEX)
    0 0 true false None.

Definition node_set_dim (index : nat) (val : nat) (n : Node) : Node :=
  mkNode (keys n) (<[index := Some val]> (dim_index n)) (nvalue n) (next_level n)
    (child_index n) (key_mask n) (key_cnt n) (is_leaf n) (is_compressed n) (parent n).

Definition node_set_key (index : nat) (k : KeyInfo V) (n : Node) : Node :=
  mkNode (<[index := key k]> (keys n)) (dim_index n) (<[index := kvalue k]> (nvalue n))
    (<[index := knext_level k]> (next_level n)) (child_index n) (key_mask n) (key_cnt n)
    (is_leaf n) (is_compressed n) (parent n).

Definition node_set_value (index : nat) (v : V) (n : Node) : Node :=
  mkNode (keys n) (dim_index n) (<[index := v]> (nvalue n)) (next_level n)
    (child_index n) (key_mask n) (key_cnt n) (is_leaf n) (is_compressed n) (parent n).

Definition node_set_next_level (index : nat) (i : Z) (n : Node) : Node :=
  mkNode (keys n) (dim_index n) (nvalue n) (<[index := i]> (next_level n))
    (child_index n) (key_mask n) (key_cnt n) (is_leaf n) (is_compressed n) (parent n).

Definition node_set_child_index (index : nat) (i : Z) (n : Node) : Node :=
  mkNode (keys n) (dim_index n) (nvalue n) (next_level n)
    (<[index := i]> (child_index n)) (key_mask n) (key_cnt n) (is_leaf n)
    (is_compressed n) (parent n).

Definition node_set_key_cnt (c : nat) (n : Node) : Node :=
  mkNode (keys n) (dim_index n) (nvalue n) (next_level n) (child_index n)
    (Z.shiftl 1 (Z.of_nat c) - 1) c (is_leaf n) (is_compressed n) (parent n).

Definition node_set_is_leaf (b : bool) (n : Node) : Node :=
  mkNode (keys n) (dim_index n) (nvalue n) (next_level n) (child_index n)
    (key_mask n) (key_cnt n) b (is_compressed n) (parent n).

Definition node_set_is_compressed (b : bool) (n : Node) : Node :=
  mkNode (keys n) (dim_index n) (nvalue n) (next_level n) (child_index n)
    (key_mask n) (key_cnt n) (is_leaf n) b (parent n).

Definition node_set_parent (p : option nat) (n : Node) : Node :=
  mkNode (keys n) (dim_index n) (nvalue n) (next_level n) (child_index n)
    (key_mask n) (key_cnt n) (is_leaf n) (is_compressed n) p.

(** [get_key] and [get_dim] of a node value. *)
Definition node_key (n : Node) (index : nat) : option (KeyInfo V) :=
  k ← keys n !! index;
  v ← nvalue n !! index;
  nl ← next_level n !! index;
  Some (mkKeyInfo k v nl).

Definition node_dim (n : Node) (index : nat) : option nat :=
  mjoin (dim_index n !! index).

(** ** Node memory *)

Definition Heap : Type := Pool.DynamicMempool Node.

Local Notation HM A := (M Heap A).

Definition node_allocator_get : HM ptr := Pool.get false new_Node.

Definition node_allocator_release (a : ptr) : HM unit := Pool.release false a.

Definition load (a : ptr) : HM Node := Pool.load a.

(** [a->field = ...] *)
Definition upd (a : ptr) (f : Node → Node) : HM unit :=
  n ← load a;
  Pool.store a (f n).

Definition get_dim (a : ptr) (index : nat) : HM nat :=
  n ← load a;
  or_ub (node_dim n index).

Definition set_dim (a : ptr) (index : nat) (val : nat) : HM unit :=
  n ← load a;
  _ ← or_ub (dim_index n !! index);
  upd a (node_set_dim index val).

Definition get_key (a : ptr) (index : nat) : HM (KeyInfo V) :=
  n ← load a;
  assert_ (index <? MAX_DEGREE)%nat;;
  or_ub (node_key n index).

Definition set_key (a : ptr) (index : nat) (key_info : KeyInfo V) : HM unit :=
  n ← load a;
  assert_ (index <? MAX_DEGREE)%nat;;
  _ ← or_ub (node_key n index);
  upd a (node_set_key index key_info).

(** The argument is a [size_t]: a negative difference wraps around and
    violates the assertion. *)
Definition set_key_cnt (a : ptr) (key_cnt_ : Z) : HM unit :=
  assert_ ((0 <=? key_cnt_) && (key_cnt_ <=? Z.of_nat MAX_DEGREE));;
  upd a (node_set_key_cnt (Z.to_nat key_cnt_)).

(** [this] is the source [a]. *)
Definition move_key (a : ptr) (src_i : nat) (dst : ptr) (dst_i : nat) : HM unit :=
  k ← get_key a src_i;
  set_key dst dst_i k;;
  d ← get_dim a src_i;
  set_dim dst dst_i d.

(** [n.child_index[index] = i] *)
Definition set_child_index (a : ptr) (index : nat) (i : Z) : HM unit :=
  n ← load a;
  _ ← or_ub (child_index n !! index);
  upd a (node_set_child_index index i).

Definition get_child_index (a : ptr) (index : nat) : HM Z :=
  n ← load a;
  or_ub (child_index n !! index).

Definition shift_items_on_right_to_left (a : ptr) (start : nat) : HM unit :=
  n ← load a;
  for_each (range_up (start + 1) (key_cnt n)) (λ i, move_key a i a (i - 1));;
  for_each (range_up (start + 2) (S (key_cnt n)))
    (λ i, c ← get_child_index a i; set_child_index a (i - 1) c).

(** ** Navigation ([_BTreeNodeNavigator]) *)

(** Conversion of a pool index to the [index_t] a node stores. *)
Definition to_index (id : nat) : Z := to_T INDEX_SIZE (Z.of_nat id).

Definition set_child (n : ptr) (index : nat) (child : option ptr) : HM unit :=
  match child with
  | None => set_child_index n index INVALID_INDEX
  | Some c =>
      id ← Pool.getId c;
      set_child_index n index (to_index id);;
      upd c (node_set_parent (Some n))
  end.

Definition set_next_level (n : ptr) (index : nat) (i : Z) : HM unit :=
  nd ← load n;
  _ ← or_ub (next_level nd !! index);
  upd n (node_set_next_level index i).

Definition set_next_layer (n : ptr) (index : nat) (next_layer_root : option ptr) : HM unit :=
  match next_layer_root with
  | None => set_next_level n index INVALID_INDEX
  | Some r => id ← Pool.getId r; set_next_level n index (to_index id)
  end.

Definition by_index (index : Z) : HM ptr := Pool.getById (Z.to_nat index).

(** [child] and [child_const]. *)
Definition child (n : ptr) (index : nat) : HM (option ptr) :=
  i ← get_child_index n index;
  if i =? INVALID_INDEX then mret None else p ← by_index i; mret (Some p).

(** [get_next_layer] and [get_next_layer_const]. *)
Definition get_next_layer (n : ptr) (index : nat) : HM (option ptr) :=
  nd ← load n;
  i ← or_ub (next_level nd !! index);
  if i =? INVALID_INDEX then mret None else p ← by_index i; mret (Some p).

Definition move_child (n : ptr) (src_i : nat) (dst : ptr) (dst_i : nat) : HM unit :=
  c ← child n src_i;
  set_child dst dst_i c.

(** [transfer_items]: [src] is the source; the destination index of every
    item is its source index plus [dst_start]. *)
Definition transfer_items (src : ptr) (src_start : nat) (dst : ptr) (dst_start key_cnt_ : nat)
    : HM unit :=
  let end_ := (src_start + key_cnt_)%nat in
  for_each (range_up src_start end_) (λ i, move_key src i dst (i + dst_start));;
  d ← load dst;
  if is_leaf d then mret tt
  else for_each (range_up src_start (S end_))
         (λ i, ch ← child src i; set_child dst (i + dst_start) ch).

(** [size]: the number of keys of the subtree and of the layers below it. *)
Fixpoint size (fuel : nat) (n : ptr) : HM nat :=
  match fuel with
  | O => throw no_fuel
  | S fuel =>
      nd ← load n;
      s ← fold_each (range_up 0 (key_cnt nd + 1)) (key_cnt nd) (λ s i,
        ch ← child n i;
        match ch with Some c => z ← size fuel c; mret (s + z)%nat | None => mret s end);
      fold_each (range_up 0 (key_cnt nd)) s (λ s i,
        nl ← get_next_layer n i;
        match nl with Some l => z ← size fuel l; mret (s + z)%nat | None => mret s end)
  end.

(** [integrity_check]: the set [seen] of the source is never written, so its
    membership test always succeeds and is left out. *)
Fixpoint integrity_check (fuel : nat) (n : ptr) (dimension_order : list nat) (level : nat)
    : HM unit :=
  match fuel with
  | O => throw no_fuel
  | S fuel =>
      nd ← load n;
      assert_ (0 <? key_cnt nd)%nat;;
      assert_ (key_cnt nd <=? MAX_DEGREE)%nat;;
      (if is_compressed nd then
         assert_ (is_leaf nd);;
         assert_ (1 <? key_cnt nd)%nat;;
         for_each (range_up 0 (key_cnt nd)) (λ i,
           d ← (match dimension_order !! (level + i)%nat with
                | Some d => mret d | None => throw out_of_range end);
           actual_d ← get_dim n i;
           assert_ (d =? actual_d)%nat)
       else mret tt);;
      (if is_leaf nd then mret tt
       else
         assert_ (negb (is_compressed nd));;
         for_each (range_up 0 (S (key_cnt nd))) (λ i,
           ch ← child n i;
           assert_ (bool_decide (ch ≠ None));;
           c ← or_ub ch;
           cd ← load c;
           assert_ (bool_decide (parent cd = Some n));;
           integrity_check fuel c dimension_order level));;
      for_each (range_up 0 (key_cnt nd)) (λ i,
        _ ← get_key n i;
        nl ← get_next_layer n i;
        match nl with
        | None => mret tt
        | Some l =>
            ld ← load l;
            assert_ (bool_decide (parent ld = None));;
            let l' := if is_compressed nd then (level + 1 + i)%nat else (level + 1)%nat in
            integrity_check fuel l dimension_order l'
        end)
  end.

(** [_BTree::destroy_node] *)
Fixpoint destroy_node (fuel : nat) (n : option ptr) : HM unit :=
  match n with
  | None => mret tt
  | Some a =>
      match fuel with
      | O => throw no_fuel
      | S fuel =>
          nd ← load a;
          (if is_leaf nd then mret tt
           else for_each (range_up 0 (key_cnt nd + 1)) (λ i, c ← child a i; destroy_node fuel c));;
          for_each (range_up 0 (key_cnt nd)) (λ i, l ← get_next_layer a i; destroy_node fuel l);;
          node_allocator_release a
      end
  end.
End Node.
Arguments Node V : clear implicits.
Arguments Heap V : clear implicits.

(** Computations over the memory of the nodes. *)
Notation HM V A := (M (Heap V) A).
