(* ===== verification/NodeLemmas.v ===== *)
(** * Accesses to live nodes

    What the primitive operations on nodes do when the nodes are live, as
    equations: reads return the fields, writes replace one node of the memory
    and nothing else, and an index stored in a node leads back to the node it
    was made from. *)
From S2P Require Import Prelude Range RuleValue Mempool Node.
Local Open Scope Z_scope.

Section NodeLemmas.
Context `{cfg : !BTreeCfg} {V : Type} `{!RuleValue V}.
Implicit Types (p : Heap V) (nd : Node V) (a b : ptr).

(** The memory of the nodes: a well-formed pool, its lock is free and its
    indices fit in an [index_t] different from [INVALID_INDEX]. *)
Record heap_ok p (fl : list nat) : Prop := {
  heap_wf : Pool.pool_wf p fl;
  heap_lock : Pool.lock p = false;
  heap_fits : Z.of_nat (Pool.ITEM_CNT p) ≤ INVALID_INDEX;
}.

Definition node_at p a : option (Node V) := Pool.mempool p !! a.

(** The memory with the node at [a] replaced. *)
Definition put a nd p : Heap V := Pool.set_mempool (<[a := nd]> (Pool.mempool p)) p.

Lemma node_at_put p a b nd :
  node_at (put a nd p) b = if decide (a = b) then Some nd else node_at p b.
Proof.
  unfold node_at, put. cbn. case_decide as H; [subst; apply lookup_insert_eq|].
  by apply lookup_insert_ne.
Qed.

Lemma node_at_put_eq p a nd : node_at (put a nd p) a = Some nd.
Proof. rewrite node_at_put. by rewrite decide_True. Qed.

Lemma node_at_put_ne p a b nd : a ≠ b → node_at (put a nd p) b = node_at p b.
Proof. intros H. rewrite node_at_put. by rewrite decide_False. Qed.

Lemma put_put p a nd nd' : put a nd' (put a nd p) = put a nd' p.
Proof. unfold put. cbn. unfold Pool.set_mempool. cbn. by rewrite insert_insert_eq. Qed.

Lemma heap_ok_put p fl a nd nd0 :
  heap_ok p fl → node_at p a = Some nd0 → heap_ok (put a nd p) fl.
Proof.
  intros [[H1 H2 H3 H4 H5 H6] Hl Hf] Ha.
  assert (∀ i, Pool.allocated (put a nd p) i ↔ Pool.allocated p i) as Hal.
  { intros i. unfold Pool.allocated. cbn. rewrite lookup_insert_is_Some.
    unfold node_at in Ha. split; [|destruct (decide (a = i)); naive_solver].
    intros [<-|[_ ?]]; [by eexists|done]. }
  split; [|done..]. split; cbn; [done..| |].
  - intros i. rewrite Hal. apply H5.
  - intros i Hi%Hal. by apply H6.
Qed.

Lemma heap_bound p fl a nd : heap_ok p fl → node_at p a = Some nd → (a < Pool.ITEM_CNT p)%nat.
Proof. intros [Hw _ _] Ha. eapply Pool.wf_alive; [exact Hw|by eexists]. Qed.

(** ** Indices *)

Lemma INVALID_INDEX_pow : INVALID_INDEX = 2 ^ (8 * Z.of_nat INDEX_SIZE) - 1.
Proof. done. Qed.

Lemma to_index_id p fl a nd :
  heap_ok p fl → node_at p a = Some nd →
  to_index a = Z.of_nat a ∧ to_index a ≠ INVALID_INDEX.
Proof.
  intros Hp Ha. pose proof (heap_bound _ _ _ _ Hp Ha) as Hb.
  pose proof (heap_fits _ _ Hp) as Hf.
  assert (to_index a = Z.of_nat a) as ->; [|lia].
  unfold to_index, to_T. apply Z.mod_small. rewrite INVALID_INDEX_pow in Hf. lia.
Qed.

Lemma getById_ok p fl a nd :
  heap_ok p fl → node_at p a = Some nd → Pool.getById a p = (Ok a, p).
Proof.
  intros Hp Ha. unfold Pool.getById. pose proof (heap_bound _ _ _ _ Hp Ha).
  rewrite bind_gets, bind_assert by side_cond.
  run_ok by (apply Pool.next_free_ok; apply (Pool.wf_mark _ _ (heap_wf _ _ Hp)); by eexists).
  done.
Qed.

Lemma getId_ok p fl a nd :
  heap_ok p fl → node_at p a = Some nd → Pool.getId a p = (Ok a, p).
Proof. apply getById_ok. Qed.

Lemma by_index_ok p fl a nd :
  heap_ok p fl → node_at p a = Some nd → by_index (to_index a) p = (Ok a, p).
Proof.
  intros Hp Ha. destruct (to_index_id _ _ _ _ Hp Ha) as [-> _].
  unfold by_index. rewrite Nat2Z.id. by eapply getById_ok.
Qed.

(** ** Reads *)

Lemma load_ok p a nd : node_at p a = Some nd → load a p = (Ok nd, p).
Proof.
  intros Ha. change (load a p) with (or_ub (S := Heap V) (node_at p a) p). by rewrite Ha.
Qed.

Lemma bind_load {B} p a nd (f : Node V → M (Heap V) B) :
  node_at p a = Some nd → (load a ≫= f) p = f nd p.
Proof. intros Ha. by run_ok by (by apply load_ok). Qed.

Lemma get_key_ok p a nd i ki :
  node_at p a = Some nd → node_key nd i = Some ki → (i < MAX_DEGREE)%nat →
  get_key a i p = (Ok ki, p).
Proof.
  intros Ha Hk Hi. unfold get_key. rewrite (bind_load _ _ _ _ Ha), bind_assert by side_cond.
  by rewrite Hk.
Qed.

Lemma get_dim_ok p a nd i d :
  node_at p a = Some nd → node_dim nd i = Some d → get_dim a i p = (Ok d, p).
Proof. intros Ha Hd. unfold get_dim. rewrite (bind_load _ _ _ _ Ha). by rewrite Hd. Qed.

Lemma child_some p fl a nd i b bd :
  heap_ok p fl → node_at p a = Some nd → child_index nd !! i = Some (to_index b) →
  node_at p b = Some bd → child a i p = (Ok (Some b), p).
Proof.
  intros Hp Ha Hc Hb. destruct (to_index_id _ _ _ _ Hp Hb) as [_ Hne].
  unfold child, get_child_index. rewrite bind_assoc, (bind_load _ _ _ _ Ha), Hc.
  cbn [or_ub]. rewrite bind_ret. rewrite (proj2 (Z.eqb_neq _ _)) by done.
  by run_ok by (by eapply by_index_ok).
Qed.

Lemma child_none p a nd i :
  node_at p a = Some nd → child_index nd !! i = Some INVALID_INDEX → child a i p = (Ok None, p).
Proof.
  intros Ha Hc. unfold child, get_child_index. rewrite bind_assoc, (bind_load _ _ _ _ Ha), Hc.
  cbn [or_ub]. rewrite bind_ret. by rewrite Z.eqb_refl.
Qed.

Lemma next_layer_some p fl a nd i b bd :
  heap_ok p fl → node_at p a = Some nd → next_level nd !! i = Some (to_index b) →
  node_at p b = Some bd → get_next_layer a i p = (Ok (Some b), p).
Proof.
  intros Hp Ha Hc Hb. destruct (to_index_id _ _ _ _ Hp Hb) as [_ Hne].
  unfold get_next_layer. rewrite (bind_load _ _ _ _ Ha), Hc.
  cbn [or_ub]. rewrite bind_ret. rewrite (proj2 (Z.eqb_neq _ _)) by done.
  by run_ok by (by eapply by_index_ok).
Qed.

Lemma next_layer_none p a nd i :
  node_at p a = Some nd → next_level nd !! i = Some INVALID_INDEX →
  get_next_layer a i p = (Ok None, p).
Proof.
  intros Ha Hc. unfold get_next_layer. rewrite (bind_load _ _ _ _ Ha), Hc.
  cbn [or_ub]. rewrite bind_ret. by rewrite Z.eqb_refl.
Qed.

(** ** Writes *)

Lemma upd_ok p a nd (f : Node V → Node V) :
  node_at p a = Some nd → upd a f p = (Ok tt, put a (f nd) p).
Proof.
  intros Ha. unfold upd. rewrite (bind_load _ _ _ _ Ha). unfold Pool.store.
  rewrite bind_ok with (a := nd) (s' := p) by (by apply load_ok). done.
Qed.

Lemma node_key_inv nd i ki :
  node_key nd i = Some ki ↔
  keys nd !! i = Some (key ki) ∧ nvalue nd !! i = Some (kvalue ki)
  ∧ next_level nd !! i = Some (knext_level ki).
Proof.
  unfold node_key. destruct ki as [k v nl]. cbn. split.
  - destruct (keys nd !! i); [|done]. cbn. destruct (nvalue nd !! i); [|done]. cbn.
    destruct (next_level nd !! i); [|done]. cbn. naive_solver.
  - intros (-> & -> & ->). done.
Qed.

(** The arrays have the sizes of the source. *)
Record node_wf nd : Prop := {
  wf_keys : length (keys nd) = MAX_DEGREE;
  wf_dims : length (dim_index nd) = 16%nat;
  wf_values : length (nvalue nd) = MAX_DEGREE;
  wf_next : length (next_level nd) = MAX_DEGREE;
  wf_children : length (child_index nd) = S MAX_DEGREE;
}.

Lemma node_key_total nd i : node_wf nd → (i < MAX_DEGREE)%nat → is_Some (node_key nd i).
Proof.
  intros H Hi. unfold node_key.
  destruct (lookup_lt_is_Some_2 (keys nd) i) as [k ->]; [by rewrite (wf_keys _ H)|].
  destruct (lookup_lt_is_Some_2 (nvalue nd) i) as [v ->]; [by rewrite (wf_values _ H)|].
  destruct (lookup_lt_is_Some_2 (next_level nd) i) as [n ->]; [by rewrite (wf_next _ H)|].
  by eexists.
Qed.

Lemma set_key_ok p a nd i ki :
  node_at p a = Some nd → node_wf nd → (i < MAX_DEGREE)%nat →
  set_key a i ki p = (Ok tt, put a (node_set_key i ki nd) p).
Proof.
  intros Ha Hw Hi. unfold set_key. rewrite (bind_load _ _ _ _ Ha), bind_assert by side_cond.
  destruct (node_key_total nd i Hw Hi) as [k ->]. cbn [or_ub]. rewrite bind_ret.
  by apply upd_ok.
Qed.

Lemma set_dim_ok p a nd i d :
  node_at p a = Some nd → node_wf nd → (i < 16)%nat →
  set_dim a i d p = (Ok tt, put a (node_set_dim i d nd) p).
Proof.
  intros Ha Hw Hi. unfold set_dim. rewrite (bind_load _ _ _ _ Ha).
  destruct (lookup_lt_is_Some_2 (dim_index nd) i) as [k ->]; [by rewrite (wf_dims _ Hw)|].
  cbn [or_ub]. rewrite bind_ret. by apply upd_ok.
Qed.

Lemma set_key_cnt_ok p a nd n :
  node_at p a = Some nd → (n ≤ MAX_DEGREE)%nat →
  set_key_cnt a (Z.of_nat n) p = (Ok tt, put a (node_set_key_cnt n nd) p).
Proof.
  intros Ha Hn. unfold set_key_cnt. rewrite bind_assert by (apply andb_true_iff; lia).
  rewrite Nat2Z.id. by apply upd_ok.
Qed.

Lemma set_child_index_ok p a nd i c :
  node_at p a = Some nd → node_wf nd → (i ≤ MAX_DEGREE)%nat →
  set_child_index a i c p = (Ok tt, put a (node_set_child_index i c nd) p).
Proof.
  intros Ha Hw Hi. unfold set_child_index. rewrite (bind_load _ _ _ _ Ha).
  destruct (lookup_lt_is_Some_2 (child_index nd) i) as [k ->];
    [rewrite (wf_children _ Hw); lia|].
  cbn [or_ub]. rewrite bind_ret. by apply upd_ok.
Qed.

Lemma set_next_layer_ok p fl a nd i b bd :
  heap_ok p fl → node_at p a = Some nd → node_wf nd → (i < MAX_DEGREE)%nat →
  node_at p b = Some bd →
  set_next_layer a i (Some b) p = (Ok tt, put a (node_set_next_level i (to_index b) nd) p).
Proof.
  intros Hp Ha Hw Hi Hb. unfold set_next_layer. run_ok by (by eapply getId_ok).
  unfold set_next_level. rewrite (bind_load _ _ _ _ Ha).
  destruct (lookup_lt_is_Some_2 (next_level nd) i) as [k ->]; [by rewrite (wf_next _ Hw)|].
  cbn [or_ub]. rewrite bind_ret. by apply upd_ok.
Qed.

(** A key moved between two places. *)
Lemma move_key_ok p a nd i b bd j ki d :
  node_at p a = Some nd → node_key nd i = Some ki → node_dim nd i = Some d →
  (i < MAX_DEGREE)%nat → node_at p b = Some bd → node_wf bd → (j < MAX_DEGREE)%nat →
  (j < 16)%nat → (a ≠ b ∨ i ≠ j) →
  move_key a i b j p = (Ok tt, put b (node_set_dim j d (node_set_key j ki bd)) p).
Proof.
  intros Ha Hk Hd Hi Hb Hw Hj Hj' Hne. unfold move_key.
  run_ok by (by eapply get_key_ok). run_ok by (by apply set_key_ok).
  assert (get_dim a i (put b (node_set_key j ki bd) p)
          = (Ok d, put b (node_set_key j ki bd) p)) as Hg.
  { destruct (decide (a = b)) as [->|Hab].
    - apply (get_dim_ok _ _ (node_set_key j ki bd)); [apply node_at_put_eq|].
      by simplify_eq.
    - by apply (get_dim_ok _ _ nd); [rewrite node_at_put_ne|]. }
  run_ok by (exact Hg).
  rewrite (set_dim_ok _ _ (node_set_key j ki bd)); [by rewrite put_put|apply node_at_put_eq| |done].
  destruct Hw. split; cbn; by rewrite ?length_insert.
Qed.

End NodeLemmas.
