(* ===== verification/Search.v ===== *)
(** * Lookup ([b_tree_search.h])

    The linear scans of a node, the descent of one layer, the lookup of a
    packet through all layers, and the search for the path of a rule.  A
    packet is the sequence of its bytes; [in_packet_position] says where each
    field is read. *)
From S2P Require Import Prelude Range RuleValue Mempool Node.
Local Open Scope Z_scope.

(** ** The scans of one node *)

Record SearchResult : Type := mkSearchResult { val_index : nat; found : bool }.

(** The argument of the two instances of the templates: the range of a rule
    or the value of a field. *)
Inductive search_val : Type :=
| by_range (r : Range1d)
| by_value (v : Z).

(** The body of the loops of [search_seq]: [Some b] leaves the loop with
    [in_range = b]. *)
Definition search_seq_step (val : search_val) (cur : Range1d) : option bool :=
  match val with
  | by_range r =>
      if range_lt_val r (low cur) then Some false
      else if range_eq cur r then Some true else None
  | by_value v =>
      if v <? low cur then Some false
      else if in_range cur v then Some true else None
  end.

(** [n] iterations from [val_index = i]. *)
Fixpoint search_seq (ks : list Range1d) (i n : nat) (val : search_val) : option SearchResult :=
  match n with
  | O => Some (mkSearchResult i false)
  | S n =>
      cur ← ks !! i;
      match search_seq_step val cur with
      | Some b => Some (mkSearchResult i b)
      | None => search_seq ks (S i) n val
      end
  end.

(** Only the first key of a compressed node is looked at. *)
Definition search_compressed_seq (ks : list Range1d) (val : search_val) : option SearchResult :=
  k ← ks !! 0%nat;
  Some (mkSearchResult 0
    match val with by_range r => range_eq k r | by_value v => in_range k v end).

(** ** Fields of a packet *)

Record in_packet_position_t : Type := mkPos {
  offset : nat;
  psize : nat;
  is_big_endian : bool;
}.

(** The [n]-byte little-endian integer at [off]. *)
Fixpoint read_le (bytes : list Z) (off n : nat) : option Z :=
  match n with
  | O => Some 0
  | S n => b ← bytes !! off; v ← read_le bytes (S off) n; Some (Z.lor b (Z.shiftl v 8))
  end.

Section Search.
Context `{cfg : !BTreeCfg} {V : Type} `{!RuleValue V}.

(** The positions of the second constructor: consecutive 16-bit values. *)
Definition default_in_packet_position : list in_packet_position_t :=
  (λ i, mkPos (i * 2) 2 false) <$> seq 0 D.

(** The memory of a [key_vec_t]. *)
Definition key_vec_bytes (v : list Z) : list Z :=
  v ≫= (λ x, byte_of x <$> seq 0 KEY_SIZE).

Definition get_val (in_packet_position : list in_packet_position_t) (val_vec : list Z)
    (dim : nat) : HM V Z :=
  assert_ (dim <? length in_packet_position)%nat;;
  p ← or_ub (in_packet_position !! dim);
  if (psize p =? 1)%nat then or_ub (val_vec !! offset p)
  else if is_big_endian p then
    assert_ (psize p =? 2)%nat;;
    k ← or_ub (read_le val_vec (offset p) 2);
    mret (bswap 2 k)
  else
    assert_ (psize p =? 2)%nat;;
    or_ub (read_le val_vec (offset p) KEY_SIZE).

(** ** One layer *)

Fixpoint search_possition_1d (fuel : nat) (n : option ptr) (val : search_val)
    : HM V (option ptr * nat) :=
  match n with
  | None => mret (None, 0%nat)
  | Some a =>
      match fuel with
      | O => throw no_fuel
      | S fuel =>
          nd ← load a;
          s ← or_ub (if is_compressed nd then search_compressed_seq (keys nd) val
                     else search_seq (keys nd) 0 (key_cnt nd) val);
          if found s then mret (Some a, val_index s)
          else if is_leaf nd || is_compressed nd then mret (None, 0%nat)
          else c ← child a (val_index s); search_possition_1d fuel c val
      end
  end.

(** [findKey] *)
Fixpoint findKey_loop (a : ptr) (n i : nat) (k : Range1d) : HM V nat :=
  match n with
  | O => mret i
  | S n =>
      ki ← get_key a i;
      if key_lt_range ki k then findKey_loop a n (S i) k else mret i
  end.

Definition findKey (a : ptr) (k : Range1d) : HM V nat :=
  nd ← load a;
  findKey_loop a (key_cnt nd) 0 k.

(** The predecessor and the successor of a key in the subtrees around it. *)
Fixpoint right_most_leaf (fuel : nat) (cur : ptr) : HM V ptr :=
  nd ← load cur;
  if is_leaf nd then mret cur
  else match fuel with
       | O => throw no_fuel
       | S fuel => c ← child cur (key_cnt nd); c ← or_ub c; right_most_leaf fuel c
       end.

Definition getPred (fuel : nat) (node : ptr) (idx : nat) : HM V (KeyInfo V) :=
  c ← child node idx;
  c ← or_ub c;
  cur ← right_most_leaf fuel c;
  nd ← load cur;
  get_key cur (pred_w 8 (key_cnt nd)).

Fixpoint left_most_leaf (fuel : nat) (cur : ptr) : HM V ptr :=
  nd ← load cur;
  if is_leaf nd then mret cur
  else match fuel with
       | O => throw no_fuel
       | S fuel => c ← child cur 0; c ← or_ub c; left_most_leaf fuel c
       end.

Definition getSucc (fuel : nat) (node : ptr) (idx : nat) : HM V (KeyInfo V) :=
  c ← child node (idx + 1);
  c ← or_ub c;
  cur ← left_most_leaf fuel c;
  get_key cur 0.

(** ** All layers *)

(** The loop of [search_rest_of_path_in_compressed_node]: [n] iterations from
    [i2]. *)
Fixpoint search_rest_loop (pos : list in_packet_position_t) (a : ptr) (val_vec : list Z)
    (n i2 : nat) (res : V) (next_n : option ptr) (add_to_i : nat)
    : HM V (V * option ptr * nat) :=
  match n with
  | O => mret (res, next_n, add_to_i)
  | S n =>
      k ← get_key a i2;
      d ← get_dim a i2;
      val ← get_val pos val_vec d;
      if in_range (key k) val then
        nd ← load a;
        v ← or_ub (nvalue nd !! i2);
        let res := if is_valid v then v else res in
        _next_n ← get_next_layer a i2;
        match _next_n with
        | Some _ => search_rest_loop pos a val_vec n (S i2) res _next_n (i2 + 1)
        | None => search_rest_loop pos a val_vec n (S i2) res next_n add_to_i
        end
      else mret (res, next_n, add_to_i)
  end.

(** The result: the next node, the best value and the new level. *)
Definition search_rest_of_path_in_compressed_node (pos : list in_packet_position_t) (a : ptr)
    (val_vec : list Z) (res : V) (i : nat) : HM V (option ptr * V * nat) :=
  nd ← load a;
  v0 ← or_ub (nvalue nd !! 0%nat);
  let res := if is_valid v0 then v0 else res in
  '(res, next_n, add_to_i) ← search_rest_loop pos a val_vec (key_cnt nd - 1) 1 res None 0;
  mret (next_n, res, (i + add_to_i)%nat).

Fixpoint search_loop (fuel : nat) (pos : list in_packet_position_t) (dimension_order : list nat)
    (val_vec : list Z) (n : option ptr) (i : nat) (res : V) : HM V V :=
  match n with
  | None => mret res
  | Some _ =>
      match fuel with
      | O => throw no_fuel
      | S fuel =>
          d ← or_ub (dimension_order !! i);
          val ← get_val pos val_vec d;
          r ← search_possition_1d fuel n (by_value val);
          match r.1 with
          | None => mret res
          | Some a =>
              nd ← load a;
              if is_compressed nd then
                '(n, res, i) ← search_rest_of_path_in_compressed_node pos a val_vec res i;
                search_loop fuel pos dimension_order val_vec n i res
              else
                v ← or_ub (nvalue nd !! r.2);
                let res := if is_valid v then v else res in
                n ← get_next_layer a r.2;
                search_loop fuel pos dimension_order val_vec n (S i) res
          end
      end
  end.

(** [search(const uint8_t *val_vec)] on the tree with the given root. *)
Definition search (fuel : nat) (pos : list in_packet_position_t) (dimension_order : list nat)
    (root : option ptr) (val_vec : list Z) : HM V V :=
  search_loop fuel pos dimension_order val_vec root 0 rv_default.

(** [search(const key_vec_t &)] *)
Definition search_vec (fuel : nat) (pos : list in_packet_position_t) (dimension_order : list nat)
    (root : option ptr) (_val : list Z) : HM V V :=
  search fuel pos dimension_order root (key_vec_bytes _val).

(** ** The path of a rule *)

(** Root of the layer, node of the item, index of the item. *)
Definition path_item : Type := ptr * ptr * nat.

(** The walk along the keys of a compressed node, from key [i2] on: whether
    all of them match, and the items of the matching ones. *)
Fixpoint search_path_compressed (a : ptr) (dimension_order : list nat) (rule : rule_spec_t V)
    (level n i2 : nat) : HM V (bool * list path_item) :=
  match n with
  | O => mret (true, [])
  | S n =>
      _d ← or_ub (dimension_order !! (level + i2)%nat);
      actual_d ← get_dim a i2;
      assert_ (_d =? actual_d)%nat;;
      k ← or_ub (fields rule !! _d);
      ki ← get_key a i2;
      if range_ne (key ki) k then mret (false, [])
      else
        '(m, rest) ← search_path_compressed a dimension_order rule level n (S i2);
        mret (m, (a, a, i2) :: rest)
  end.

(** The loop of [search_path]; the items found are returned in order.  The
    block of the debug build reads [dimension_order[level + 1]] at every match,
    also at the last level, where it is out of bounds. *)
Fixpoint search_path_loop (fuel : nat) (n : option ptr) (dimension_order : list nat)
    (rule : rule_spec_t V) (level : nat) : HM V (list path_item) :=
  match n with
  | None => mret []
  | Some a =>
      match fuel with
      | O => throw no_fuel
      | S fuel =>
          d ← or_ub (dimension_order !! level);
          n_d ← get_dim a 0;
          assert_ (n_d =? d)%nat;;
          val ← or_ub (fields rule !! d);
          r ← search_possition_1d fuel n (by_range val);
          match r.1 with
          | None => mret []
          | Some b =>
              b_d ← get_dim b r.2;
              assert_ (b_d =? d)%nat;;
              nl ← get_next_layer b r.2;
              _d ← or_ub (dimension_order !! (level + 1)%nat);
              (match nl with
               | None => mret tt
               | Some l =>
                   nl_dim ← get_dim l 0;
                   assert_ (nl_dim =? _d)%nat
               end);;
              na ← load a;
              nb ← load b;
              if is_compressed nb && (r.2 <? key_cnt na)%nat then
                assert_ (1 <? key_cnt na)%nat;;
                assert_ (a =? b)%nat;;
                '(m, items) ← search_path_compressed a dimension_order rule level
                                (key_cnt na - 1) 1;
                if m : bool then
                  nl ← get_next_layer a (key_cnt na - 1);
                  rest ← search_path_loop fuel nl dimension_order rule (level + key_cnt na);
                  mret ((a, b, r.2) :: items ++ rest)
                else mret ((a, b, r.2) :: items)
              else
                rest ← search_path_loop fuel nl dimension_order rule (S level);
                mret ((a, b, r.2) :: rest)
          end
      end
  end.

(** The check of the continuity of the path, from its [i]-th item on, after
    the item [prev]. *)
Fixpoint search_path_check (root : option ptr) (dimension_order : list nat) (start : nat)
    (prev : option path_item) (path : list path_item) (i : nat) : HM V unit :=
  match path with
  | [] => mret tt
  | (r, n, i2) :: path' =>
      nd ← load n;
      rd ← load r;
      (match prev with
       | None => assert_ (bool_decide (Some r = root))
       | Some (_, _n, _i2) =>
           _nd ← load _n;
           if is_compressed _nd && (_n =? n)%nat then assert_ (i2 =? _i2 + 1)%nat
           else nl ← get_next_layer _n _i2; assert_ (bool_decide (Some r = nl))
       end);;
      assert_ (bool_decide (parent rd = None));;
      (if is_compressed nd then assert_ (r =? n)%nat
       else rd0 ← get_dim r 0; nd0 ← get_dim n 0; assert_ (rd0 =? nd0)%nat);;
      n_d ← get_dim n i2;
      expected_d ← or_ub (dimension_order !! (start + i)%nat);
      assert_ (n_d =? expected_d)%nat;;
      search_path_check root dimension_order start (Some (r, n, i2)) path' (S i)
  end.

Definition search_path (fuel : nat) (root : option ptr) (dimension_order : list nat)
    (rule : rule_spec_t V) (start : nat) : HM V (list path_item) :=
  path ← search_path_loop fuel root dimension_order rule start;
  search_path_check root dimension_order start None path 0;;
  mret path.
End Search.
