(* ===== verification/Layer.v ===== *)
(** * One layer of the tree, abstractly

    A layer is a B-tree over the ranges of one dimension.  [btree] is its
    ghost structure (the addresses of the nodes, their keys and children),
    [flat] the keys in order, and [rep] says that the memory holds it.  The
    next-layer index of a key is part of the key here; [Trie.v] follows it. *)
From S2P Require Import Prelude Range RuleValue Mempool Node NodeLemmas Search.
Local Open Scope Z_scope.

(** ** Interleaving keys and subtrees *)

Section weave.
Context {A : Type}.
Implicit Types (its xs : list A) (xss : list (list A)).

(** [xs0 k0 xs1 k1 ... kn-1 xsn] *)
Fixpoint weave its xss {struct xss} : list A :=
  match xss with
  | [] => its
  | xs :: xss' => xs ++ match its with [] => [] | k :: its' => k :: weave its' xss' end
  end.

(** What precedes and what follows the [i]-th subtree. *)
Definition weave_pre its xss (i : nat) : list A :=
  concat (zip_with (λ xs k, xs ++ [k]) (take i xss) (take i its)).

Definition weave_post its xss (i : nat) : list A :=
  concat (zip_with cons (drop i its) (drop (S i) xss)).

Lemma weave_zip xs its xss :
  length xss = length its → weave its (xs :: xss) = xs ++ concat (zip_with cons its xss).
Proof.
  revert xs xss. induction its as [|k its IH]; intros xs [|ys xss] Hl; cbn in *; try lia; [done|].
  f_equal. f_equal. apply (IH ys xss). lia.
Qed.

Lemma weave_split its xss i xs :
  length xss = S (length its) → xss !! i = Some xs →
  weave its xss = weave_pre its xss i ++ xs ++ weave_post its xss i.
Proof.
  unfold weave_pre, weave_post. revert its i.
  induction xss as [|ys xss IH]; intros its i Hl Hi; [done|]. destruct i as [|i]; cbn in Hi.
  - injection Hi as ->. cbn in Hl. rewrite weave_zip by lia. by rewrite drop_0.
  - destruct its as [|k its]; cbn in Hl; [by destruct xss|]. cbn [weave].
    rewrite (IH its i) by (done || lia). cbn. by rewrite <- !app_assoc.
Qed.

Lemma weave_pre_S its xss i xs k :
  xss !! i = Some xs → its !! i = Some k →
  weave_pre its xss (S i) = weave_pre its xss i ++ xs ++ [k].
Proof.
  intros Hx Hk. unfold weave_pre.
  rewrite (take_S_r _ _ _ Hx), (take_S_r _ _ _ Hk).
  rewrite zip_with_app by (apply lookup_lt_Some in Hx, Hk; rewrite !length_take; lia).
  rewrite concat_app. cbn. by rewrite app_nil_r.
Qed.

Lemma weave_post_S its xss i xs k :
  xss !! S i = Some xs → its !! i = Some k →
  weave_post its xss i = k :: xs ++ weave_post its xss (S i).
Proof.
  intros Hx Hk. unfold weave_post.
  by rewrite (drop_S _ _ _ Hx), (drop_S _ _ _ Hk).
Qed.

(** The keys of the node are keys of the layer. *)
Lemma elem_of_weave its xss x :
  length xss = S (length its) →
  x ∈ weave its xss ↔ x ∈ its ∨ ∃ xs, xs ∈ xss ∧ x ∈ xs.
Proof.
  revert its. induction xss as [|ys xss IH]; intros [|k its] Hl; cbn in Hl; try lia; cbn [weave].
  - destruct xss; [|done]. rewrite app_nil_r. setoid_rewrite list_elem_of_singleton.
    set_solver.
  - rewrite elem_of_app, elem_of_cons, IH by lia. set_solver.
Qed.
End weave.

(** ** The structure of a layer *)

Inductive btree (V : Type) : Type :=
| BNode (a : ptr) (its : list (KeyInfo V)) (kids : list (btree V)).
Arguments BNode {V} _ _ _.

Section btree.
Context {V : Type}.
Implicit Types (t : btree V).

Definition addr t : ptr := let 'BNode a _ _ := t in a.
Definition items t : list (KeyInfo V) := let 'BNode _ its _ := t in its.
Definition kids t : list (btree V) := let 'BNode _ _ ks := t in ks.

Lemma btree_ind' (P : btree V → Prop) :
  (∀ a its ks, Forall P ks → P (BNode a its ks)) → ∀ t, P t.
Proof.
  intros H. fix IH 1. intros [a its ks]. apply H.
  induction ks as [|k ks IHks]; constructor; [apply IH|exact IHks].
Qed.

(** The keys in order. *)
Fixpoint flat t : list (KeyInfo V) :=
  match t with BNode _ its ks => weave its (flat <$> ks) end.

(** The nodes with their keys, and the addresses. *)
Fixpoint nodes t : list (ptr * list (KeyInfo V)) :=
  match t with BNode a its ks => (a, its) :: concat (nodes <$> ks) end.

Definition addrs t : list ptr := (nodes t).*1.

Fixpoint height t : nat :=
  match t with BNode _ _ ks => S (foldr Nat.max 0%nat (height <$> ks)) end.

(** The key at the position the code returns. *)
Definition key_at t (b : ptr) (i : nat) (ki : KeyInfo V) : Prop :=
  ∃ its, (b, its) ∈ nodes t ∧ its !! i = Some ki.

Lemma height_kid a its ks k : k ∈ ks → (height k < height (BNode a its ks))%nat.
Proof.
  intros Hk. cbn. apply list_elem_of_lookup_1 in Hk as [i Hi]. revert i Hi.
  induction ks as [|y ks IH]; intros i Hi; [done|]. cbn.
  destruct i as [|i]; cbn in Hi; [simplify_eq; lia|]. specialize (IH i Hi). lia.
Qed.

Lemma key_at_here a its ks i ki : its !! i = Some ki → key_at (BNode a its ks) a i ki.
Proof. intros H. exists its. split; [left|done]. Qed.

Lemma key_at_kid a its ks k b i ki : k ∈ ks → key_at k b i ki → key_at (BNode a its ks) b i ki.
Proof.
  intros Hk (its' & Hn & Hi). exists its'. split; [|done]. cbn. right.
  apply elem_of_concat. exists (nodes k). split; [done|]. by apply list_elem_of_fmap_2.
Qed.

(** The keys are valid, disjoint and ascending. *)
Definition key_before (x y : KeyInfo V) : Prop := high (key x) < low (key y).

Definition sorted_keys (l : list (KeyInfo V)) : Prop :=
  Forall (λ x, low (key x) ≤ high (key x)) l ∧ StronglySorted key_before l.
End btree.

(** ** Representation *)

Section rep.
Context `{cfg : !BTreeCfg} {V : Type} `{!RuleValue V}.
Implicit Types (p : Heap V) (nd : Node V) (t : btree V).

(** The fields of the node at [BNode a its ks] in a layer of dimension [d]. *)
Record node_rep (d : nat) (par : option ptr) (its : list (KeyInfo V)) (ks : list ptr) nd
    : Prop := {
  nr_wf : node_wf nd;
  nr_compressed : is_compressed nd = false;
  nr_cnt : key_cnt nd = length its;
  nr_max : (length its ≤ MAX_DEGREE)%nat;
  nr_keys : ∀ i ki, its !! i = Some ki → node_key nd i = Some ki;
  nr_dims : ∀ i, (i < length its)%nat → node_dim nd i = Some d;
  nr_leaf : is_leaf nd = bool_decide (ks = []);
  nr_arity : ks = [] ∨ length ks = S (length its);
  nr_kids : ∀ i c, ks !! i = Some c → child_index nd !! i = Some (to_index c);
  nr_no_kids : ks = [] → child_index nd = replicate (S MAX_DEGREE) INVALID_INDEX;
  nr_parent : parent nd = par;
}.

Fixpoint rep p (d : nat) (par : option ptr) t : Prop :=
  match t with
  | BNode a its ks =>
      (∃ nd, node_at p a = Some nd ∧ node_rep d par its (addr <$> ks) nd)
      ∧ foldr (λ k P, rep p d (Some a) k ∧ P) True ks
  end.

Lemma rep_unfold p d par a its ks :
  rep p d par (BNode a its ks) ↔
  (∃ nd, node_at p a = Some nd ∧ node_rep d par its (addr <$> ks) nd)
  ∧ Forall (rep p d (Some a)) ks.
Proof.
  cbn [rep]. f_equiv. induction ks as [|k ks IH]; cbn.
  - by rewrite Forall_nil.
  - by rewrite Forall_cons, IH.
Qed.

Lemma rep_live p d par t : rep p d par t → is_Some (node_at p (addr t)).
Proof. destruct t. rewrite rep_unfold. intros [(nd & ? & _) _]. by eexists. Qed.

(** The representation depends only on the nodes of the layer. *)
Lemma rep_frame p p' d par t :
  rep p d par t → (∀ a, a ∈ addrs t → node_at p' a = node_at p a) → rep p' d par t.
Proof.
  revert par. induction t as [a its ks IH] using btree_ind'. intros par.
  rewrite !rep_unfold. intros [(nd & Ha & Hn) Hk] Hf. split.
  - exists nd. rewrite Hf; [done|left].
  - rewrite Forall_forall in IH, Hk |- *. intros k Hin. apply IH; [done|by apply Hk|].
    intros b Hb. apply Hf. unfold addrs in *. cbn. right.
    apply list_elem_of_fmap in Hb as (x & -> & Hx). apply list_elem_of_fmap. exists x.
    split; [done|]. apply elem_of_concat. exists (nodes k).
    split; [done|]. by apply list_elem_of_fmap_2.
Qed.

Lemma rep_arity d par its (ks : list (btree V)) nd :
  node_rep d par its (addr <$> ks) nd → ks = [] ∨ length ks = S (length its).
Proof.
  intros Hn. destruct (nr_arity _ _ _ _ _ Hn) as [He|He]; [left|right].
  - by apply fmap_nil_inv in He.
  - by rewrite length_fmap in He.
Qed.

Lemma rep_kids_length p d par a its (ks : list (btree V)) :
  rep p d par (BNode a its ks) → ks = [] ∨ length ks = S (length its).
Proof. intros [(nd & _ & Hn) _]%rep_unfold. by eapply rep_arity. Qed.

(** The keys of the root node are keys of the layer. *)
Lemma flat_items (a : ptr) its (ks : list (btree V)) x :
  ks = [] ∨ length ks = S (length its) → x ∈ its → x ∈ flat (BNode a its ks).
Proof.
  intros [->|He] Hx; [exact Hx|]. cbn [flat].
  apply elem_of_weave; [by rewrite length_fmap|by left].
Qed.

Lemma flat_kids (a : ptr) its (ks : list (btree V)) k x :
  length ks = S (length its) → k ∈ ks → x ∈ flat k → x ∈ flat (BNode a its ks).
Proof.
  intros He Hk Hx. cbn [flat]. apply elem_of_weave; [by rewrite length_fmap|].
  right. exists (flat k). split; [|done]. by apply list_elem_of_fmap_2.
Qed.

(** A key of the layer is a key of the node at its position. *)
Lemma rep_key_at p d par t b i ki :
  rep p d par t → key_at t b i ki →
  ∃ nd, node_at p b = Some nd ∧ node_key nd i = Some ki ∧ is_compressed nd = false
    ∧ (i < key_cnt nd)%nat ∧ (i < MAX_DEGREE)%nat ∧ node_dim nd i = Some d.
Proof.
  revert par. induction t as [a its ks IH] using btree_ind'. intros par.
  rewrite rep_unfold. intros [(nd & Ha & Hn) Hk] (its' & Hin & Hi). cbn in Hin.
  apply elem_of_cons in Hin as [[= -> ->]|Hin].
  - exists nd. pose proof (lookup_lt_Some _ _ _ Hi). pose proof (nr_max _ _ _ _ _ Hn).
    rewrite (nr_cnt _ _ _ _ _ Hn). split_and!; [done| |apply (nr_compressed _ _ _ _ _ Hn)|done|lia|].
    + by apply (nr_keys _ _ _ _ _ Hn).
    + by apply (nr_dims _ _ _ _ _ Hn).
  - apply elem_of_concat in Hin as (l & Hl & (k & -> & Hkk)%list_elem_of_fmap).
    rewrite Forall_forall in IH, Hk. eapply (IH k); [done|by apply Hk|]. exists its'. done.
Qed.

End rep.
