(* ===== verification/LayerSearch.v ===== *)
(** * Lookup in one layer

    [search_possition_1d] on a represented layer whose keys are disjoint and
    ascending: it returns, and its answer is a position of the key that
    contains the value (or equals the range), or there is no such key. *)
From S2P Require Import Prelude Range RuleValue Mempool Node NodeLemmas Search Layer.
Local Open Scope Z_scope.

(** ** Keys before, at and behind the value *)

Definition matches (val : search_val) (k : Range1d) : Prop :=
  match val with by_range r => k = r | by_value v => in_range k v = true end.

Definition past (val : search_val) (k : Range1d) : Prop :=
  match val with by_range r => low k ≤ low r ∧ k ≠ r | by_value v => high k < v end.

Definition ahead (val : search_val) (k : Range1d) : Prop :=
  match val with by_range r => low r < low k | by_value v => v < low k end.

Lemma step_spec val k :
  low k ≤ high k →
  match search_seq_step val k with
  | Some true => matches val k
  | Some false => ahead val k
  | None => past val k
  end.
Proof.
  intros Hk. destruct val as [r|v]; cbn [search_seq_step].
  - unfold range_lt_val. destruct (Z.ltb_spec (low r) (low k)); [done|].
    destruct (range_eq k r) eqn:E; [by apply range_eq_spec|].
    split; [lia|]. intros ->. by rewrite (proj2 (range_eq_spec r r)) in E.
  - destruct (Z.ltb_spec v (low k)); [done|].
    destruct (in_range k v) eqn:E; [done|]. cbn.
    assert (¬ (low k ≤ v ≤ high k)) by (rewrite <- in_range_spec; congruence). lia.
Qed.

Lemma past_not_matches val k : past val k → ¬ matches val k.
Proof. destruct val; cbn; [tauto|]. rewrite in_range_spec. lia. Qed.

Lemma ahead_not_matches val k : ahead val k → ¬ matches val k.
Proof. destruct val; cbn; [intros ? ->; lia|]. rewrite in_range_spec. lia. Qed.

Section LayerSearch.
Context `{cfg : !BTreeCfg} {V : Type} `{!RuleValue V}.
Implicit Types (p : Heap V) (nd : Node V) (t : btree V) (x y : KeyInfo V).

Lemma past_before val x y :
  low (key x) ≤ high (key x) → low (key y) ≤ high (key y) → key_before x y → past val (key y) → past val (key x).
Proof.
  unfold key_before. destruct val as [r|v]; cbn; [|lia].
  intros ? ? ? [? ?]. split; [lia|]. intros He. rewrite He in *. lia.
Qed.

Lemma ahead_before val x y :
  low (key x) ≤ high (key x) → key_before x y → ahead val (key x) → ahead val (key y).
Proof. unfold key_before. destruct val; cbn; lia. Qed.

(** ** The scan of a node *)

Definition scan_result (val : search_val) (its : list (KeyInfo V)) (s : SearchResult) : Prop :=
  if found s
  then ∃ x, its !! val_index s = Some x ∧ matches val (key x)
  else (val_index s ≤ length its)%nat
       ∧ (∀ x, its !! (val_index s - 1)%nat = Some x → (0 < val_index s)%nat → past val (key x))
       ∧ (∀ x, its !! val_index s = Some x → ahead val (key x)).

Lemma search_seq_ok (ks : list Range1d) its val n i :
  Forall (λ x, low (key x) ≤ high (key x)) its →
  (∀ j x, its !! j = Some x → ks !! j = Some (key x)) →
  (i + n = length its)%nat →
  (∀ x, its !! (i - 1)%nat = Some x → (0 < i)%nat → past val (key x)) →
  ∃ s, search_seq ks i n val = Some s ∧ scan_result val its s.
Proof.
  intros Hv Hks. revert i. induction n as [|n IH]; intros i Hn Hp.
  - eexists. split; [done|]. split_and!; cbn; [lia|done|].
    intros x Hx%lookup_lt_Some. lia.
  - destruct (lookup_lt_is_Some_2 its i) as [x Hx]; [lia|].
    cbn [search_seq]. rewrite (Hks i x Hx). cbn [mbind option_bind].
    rewrite Forall_forall in Hv.
    pose proof (step_spec val (key x) (Hv x (list_elem_of_lookup_2 _ _ _ Hx))) as Hs.
    destruct (search_seq_step val (key x)) as [[]|].
    + eexists. split; [done|]. cbn. by exists x.
    + eexists. split; [done|]. split_and!; cbn; [lia|done|]. intros y Hy. by simplify_eq.
    + apply IH; [lia|]. intros y. cbn. rewrite Nat.sub_0_r. intros Hy _. by simplify_eq.
Qed.

(** ** The keys around a subtree *)

Lemma sorted_app (l1 l2 : list (KeyInfo V)) :
  sorted_keys (l1 ++ l2) ↔
  sorted_keys l1 ∧ sorted_keys l2 ∧ ∀ x y, x ∈ l1 → y ∈ l2 → key_before x y.
Proof.
  unfold sorted_keys. rewrite Forall_app.
  induction l1 as [|z l1 IH]; cbn.
  - split; [|tauto]. intros [[? ?] ?]. split_and!; [done|constructor|done|done|].
    intros x y Hx. by apply not_elem_of_nil in Hx.
  - split.
    + intros [[[Hz H1]%Forall_cons H2] [Hs Hf]%StronglySorted_inv].
      apply Forall_app in Hf as [Hf1 Hf2]. rewrite Forall_forall in Hf2.
      destruct (proj1 IH) as ([? ?] & [? ?] & Hb); [done|].
      split_and!; [by constructor|by constructor|done|done|].
      intros x y [->|Hx]%elem_of_cons Hy; [by apply Hf2|by apply Hb].
    + intros ([[Hz H1]%Forall_cons [Hs Hf]%StronglySorted_inv] & [H2 Hs2] & Hb).
      destruct (proj2 IH) as [_ Hs12].
      { split_and!; [done|done|done|done|]. intros x y Hx. apply Hb. by right. }
      split; [by split; [constructor|]|]. constructor; [done|].
      apply Forall_app. split; [done|]. apply Forall_forall. intros y Hy. apply Hb; [left|done].
Qed.

Lemma sorted_past val l x y :
  sorted_keys (l ++ [y]) → past val (key y) → x ∈ l ++ [y] → past val (key x).
Proof.
  intros (H1 & [H2 _] & Hb)%sorted_app Hy [Hx| ->%list_elem_of_singleton]%elem_of_app; [|done].
  eapply past_before; [| |apply Hb; [done|]|done].
  - destruct H1 as [H1 _]. rewrite Forall_forall in H1. by apply H1.
  - by apply Forall_cons in H2 as [? _].
  - by apply list_elem_of_singleton.
Qed.

Lemma sorted_ahead val l x y :
  sorted_keys (y :: l) → ahead val (key y) → x ∈ y :: l → ahead val (key x).
Proof.
  intros [[Hv _]%Forall_cons [_ Hf]%StronglySorted_inv] Hy [->|Hx]%elem_of_cons; [done|].
  rewrite Forall_forall in Hf. eapply ahead_before; [|by apply Hf|done]. done.
Qed.

(** All keys before the subtree are past the value when the last of them is,
    all keys behind it are ahead when the first is. *)
Lemma pre_past val its (xss : list (list (KeyInfo V))) i l x :
  (i ≤ length its)%nat → length xss = S (length its) → sorted_keys (weave_pre its xss i ++ l) →
  (∀ y, its !! (i - 1)%nat = Some y → (0 < i)%nat → past val (key y)) →
  x ∈ weave_pre its xss i → past val (key x).
Proof.
  intros Hi Hl Hs Hpast Hx. destruct i as [|j]; [by apply not_elem_of_nil in Hx|].
  destruct (lookup_lt_is_Some_2 its j) as [k Hk]; [lia|].
  destruct (lookup_lt_is_Some_2 xss j) as [ys Hys]; [lia|].
  rewrite (weave_pre_S _ _ _ _ _ Hys Hk) in Hs, Hx.
  apply sorted_app in Hs as (Hs & _ & _). rewrite app_assoc in Hs, Hx.
  eapply sorted_past; [exact Hs| |exact Hx]. apply Hpast; [|lia]. cbn. by rewrite Nat.sub_0_r.
Qed.

Lemma post_ahead val its (xss : list (list (KeyInfo V))) i l x :
  (i ≤ length its)%nat → length xss = S (length its) → sorted_keys (l ++ weave_post its xss i) →
  (∀ y, its !! i = Some y → ahead val (key y)) →
  x ∈ weave_post its xss i → ahead val (key x).
Proof.
  intros Hi Hl Hs Hahead Hx. destruct (decide (i < length its)%nat) as [Hlt|Hge].
  - destruct (lookup_lt_is_Some_2 its i Hlt) as [k Hk].
    destruct (lookup_lt_is_Some_2 xss (S i)) as [ys Hys]; [lia|].
    rewrite (weave_post_S _ _ _ _ _ Hys Hk) in Hs, Hx.
    apply sorted_app in Hs as (_ & Hs & _). eapply sorted_ahead; [exact Hs| |exact Hx].
    by apply Hahead.
  - unfold weave_post in Hx. rewrite (drop_ge its) in Hx by lia. cbn in Hx.
    by apply not_elem_of_nil in Hx.
Qed.

(** Only the subtree the scan descends to can hold a matching key. *)
Lemma scan_descend val its (xss : list (list (KeyInfo V))) s xs x :
  length xss = S (length its) → sorted_keys (weave its xss) →
  scan_result val its s → found s = false → xss !! val_index s = Some xs →
  x ∈ weave its xss → matches val (key x) → x ∈ xs.
Proof.
  intros Hl Hs Hr Hf Hxs Hx Hm. unfold scan_result in Hr. rewrite Hf in Hr.
  destruct Hr as (Hi & Hpast & Hahead). set (i := val_index s) in *.
  rewrite (weave_split _ _ _ _ Hl Hxs) in Hs, Hx.
  apply elem_of_app in Hx as [Hx|[Hx|Hx]%elem_of_app]; [exfalso|done|exfalso].
  - eapply past_not_matches, Hm. by eapply pre_past.
  - rewrite app_assoc in Hs. eapply ahead_not_matches, Hm. by eapply post_ahead.
Qed.

(** In a leaf the scan itself finds the key. *)
Lemma scan_leaf val its s x :
  sorted_keys its → scan_result val its s → found s = false → x ∈ its → ¬ matches val (key x).
Proof.
  intros Hs Hr Hf Hx Hm. unfold scan_result in Hr. rewrite Hf in Hr.
  destruct Hr as (Hi & Hpast & Hahead). set (i := val_index s) in *.
  rewrite <- (take_drop i its) in Hs, Hx.
  apply sorted_app in Hs as (Hs1 & Hs2 & _). apply elem_of_app in Hx as [Hx|Hx].
  - destruct i as [|j]; [by apply not_elem_of_nil in Hx|].
    destruct (lookup_lt_is_Some_2 its j) as [k Hk]; [lia|].
    rewrite (take_S_r _ _ _ Hk) in Hx, Hs1.
    eapply past_not_matches, Hm. eapply sorted_past; [exact Hs1| |exact Hx].
    apply Hpast; [|lia]. cbn. by rewrite Nat.sub_0_r.
  - destruct (its !! i) as [k|] eqn:Hk.
    + rewrite (drop_S _ _ _ Hk) in Hx, Hs2.
      eapply ahead_not_matches, Hm. eapply sorted_ahead; [exact Hs2| |exact Hx].
      by apply Hahead.
    + apply lookup_ge_None in Hk. rewrite drop_ge in Hx by done.
      by apply not_elem_of_nil in Hx.
Qed.

(** ** The descent *)

(** The subtree the scan descends to is sorted. *)
Lemma sorted_kid (a : ptr) its (ks : list (btree V)) i k :
  length ks = S (length its) → ks !! i = Some k → sorted_keys (flat (BNode a its ks)) →
  sorted_keys (flat k).
Proof.
  intros He Hk Hs. cbn [flat] in Hs. rewrite (weave_split _ _ i (flat k)) in Hs.
  - by apply sorted_app in Hs as (_ & (Hs & _ & _)%sorted_app & _).
  - by rewrite length_fmap.
  - by rewrite list_lookup_fmap, Hk.
Qed.

Lemma search_1d_ok p fl d par t val fuel :
  heap_ok p fl → rep p d par t → sorted_keys (flat t) → (height t ≤ fuel)%nat →
  ∃ r, search_possition_1d fuel (Some (addr t)) val p = (Ok r, p)
    ∧ match r.1 with
      | Some b => ∃ x, key_at t b r.2 x ∧ x ∈ flat t ∧ matches val (key x)
      | None => ∀ x, x ∈ flat t → ¬ matches val (key x)
      end.
Proof.
  intros Hp. revert par fuel. induction t as [a its ks IH] using btree_ind'.
  intros par [|fuel] Hr Hs Hh; [cbn in Hh; lia|].
  apply rep_unfold in Hr as [(nd & Ha & Hn) Hks].
  cbn [search_possition_1d addr]. rewrite (bind_load _ _ _ _ Ha).
  rewrite (nr_compressed _ _ _ _ _ Hn), orb_false_r.
  assert (Forall (λ x, low (key x) ≤ high (key x)) its) as Hv.
  { destruct Hs as [Hv _]. rewrite Forall_forall in Hv |- *. intros x Hx. apply Hv.
    apply flat_items; [by eapply rep_arity|done]. }
  destruct (search_seq_ok (keys nd) its val (key_cnt nd) 0) as (s & Hseq & Hscan); [done|..].
  { intros j x Hx. by apply (nr_keys _ _ _ _ _ Hn), node_key_inv in Hx as (? & _ & _). }
  { by rewrite (nr_cnt _ _ _ _ _ Hn). }
  { intros. lia. }
  rewrite Hseq. run_steps. destruct (found s) eqn:Hf.
  - unfold scan_result in Hscan. rewrite Hf in Hscan. destruct Hscan as (x & Hx & Hm).
    eexists. split; [done|]. exists x. split_and!; [by apply key_at_here| |done].
    apply flat_items; [by eapply rep_arity|by eapply list_elem_of_lookup_2].
  - rewrite (nr_leaf _ _ _ _ _ Hn). destruct (rep_arity _ _ _ _ _ Hn) as [->|He].
    + eexists. split; [done|]. cbn.
      intros x Hx. by eapply scan_leaf.
    + rewrite bool_decide_false by (intros ->%fmap_nil_inv; done).
      assert (val_index s ≤ length its)%nat as Hi.
      { unfold scan_result in Hscan. rewrite Hf in Hscan. tauto. }
      destruct (lookup_lt_is_Some_2 ks (val_index s)) as [k Hk]; [lia|].
      pose proof (list_elem_of_lookup_2 _ _ _ Hk) as Hin. rewrite Forall_forall in IH, Hks.
      destruct (rep_live _ _ _ _ (Hks k Hin)) as [kd Hkd].
      run_ok by (eapply child_some; [done|done| |done]; apply (nr_kids _ _ _ _ _ Hn);
                 rewrite list_lookup_fmap, Hk; done).
      assert ((flat <$> ks) !! val_index s = Some (flat k)) as Hfk
        by (by rewrite list_lookup_fmap, Hk).
      pose proof (sorted_kid _ _ _ _ _ He Hk Hs) as Hsk.
      pose proof (height_kid a its ks k Hin).
      destruct (IH k Hin (Some a) fuel) as (r & Hr & Hres); [by apply Hks|done|lia|].
      exists r. split; [done|]. destruct r as [[b|] j]; cbn [fst snd] in *.
      * destruct Hres as (x & Hxa & Hxf & Hxm). exists x. split_and!; [by eapply key_at_kid| |done].
        by eapply flat_kids.
      * intros x Hx Hm. eapply Hres; [|done]. eapply scan_descend; [|exact Hs|done..].
        by rewrite length_fmap.
Qed.
End LayerSearch.
