(* ===== verification/Trie.v ===== *)
(** * The tree of layers, abstractly

    A [trie] is what a tree stores: a layer of entries, each with a range, a
    value and possibly a next layer for the next dimension.  [gtrie] adds how
    the memory holds it: a layer is a B-tree ([Layer.v]) or one item of a
    chain packed into a compressed node; [abs] forgets this, so path
    compression is invisible in the specification.  [trie_rep] ties the two to
    the memory. *)
From S2P Require Import Prelude Range RuleValue Mempool Node NodeLemmas Search Layer LayerSearch.
Local Open Scope Z_scope.

(** ** Abstract tries *)

Inductive trie (V : Type) : Type :=
| Entries (es : list (Range1d * V * option (trie V))).
Arguments Entries {V} _.

Section trie.
Context {V : Type} `{!RuleValue V}.

Local Notation entry := (Range1d * V * option (trie V))%type.

Definition entries (tr : trie V) : list entry := let 'Entries es := tr in es.

Definition find_entry (val : Z) (es : list entry) : option entry :=
  snd <$> list_find (λ e, in_range e.1.1 val = true) es.

(** The lookup: [vals] are the fields of the packet in the order of the
    dimensions, [res] is the value found so far. *)
Fixpoint t_lookup (vals : list Z) (tr : option (trie V)) (res : V) : V :=
  match tr, vals with
  | Some tr, val :: vals' =>
      match find_entry val (entries tr) with
      | Some (k, v, nl) => t_lookup vals' nl (if is_valid v then v else res)
      | None => res
      end
  | _, _ => res
  end.

(** A stored path: ranges that lead from entry to entry, and the value at its
    end. *)
Inductive stored : option (trie V) → list Range1d → V → Prop :=
| stored_here es k v nl : (k, v, nl) ∈ es → stored (Some (Entries es)) [k] v
| stored_next es k v nl ks w :
    (k, v, nl) ∈ es → stored nl ks w → stored (Some (Entries es)) (k :: ks) w.

(** The fields are in the ranges of the path. *)
Definition path_matches (ks : list Range1d) (vals : list Z) : Prop :=
  Forall2 (λ k val, in_range k val = true) ks (take (length ks) vals).

(** The ranges of every layer are pairwise disjoint: a value has at most one
    entry. *)
Inductive disjoint_trie : option (trie V) → Prop :=
| disjoint_None : disjoint_trie None
| disjoint_Some es :
    (∀ i j ei ej val, es !! i = Some ei → es !! j = Some ej →
       in_range ei.1.1 val = true → in_range ej.1.1 val = true → i = j) →
    (∀ k v nl, (k, v, nl) ∈ es → disjoint_trie nl) →
    disjoint_trie (Some (Entries es)).

Lemma find_entry_Some val es e :
  find_entry val es = Some e → e ∈ es ∧ in_range e.1.1 val = true.
Proof.
  unfold find_entry. intros (x & Hx & ->)%fmap_Some. destruct x as [i e'].
  apply list_find_Some in Hx as (Hi & He & _). split; [|done].
  by eapply list_elem_of_lookup_2.
Qed.

Lemma find_entry_None val es e :
  find_entry val es = None → e ∈ es → in_range e.1.1 val = false.
Proof.
  unfold find_entry. intros H%fmap_None He. apply list_find_None in H.
  rewrite Forall_forall in H. specialize (H e He). by apply not_true_is_false.
Qed.

Lemma path_matches_cons k ks val vals :
  path_matches (k :: ks) (val :: vals) ↔ in_range k val = true ∧ path_matches ks vals.
Proof. unfold path_matches. cbn. by rewrite Forall2_cons. Qed.

(** The entry found is the only one a matching path can start with. *)
Lemma find_entry_unique val es k v nl :
  disjoint_trie (Some (Entries es)) → (k, v, nl) ∈ es → in_range k val = true →
  find_entry val es = Some (k, v, nl).
Proof.
  intros Hd Hin Hr. inversion_clear Hd as [|? Hdis _].
  destruct (find_entry val es) as [e|] eqn:Hf.
  - apply find_entry_Some in Hf as [He Her].
    apply list_elem_of_lookup in He as [i Hi], Hin as [j Hj].
    pose proof (Hdis i j e (k, v, nl) val Hi Hj Her Hr) as ->.
    rewrite Hj in Hi. by injection Hi as <-.
  - pose proof (find_entry_None _ _ _ Hf Hin) as Hn. cbn in Hn. congruence.
Qed.

(** The value found so far is overridden exactly by a valid value of a
    matching stored path, and by the longest of them. *)
Definition deepest (tr : option (trie V)) (vals : list Z) (res v : V) : Prop :=
  (v = res ∧ ∀ ks w, stored tr ks w → path_matches ks vals → is_valid w = false)
  ∨ ∃ ks, stored tr ks v ∧ path_matches ks vals ∧ is_valid v = true
    ∧ ∀ ks' w, stored tr ks' w → path_matches ks' vals → is_valid w = true →
        ks' `prefix_of` ks.

Lemma path_matches_nil k ks : ¬ path_matches (k :: ks) [].
Proof. unfold path_matches. cbn. by intros ?%Forall2_cons_nil_inv. Qed.

Lemma stored_inv es ks w :
  stored (Some (Entries es)) ks w →
  ∃ k v nl ks', ks = k :: ks' ∧ (k, v, nl) ∈ es
    ∧ ((ks' = [] ∧ w = v) ∨ stored nl ks' w).
Proof. inversion 1; subst; eauto 10. Qed.

Lemma t_lookup_deepest vals tr res :
  disjoint_trie tr → deepest tr vals res (t_lookup vals tr res).
Proof.
  revert tr res. induction vals as [|val vals IH]; intros tr res Hd.
  { left. split; [by destruct tr|]. intros [|k ks] w Hs Hm; [inversion Hs|].
    by apply path_matches_nil in Hm. }
  destruct tr as [[es]|]; [|left; split; [done|]; intros ks w Hs; inversion Hs].
  cbn [t_lookup entries]. destruct (find_entry val es) as [[[k v] nl]|] eqn:Hf.
  - pose proof (find_entry_Some _ _ _ Hf) as [He Hr]. cbn in Hr.
    assert (∀ ks' w, stored (Some (Entries es)) ks' w → path_matches ks' (val :: vals) →
              ∃ ks'', ks' = k :: ks'' ∧ path_matches ks'' vals
                ∧ ((ks'' = [] ∧ w = v) ∨ stored nl ks'' w)) as Honly.
    { intros ks' w (k' & v' & nl' & ks'' & -> & Hin & Hw)%stored_inv
        [Hr' Hm]%path_matches_cons.
      rewrite (find_entry_unique val _ _ _ _ Hd Hin Hr') in Hf. simplify_eq. eauto. }
    assert (disjoint_trie nl) as Hnl by (inversion_clear Hd as [|? _ H]; by eapply H).
    destruct (IH nl (if is_valid v then v else res) Hnl) as [[-> Hno]|(ks & Hs & Hm & Hv & Hp)].
    + destruct (is_valid v) eqn:Hv.
      * right. exists [k]. split_and!; [by eapply stored_here| |done|].
        { apply path_matches_cons. split; [done|]. constructor. }
        intros ks' w Hs' Hm' Hw'. destruct (Honly _ _ Hs' Hm') as (ks'' & -> & Hm'' & [[-> _]|Hs'']);
          [done|]. specialize (Hno _ _ Hs'' Hm''). congruence.
      * left. split; [done|]. intros ks' w Hs' Hm'.
        destruct (Honly _ _ Hs' Hm') as (ks'' & -> & Hm'' & [[-> ->]|Hs'']); [done|].
        by apply (Hno _ _ Hs'' Hm'').
    + right. exists (k :: ks). split_and!; [by eapply stored_next| |done|].
      { by apply path_matches_cons. }
      intros ks' w Hs' Hm' Hw'. destruct (Honly _ _ Hs' Hm') as (ks'' & -> & Hm'' & [[-> _]|Hs'']).
      * apply prefix_cons, prefix_nil.
      * apply prefix_cons. by eapply Hp.
  - left. split; [done|]. intros ks' w (k' & v' & nl' & ks'' & -> & Hin & _)%stored_inv
      [Hr' _]%path_matches_cons. pose proof (find_entry_None _ _ _ Hf Hin) as Hn. cbn in Hn. congruence.
Qed.
End trie.

(** ** Ghost structure *)

Inductive gtrie (V : Type) : Type :=
| GLayer (t : btree V) (nexts : list (option (gtrie V)))
| GChain (a : ptr) (c : KeyInfo V) (cs : list (KeyInfo V)) (nl : option (gtrie V)).
Arguments GLayer {V} _ _.
Arguments GChain {V} _ _ _ _.

Section gtrie.
Context {V : Type}.

Lemma gtrie_ind' (P : gtrie V → Prop) :
  (∀ t nexts, (∀ g, Some g ∈ nexts → P g) → P (GLayer t nexts)) →
  (∀ a c cs nl, (∀ g, nl = Some g → P g) → P (GChain a c cs nl)) → ∀ g, P g.
Proof.
  intros HL HC. fix IH 1. intros [t nexts|a c cs nl].
  - apply HL. assert (Forall (from_option P True) nexts) as HF.
    { induction nexts as [|[g'|] os IHos]; constructor;
        [apply IH|exact IHos|exact I|exact IHos]. }
    clear IH. intros g Hg. rewrite Forall_forall in HF. exact (HF (Some g) Hg).
  - apply HC. assert (from_option P True nl) as HF by (destruct nl; [apply IH|exact I]).
    clear IH. intros g ->. exact HF.
Qed.

(** The root node of the layer. *)
Definition g_addr (g : gtrie V) : ptr :=
  match g with GLayer t _ => addr t | GChain a _ _ _ => a end.

(** A chain of single entries. *)
Fixpoint chain_trie (cs : list (KeyInfo V)) (nl : option (trie V)) : option (trie V) :=
  match cs with
  | [] => nl
  | c :: cs' => Some (Entries [(key c, kvalue c, chain_trie cs' nl)])
  end.

Definition layer_entries (xs : list (KeyInfo V)) (os : list (option (trie V)))
    : list (Range1d * V * option (trie V)) :=
  zip_with (λ x o, (key x, kvalue x, o)) xs os.

Fixpoint abs (g : gtrie V) : trie V :=
  match g with
  | GLayer t nexts =>
      Entries (layer_entries (flat t)
        ((λ o, match o with Some g => Some (abs g) | None => None end) <$> nexts))
  | GChain _ c cs nl =>
      Entries [(key c, kvalue c,
        chain_trie cs (match nl with Some g => Some (abs g) | None => None end))]
  end.

Lemma abs_layer t nexts : abs (GLayer t nexts) = Entries (layer_entries (flat t) (fmap (M := option) abs <$> nexts)).
Proof. done. Qed.

Lemma abs_chain a c cs nl : Some (abs (GChain a c cs nl)) = chain_trie (c :: cs) (abs <$> nl).
Proof. done. Qed.
End gtrie.

Section g_rep.
Context `{cfg : !BTreeCfg} {V : Type} `{!RuleValue V}.
Implicit Types (p : Heap V) (nd : Node V) (g : gtrie V) (order : list nat).

(** A compressed node with the keys [its], for the dimensions from [level]
    on. *)
Record chain_rep order (level : nat) (its : list (KeyInfo V)) nd : Prop := {
  cr_wf : node_wf nd;
  cr_compressed : is_compressed nd = true;
  cr_leaf : is_leaf nd = true;
  cr_cnt : key_cnt nd = length its;
  cr_max : (length its ≤ MAX_DEGREE)%nat;
  cr_keys : ∀ i x, its !! i = Some x → node_key nd i = Some x;
  cr_dims : ∀ i, (i < length its)%nat →
    ∃ d, order !! (level + i)%nat = Some d ∧ node_dim nd i = Some d;
  cr_parent : parent nd = None;
  cr_no_kids : child_index nd = replicate (S MAX_DEGREE) INVALID_INDEX;
}.

Fixpoint g_rep p (H : nat) order (level : nat) g {struct g} : Prop :=
  match g with
  | GLayer t nexts =>
      (∃ d, order !! level = Some d ∧ rep p d None t)
      ∧ sorted_keys (flat t) ∧ (height t ≤ H)%nat
      ∧ (fix go (xs : list (KeyInfo V)) (os : list (option (gtrie V))) {struct os} : Prop :=
           match xs, os with
           | [], [] => True
           | x :: xs, o :: os =>
               match o with
               | None => knext_level x = INVALID_INDEX
               | Some g' => knext_level x = to_index (g_addr g') ∧ g_rep p H order (S level) g'
               end ∧ go xs os
           | _, _ => False
           end) (flat t) nexts
  | GChain a c cs nl =>
      (∃ nd, node_at p a = Some nd ∧ chain_rep order level (c :: cs) nd)
      ∧ cs ≠ []
      ∧ Forall (λ x, low (key x) ≤ high (key x)) (c :: cs)
      ∧ Forall (λ x, knext_level x = INVALID_INDEX) (removelast (c :: cs))
      ∧ match nl with
        | None => knext_level (List.last cs c) = INVALID_INDEX
        | Some g' => knext_level (List.last cs c) = to_index (g_addr g')
                     ∧ g_rep p H order (level + length (c :: cs))%nat g'
        end
  end.

Definition next_rep p H order level (x : KeyInfo V) (o : option (gtrie V)) : Prop :=
  match o with
  | None => knext_level x = INVALID_INDEX
  | Some g' => knext_level x = to_index (g_addr g') ∧ g_rep p H order level g'
  end.

Lemma g_rep_layer p H order level t nexts :
  g_rep p H order level (GLayer t nexts) ↔
  (∃ d, order !! level = Some d ∧ rep p d None t)
  ∧ sorted_keys (flat t) ∧ (height t ≤ H)%nat
  ∧ Forall2 (next_rep p H order (S level)) (flat t) nexts.
Proof.
  cbn [g_rep]. do 3 f_equiv. generalize (flat t) as xs. intros xs.
  revert nexts. induction xs as [|x xs IH]; intros [|o os].
  - split; [constructor|done].
  - split; [done|]. by intros ?%Forall2_nil_cons_inv.
  - split; [done|]. by intros ?%Forall2_cons_nil_inv.
  - rewrite Forall2_cons, <- IH. done.
Qed.

Lemma g_rep_live p H order level g : g_rep p H order level g → is_Some (node_at p (g_addr g)).
Proof.
  destruct g as [t nexts|a c cs nl].
  - intros ((d & _ & Hr) & _)%g_rep_layer. by eapply rep_live.
  - intros ((nd & Ha & _) & _). by eexists.
Qed.

Lemma g_rep_level p H order level g :
  g_rep p H order level g → (level < length order)%nat.
Proof.
  destruct g as [t nexts|a c cs nl].
  - intros ((d & Hd & _) & _)%g_rep_layer. by eapply lookup_lt_Some.
  - intros ((nd & _ & Hc) & _). destruct (cr_dims _ _ _ _ Hc 0) as (d & Hd & _); [cbn; lia|].
    rewrite Nat.add_0_r in Hd. by eapply lookup_lt_Some.
Qed.

(** ** Lookup in the entries of a layer *)

Lemma sorted_unique (xs : list (KeyInfo V)) i j x y val :
  sorted_keys xs → xs !! i = Some x → xs !! j = Some y →
  in_range (key x) val = true → in_range (key y) val = true → i = j.
Proof.
  intros [_ Hs] Hx Hy Hrx%in_range_spec Hry%in_range_spec.
  destruct (Nat.lt_trichotomy i j) as [Hij|[->|Hij]]; [exfalso|done|exfalso].
  - pose proof (StronglySorted_lookup _ _ _ _ _ _ Hs Hx Hy Hij) as Hb.
    unfold key_before in Hb. lia.
  - pose proof (StronglySorted_lookup _ _ _ _ _ _ Hs Hy Hx Hij) as Hb.
    unfold key_before in Hb. lia.
Qed.

Lemma find_layer_Some xs (os : list (option (trie V))) j x o val :
  sorted_keys xs → xs !! j = Some x → os !! j = Some o → in_range (key x) val = true →
  find_entry val (layer_entries xs os) = Some (key x, kvalue x, o).
Proof.
  intros Hs Hx Ho Hr. unfold find_entry.
  assert (list_find (λ e, in_range e.1.1 val = true) (layer_entries xs os)
          = Some (j, (key x, kvalue x, o))) as ->; [|done].
  apply list_find_Some. unfold layer_entries. split_and!; [|done|].
  - by rewrite lookup_zip_with, Hx; cbn; rewrite Ho.
  - intros i e He Hi Hre. rewrite lookup_zip_with in He.
    destruct (xs !! i) as [y|] eqn:Hy; [|done]. cbn in He.
    destruct (os !! i) as [o'|]; [|done]. cbn in He. simplify_eq. cbn in Hre.
    pose proof (sorted_unique _ _ _ _ _ _ Hs Hy Hx Hre Hr). lia.
Qed.

Lemma find_layer_None xs (os : list (option (trie V))) val :
  (∀ x, x ∈ xs → ¬ in_range (key x) val = true) → find_entry val (layer_entries xs os) = None.
Proof.
  intros H. unfold find_entry. apply fmap_None, list_find_None, Forall_forall.
  intros e (i & Hi)%list_elem_of_lookup. unfold layer_entries in Hi. rewrite lookup_zip_with in Hi.
  destruct (xs !! i) as [y|] eqn:Hy; [|done]. cbn in Hi.
  destruct (os !! i) as [o'|]; [|done]. cbn in Hi. simplify_eq. cbn.
  apply H. by eapply list_elem_of_lookup_2.
Qed.
End g_rep.
