(* ===== verification/TrieCheck.v ===== *)
(** * Deciding the representation

    The invariants of the pool and of a tree are decidable on a concrete
    memory: [g_read] recovers the structure of the tree at an address and
    [g_check] decides [g_rep] for it, so that trees built by the code can be
    tested by evaluation. *)
From S2P Require Import Prelude Range RuleValue Mempool Node NodeLemmas Search Layer LayerSearch Trie.
Local Open Scope Z_scope.

(** ** The pool *)

Section pool.
Context {T : Type}.
Implicit Types (p : Pool.DynamicMempool T).

Fixpoint chain_check (info : list (option nat)) (o : option nat) (fl : list nat) : bool :=
  match fl with
  | [] => bool_decide (o = None)
  | i :: fl' =>
      bool_decide (o = Some i)
      && match info !! i with Some nf => chain_check info nf fl' | None => false end
  end.

Lemma chain_check_sound info o fl : chain_check info o fl = true → Pool.chain info o fl.
Proof.
  revert o. induction fl as [|i fl IH]; intros o; cbn.
  - by intros ?%bool_decide_eq_true.
  - intros [->%bool_decide_eq_true H]%andb_true_iff. split; [done|].
    destruct (info !! i) as [nf|]; [|done]. exists nf. split; [done|by apply IH].
Qed.

Definition pool_check p (fl : list nat) : bool :=
  bool_decide (length (Pool.mempool_info p) = Pool.ITEM_CNT p)
  && chain_check (Pool.mempool_info p) (Pool.m_first_free p) fl
  && bool_decide (NoDup fl)
  && bool_decide (Forall (λ i, i < Pool.ITEM_CNT p)%nat fl)
  && forallb (λ i, Bool.eqb (bool_decide (is_Some (Pool.mempool p !! i)))
                     (bool_decide (i ∉ fl))) (seq 0 (Pool.ITEM_CNT p))
  && bool_decide (map_Forall (λ i _, (i < Pool.ITEM_CNT p)%nat
       ∧ Pool.mempool_info p !! i = Some None) (Pool.mempool p)).

Lemma pool_check_sound p fl : pool_check p fl = true → Pool.pool_wf p fl.
Proof.
  unfold pool_check. rewrite !andb_true_iff, !bool_decide_eq_true.
  intros [[[[[H1 H2] H3] H4] H5] H6]. rewrite Forall_forall in H4.
  split; [done|by apply chain_check_sound|done|done| |].
  - intros i. unfold Pool.allocated. rewrite forallb_forall in H5.
    assert (i < Pool.ITEM_CNT p → is_Some (Pool.mempool p !! i) ↔ i ∉ fl)%nat as Hi.
    { intros Hi. specialize (H5 i). rewrite <- list_elem_of_In, elem_of_seq in H5.
      apply eqb_prop in H5; [|lia]. rewrite <- (bool_decide_eq_true (is_Some _)), H5.
      apply bool_decide_eq_true. }
    split; [|naive_solver]. intros [x Hx]. destruct (H6 i x Hx) as [Hlt _].
    split; [done|]. apply Hi; [done|by eexists].
  - intros i [x Hx]. by destruct (H6 i x Hx) as [_ ?].
Qed.
End pool.

Section check.
Context `{cfg : !BTreeCfg} {V : Type} `{!RuleValue V, !EqDecision V}.
Implicit Types (p : Heap V) (nd : Node V) (t : btree V) (g : gtrie V) (order : list nat).

#[local] Instance KeyInfo_eq_dec : EqDecision (KeyInfo V).
Proof. solve_decision. Defined.

Definition heap_check p (fl : list nat) : bool :=
  pool_check p fl && negb (Pool.lock p)
  && bool_decide (Z.of_nat (Pool.ITEM_CNT p) ≤ INVALID_INDEX).

Lemma heap_check_sound p fl : heap_check p fl = true → heap_ok p fl.
Proof.
  unfold heap_check. rewrite !andb_true_iff, bool_decide_eq_true, negb_true_iff.
  intros [[? ?] ?]. by split; [apply pool_check_sound|..].
Qed.

(** ** Nodes *)

Definition node_wf_check nd : bool :=
  bool_decide (length (keys nd) = MAX_DEGREE) && bool_decide (length (dim_index nd) = 16%nat)
  && bool_decide (length (nvalue nd) = MAX_DEGREE)
  && bool_decide (length (next_level nd) = MAX_DEGREE)
  && bool_decide (length (child_index nd) = S MAX_DEGREE).

Lemma node_wf_check_sound nd : node_wf_check nd = true → node_wf nd.
Proof.
  unfold node_wf_check. rewrite !andb_true_iff, !bool_decide_eq_true.
  intros [[[[? ?] ?] ?] ?]. by split.
Qed.

Definition keys_check (its : list (KeyInfo V)) nd : bool :=
  bool_decide (node_key nd <$> seq 0 (length its) = Some <$> its).

Lemma keys_check_sound its nd i x :
  keys_check its nd = true → its !! i = Some x → node_key nd i = Some x.
Proof.
  unfold keys_check. rewrite bool_decide_eq_true. intros H Hi.
  assert ((node_key nd <$> seq 0 (length its)) !! i = Some (Some x)) as Hl
    by (rewrite H, list_lookup_fmap, Hi; done).
  rewrite list_lookup_fmap, lookup_seq_lt in Hl by (by eapply lookup_lt_Some).
  by injection Hl.
Qed.

Definition node_check (d : nat) (par : option ptr) (its : list (KeyInfo V)) (ks : list ptr) nd
    : bool :=
  node_wf_check nd && negb (is_compressed nd) && bool_decide (key_cnt nd = length its)
  && bool_decide (length its ≤ MAX_DEGREE)%nat && keys_check its nd
  && forallb (λ i, bool_decide (node_dim nd i = Some d)) (seq 0 (length its))
  && Bool.eqb (is_leaf nd) (bool_decide (ks = []))
  && (if bool_decide (ks = [])
      then bool_decide (child_index nd = replicate (S MAX_DEGREE) INVALID_INDEX)
      else bool_decide (length ks = S (length its)))
  && bool_decide (take (length ks) (child_index nd) = to_index <$> ks)
  && bool_decide (parent nd = par).

Lemma node_check_sound d par its ks nd :
  node_check d par its ks nd = true → node_rep d par its ks nd.
Proof.
  unfold node_check. rewrite !andb_true_iff, !bool_decide_eq_true, negb_true_iff.
  intros [[[[[[[[[Hw Hc] Hn] Hm] Hk] Hd] Hl] Ha] Hi] Hp].
  split; [by apply node_wf_check_sound|done|done|done| | | | | | |done].
  - intros i x. by apply keys_check_sound.
  - intros i Hlt. rewrite forallb_forall in Hd. specialize (Hd i).
    rewrite <- list_elem_of_In, elem_of_seq, bool_decide_eq_true in Hd. apply Hd. lia.
  - by apply eqb_prop in Hl.
  - case_bool_decide; [by left|right]. by apply bool_decide_eq_true in Ha.
  - intros i c Hc'. assert (take (length ks) (child_index nd) !! i = Some (to_index c)) as Ht
      by (rewrite Hi, list_lookup_fmap, Hc'; done).
    rewrite lookup_take_lt in Ht; [done|by eapply lookup_lt_Some].
  - intros ->. by apply bool_decide_eq_true in Ha.
Qed.

Definition chain_node_check order (level : nat) (its : list (KeyInfo V)) nd : bool :=
  node_wf_check nd && is_compressed nd && is_leaf nd && bool_decide (key_cnt nd = length its)
  && bool_decide (length its ≤ MAX_DEGREE)%nat && keys_check its nd
  && forallb (λ i, bool_decide (is_Some (order !! (level + i)%nat))
                   && bool_decide (node_dim nd i = order !! (level + i)%nat))
       (seq 0 (length its))
  && bool_decide (parent nd = None)
  && bool_decide (child_index nd = replicate (S MAX_DEGREE) INVALID_INDEX).

Lemma chain_node_check_sound order level its nd :
  chain_node_check order level its nd = true → chain_rep order level its nd.
Proof.
  unfold chain_node_check. rewrite !andb_true_iff, !bool_decide_eq_true.
  intros [[[[[[[[Hw Hc] Hl] Hn] Hm] Hk] Hd] Hp] Hi].
  split; [by apply node_wf_check_sound|done|done|done|done| | |done|done].
  - intros i x. by apply keys_check_sound.
  - intros i Hlt. rewrite forallb_forall in Hd. specialize (Hd i).
    rewrite <- list_elem_of_In, elem_of_seq, andb_true_iff, !bool_decide_eq_true in Hd.
    destruct Hd as [[d Hd] Hn']; [lia|]. exists d. by rewrite Hn'.
Qed.

(** ** Layers *)

Fixpoint rep_check p (d : nat) (par : option ptr) t : bool :=
  match t with
  | BNode a its ks =>
      match node_at p a with
      | Some nd => node_check d par its (addr <$> ks) nd
      | None => false
      end && forallb (rep_check p d (Some a)) ks
  end.

Lemma rep_check_sound p d par t : rep_check p d par t = true → rep p d par t.
Proof.
  revert par. induction t as [a its ks IH] using btree_ind'. intros par.
  cbn [rep_check]. rewrite andb_true_iff, rep_unfold. intros [Ha Hk]. split.
  - destruct (node_at p a) as [nd|]; [|done]. exists nd. split; [done|].
    by apply node_check_sound.
  - rewrite forallb_forall in Hk. rewrite Forall_forall in IH |- *.
    intros k Hin. apply IH; [done|]. by apply Hk, list_elem_of_In.
Qed.

Fixpoint sorted_check (l : list (KeyInfo V)) : bool :=
  match l with
  | [] => true
  | x :: l' => (low (key x) <=? high (key x)) && forallb (λ y, high (key x) <? low (key y)) l'
               && sorted_check l'
  end.

Lemma sorted_check_sound l : sorted_check l = true → sorted_keys l.
Proof.
  induction l as [|x l IH]; cbn; [by repeat constructor|].
  rewrite !andb_true_iff, Z.leb_le. intros [[Hx Hl] [Hv Hs]%IH].
  split; constructor; [done..|]. apply Forall_forall. intros y Hy.
  rewrite forallb_forall in Hl. by apply Z.ltb_lt, Hl, list_elem_of_In.
Qed.

(** ** Trees *)

Fixpoint g_check p (H : nat) order (level : nat) g {struct g} : bool :=
  match g with
  | GLayer t nexts =>
      match order !! level with Some d => rep_check p d None t | None => false end
      && sorted_check (flat t) && (height t <=? H)%nat
      && (fix go (xs : list (KeyInfo V)) (os : list (option (gtrie V))) {struct os} : bool :=
            match xs, os with
            | [], [] => true
            | x :: xs, o :: os =>
                match o with
                | None => knext_level x =? INVALID_INDEX
                | Some g' => (knext_level x =? to_index (g_addr g'))
                             && g_check p H order (S level) g'
                end && go xs os
            | _, _ => false
            end) (flat t) nexts
  | GChain a c cs nl =>
      match node_at p a with
      | Some nd => chain_node_check order level (c :: cs) nd
      | None => false
      end
      && negb (bool_decide (cs = []))
      && forallb (λ x, low (key x) <=? high (key x)) (c :: cs)
      && forallb (λ x, knext_level x =? INVALID_INDEX) (removelast (c :: cs))
      && match nl with
         | None => knext_level (List.last cs c) =? INVALID_INDEX
         | Some g' => (knext_level (List.last cs c) =? to_index (g_addr g'))
                      && g_check p H order (level + length (c :: cs))%nat g'
         end
  end.

Lemma forallb_Forall {A} (f : A → bool) (P : A → Prop) (l : list A) :
  (∀ x, f x = true → P x) → forallb f l = true → Forall P l.
Proof.
  intros Hf Hl. rewrite forallb_forall in Hl. apply Forall_forall. intros x Hx.
  by apply Hf, Hl, list_elem_of_In.
Qed.

Lemma g_check_sound p H order level g :
  g_check p H order level g = true → g_rep p H order level g.
Proof.
  revert level. induction g as [t nexts IH|a c cs nl IH] using gtrie_ind'; intros level.
  - cbn [g_check]. rewrite !andb_true_iff, Nat.leb_le, g_rep_layer. intros [[[Hr Hs] Hh] Hn].
    split_and!; [|by apply sorted_check_sound|done|].
    { destruct (order !! level) as [d|]; [|done]. exists d. split; [done|].
      by apply rep_check_sound. }
    revert nexts IH Hn. generalize (flat t) as xs. clear.
    induction xs as [|x xs IHxs]; intros [|o os] IH Hn; try done.
    apply andb_true_iff in Hn as [Hx Hn]. constructor.
    + destruct o as [g'|]; cbn; [|by apply Z.eqb_eq].
      apply andb_true_iff in Hx as [He%Z.eqb_eq Hx]. split; [done|]. apply IH; [left|done].
    + apply IHxs; [|done]. intros g Hg. apply IH. by right.
  - cbn [g_check]. rewrite !andb_true_iff. intros [[[[Ha Hc] Hv] Hi] Hl]. cbn [g_rep].
    split_and!.
    + destruct (node_at p a) as [nd|]; [|done]. exists nd. split; [done|].
      by apply chain_node_check_sound.
    + by apply negb_true_iff, bool_decide_eq_false in Hc.
    + by eapply forallb_Forall; [|exact Hv]; intros x ?%Z.leb_le.
    + by eapply forallb_Forall; [|exact Hi]; intros x ?%Z.eqb_eq.
    + destruct nl as [g'|]; [|by apply Z.eqb_eq].
      apply andb_true_iff in Hl as [He%Z.eqb_eq Hl]. split; [done|]. by apply IH.
Qed.

(** ** Reading the structure back *)

Fixpoint btree_read (fuel : nat) p (a : ptr) : option (btree V) :=
  match fuel with
  | O => None
  | S fuel =>
      nd ← node_at p a;
      its ← mapM (node_key nd) (seq 0 (key_cnt nd));
      ks ← (if is_leaf nd then Some []
            else mapM (λ i, c ← child_index nd !! i; btree_read fuel p (Z.to_nat c))
                   (seq 0 (S (key_cnt nd))));
      Some (BNode a its ks)
  end.

Fixpoint g_read (fuel : nat) p (a : ptr) : option (gtrie V) :=
  match fuel with
  | O => None
  | S fuel =>
      let next (x : KeyInfo V) : option (option (gtrie V)) :=
        if knext_level x =? INVALID_INDEX then Some None
        else g ← g_read fuel p (Z.to_nat (knext_level x)); Some (Some g) in
      nd ← node_at p a;
      if is_compressed nd then
        its ← mapM (node_key nd) (seq 0 (key_cnt nd));
        match its with
        | [] => None
        | c :: cs => nl ← next (List.last cs c); Some (GChain a c cs nl)
        end
      else
        t ← btree_read fuel p a;
        nexts ← mapM next (flat t);
        Some (GLayer t nexts)
  end.

(** The tree at [a] is represented. *)
Definition tree_ok (fuel : nat) p order (a : ptr) : bool :=
  match g_read fuel p a with
  | Some g => g_check p fuel order 0 g && (g_addr g =? a)%nat
  | None => false
  end.

Lemma tree_ok_sound fuel p order a :
  tree_ok fuel p order a = true →
  ∃ g, g_read fuel p a = Some g ∧ g_addr g = a ∧ g_rep p fuel order 0 g.
Proof.
  unfold tree_ok. destruct (g_read fuel p a) as [g|]; [|done].
  intros [Hg He%Nat.eqb_eq]%andb_true_iff. exists g. split_and!; [done..|].
  by apply g_check_sound.
Qed.
End check.
