(* ===== verification/Footprint.v ===== *)
(** * Footprints

    The addresses a represented tree occupies, and what it means for a
    computation to change only some of them: [modifies p p' F F'] says that
    the step from [p] to [p'] owns the nodes [F] before and [F'] after it,
    leaves all other live nodes as they are and takes new nodes only from free
    memory. *)
From S2P Require Import Prelude Range RuleValue Mempool Node NodeLemmas Search Layer LayerSearch Trie.
Local Open Scope Z_scope.

Section Footprint.
Context `{cfg : !BTreeCfg} {V : Type} `{!RuleValue V}.
Implicit Types (p : Heap V) (nd : Node V) (t : btree V) (g : gtrie V) (F G : list ptr).

Record modifies p p' F F' : Prop := {
  mod_frame : ∀ b nd, b ∉ F → node_at p b = Some nd → node_at p' b = Some nd;
  mod_fresh : ∀ b, b ∈ F' → b ∈ F ∨ node_at p b = None;
}.

Lemma modifies_refl p F : modifies p p F F.
Proof. split; [done|]. by left. Qed.

Lemma modifies_trans p1 p2 p3 F1 F2 F3 :
  modifies p1 p2 F1 F2 → modifies p2 p3 F2 F3 → modifies p1 p3 F1 F3.
Proof.
  intros [Hf1 Hn1] [Hf2 Hn2]. split.
  - intros b nd Hb Hp. apply Hf2; [|by apply Hf1].
    intros [?|?]%Hn1; [done|congruence].
  - intros b [Hb|Hb]%Hn2; [by apply Hn1|].
    destruct (decide (b ∈ F1)) as [|Hni]; [by left|right].
    destruct (node_at p1 b) as [nd|] eqn:E; [|done]. rewrite (Hf1 b nd) in Hb; done.
Qed.

(** The rule of the frame. *)
Lemma modifies_mono p p' F F' G G' :
  modifies p p' F F' → F ⊆ G → (∀ b, b ∈ G' → b ∈ G ∨ b ∈ F') → modifies p p' G G'.
Proof.
  intros [Hf Hn] HF HG. split.
  - intros b nd Hb. apply Hf. set_solver.
  - intros b [?|Hb]%HG; [by left|]. apply Hn in Hb as [?|?]; [left; set_solver|by right].
Qed.

Lemma modifies_app p p' F F' G : modifies p p' F F' → modifies p p' (F ++ G) (F' ++ G).
Proof. intros H. eapply modifies_mono; [exact H|set_solver|]. set_solver. Qed.

Lemma modifies_put p a nd : modifies p (put a nd p) [a] [a].
Proof. split; [|by left]. intros b nd' Hb Hp. by rewrite node_at_put_ne by set_solver. Qed.

Lemma modifies_put_in p a nd F : a ∈ F → modifies p (put a nd p) F F.
Proof. intros H. eapply modifies_mono; [apply modifies_put|set_solver|set_solver]. Qed.

#[export] Instance modifies_proper :
  Proper (eq ==> eq ==> (≡ₚ) ==> (≡ₚ) ==> iff) modifies.
Proof.
  intros p ? <- p' ? <- F G HF F' G' HF'.
  split; intros [Hf Hn]; split.
  - intros b nd Hb. apply Hf. by rewrite HF.
  - intros b. rewrite <- HF, <- HF'. apply Hn.
  - intros b nd Hb. apply Hf. by rewrite <- HF.
  - intros b. rewrite HF, HF'. apply Hn.
Qed.

(** Nodes owned before and not touched stay different from the new ones. *)
Lemma modifies_NoDup p p' F F' G :
  modifies p p' F F' → NoDup (F ++ G) → NoDup F' → (∀ b, b ∈ G → is_Some (node_at p b)) →
  NoDup (F' ++ G).
Proof.
  intros [_ Hn] (HF & Hdis & HG)%NoDup_app HF' Hlive. apply NoDup_app. split_and!; [done| |done].
  intros b Hb Hg. destruct (Hn b Hb) as [Hin|Hnone]; [by apply (Hdis b)|].
  destruct (Hlive b Hg). congruence.
Qed.

(** ** Allocation *)

Lemma alloc_ok p z fl :
  heap_ok p (z :: fl) → (2 ≤ length fl)%nat →
  ∃ p', node_allocator_get p = (Ok z, p') ∧ heap_ok p' fl
    ∧ node_at p' z = Some new_Node ∧ node_at p z = None ∧ modifies p p' [] [z].
Proof.
  intros [Hw Hl Hf] Hlen. destruct fl as [|y [|x fl]]; cbn in Hlen; [lia..|].
  eexists. split; [by apply (Pool.get_ok false _ _ _ _ _ _ Hw Hl)|].
  pose proof (Pool.wf_free_dead _ _ z Hw ltac:(left)) as Hz.
  split_and!.
  - split; [by apply (Pool.pool_wf_take _ _ _ new_Node false Hw)|done|done].
  - unfold node_at. cbn. apply lookup_insert_eq.
  - done.
  - split.
    + intros b nd _ Hb. unfold node_at in *. cbn. rewrite lookup_insert_ne; [done|].
      intros ->. congruence.
    + intros b ->%list_elem_of_singleton. by right.
Qed.

(** ** The addresses of a layer *)

Lemma addrs_unfold a its (ks : list (btree V)) :
  addrs (BNode a its ks) = a :: concat (addrs <$> ks).
Proof.
  unfold addrs. cbn. f_equal. induction ks as [|k ks IH]; [done|]. cbn.
  by rewrite fmap_app, IH.
Qed.

Lemma addrs_root t : addr t ∈ addrs t.
Proof. destruct t. rewrite addrs_unfold. left. Qed.

Lemma addrs_kid a its (ks : list (btree V)) k b :
  k ∈ ks → b ∈ addrs k → b ∈ addrs (BNode a its ks).
Proof.
  intros Hk Hb. rewrite addrs_unfold. right. apply elem_of_concat. exists (addrs k).
  split; [done|]. by apply list_elem_of_fmap_2.
Qed.

Lemma rep_addrs_live p d par t b :
  rep p d par t → b ∈ addrs t → is_Some (node_at p b).
Proof.
  revert par. induction t as [a its ks IH] using btree_ind'. intros par.
  rewrite rep_unfold, addrs_unfold. intros [(nd & Ha & _) Hk] [->|Hb]%elem_of_cons; [by eexists|].
  apply elem_of_concat in Hb as (l & Hb & (k & -> & Hin)%list_elem_of_fmap).
  rewrite Forall_forall in IH, Hk. by eapply IH; [|apply Hk|].
Qed.

Lemma rep_modifies p p' d par t F F' :
  rep p d par t → modifies p p' F F' → (∀ b, b ∈ addrs t → b ∉ F) → rep p' d par t.
Proof.
  intros Hr Hm Hd. eapply rep_frame; [exact Hr|]. intros b Hb.
  destruct (rep_addrs_live _ _ _ _ _ Hr Hb) as [nd Hnd]. rewrite Hnd.
  by eapply mod_frame; [|apply Hd|].
Qed.

(** ** The addresses of a tree *)

Fixpoint g_addrs g : list ptr :=
  match g with
  | GLayer t nexts =>
      addrs t ++ concat ((λ o, match o with Some g => g_addrs g | None => [] end) <$> nexts)
  | GChain a _ _ nl => a :: match nl with Some g => g_addrs g | None => [] end
  end.

Definition o_addrs (o : option (gtrie V)) : list ptr :=
  match o with Some g => g_addrs g | None => [] end.

Lemma g_addrs_layer t nexts : g_addrs (GLayer t nexts) = addrs t ++ concat (o_addrs <$> nexts).
Proof. done. Qed.

Lemma g_addrs_root g : g_addr g ∈ g_addrs g.
Proof.
  destruct g; [|left]. rewrite g_addrs_layer. apply elem_of_app. left. apply addrs_root.
Qed.

Lemma elem_of_next_addrs nexts b :
  b ∈ concat (o_addrs <$> nexts) ↔ ∃ g, Some g ∈ nexts ∧ b ∈ g_addrs g.
Proof.
  rewrite elem_of_concat. split.
  - intros (l & Hb & (o & -> & Ho)%list_elem_of_fmap).
    destruct o as [g|]; [by exists g|]. by apply not_elem_of_nil in Hb.
  - intros (g & Hg & Hb). exists (o_addrs (Some g)). split; [done|].
    by apply list_elem_of_fmap_2.
Qed.

Lemma g_rep_addrs_live p H order level g b :
  g_rep p H order level g → b ∈ g_addrs g → is_Some (node_at p b).
Proof.
  revert level. induction g as [t nexts IH|a c cs nl IH] using gtrie_ind'; intros level.
  - intros ((d & _ & Hr) & _ & _ & Hn)%g_rep_layer. rewrite g_addrs_layer.
    intros [Hb|(g & Hg & Hb)%elem_of_next_addrs]%elem_of_app; [by eapply rep_addrs_live|].
    apply list_elem_of_lookup in Hg as Hi. destruct Hi as [i Hi].
    destruct (Forall2_lookup_r _ _ _ _ _ Hn Hi) as (x & _ & _ & Hg'). by eapply IH.
  - intros ((nd & Ha & _) & _ & _ & _ & Hn) [->|Hb]%elem_of_cons; [by eexists|].
    destruct nl as [g'|]; [|by apply not_elem_of_nil in Hb].
    by eapply IH; [|apply Hn|].
Qed.

(** A represented tree depends only on its footprint; the bound on the heights
    can be raised. *)
Lemma g_rep_modifies p p' H H' order level g F F' :
  g_rep p H order level g → modifies p p' F F' → (∀ b, b ∈ g_addrs g → b ∉ F) → (H ≤ H')%nat →
  g_rep p' H' order level g.
Proof.
  intros Hg Hm Hd HH. revert level Hg Hd.
  induction g as [t nexts IH|a c cs nl IH] using gtrie_ind'; intros level.
  - rewrite !g_rep_layer. intros ((d & Hd & Hr) & Hs & Hh & Hn) Hdis. split_and!; [|done|lia|].
    + exists d. split; [done|]. eapply rep_modifies; [done..|]. intros b Hb. apply Hdis.
      rewrite g_addrs_layer. apply elem_of_app. by left.
    + assert (∀ g, Some g ∈ nexts → ∀ b, b ∈ g_addrs g → b ∉ F) as Hdis'.
      { intros g Hg b Hb. apply Hdis. rewrite g_addrs_layer. apply elem_of_app. right.
        apply elem_of_next_addrs. by exists g. }
      clear Hdis Hs. induction Hn as [|x o xs os Hx Hn IHn]; constructor.
      * destruct o as [g|]; [|done]. destruct Hx as [Hx Hg]. split; [done|].
        apply IH; [left|done|]. apply Hdis'. left.
      * apply IHn; [intros g Hg; apply IH; by right|intros g Hg; apply Hdis'; by right].
  - intros ((nd & Ha & Hc) & Hne & Hv & Hi & Hn) Hdis. split_and!; [|done..|].
    + exists nd. split; [|done]. eapply mod_frame; [exact Hm| |done]. apply Hdis. left.
    + destruct nl as [g'|]; [|done]. destruct Hn as [Hx Hg]. split; [done|].
      apply IH; [done..|]. intros b Hb. apply Hdis. by right.
Qed.

Lemma next_rep_modifies p p' H H' order level (x : KeyInfo V) o F F' :
  next_rep p H order level x o → modifies p p' F F' → (∀ a, a ∈ o_addrs o → a ∉ F) → (H ≤ H')%nat →
  next_rep p' H' order level x o.
Proof.
  destruct o as [g|]; [|done]. intros [Hx Hg] Hmod Hdis HH. split; [done|].
  by eapply g_rep_modifies.
Qed.

(** Replacing one of the parts. *)
Lemma concat_lookup_perm (l : list (list ptr)) j x :
  l !! j = Some x → concat l ≡ₚ x ++ concat (take j l ++ drop (S j) l).
Proof.
  intros Hj. rewrite <- (take_drop_middle _ _ _ Hj) at 1. rewrite !concat_app. cbn.
  apply Permutation_app_swap_app.
Qed.

Lemma kid_addrs a its (ks : list (btree V)) i c c' :
  ks !! i = Some c →
  ∃ R, addrs (BNode a its ks) ≡ₚ addrs c ++ R
    ∧ addrs (BNode a its (<[i := c']> ks)) ≡ₚ addrs c' ++ R.
Proof.
  intros Hi. pose proof (lookup_lt_Some _ _ _ Hi).
  exists (a :: concat (take i (addrs <$> ks) ++ drop (S i) (addrs <$> ks))).
  rewrite !addrs_unfold. split.
  - rewrite (concat_lookup_perm (addrs <$> ks) i (addrs c)) by (by rewrite list_lookup_fmap, Hi).
    solve_Permutation.
  - rewrite list_fmap_insert.
    rewrite (concat_lookup_perm (<[i := addrs c']> (addrs <$> ks)) i (addrs c'))
      by (by apply list_lookup_insert_eq; rewrite length_fmap).
    rewrite take_insert_ge, drop_insert_lt by lia. solve_Permutation.
Qed.

Lemma concat_insert_perm (l : list (list ptr)) j x y :
  l !! j = Some x → x ++ concat (<[j := y]> l) ≡ₚ y ++ concat l.
Proof.
  revert j. induction l as [|z l IH]; intros [|j] Hj; cbn in *; [done..| |].
  - injection Hj as ->. by rewrite Permutation_app_swap_app.
  - rewrite Permutation_app_swap_app, (IH j Hj), Permutation_app_swap_app. done.
Qed.

Lemma insert_next_addrs nexts j o o' :
  nexts !! j = Some o →
  o_addrs o ++ concat (o_addrs <$> <[j := o']> nexts) ≡ₚ o_addrs o' ++ concat (o_addrs <$> nexts).
Proof.
  intros Hj. rewrite list_fmap_insert. apply concat_insert_perm.
  by rewrite list_lookup_fmap, Hj.
Qed.

(** ** The shape of a tree *)

Definition t_nonempty t : Prop := Forall (λ n, n.2 ≠ []) (nodes t).

Lemma t_nonempty_unfold a its (ks : list (btree V)) :
  t_nonempty (BNode a its ks) ↔ its ≠ [] ∧ Forall t_nonempty ks.
Proof.
  unfold t_nonempty. cbn. rewrite Forall_cons, Forall_concat, Forall_fmap. done.
Qed.

(** All leaves are [h] levels below the root, and every node but the root has
    at least [MIN_DEGREE] keys. *)
Fixpoint balanced (h : nat) t : bool :=
  match t, h with
  | BNode _ _ ks, O => match ks with [] => true | _ => false end
  | BNode _ _ ks, S h =>
      match ks with [] => false | _ => true end
      && forallb (λ c, (MIN_DEGREE <=? length (items c))%nat && balanced h c) ks
  end.

Definition good_kid (h : nat) (c : btree V) : Prop := (MIN_DEGREE ≤ length (items c))%nat ∧ balanced h c = true.

Lemma balanced_0 a its (ks : list (btree V)) : balanced 0 (BNode a its ks) = true ↔ ks = [].
Proof. destruct ks; done. Qed.

Lemma balanced_S h a its (ks : list (btree V)) : balanced (S h) (BNode a its ks) = true ↔ ks ≠ [] ∧ Forall (good_kid h) ks.
Proof.
  cbn [balanced]. rewrite andb_true_iff. f_equiv; [by destruct ks|].
  induction ks as [|c ks IH]; cbn [forallb]; [by rewrite Forall_nil|].
  rewrite andb_true_iff, IH, Forall_cons. unfold good_kid. rewrite andb_true_iff, Nat.leb_le. done.
Qed.

Lemma balanced_part h a b its its' (ks ks' : list (btree V)) :
  balanced h (BNode a its ks) = true → Forall (λ c, c ∈ ks) ks' → (ks' = [] → ks = []) →
  balanced h (BNode b its' ks') = true.
Proof.
  intros Hb Hsub Hne. destruct h as [|h].
  - apply balanced_0 in Hb as ->. apply balanced_0. destruct ks' as [|c ks']; [done|].
    apply Forall_cons in Hsub as [Hc _]. by apply not_elem_of_nil in Hc.
  - apply balanced_S in Hb as [Hks Hg]. apply balanced_S. split; [naive_solver|].
    rewrite Forall_forall in Hg. eapply Forall_impl; [exact Hsub|]. exact Hg.
Qed.

(** Every node of a tree in use has keys, and all leaves have the same depth. *)
Definition t_shaped t : Prop := t_nonempty t ∧ ∃ h, balanced h t = true.

Lemma leaf_shaped a its : its ≠ [] → t_shaped (BNode a its []).
Proof. intros Hits. split; [by apply t_nonempty_unfold|by exists 0%nat]. Qed.

Lemma balanced_height h t : balanced h t = true → height t = S h.
Proof.
  revert h. induction t as [a its ks IH] using btree_ind'. intros [|h].
  - by intros ->%balanced_0.
  - intros [Hks Hg]%balanced_S. cbn [height]. f_equal.
    destruct ks as [|c ks]; [done|]. clear Hks. rewrite Forall_forall in IH, Hg.
    assert (∀ c', c' ∈ c :: ks → height c' = S h) as Hh by (intros c' Hc'; apply IH; [|apply Hg]; done).
    clear IH Hg. revert c Hh. induction ks as [|c2 ks IHk]; intros c Hh; cbn.
    + rewrite (Hh c) by left. lia.
    + specialize (IHk c2 ltac:(intros; apply Hh; by right)). cbn in IHk. rewrite (Hh c) by left. lia.
Qed.

(** The change of a layer by an insertion below its root: the leaves stay at
    their depth and the root loses no keys. *)
Definition grows t t' : Prop :=
  ∀ h, balanced h t = true → balanced h t' = true ∧ (length (items t) ≤ length (items t'))%nat.

Lemma grows_trans t1 t2 t3 : grows t1 t2 → grows t2 t3 → grows t1 t3.
Proof. intros H1 H2 h [Hb ?]%H1. apply H2 in Hb as [? ?]. split; [done|lia]. Qed.

Lemma grows_shaped t t' : grows t t' → t_nonempty t' → t_shaped t → t_shaped t'.
Proof. intros Hg Hne [_ [h Hb]]. split; [done|]. exists h. by apply Hg. Qed.

Lemma grows_kid a its (ks : list (btree V)) i c c' :
  ks !! i = Some c → grows c c' → grows (BNode a its ks) (BNode a its (<[i := c']> ks)).
Proof.
  intros Hi Hg [|h]; [by intros ->%balanced_0|]. rewrite !balanced_S. intros [Hks Hgood]. split; [|done].
  split; [intros He%(f_equal length); rewrite length_insert in He; by destruct ks|]. apply Forall_insert; [done|].
  rewrite Forall_lookup in Hgood. destruct (Hgood _ _ Hi) as [Hm Hb].
  apply Hg in Hb as [Hb Hl]. split; [lia|done].
Qed.

(** ** The shape of a trie *)

Fixpoint g_shaped g : Prop :=
  match g with
  | GLayer t nexts =>
      t_shaped t
      ∧ foldr (λ o P, match o with Some g => g_shaped g | None => True end ∧ P) True nexts
  | GChain _ _ _ nl => match nl with Some g => g_shaped g | None => True end
  end.

Definition o_shaped (o : option (gtrie V)) : Prop :=
  match o with Some g => g_shaped g | None => True end.

Lemma g_shaped_layer t nexts :
  g_shaped (GLayer t nexts) ↔ t_shaped t ∧ Forall o_shaped nexts.
Proof.
  cbn. f_equiv. induction nexts as [|o os IH]; cbn.
  - by rewrite Forall_nil.
  - by rewrite Forall_cons, IH.
Qed.
End Footprint.
