(* ===== verification/Slots.v ===== *)
(** * Moving keys and children between nodes

    The loops of the B-tree algorithms move runs of keys and of child
    pointers.  A [slot] is a key with its value, next layer and dimension; the
    lemmas say which slots and child pointers the nodes hold afterwards, and
    that nothing else changes. *)
From S2P Require Import Prelude Range RuleValue Mempool Node NodeLemmas Search Layer LayerSearch Trie Footprint.
Local Open Scope Z_scope.

(** The sizes the source fixes at compile time: the arrays of a node hold
    [2 T - 1] keys, and the array of dimensions has 16 entries. *)
Class CfgOk `{cfg : !BTreeCfg} : Prop := {
  cfg_T : (2 ≤ T)%nat;
  cfg_dims : (MAX_DEGREE ≤ 16)%nat;
}.

Section Slots.
Context `{cfg : !BTreeCfg, Hok : !CfgOk} {V : Type} `{!RuleValue V}.
Implicit Types (p : Heap V) (nd : Node V) (a b : ptr) (x : KeyInfo V * nat).

Lemma max_degree : MAX_DEGREE = (2 * MIN_DEGREE + 1)%nat ∧ (1 ≤ MIN_DEGREE)%nat.
Proof. pose proof cfg_T. unfold MAX_DEGREE, MIN_DEGREE. lia. Qed.

Definition slot nd (i : nat) : option (KeyInfo V * nat) :=
  k ← node_key nd i; d ← node_dim nd i; Some (k, d).

Definition set_slot (i : nat) x nd : Node V := node_set_dim i x.2 (node_set_key i x.1 nd).

Lemma slot_Some nd i k d : slot nd i = Some (k, d) ↔ node_key nd i = Some k ∧ node_dim nd i = Some d.
Proof.
  unfold slot. destruct (node_key nd i), (node_dim nd i); cbn; naive_solver.
Qed.

(** Everything but the slots. *)
Record same_shape nd nd' : Prop := {
  ss_wf : node_wf nd → node_wf nd';
  ss_cnt : key_cnt nd' = key_cnt nd;
  ss_leaf : is_leaf nd' = is_leaf nd;
  ss_compressed : is_compressed nd' = is_compressed nd;
  ss_parent : parent nd' = parent nd;
  ss_children : child_index nd' = child_index nd;
}.

Lemma same_shape_refl nd : same_shape nd nd.
Proof. by split. Qed.

Lemma same_shape_trans n1 n2 n3 : same_shape n1 n2 → same_shape n2 n3 → same_shape n1 n3.
Proof. intros [] []. split; [auto|congruence..]. Qed.

Lemma node_key_set_key nd j k i :
  node_wf nd → (j < MAX_DEGREE)%nat →
  node_key (node_set_key j k nd) i = if decide (i = j) then Some k else node_key nd i.
Proof.
  intros Hw Hj. unfold node_key. cbn. case_decide as He.
  - subst i. rewrite !list_lookup_insert_eq by (destruct Hw; lia). cbn. by destruct k.
  - by rewrite !list_lookup_insert_ne by done.
Qed.

Lemma set_slot_shape j x nd : same_shape nd (set_slot j x nd).
Proof.
  split; [|done..]. intros []. split; cbn; by rewrite ?length_insert.
Qed.

Lemma slot_set_slot nd j x i :
  node_wf nd → (j < MAX_DEGREE)%nat →
  slot (set_slot j x nd) i = if decide (i = j) then Some x else slot nd i.
Proof.
  intros Hw Hj. unfold slot, set_slot. cbn.
  assert (node_key (node_set_dim j x.2 (node_set_key j x.1 nd)) i
          = node_key (node_set_key j x.1 nd) i) as -> by done.
  rewrite node_key_set_key by done. unfold node_dim. cbn. case_decide as He.
  - subst i. cbn. rewrite list_lookup_insert_eq.
    + cbn. by destruct x.
    + pose proof cfg_dims. destruct Hw. lia.
  - by rewrite list_lookup_insert_ne by done.
Qed.

Lemma put_id p a nd : node_at p a = Some nd → put a nd p = p.
Proof.
  intros Ha. unfold put, Pool.set_mempool. unfold node_at in Ha. rewrite insert_id by exact Ha.
  by destruct p.
Qed.

Lemma move_slot_ok p a nd i b bd j x :
  node_at p a = Some nd → slot nd i = Some x → (i < MAX_DEGREE)%nat →
  node_at p b = Some bd → node_wf bd → (j < MAX_DEGREE)%nat → (a ≠ b ∨ i ≠ j) →
  move_key a i b j p = (Ok tt, put b (set_slot j x bd) p).
Proof.
  intros Ha Hs Hi Hb Hw Hj Hne. destruct x as [k d]. apply slot_Some in Hs as [Hk Hd].
  pose proof cfg_dims. by eapply move_key_ok; [..|lia|].
Qed.

Lemma elem_of_take_in {A} n (y : A) l : y ∈ take n l → y ∈ l.
Proof. intros (i & Hi & _)%elem_of_take. by eapply list_elem_of_lookup_2. Qed.

Lemma elem_of_drop_in {A} n (y : A) l : y ∈ drop n l → y ∈ l.
Proof.
  intros (i & Hi)%list_elem_of_lookup. rewrite lookup_drop in Hi. by eapply list_elem_of_lookup_2.
Qed.

(** ** Runs of keys *)

(** [n] slots of [a], at the indices [f 0], ..., copied to the indices [g 0],
    ... of another node. *)
Lemma copy_slots p a nd b bd (f g : nat → nat) n :
  a ≠ b → node_at p a = Some nd → node_at p b = Some bd → node_wf bd →
  (∀ j, (j < n)%nat → is_Some (slot nd (f j)) ∧ (f j < MAX_DEGREE)%nat ∧ (g j < MAX_DEGREE)%nat) →
  (∀ i j, g i = g j → i = j) →
  ∃ bd', for_each (range_up 0 n) (λ j, move_key a (f j) b (g j)) p = (Ok tt, put b bd' p)
    ∧ same_shape bd bd'
    ∧ (∀ j, (j < n)%nat → slot bd' (g j) = slot nd (f j))
    ∧ (∀ i, (∀ j, (j < n)%nat → i ≠ g j) → slot bd' i = slot bd i).
Proof.
  intros Hne Ha Hb Hw Hf Hg.
  destruct (for_each_up (λ j, move_key a (f j) b (g j))
    (λ m p', ∃ bd', p' = put b bd' p ∧ same_shape bd bd'
       ∧ (∀ j, (j < m)%nat → slot bd' (g j) = slot nd (f j))
       ∧ (∀ i, (∀ j, (j < m)%nat → i ≠ g j) → slot bd' i = slot bd i)) 0 n p)
    as (p' & Hr & bd' & -> & H1 & H2 & H3); [lia| | |by exists bd'].
  - exists bd. rewrite put_id by done. split_and!; [done|apply same_shape_refl|lia|done].
  - intros i p' Hi (bd' & -> & Hs & H1 & H2). destruct (Hf i) as ([x Hx] & Hfi & Hgi); [lia|].
    eexists. split.
    { eapply move_slot_ok; [by rewrite node_at_put_ne|exact Hx|done|apply node_at_put_eq| |done|by left].
      by apply (ss_wf _ _ Hs). }
    exists (set_slot (g i) x bd'). rewrite put_put. split_and!; [done| | |].
    + eapply same_shape_trans; [exact Hs|apply set_slot_shape].
    + intros j Hj. rewrite slot_set_slot; [|by apply (ss_wf _ _ Hs)|done].
      case_decide as He; [apply Hg in He; subst; congruence|]. apply H1.
      assert (j ≠ i) by (intros ->; done). lia.
    + intros k Hk. rewrite slot_set_slot; [|by apply (ss_wf _ _ Hs)|done].
      rewrite decide_False by (apply Hk; lia). apply H2. intros j Hj. apply Hk. lia.
Qed.

(** The slots [lo], ..., [hi - 1] of a node moved one place up. *)
Lemma shift_slots_up p a nd lo hi :
  node_at p a = Some nd → node_wf nd → (lo ≤ hi)%nat → (hi < MAX_DEGREE)%nat →
  (∀ j, (j < hi)%nat → is_Some (slot nd j)) →
  ∃ nd', for_each (range_down lo hi) (λ j, move_key a j a (j + 1)%nat) p = (Ok tt, put a nd' p)
    ∧ same_shape nd nd'
    ∧ (∀ j, (lo ≤ j < hi)%nat → slot nd' (S j) = slot nd j)
    ∧ (∀ j, (j ≤ lo)%nat → slot nd' j = slot nd j).
Proof.
  intros Ha Hw Hlo Hhi Hs.
  destruct (for_each_down (λ j, move_key a j a (j + 1)%nat)
    (λ m p', ∃ nd', p' = put a nd' p ∧ same_shape nd nd'
       ∧ (∀ j, (m ≤ j < hi)%nat → slot nd' (S j) = slot nd j)
       ∧ (∀ j, (j ≤ m)%nat → slot nd' j = slot nd j)) lo hi p)
    as (p' & Hr & nd' & -> & H1 & H2 & H3); [done| | |by exists nd'].
  - exists nd. rewrite put_id by done. split_and!; [done|apply same_shape_refl|lia|done].
  - intros i p' Hi (nd' & -> & Hsh & H1 & H2). destruct (Hs i) as [x Hx]; [lia|].
    eexists. split.
    { eapply (move_slot_ok _ _ nd'); [apply node_at_put_eq| |lia|apply node_at_put_eq| |lia|right; lia].
      - rewrite H2 by lia. exact Hx.
      - by apply (ss_wf _ _ Hsh). }
    exists (set_slot (i + 1) x nd'). rewrite put_put. split_and!; [done| | |].
    + eapply same_shape_trans; [exact Hsh|apply set_slot_shape].
    + intros j Hj. rewrite slot_set_slot; [|by apply (ss_wf _ _ Hsh)|lia].
      case_decide as He; [replace j with i by lia; done|]. apply H1. lia.
    + intros j Hj. rewrite slot_set_slot; [|by apply (ss_wf _ _ Hsh)|lia].
      rewrite decide_False by lia. apply H2. lia.
Qed.

(** ** Runs of children *)

Lemma set_child_ok p fl a nd i c cd :
  heap_ok p fl → node_at p a = Some nd → node_wf nd → (i ≤ MAX_DEGREE)%nat →
  node_at p c = Some cd → a ≠ c →
  set_child a i (Some c) p =
    (Ok tt, put c (node_set_parent (Some a) cd) (put a (node_set_child_index i (to_index c) nd) p)).
Proof.
  intros Hp Ha Hw Hi Hc Hne. unfold set_child. run_ok by (by eapply getId_ok).
  run_ok by (by apply set_child_index_ok).
  by rewrite (upd_ok _ _ cd) by (by rewrite node_at_put_ne).
Qed.

Lemma node_set_parent_id nd q : parent nd = q → node_set_parent q nd = nd.
Proof. intros <-. by destruct nd. Qed.

Lemma node_wf_child_index j c nd : node_wf nd → node_wf (node_set_child_index j c nd).
Proof. intros []. split; cbn; by rewrite ?length_insert. Qed.

(** The node with other child pointers. *)
Definition with_children (ci : list Z) nd : Node V :=
  mkNode (keys nd) (dim_index nd) (nvalue nd) (next_level nd) ci (key_mask nd)
    (key_cnt nd) (is_leaf nd) (is_compressed nd) (parent nd).

(** The child pointers [lo], ..., [hi - 1] of a node moved one place up: the
    children keep their parent. *)
Lemma shift_children_up p fl a nd lo hi (cs : list ptr) :
  heap_ok p fl → node_at p a = Some nd → node_wf nd → (lo ≤ hi)%nat → (hi ≤ MAX_DEGREE)%nat →
  length cs = hi →
  (∀ j c, cs !! j = Some c → child_index nd !! j = Some (to_index c) ∧ a ≠ c
     ∧ ∃ cd, node_at p c = Some cd ∧ parent cd = Some a) →
  ∃ nd', for_each (range_down lo hi) (λ j, move_child a j a (j + 1)%nat) p = (Ok tt, put a nd' p)
    ∧ (∃ ci, nd' = with_children ci nd ∧ node_wf nd')
    ∧ (∀ j, (lo ≤ j < hi)%nat → child_index nd' !! S j = child_index nd !! j)
    ∧ (∀ j, (j ≤ lo)%nat → child_index nd' !! j = child_index nd !! j).
Proof.
  intros Hp Ha Hw Hlo Hhi Hl Hcs.
  destruct (for_each_down (λ j, move_child a j a (j + 1)%nat)
    (λ m p', ∃ nd', p' = put a nd' p
       ∧ (∃ ci, nd' = with_children ci nd ∧ node_wf nd')
       ∧ (∀ j, (m ≤ j < hi)%nat → child_index nd' !! S j = child_index nd !! j)
       ∧ (∀ j, (j ≤ m)%nat → child_index nd' !! j = child_index nd !! j)) lo hi p)
    as (p' & Hr & nd' & -> & H1 & H2 & H3); [done| | |by exists nd'].
  - exists nd. rewrite put_id by done. split_and!; [done| |lia|done].
    exists (child_index nd). split; [by destruct nd|done].
  - intros i p' Hi (nd' & -> & (ci & Hnd' & Hw') & H1 & H2).
    destruct (lookup_lt_is_Some_2 cs i) as [c Hc]; [lia|].
    destruct (Hcs i c Hc) as (Hci & Hac & cd & Hcd & Hpar).
    pose proof (heap_ok_put _ _ _ nd' _ Hp Ha) as Hp'.
    eexists. split.
    { unfold move_child. erewrite bind_ok.
      2: { eapply child_some; [exact Hp'|apply node_at_put_eq|rewrite H2 by lia; exact Hci|].
           by rewrite node_at_put_ne. }
      eapply set_child_ok; [exact Hp'|apply node_at_put_eq|done|lia| |done].
      by rewrite node_at_put_ne. }
    exists (node_set_child_index (i + 1) (to_index c) nd').
    rewrite (node_set_parent_id _ _ Hpar), put_put. split_and!.
    + apply put_id. by rewrite node_at_put_ne.
    + eexists. split; [|by apply node_wf_child_index]. by rewrite Hnd'.
    + intros j Hj. cbn. destruct (decide (j = i)) as [->|].
      * replace (S i) with (i + 1)%nat by lia.
        rewrite list_lookup_insert_eq by (rewrite (wf_children _ Hw'); lia). done.
      * rewrite list_lookup_insert_ne by lia. apply H1. lia.
    + intros j Hj. cbn. rewrite list_lookup_insert_ne by lia. apply H2. lia.
Qed.

(** Children [f 0], ... of [a] moved to the indices [g 0], ... of [b], which
    becomes their parent. *)
Lemma move_children p fl a nd b bd (f g : nat → nat) (cs : list ptr) :
  heap_ok p fl → a ≠ b → node_at p a = Some nd → node_at p b = Some bd → node_wf bd →
  (∀ i j, g i = g j → i = j) → (∀ j, (j < length cs)%nat → (g j ≤ MAX_DEGREE)%nat) →
  NoDup cs → a ∉ cs → b ∉ cs →
  (∀ j c, cs !! j = Some c →
     child_index nd !! f j = Some (to_index c) ∧ is_Some (node_at p c)) →
  ∃ p' bd', for_each (range_up 0 (length cs)) (λ j, ch ← child a (f j); set_child b (g j) ch) p
            = (Ok tt, p')
    ∧ heap_ok p' fl ∧ node_at p' b = Some bd'
    ∧ (∃ ci, bd' = with_children ci bd ∧ node_wf bd')
    ∧ (∀ j c, cs !! j = Some c → child_index bd' !! g j = Some (to_index c))
    ∧ (∀ i, (∀ j, (j < length cs)%nat → i ≠ g j) → child_index bd' !! i = child_index bd !! i)
    ∧ (∀ c cd, c ∈ cs → node_at p c = Some cd → node_at p' c = Some (node_set_parent (Some b) cd))
    ∧ (∀ c, c ≠ b → c ∉ cs → node_at p' c = node_at p c).
Proof.
  intros Hp Hab Ha Hb Hw Hg Hl Hnd Hac Hbc Hcs.
  destruct (for_each_up (λ j, ch ← child a (f j); set_child b (g j) ch)
    (λ m p', heap_ok p' fl ∧ ∃ bd', node_at p' b = Some bd'
       ∧ (∃ ci, bd' = with_children ci bd ∧ node_wf bd')
       ∧ (∀ j c, cs !! j = Some c → (j < m)%nat → child_index bd' !! g j = Some (to_index c))
       ∧ (∀ i, (∀ j, (j < m)%nat → i ≠ g j) → child_index bd' !! i = child_index bd !! i)
       ∧ (∀ c cd, c ∈ take m cs → node_at p c = Some cd →
            node_at p' c = Some (node_set_parent (Some b) cd))
       ∧ (∀ c, c ≠ b → c ∉ take m cs → node_at p' c = node_at p c)) 0 (length cs) p)
    as (p' & Hr & Hp' & bd' & H1 & H2 & H3 & H4 & H5 & H6); [lia| | |].
  - split; [done|]. exists bd. split_and!; [done| |lia|done| |done].
    + exists (child_index bd). split; [by destruct bd|done].
    + by intros c cd ?%not_elem_of_nil.
  - intros i p' Hi (Hp' & bd' & Hb' & (ci & Hbd' & Hw') & H1 & H1' & H2 & H3).
    destruct (lookup_lt_is_Some_2 cs i) as [c Hc]; [lia|].
    destruct (Hcs i c Hc) as (Hci & cd & Hcd).
    pose proof (list_elem_of_lookup_2 _ _ _ Hc) as Hin.
    assert (c ∉ take i cs) as Hnt.
    { intros (k & Hk)%list_elem_of_lookup. apply lookup_take_Some in Hk as [Hk Hki].
      pose proof (NoDup_lookup _ _ _ _ Hnd Hk Hc). lia. }
    assert (b ≠ c ∧ a ≠ c) as [Hbne Hane] by (split; intros <-; done).
    assert (node_at p' c = Some cd) as Hcd' by (by rewrite H3).
    assert (a ∉ take i cs) as Hat by (intros ?%elem_of_take_in; done).
    eexists. split.
    { erewrite bind_ok.
      2: { eapply child_some; [exact Hp'| |exact Hci|exact Hcd']. by rewrite H3. }
      eapply set_child_ok; [done|exact Hb'|done|apply Hl; lia|exact Hcd'|done]. }
    split.
    { eapply heap_ok_put; [eapply heap_ok_put; [done|exact Hb']|].
      rewrite node_at_put_ne by done. exact Hcd'. }
    exists (node_set_child_index (g i) (to_index c) bd'). split_and!.
    + rewrite node_at_put_ne by done. apply node_at_put_eq.
    + eexists. split; [|by apply node_wf_child_index]. by rewrite Hbd'.
    + intros j c' Hc' Hj. cbn. destruct (decide (j = i)) as [->|].
      * simplify_eq. apply list_lookup_insert_eq. rewrite (wf_children _ Hw').
        pose proof (Hl i). lia.
      * rewrite list_lookup_insert_ne by (by intros ?%Hg). apply H1; [done|lia].
    + intros j Hj. cbn. rewrite list_lookup_insert_ne by (apply not_eq_sym, Hj; lia).
      apply H1'. intros j' Hj'. apply Hj. lia.
    + intros c' cd' Hc' Hcd''. rewrite (take_S_r _ _ _ Hc) in Hc'.
      apply elem_of_app in Hc' as [Hc'| ->%list_elem_of_singleton].
      * rewrite !node_at_put_ne; [by apply H2|by intros <-; apply Hbc, (elem_of_take_in i)
                                 |by intros <-].
      * simplify_eq. apply node_at_put_eq.
    + intros c' Hc' Hnt'. rewrite (take_S_r _ _ _ Hc), elem_of_app in Hnt'.
      rewrite list_elem_of_singleton in Hnt'.
      rewrite !node_at_put_ne by naive_solver. apply H3; naive_solver.
  - exists p', bd'. split_and!; [done|done|done|done| |done| |].
    + intros j c Hc. apply H3; [done|]. by eapply lookup_lt_Some.
    + by rewrite take_ge in H5 by done.
    + by rewrite take_ge in H6 by done.
Qed.
End Slots.
