(* ===== verification/TrieSearch.v ===== *)
(** * Correctness of the lookup in a tree

    The loops of [b_tree_search.h] over the memory compute the abstract lookup
    of [Trie.v]: on a represented tree they return, whatever the packet, the
    value of the longest stored path that matches it. *)
From S2P Require Import Prelude Range RuleValue Mempool Node NodeLemmas Search Layer LayerSearch Trie.
Local Open Scope Z_scope.

Section TrieSearch.
Context `{cfg : !BTreeCfg} {V : Type} `{!RuleValue V}.
Implicit Types (p : Heap V) (nd : Node V) (g : gtrie V) (order : list nat).

(** The fields of the packet in the order of the dimensions. *)
Definition packet_vals (pos : list in_packet_position_t) (bytes : list Z) order (vals : list Z)
    p : Prop :=
  ∀ l d, order !! l = Some d → ∃ v, vals !! l = Some v ∧ get_val pos bytes d p = (Ok v, p).

Lemma t_lookup_entry vals l val es res :
  vals !! l = Some val →
  t_lookup (drop l vals) (Some (Entries es)) res =
    match find_entry val es with
    | Some (k, v, nl) => t_lookup (drop (S l) vals) nl (if is_valid v then v else res)
    | None => res
    end.
Proof. intros Hl. by rewrite (drop_S _ _ _ Hl). Qed.

Lemma find_single val k (v : V) nl :
  find_entry val [(k, v, nl)] = if in_range k val then Some (k, v, nl) else None.
Proof.
  unfold find_entry. cbn. destruct (in_range k val) eqn:E.
  - by rewrite decide_True.
  - by rewrite decide_False by congruence.
Qed.

(** ** A compressed node *)

Section chain.
Context (p : Heap V) (fl : list nat) (H : nat) (order : list nat) (level : nat).
Context (pos : list in_packet_position_t) (bytes : list Z) (vals : list Z).
Context (a : ptr) (nd : Node V) (c : KeyInfo V) (cs : list (KeyInfo V)) (nl : option (gtrie V)).
Hypothesis Hp : heap_ok p fl.
Hypothesis Hvals : packet_vals pos bytes order vals p.
Hypothesis Ha : node_at p a = Some nd.
Hypothesis Hc : chain_rep order level (c :: cs) nd.
Hypothesis Hnone : Forall (λ x, knext_level x = INVALID_INDEX) (removelast (c :: cs)).
Hypothesis Hnext : next_rep p H order (level + length (c :: cs)) (List.last cs c) nl.

(** The next layer of the [i]-th key. *)
Lemma chain_next_layer i x :
  (c :: cs) !! i = Some x →
  get_next_layer a i p = (Ok (if decide (i = length cs) then g_addr <$> nl else None), p).
Proof.
  intros Hi. pose proof (cr_keys _ _ _ _ Hc i x Hi) as (_ & _ & Hl)%node_key_inv.
  pose proof (lookup_lt_Some _ _ _ Hi) as Hlt. cbn in Hlt.
  case_decide as He.
  - assert (x = List.last cs c) as ->.
    { pose proof (last_cons_default c cs) as Hlast. rewrite last_lookup in Hlast.
      cbn [length Nat.pred] in Hlast. congruence. }
    destruct nl as [g'|]; cbn in Hnext |- *.
    + destruct Hnext as [Hx Hg]. destruct (g_rep_live _ _ _ _ _ Hg) as [gd Hgd].
      rewrite Hx in Hl. by eapply next_layer_some.
    + rewrite Hnext in Hl. by eapply next_layer_none.
  - assert (x ∈ removelast (c :: cs)) as Hin.
    { rewrite <- (take_drop (length cs) (c :: cs)) in Hi.
      rewrite lookup_app_l in Hi by (rewrite length_take; cbn; lia).
      rewrite removelast_firstn_len. apply list_elem_of_lookup_2 in Hi.
      cbn [length Nat.pred]. exact Hi. }
    rewrite Forall_forall in Hnone. rewrite (Hnone x Hin) in Hl. by eapply next_layer_none.
Qed.

(** What the loop leaves: the lookup is finished, or it goes on in the next
    layer. *)
Definition chain_result (ys : list (KeyInfo V)) (i2 : nat) (res : V)
    (r : V * option ptr * nat) : Prop :=
  let '(res', o, add) := r in
  let found := t_lookup (drop (level + i2) vals) (chain_trie ys (abs <$> nl)) res in
  match o with
  | None => found = res'
  | Some b => ∃ g', nl = Some g' ∧ b = g_addr g' ∧ add = length (c :: cs)
      ∧ found = t_lookup (drop (level + length (c :: cs)) vals) (Some (abs g')) res'
  end.

Lemma search_rest_ok ys y i2 res :
  drop i2 (c :: cs) = y :: ys →
  ∃ r, search_rest_loop pos a bytes (length (y :: ys)) i2 res None 0 p = (Ok r, p)
    ∧ chain_result (y :: ys) i2 res r.
Proof.
  revert y i2 res. induction ys as [|z ys IH]; intros y i2 res Hd.
  all: assert ((c :: cs) !! i2 = Some y) as Hy
    by (rewrite <- (Nat.add_0_r i2), <- lookup_drop, Hd; done).
  all: pose proof (lookup_lt_Some _ _ _ Hy) as Hlt; pose proof (cr_max _ _ _ _ Hc) as Hmax.
  all: destruct (cr_dims _ _ _ _ Hc i2 Hlt) as (d & Hod & Hnd).
  all: destruct (Hvals _ _ Hod) as (val & Hval & Hget).
  all: pose proof (cr_keys _ _ _ _ Hc i2 y Hy) as Hky.
  all: pose proof Hky as (_ & Hv & _)%node_key_inv.
  all: assert (length (drop i2 (c :: cs)) = length (c :: cs) - i2)%nat as Hlen
    by apply length_drop; rewrite Hd in Hlen; cbn [length] in Hlen, Hlt, Hmax.
  all: cbn [length search_rest_loop].
  all: run_ok by (eapply get_key_ok; [exact Ha|exact Hky|lia]).
  all: run_ok by (by eapply get_dim_ok).
  all: run_ok by (exact Hget).
  all: unfold chain_result; cbn [chain_trie]; rewrite (t_lookup_entry _ _ _ _ _ Hval), find_single.
  all: destruct (in_range (key y) val); [|eexists; split; [reflexivity|]; reflexivity].
  all: rewrite (bind_load _ _ _ _ Ha), Hv; run_steps.
  all: run_ok by (by eapply chain_next_layer).
  - rewrite decide_True by lia. destruct nl as [g'|]; cbn [fmap option_fmap option_map].
    + eexists. split; [reflexivity|]. cbn. exists g'. split_and!; [done|done|lia|].
      do 2 f_equal. lia.
    + eexists. split; [reflexivity|]. cbn. by destruct (drop _ vals).
  - rewrite decide_False by lia.
    destruct (IH z (S i2) (if is_valid (kvalue y) then kvalue y else res)) as (r & Hr & Hres).
    { rewrite (drop_S _ _ _ Hy) in Hd. by injection Hd. }
    exists r. split; [exact Hr|]. unfold chain_result in Hres.
    by rewrite Nat.add_succ_r in Hres.
Qed.
End chain.

(** ** All layers *)

(** The step through a B-tree layer. *)
Lemma layer_step p fl H order level t nexts val fuel :
  heap_ok p fl → g_rep p H order level (GLayer t nexts) → (H ≤ fuel)%nat →
  ∃ r, search_possition_1d fuel (Some (addr t)) (by_value val) p = (Ok r, p)
    ∧ match r.1 with
      | None => find_entry val (entries (abs (GLayer t nexts))) = None
      | Some b => ∃ nd x o, node_at p b = Some nd ∧ is_compressed nd = false
          ∧ nvalue nd !! r.2 = Some (kvalue x)
          ∧ get_next_layer b r.2 p = (Ok (g_addr <$> o), p)
          ∧ next_rep p H order (S level) x o
          ∧ find_entry val (entries (abs (GLayer t nexts)))
            = Some (key x, kvalue x, abs <$> o)
      end.
Proof.
  intros Hp ((d & Hd & Hr) & Hs & Hh & Hnx)%g_rep_layer Hf.
  destruct (search_1d_ok p fl d None t (by_value val) fuel) as ([[b|] i] & Hsr & Hres);
    [done..|lia| |]; (eexists; split; [exact Hsr|]).
  - cbn [fst snd] in *. destruct Hres as (x & Hat & Hin & Hm). cbn in Hm.
    destruct (rep_key_at _ _ _ _ _ _ _ Hr Hat) as (nd & Hb & Hk & Hcm & _ & _ & _).
    pose proof Hk as (_ & Hv & Hl)%node_key_inv.
    apply list_elem_of_lookup in Hin as [j Hj].
    destruct (Forall2_lookup_l _ _ _ _ _ Hnx Hj) as (o & Ho & Hno).
    exists nd, x, o. split_and!; [done..| |done|].
    + destruct o as [g'|]; cbn in Hno.
      * destruct Hno as [He Hg]. destruct (g_rep_live _ _ _ _ _ Hg) as [gd Hgd].
        rewrite He in Hl. by eapply next_layer_some.
      * rewrite Hno in Hl. by eapply next_layer_none.
    + rewrite abs_layer. cbn [entries]. eapply find_layer_Some; [done..| |done].
      by rewrite list_lookup_fmap, Ho.
  - cbn [fst snd] in *. rewrite abs_layer. cbn [entries]. by apply find_layer_None.
Qed.

Lemma search_loop_ok p fl H order pos bytes vals :
  heap_ok p fl → packet_vals pos bytes order vals p →
  ∀ fuel level g res,
    g_rep p H order level g → (H + (length order - level) ≤ fuel)%nat →
    search_loop fuel pos order bytes (Some (g_addr g)) level res p
    = (Ok (t_lookup (drop level vals) (Some (abs g)) res), p).
Proof.
  intros Hp Hvals. induction fuel as [|fuel IH]; intros level g res Hg Hf.
  { pose proof (g_rep_level _ _ _ _ _ Hg). lia. }
  pose proof (g_rep_level _ _ _ _ _ Hg) as Hlev.
  destruct (lookup_lt_is_Some_2 order level Hlev) as [d Hd].
  destruct (Hvals _ _ Hd) as (val & Hval & Hget).
  cbn [search_loop]. rewrite Hd. run_steps.
  destruct g as [t nexts|a c cs nl].
  - destruct (layer_step p fl H order level t nexts val fuel)
      as ([[b|] i] & Hsr & Hres); [done..|lia| |]; run_ok by (exact Hsr); cbn [fst snd] in *.
    + destruct Hres as (nd & x & o & Hb & Hcm & Hv & Hnl & Hno & Hfe).
      rewrite (bind_load _ _ _ _ Hb), Hcm, Hv. run_steps.
      destruct (abs (GLayer t nexts)) as [es]. cbn [entries] in Hfe.
      rewrite (t_lookup_entry _ _ _ _ _ Hval), Hfe.
      destruct o as [g'|]; cbn [fmap option_fmap option_map].
      * destruct Hno as [_ Hg']. apply IH; [done|lia].
      * by destruct (drop (S level) vals), fuel.
    + destruct (abs (GLayer t nexts)) as [es]. cbn [entries] in Hres.
      rewrite (t_lookup_entry _ _ _ _ _ Hval), Hres. done.
  - destruct Hg as ((nd & Ha & Hc) & Hne & Hval' & Hnone & Hnext).
    change (next_rep p H order (level + length (c :: cs)) (List.last cs c) nl) in Hnext.
    pose proof (cr_keys _ _ _ _ Hc 0 c eq_refl) as (Hk0 & Hv0 & _)%node_key_inv.
    destruct (cr_dims _ _ _ _ Hc 1) as (d' & Hd'%lookup_lt_Some & _);
      [destruct cs; [done|cbn; lia]|].
    destruct fuel as [|fuel]; [lia|].
    assert (search_possition_1d (S fuel) (Some a) (by_value val) p
            = (Ok (if in_range (key c) val then (Some a, 0%nat) else (None, 0%nat)), p)) as Hsr.
    { cbn [search_possition_1d]. rewrite (bind_load _ _ _ _ Ha), (cr_compressed _ _ _ _ Hc).
      unfold search_compressed_seq. rewrite Hk0. cbn [mbind option_bind or_ub].
      rewrite bind_ret. cbn [found val_index]. rewrite orb_true_r.
      by destruct (in_range (key c) val). }
    cbn [g_addr]. run_ok by (exact Hsr).
    rewrite abs_chain. cbn [chain_trie].
    rewrite (t_lookup_entry _ _ _ _ _ Hval), find_single.
    destruct (in_range (key c) val); cbn [fst snd]; [|done].
    rewrite (bind_load _ _ _ _ Ha), (cr_compressed _ _ _ _ Hc).
    unfold search_rest_of_path_in_compressed_node.
    rewrite !bind_assoc, (bind_load _ _ _ _ Ha), Hv0. run_steps.
    destruct cs as [|y ys]; [done|].
    destruct (search_rest_ok p fl H order level pos bytes vals a nd c (y :: ys) nl
                Hp Hvals Ha Hc Hnone Hnext ys y 1 (if is_valid (kvalue c) then kvalue c else res)
                eq_refl) as (r & Hr & Hres).
    rewrite (cr_cnt _ _ _ _ Hc). cbn [length Nat.sub].
    run_ok by (exact Hr). destruct r as [[res' o] add]. run_steps.
    unfold chain_result in Hres. rewrite Nat.add_1_r in Hres. destruct o as [b|].
    + destruct Hres as (g' & -> & -> & -> & ->). destruct Hnext as [_ Hg'].
      pose proof (g_rep_level _ _ _ _ _ Hg').
      apply IH; [done|]. cbn [length] in *. lia.
    + rewrite <- Hres. by destruct fuel.
Qed.

(** ** The layers are disjoint *)

Lemma chain_disjoint (cs : list (KeyInfo V)) (nl : option (trie V)) :
  disjoint_trie nl → disjoint_trie (chain_trie cs nl).
Proof.
  intros Hnl. induction cs as [|c cs IH]; [done|]. constructor.
  - intros [|i] [|j] ei ej val Hi Hj; done.
  - intros k v o Hin. apply list_elem_of_singleton in Hin. by simplify_eq.
Qed.

Lemma abs_disjoint p H order level g :
  g_rep p H order level g → disjoint_trie (Some (abs g)).
Proof.
  revert level. induction g as [t nexts IH|a c cs nl IH] using gtrie_ind'; intros level.
  - intros (_ & Hs & _ & Hnx)%g_rep_layer. rewrite abs_layer.
    assert (∀ i e, layer_entries (flat t) (fmap (M := option) abs <$> nexts) !! i = Some e →
              ∃ x o, flat t !! i = Some x ∧ nexts !! i = Some o
                ∧ e = (key x, kvalue x, abs <$> o)) as Hlk.
    { intros i e. unfold layer_entries. rewrite lookup_zip_with, list_lookup_fmap.
      destruct (flat t !! i) as [x|]; [|done]. cbn.
      destruct (nexts !! i) as [o|]; [|done]. cbn. intros [= <-]. by exists x, o. }
    constructor.
    + intros i j ei ej val (x & o & Hx & _ & ->)%Hlk (y & o' & Hy & _ & ->)%Hlk Hri Hrj.
      by eapply sorted_unique.
    + intros k v nl (i & (x & o & Hx & Ho & [= -> -> ->])%Hlk)%list_elem_of_lookup.
      destruct o as [g'|]; [|constructor]. cbn.
      destruct (Forall2_lookup_l _ _ _ _ _ Hnx Hx) as (o & Ho' & Hn). simplify_eq.
      eapply IH; [by eapply list_elem_of_lookup_2|]. apply Hn.
  - intros (_ & _ & _ & _ & Hn). rewrite abs_chain. apply chain_disjoint.
    destruct nl as [g'|]; [|constructor]. cbn. by eapply IH; [|apply Hn].
Qed.
End TrieSearch.
