(* ===== verification/Insert.v ===== *)
(** * Insertion ([b_tree_insert.h])

    The insertion of a rule: the search for the longest stored prefix of the
    rule, the B-tree insertion into the layer where the prefix ends, and path
    compression of the rest of the rule.  The functions of the source are
    mutually recursive; the model bounds the depth of the recursion with
    [fuel].  The cookie is passed by value: no caller reads it again after a
    call it passed it to. *)
From S2P Require Import Prelude Range RuleValue Mempool Node Search.
Local Open Scope Z_scope.

(** ** The state of an insertion ([InsertCookie]) *)

Record InsertCookie (V : Type) : Type := mkCookie {
  dimension_order : list nat;
  level : nat;
  requires_levels : nat;
  rule : rule_spec_t V;
}.
Arguments mkCookie {V} _ _ _ _.
Arguments dimension_order {V} _.
Arguments level {V} _.
Arguments requires_levels {V} _.
Arguments rule {V} _.

Section Insert.
Context `{cfg : !BTreeCfg} {V : Type} `{!RuleValue V}.
Implicit Types (cookie : InsertCookie V).

(** [cookie.level += n] *)
Definition add_level (n : nat) cookie : InsertCookie V :=
  mkCookie (dimension_order cookie) (level cookie + n) (requires_levels cookie) (rule cookie).

(** The loop of [total_levels_required_cnt] over the dimensions before [i];
    [None] is an access out of bounds. *)
Fixpoint total_levels_required_loop (order : list nat) (rule_ : rule_spec_t V) (i : nat)
    : option nat :=
  match i with
  | O => Some 1%nat
  | S i' =>
      d ← order !! i';
      k ← fields rule_ !! d;
      if negb (is_wildcard KEY_SIZE k) then Some (i' + 1)%nat
      else total_levels_required_loop order rule_ i'
  end.

Definition total_levels_required_cnt (order : list nat) (rule_ : rule_spec_t V) : option nat :=
  total_levels_required_loop order rule_ (length order).

Definition InsertCookie_ctor (order : list nat) (rule_ : rule_spec_t V) : HM V (InsertCookie V) :=
  n ← or_ub (total_levels_required_cnt order rule_);
  assert_ (n <=? D)%nat;;
  mret (mkCookie order 0 n rule_).

(** [std::array::at] *)
Definition at_ {A} (l : list A) (i : nat) : HM V A :=
  match l !! i with Some x => mret x | None => throw out_of_range end.

Definition get_actual_key cookie : HM V Range1d :=
  d ← at_ (dimension_order cookie) (level cookie);
  at_ (fields (rule cookie)) d.

Definition additional_level_required_cnt cookie : HM V nat :=
  assert_ (level cookie <? requires_levels cookie)%nat;;
  mret (requires_levels cookie - level cookie - 1)%nat.

Definition required_more_levels cookie : bool :=
  (level cookie + 1 <? requires_levels cookie)%nat.

(** ** Splitting a full child *)

Definition split_child (node : ptr) (i : nat) (y : ptr) : HM V unit :=
  z ← node_allocator_get;
  yd ← load y;
  upd z (node_set_is_leaf (is_leaf yd));;
  set_key_cnt z (Z.of_nat MIN_DEGREE);;
  for_each (range_up 0 MIN_DEGREE) (λ j, move_key y (MIN_DEGREE + j + 1) z j);;
  (if is_leaf yd then mret tt
   else for_each (range_up 0 (MIN_DEGREE + 1)) (λ j,
          ch ← child y (MIN_DEGREE + j + 1);
          set_child z j ch));;
  set_key_cnt y (Z.of_nat MIN_DEGREE);;
  nd ← load node;
  assert_ (key_cnt nd <? MAX_DEGREE)%nat;;
  for_each (range_down (i + 1) (S (key_cnt nd))) (λ j, move_child node j node (j + 1));;
  set_child node (i + 1) (Some z);;
  for_each (range_down i (key_cnt nd)) (λ j, move_key node j node (j + 1));;
  move_key y MIN_DEGREE node i;;
  set_key_cnt node (Z.of_nat (key_cnt nd) + 1).

(** ** Scans of [insert_non_full] *)

(** [while (i >= 0 && node.get_key(i) > k) { node.move_key(i, node, i + 1); i--; }]
    from [i = n - 1]; the result is the final [i + 1]. *)
Fixpoint shift_greater_keys (node : ptr) (k : Range1d) (n : nat) : HM V nat :=
  match n with
  | O => mret 0%nat
  | S i =>
      ki ← get_key node i;
      if key_gt_range ki k then move_key node i node (i + 1);; shift_greater_keys node k i
      else mret (S i)
  end.

(** [while (i >= 0 && node.get_key(i) > k) i--;] from [i = n - 1]; the result
    is the final [i + 1]. *)
Fixpoint find_child_index (node : ptr) (k : Range1d) (n : nat) : HM V nat :=
  match n with
  | O => mret 0%nat
  | S i =>
      ki ← get_key node i;
      if key_gt_range ki k then find_child_index node k i else mret (S i)
  end.

(** ** Compressed nodes *)

(** The loop of [insert_in_to_compressed]: the number of keys of the node
    equal to the keys of the rule, and the cookie moved behind them; [n]
    iterations from [keep_keys_cnt]. *)
Fixpoint common_keys_loop (root : ptr) (n keep_keys_cnt : nat) cookie
    : HM V (nat * InsertCookie V) :=
  match n with
  | O => mret (keep_keys_cnt, cookie)
  | S n =>
      actual_d ← get_dim root keep_keys_cnt;
      d ← at_ (dimension_order cookie) (level cookie);
      assert_ (actual_d =? d)%nat;;
      k ← get_actual_key cookie;
      _k ← get_key root keep_keys_cnt;
      if range_ne (key _k) k then mret (keep_keys_cnt, cookie)
      else common_keys_loop root n (S keep_keys_cnt) (add_level 1 cookie)
  end.

(** [for (i2 = 0; i2 < cnt; i2++) { dst->set_key(i2, src->get_key(start + i2));
    dst->set_dim(i2, src->get_dim(start + i2)); }] *)
Definition copy_keys (src : ptr) (start : nat) (dst : ptr) (cnt : nat) : HM V unit :=
  for_each (range_up 0 cnt) (λ i2,
    k ← get_key src (start + i2);
    set_key dst i2 k;;
    d ← get_dim src (start + i2);
    set_dim dst i2 d).

Definition decompress_node (node : ptr) (index_of_key_to_separate : nat) : HM V ptr :=
  nd ← load node;
  if (key_cnt nd <=? index_of_key_to_separate)%nat then
    assert_ (key_cnt nd =? index_of_key_to_separate)%nat;;
    nl ← node_allocator_get;
    set_next_layer node (index_of_key_to_separate - 1) (Some nl);;
    mret nl
  else if (index_of_key_to_separate =? 0)%nat then
    if (key_cnt nd =? 1)%nat then mret node
    else
      nl ← node_allocator_get;
      copy_keys node 1 nl (key_cnt nd - 1);;
      set_key_cnt nl (Z.of_nat (key_cnt nd) - 1);;
      upd nl (node_set_is_compressed (1 <? key_cnt nd - 1)%nat);;
      set_next_layer node 0 (Some nl);;
      set_key_cnt node 1;;
      upd node (node_set_is_compressed false);;
      mret node
  else
    let keys_to_nnl_cnt := (key_cnt nd - index_of_key_to_separate - 1)%nat in
    nnl ← (if (keys_to_nnl_cnt =? 0)%nat then mret None
           else
             nnl ← node_allocator_get;
             copy_keys node (index_of_key_to_separate + 1) nnl keys_to_nnl_cnt;;
             set_key_cnt nnl (Z.of_nat keys_to_nnl_cnt);;
             upd nnl (node_set_is_compressed (1 <? keys_to_nnl_cnt)%nat);;
             mret (Some nnl));
    nl ← node_allocator_get;
    copy_keys node index_of_key_to_separate nl 1;;
    set_key_cnt nl 1;;
    l ← get_next_layer node (index_of_key_to_separate - 1);
    assert_ (bool_decide (l = None));;
    set_next_layer node (index_of_key_to_separate - 1) (Some nl);;
    (match nnl with
     | None => mret tt
     | Some _ =>
         l ← get_next_layer nl 0;
         assert_ (bool_decide (l = None));;
         set_next_layer nl 0 nnl
     end);;
    set_key_cnt node (Z.of_nat index_of_key_to_separate);;
    upd node (node_set_is_compressed (1 <? index_of_key_to_separate)%nat);;
    mret nl.

(** The loop of [insert_compressed]: [n] iterations from [i]. *)
Fixpoint insert_compressed_loop (root : ptr) (keys_to_insert n i : nat) cookie
    : HM V (InsertCookie V) :=
  match n with
  | O => mret cookie
  | S n =>
      let is_last_key_in_rule := (i =? keys_to_insert - 1)%nat in
      k ← get_actual_key cookie;
      let rv := if is_last_key_in_rule then rvalue (rule cookie) else rv_default in
      set_key root i (mkKeyInfo k rv INVALID_INDEX);;
      d ← at_ (dimension_order cookie) (level cookie);
      set_dim root i d;;
      let last_it := (n =? 0)%nat in
      insert_compressed_loop root keys_to_insert n (S i)
        (if last_it then cookie else add_level 1 cookie)
  end.

(** ** The recursive functions *)

Fixpoint insert (fuel : nat) (root : option ptr) (cookie : InsertCookie V) {struct fuel}
    : HM V (option ptr) :=
  match fuel with
  | O => throw no_fuel
  | S fuel =>
      path ← search_path fuel root (dimension_order cookie) (rule cookie) (level cookie);
      match last path with
      | Some (r, n, i) =>
          let cookie := add_level (length path - 1) cookie in
          if required_more_levels cookie then
            let cookie := add_level 1 cookie in
            nd ← load n;
            (if is_compressed nd then _insert_in_to_compressed fuel n cookie (i + 1)
             else
               ins_root ← get_next_layer n i;
               ins_root ← insert_to_root fuel ins_root cookie;
               set_next_layer n i (Some ins_root));;
            mret root
          else
            nd ← load n;
            _ ← or_ub (nvalue nd !! i);
            upd n (node_set_value i (rvalue (rule cookie)));;
            mret root
      | None =>
          root ← insert_to_root fuel root cookie;
          mret (Some root)
      end
  end
with insert_to_root (fuel : nat) (root : option ptr) (cookie : InsertCookie V) {struct fuel}
    : HM V ptr :=
  match fuel with
  | O => throw no_fuel
  | S fuel =>
      match root with
      | None => insert_in_to_new_node fuel cookie
      | Some a =>
          nd ← load a;
          if is_compressed nd then insert_in_to_compressed fuel a cookie;; mret a
          else if (key_cnt nd =? MAX_DEGREE)%nat then
            k ← get_actual_key cookie;
            s ← node_allocator_get;
            upd s (node_set_is_leaf false);;
            set_child s 0 (Some a);;
            split_child s 0 a;;
            k0 ← get_key s 0;
            let i := if key_lt_range k0 k then 1%nat else 0%nat in
            c ← child s i;
            c ← or_ub c;
            insert_non_full fuel c cookie;;
            mret s
          else insert_non_full fuel a cookie;; mret a
      end
  end
with insert_non_full (fuel : nat) (node : ptr) (cookie : InsertCookie V) {struct fuel}
    : HM V unit :=
  match fuel with
  | O => throw no_fuel
  | S fuel =>
      k ← get_actual_key cookie;
      nd ← load node;
      if is_leaf nd then
        i ← shift_greater_keys node k (key_cnt nd);
        let require_more_levels := required_more_levels cookie in
        let rv := if require_more_levels then rv_default else rvalue (rule cookie) in
        set_key node i (mkKeyInfo k rv INVALID_INDEX);;
        d ← at_ (dimension_order cookie) (level cookie);
        set_dim node i d;;
        set_key_cnt node (Z.of_nat (key_cnt nd) + 1);;
        if require_more_levels then
          nl ← get_next_layer node i;
          nl ← insert_to_root fuel nl (add_level 1 cookie);
          set_next_layer node i (Some nl)
        else mret tt
      else
        i ← find_child_index node k (key_cnt nd);
        c ← child node i;
        c ← or_ub c;
        cd ← load c;
        i ← (if (key_cnt cd =? MAX_DEGREE)%nat then
               split_child node i c;;
               ki ← get_key node i;
               mret (if key_lt_range ki k then S i else i)
             else mret i);
        c ← child node i;
        c ← or_ub c;
        insert_non_full fuel c cookie
  end
with insert_in_to_compressed (fuel : nat) (root : ptr) (cookie : InsertCookie V) {struct fuel}
    : HM V unit :=
  match fuel with
  | O => throw no_fuel
  | S fuel =>
      nd ← load root;
      assert_ (is_compressed nd);;
      assert_ (is_leaf nd);;
      assert_ (1 <? key_cnt nd)%nat;;
      '(keep_keys_cnt, cookie) ← common_keys_loop root (key_cnt nd) 0 cookie;
      _insert_in_to_compressed fuel root cookie keep_keys_cnt
  end
with _insert_in_to_compressed (fuel : nat) (root : ptr) (cookie : InsertCookie V)
    (keep_keys_cnt : nat) {struct fuel} : HM V unit :=
  match fuel with
  | O => throw no_fuel
  | S fuel =>
      nd ← load root;
      assert_ (is_compressed nd);;
      assert_ (is_leaf nd);;
      assert_ (keep_keys_cnt <=? key_cnt nd)%nat;;
      if (keep_keys_cnt =? key_cnt nd)%nat then
        if (level cookie <? requires_levels cookie)%nat then
          nl ← get_next_layer root (keep_keys_cnt - 1);
          nl ← insert fuel nl cookie;
          set_next_layer root (keep_keys_cnt - 1) nl
        else
          _ ← or_ub (nvalue nd !! (keep_keys_cnt - 1)%nat);
          upd root (node_set_value (keep_keys_cnt - 1) (rvalue (rule cookie)))
      else
        n ← decompress_node root keep_keys_cnt;
        integrity_check fuel n (dimension_order cookie) (level cookie);;
        _ ← insert fuel (Some n) cookie;
        mret tt
  end
with insert_compressed (fuel : nat) (root : ptr) (cookie : InsertCookie V)
    (keys_to_insert : nat) {struct fuel} : HM V unit :=
  match fuel with
  | O => throw no_fuel
  | S fuel =>
      assert_ (keys_to_insert <=? D)%nat;;
      nd ← load root;
      let end_ := Nat.min MAX_DEGREE (key_cnt nd + keys_to_insert) in
      cookie ← insert_compressed_loop root keys_to_insert (end_ - key_cnt nd) (key_cnt nd) cookie;
      set_key_cnt root (Z.of_nat end_);;
      (if required_more_levels cookie then
         end_next_level ← get_next_layer root (end_ - 1);
         nl ← insert_to_root fuel end_next_level (add_level 1 cookie);
         set_next_layer root (end_ - 1) (Some nl)
       else mret tt);;
      upd root (node_set_is_compressed (1 <? end_)%nat)
  end
with insert_in_to_new_node (fuel : nat) (cookie : InsertCookie V) {struct fuel} : HM V ptr :=
  match fuel with
  | O => throw no_fuel
  | S fuel =>
      k ← get_actual_key cookie;
      root ← node_allocator_get;
      nl_cnt ← (if PATH_COMPRESSION && required_more_levels cookie
                then additional_level_required_cnt cookie else mret 0%nat);
      (if (0 <? nl_cnt)%nat then insert_compressed fuel root cookie (nl_cnt + 1)
       else
         set_key root 0 (mkKeyInfo k (rvalue (rule cookie)) INVALID_INDEX);;
         d ← or_ub (dimension_order cookie !! level cookie);
         set_dim root 0 d;;
         set_key_cnt root 1;;
         if required_more_levels cookie then
           nl ← get_next_layer root 0;
           nl ← insert_to_root fuel nl (add_level 1 cookie);
           set_next_layer root 0 (Some nl)
         else mret tt);;
      mret root
  end.

(** [insert(rule)] on the tree with the given root and dimension order: the
    new root. *)
Definition insert_rule (fuel : nat) (root : option ptr) (order : list nat)
    (rule_ : rule_spec_t V) : HM V (option ptr) :=
  cookie ← InsertCookie_ctor order rule_;
  root ← insert fuel root cookie;
  r ← or_ub root;
  integrity_check fuel r (dimension_order cookie) 0;;
  mret root.
(** ** The equations of the recursive functions *)

Lemma insert_S fuel root cookie :
  insert (S fuel) root cookie =
    (path ← search_path fuel root (dimension_order cookie) (rule cookie) (level cookie);
    match last path with
    | Some (r, n, i) =>
        let cookie := add_level (length path - 1) cookie in
        if required_more_levels cookie then
          let cookie := add_level 1 cookie in
          nd ← load n;
          (if is_compressed nd then _insert_in_to_compressed fuel n cookie (i + 1)
           else
             ins_root ← get_next_layer n i;
             ins_root ← insert_to_root fuel ins_root cookie;
             set_next_layer n i (Some ins_root));;
          mret root
        else
          nd ← load n;
          _ ← or_ub (nvalue nd !! i);
          upd n (node_set_value i (rvalue (rule cookie)));;
          mret root
    | None =>
        root ← insert_to_root fuel root cookie;
        mret (Some root)
    end).
Proof. reflexivity. Qed.

Lemma insert_to_root_S fuel root cookie :
  insert_to_root (S fuel) root cookie =
    (match root with
    | None => insert_in_to_new_node fuel cookie
    | Some a =>
        nd ← load a;
        if is_compressed nd then insert_in_to_compressed fuel a cookie;; mret a
        else if (key_cnt nd =? MAX_DEGREE)%nat then
          k ← get_actual_key cookie;
          s ← node_allocator_get;
          upd s (node_set_is_leaf false);;
          set_child s 0 (Some a);;
          split_child s 0 a;;
          k0 ← get_key s 0;
          let i := if key_lt_range k0 k then 1%nat else 0%nat in
          c ← child s i;
          c ← or_ub c;
          insert_non_full fuel c cookie;;
          mret s
        else insert_non_full fuel a cookie;; mret a
    end).
Proof. reflexivity. Qed.

Lemma insert_non_full_S fuel node cookie :
  insert_non_full (S fuel) node cookie =
    (k ← get_actual_key cookie;
    nd ← load node;
    if is_leaf nd then
      i ← shift_greater_keys node k (key_cnt nd);
      let require_more_levels := required_more_levels cookie in
      let rv := if require_more_levels then rv_default else rvalue (rule cookie) in
      set_key node i (mkKeyInfo k rv INVALID_INDEX);;
      d ← at_ (dimension_order cookie) (level cookie);
      set_dim node i d;;
      set_key_cnt node (Z.of_nat (key_cnt nd) + 1);;
      if require_more_levels then
        nl ← get_next_layer node i;
        nl ← insert_to_root fuel nl (add_level 1 cookie);
        set_next_layer node i (Some nl)
      else mret tt
    else
      i ← find_child_index node k (key_cnt nd);
      c ← child node i;
      c ← or_ub c;
      cd ← load c;
      i ← (if (key_cnt cd =? MAX_DEGREE)%nat then
             split_child node i c;;
             ki ← get_key node i;
             mret (if key_lt_range ki k then S i else i)
           else mret i);
      c ← child node i;
      c ← or_ub c;
      insert_non_full fuel c cookie).
Proof. reflexivity. Qed.

Lemma insert_in_to_compressed_S fuel root cookie :
  insert_in_to_compressed (S fuel) root cookie =
    (nd ← load root;
    assert_ (is_compressed nd);;
    assert_ (is_leaf nd);;
    assert_ (1 <? key_cnt nd)%nat;;
    '(keep_keys_cnt, cookie) ← common_keys_loop root (key_cnt nd) 0 cookie;
    _insert_in_to_compressed fuel root cookie keep_keys_cnt).
Proof. reflexivity. Qed.

Lemma _insert_in_to_compressed_S fuel root cookie keep_keys_cnt :
  _insert_in_to_compressed (S fuel) root cookie keep_keys_cnt =
    (nd ← load root;
    assert_ (is_compressed nd);;
    assert_ (is_leaf nd);;
    assert_ (keep_keys_cnt <=? key_cnt nd)%nat;;
    if (keep_keys_cnt =? key_cnt nd)%nat then
      if (level cookie <? requires_levels cookie)%nat then
        nl ← get_next_layer root (keep_keys_cnt - 1);
        nl ← insert fuel nl cookie;
        set_next_layer root (keep_keys_cnt - 1) nl
      else
        _ ← or_ub (nvalue nd !! (keep_keys_cnt - 1)%nat);
        upd root (node_set_value (keep_keys_cnt - 1) (rvalue (rule cookie)))
    else
      n ← decompress_node root keep_keys_cnt;
      integrity_check fuel n (dimension_order cookie) (level cookie);;
      _ ← insert fuel (Some n) cookie;
      mret tt).
Proof. reflexivity. Qed.

Lemma insert_compressed_S fuel root cookie keys_to_insert :
  insert_compressed (S fuel) root cookie keys_to_insert =
    (assert_ (keys_to_insert <=? D)%nat;;
    nd ← load root;
    let end_ := Nat.min MAX_DEGREE (key_cnt nd + keys_to_insert) in
    cookie ← insert_compressed_loop root keys_to_insert (end_ - key_cnt nd) (key_cnt nd) cookie;
    set_key_cnt root (Z.of_nat end_);;
    (if required_more_levels cookie then
       end_next_level ← get_next_layer root (end_ - 1);
       nl ← insert_to_root fuel end_next_level (add_level 1 cookie);
       set_next_layer root (end_ - 1) (Some nl)
     else mret tt);;
    upd root (node_set_is_compressed (1 <? end_)%nat)).
Proof. reflexivity. Qed.

Lemma insert_in_to_new_node_S fuel cookie :
  insert_in_to_new_node (S fuel) cookie =
    (k ← get_actual_key cookie;
    root ← node_allocator_get;
    nl_cnt ← (if PATH_COMPRESSION && required_more_levels cookie
              then additional_level_required_cnt cookie else mret 0%nat);
    (if (0 <? nl_cnt)%nat then insert_compressed fuel root cookie (nl_cnt + 1)
     else
       set_key root 0 (mkKeyInfo k (rvalue (rule cookie)) INVALID_INDEX);;
       d ← or_ub (dimension_order cookie !! level cookie);
       set_dim root 0 d;;
       set_key_cnt root 1;;
       if required_more_levels cookie then
         nl ← get_next_layer root 0;
         nl ← insert_to_root fuel nl (add_level 1 cookie);
         set_next_layer root 0 (Some nl)
       else mret tt);;
    mret root).
Proof. reflexivity. Qed.
End Insert.
