(* ===== verification/LookupSpec.v ===== *)
(** * What a lookup returns

    The specification of [BTreeSearch::search] in terms of the stored paths,
    for packets given as an array of 16-bit fields, on every represented
    tree. *)
From S2P Require Import Prelude Range RuleValue Mempool Node NodeLemmas Search Layer LayerSearch Trie TrieCheck TrieSearch Insert.
Local Open Scope Z_scope.

Section LookupSpec.
Context `{cfg : !BTreeCfg} {V : Type} `{!RuleValue V}.
Implicit Types (p : Heap V) (g : gtrie V) (order : list nat).

(** ** Reading a field of a [key_vec_t] *)

Lemma key_vec_bytes_lookup (v : list Z) d x b :
  v !! d = Some x → (b < KEY_SIZE)%nat →
  key_vec_bytes v !! (d * KEY_SIZE + b)%nat = Some (byte_of x b).
Proof.
  unfold key_vec_bytes. revert d. induction v as [|y v IH]; intros d Hd Hb; [done|].
  rewrite bind_cons. destruct d as [|d]; cbn in Hd.
  - simplify_eq. rewrite lookup_app_l by (rewrite length_fmap, length_seq; lia).
    by rewrite list_lookup_fmap, lookup_seq_lt by lia.
  - rewrite lookup_app_r; rewrite length_fmap, length_seq; [|lia].
    rewrite <- (IH d) by done. f_equal. lia.
Qed.

Lemma read_le_16 (bytes : list Z) off x :
  0 ≤ x < 65536 → bytes !! off = Some (byte_of x 0) → bytes !! S off = Some (byte_of x 1) →
  read_le bytes off 2 = Some x.
Proof.
  intros Hx H0 H1. cbn [read_le]. rewrite H0, H1. cbn [mbind option_bind]. f_equal.
  change (Z.shiftl 0 8) with 0. rewrite Z.lor_0_r, Z.lor_comm, lor_shiftl_add by
    (try apply byte_of_range; lia).
  rewrite !byte_of_div. change (2 ^ (8 * Z.of_nat 1)) with 256.
  change (2 ^ (8 * Z.of_nat 0)) with 1. Z.to_euclidean_division_equations. lia.
Qed.

Lemma get_val_default p (v : list Z) d x :
  KEY_SIZE = 2%nat → (d < D)%nat → v !! d = Some x → 0 ≤ x < 65536 →
  get_val default_in_packet_position (key_vec_bytes v) d p = (Ok x, p).
Proof.
  intros Hk Hd Hv Hx. unfold get_val, default_in_packet_position.
  rewrite bind_assert by (apply Nat.ltb_lt; by rewrite length_fmap, length_seq).
  rewrite list_lookup_fmap, lookup_seq_lt by done. run_steps.
  cbn [psize is_big_endian offset Nat.eqb]. run_steps. rewrite Hk.
  rewrite (read_le_16 _ _ x); [done|done| |].
  - rewrite <- (key_vec_bytes_lookup v d x 0), Hk by (done || lia). f_equal. lia.
  - rewrite <- (key_vec_bytes_lookup v d x 1), Hk by (done || lia). f_equal. lia.
Qed.

Lemma packet_vals_default p order (v : list Z) :
  KEY_SIZE = 2%nat → length v = D → Forall (λ x, 0 ≤ x < 65536) v →
  Forall (λ d, (d < D)%nat) order →
  packet_vals default_in_packet_position (key_vec_bytes v) order ((λ d, v !!! d) <$> order) p.
Proof.
  intros Hk Hl Hv Ho l d Hd. rewrite Forall_forall in Ho. rewrite Forall_forall in Hv.
  pose proof (Ho d (list_elem_of_lookup_2 _ _ _ Hd)) as Hlt.
  destruct (lookup_lt_is_Some_2 v d) as [x Hx]; [by rewrite Hl|].
  exists x. rewrite list_lookup_fmap, Hd. cbn. rewrite (list_lookup_total_correct _ _ _ Hx).
  split; [done|]. apply get_val_default; [done..|].
  by eapply Hv, list_elem_of_lookup_2.
Qed.

Lemma search_vec_run p fl H order g (v : list Z) fuel :
  KEY_SIZE = 2%nat → heap_ok p fl → g_rep p H order 0 g → Forall (λ d, (d < D)%nat) order →
  length v = D → Forall (λ x, 0 ≤ x < 65536) v → (H + length order ≤ fuel)%nat →
  ∃ r, search_vec fuel default_in_packet_position order (Some (g_addr g)) v p = (Ok r, p)
    ∧ deepest (Some (abs g)) ((λ d, v !!! d) <$> order) rv_default r.
Proof.
  intros Hk Hp Hg Ho Hl Hv Hf. eexists. split.
  - unfold search_vec, search.
    rewrite (search_loop_ok p fl H order _ _ ((λ d, v !!! d) <$> order) Hp);
      [reflexivity|by apply packet_vals_default|done|lia].
  - rewrite drop_0. apply t_lookup_deepest. by eapply abs_disjoint.
Qed.

(** C18. The lookup of a packet on a represented tree always returns, leaves
    the memory as it is, and returns the value of the longest stored path of
    ranges the packet matches; the default value exactly when no stored valid
    path matches. *)
Theorem search_vec_deepest p fl H order g (v : list Z) fuel :
  KEY_SIZE = 2%nat → heap_ok p fl → g_rep p H order 0 g → Forall (λ d, (d < D)%nat) order →
  length v = D → Forall (λ x, 0 ≤ x < 65536) v → (H + length order ≤ fuel)%nat →
  ∃ r, search_vec fuel default_in_packet_position order (Some (g_addr g)) v p = (Ok r, p)
    ∧ deepest (Some (abs g)) ((λ d, v !!! d) <$> order) rv_default r.
Proof.
  intros Hk Hp Hg Ho Hl Hv Hf.
  destruct (search_vec_run p fl H order g v fuel) as (r & Hr & Hd); [done..|]. by exists r.
Qed.
End LookupSpec.

(** ** A tree built by insertions *)

Module Example.
#[local] Instance cfg3 : BTreeCfg := mkCfg 2 3 1000 2 true.

Definition pool0 : Heap RuleValueInt :=
  Pool.mkPool ∅ (<[29%nat := None]> ((λ i, Some (S i)) <$> seq 0 30)) (Some 0%nat) false 30.

Definition any16 : Range1d := mkRange 0 65535.
Definition exact16 (v : Z) : Range1d := mkRange v v.

Definition rule3 (a b c : Range1d) (prio id : Z) : rule_spec_t RuleValueInt :=
  mkRule [a; b; c] (RuleValueInt_ctor prio id).

Definition rules9 : list (rule_spec_t RuleValueInt) :=
  [rule3 (exact16 1) (exact16 2) (exact16 3) 1 1; rule3 (exact16 1) any16 any16 1 2;
   rule3 (exact16 1) (exact16 7) any16 1 3; rule3 (mkRange 16 31) any16 (exact16 9) 1 4;
   rule3 (exact16 40) (exact16 2) (exact16 3) 1 5; rule3 (exact16 50) any16 any16 1 6;
   rule3 (exact16 60) any16 any16 1 7; rule3 (exact16 2) (exact16 2) any16 1 8;
   rule3 (exact16 1) (exact16 2) (exact16 4) 1 9].

(** The root and the memory after the insertions. *)
Definition built : result (option ptr) * Heap RuleValueInt :=
  fold_each rules9 None (λ r rule, insert_rule 30 r [0; 1; 2]%nat rule) pool0.

Definition built_root : ptr := match built.1 with Ok (Some r) => r | _ => 0%nat end.

Definition built_tree : gtrie RuleValueInt :=
  default (GChain 0 (mkKeyInfo any16 rv_default 0) [] None) (g_read 9 built.2 built_root).

Lemma built_ok : heap_check built.2 (seq 8 22) && g_check built.2 9 [0; 1; 2]%nat 0 built_tree = true.
Proof. vm_compute. reflexivity. Qed.

Lemma built_rep : heap_ok built.2 (seq 8 22) ∧ g_rep built.2 9 [0; 1; 2]%nat 0 built_tree.
Proof.
  pose proof built_ok as [Hh Hg]%andb_true_iff.
  split; [by apply heap_check_sound|by apply g_check_sound].
Qed.

(** The packet [1, 2, 4] finds rule 9, not the shorter rule 2. *)
Lemma search_vec_deepest_witness :
  search_vec 12 default_in_packet_position [0; 1; 2]%nat (Some built_root) [1; 2; 4] built.2
  = (Ok (RuleValueInt_ctor 1 9), built.2)
  ∧ ∃ r, search_vec 12 default_in_packet_position [0; 1; 2]%nat (Some (g_addr built_tree))
           [1; 2; 4] built.2 = (Ok r, built.2)
      ∧ deepest (Some (abs built_tree)) ((λ d, [1; 2; 4] !!! d) <$> [0; 1; 2]%nat)
          (rv_default : RuleValueInt) r.
Proof.
  split; [vm_compute; reflexivity|].
  apply (search_vec_deepest built.2 (seq 8 22) 9 [0; 1; 2]%nat built_tree [1; 2; 4] 12);
    [reflexivity|exact (proj1 built_rep)|exact (proj2 built_rep)|..].
  - repeat constructor.
  - reflexivity.
  - repeat (constructor; [lia|]). constructor.
  - cbn. lia.
Defined.
End Example.
