(* ===== verification/Split.v ===== *)
(** * Splitting a full child

    [split_child] on a represented layer: the upper half of the keys and
    children of the full child moves to a new node, the middle key to the
    parent, and the keys of the layer in order are the same. *)
From S2P Require Import Prelude Range RuleValue Mempool Node NodeLemmas Search Layer LayerSearch Trie Footprint Slots Insert.
Local Open Scope Z_scope.

Section Split.
Context `{cfg : !BTreeCfg, Hok : !CfgOk} {V : Type} `{!RuleValue V}.
Implicit Types (p : Heap V) (nd : Node V) (t : btree V) (its : list (KeyInfo V)) (cs : list ptr).

Lemma nr_slot d par its cs nd i k :
  node_rep d par its cs nd → its !! i = Some k → slot nd i = Some (k, d).
Proof.
  intros Hn Hk. apply slot_Some. split; [by apply (nr_keys _ _ _ _ _ Hn)|].
  apply (nr_dims _ _ _ _ _ Hn). by eapply lookup_lt_Some.
Qed.

Lemma node_rep_intro d par its cs nd :
  node_wf nd → is_compressed nd = false → key_cnt nd = length its →
  (length its ≤ MAX_DEGREE)%nat → (∀ i k, its !! i = Some k → slot nd i = Some (k, d)) →
  is_leaf nd = bool_decide (cs = []) → (cs = [] ∨ length cs = S (length its)) →
  (∀ i c, cs !! i = Some c → child_index nd !! i = Some (to_index c)) →
  (cs = [] → child_index nd = replicate (S MAX_DEGREE) INVALID_INDEX) →
  parent nd = par → node_rep d par its cs nd.
Proof.
  intros ? ? ? ? Hs ? ? ? ? ?. split; try done.
  - intros i k Hk. by apply Hs, slot_Some in Hk as [? _].
  - intros i Hi. destruct (lookup_lt_is_Some_2 its i Hi) as [k Hk].
    by apply Hs, slot_Some in Hk as [_ ?].
Qed.

(** The fields of a node of which only the slots are read. *)
Lemma slot_set_cnt n nd i : slot (node_set_key_cnt n nd) i = slot nd i.
Proof. done. Qed.

Lemma node_wf_set_cnt n nd : node_wf nd → node_wf (node_set_key_cnt n nd).
Proof. intros []. by split. Qed.

Lemma node_wf_set_leaf l nd : node_wf nd → node_wf (node_set_is_leaf l nd).
Proof. intros []. by split. Qed.

Lemma node_wf_set_parent q nd : node_wf nd → node_wf (node_set_parent q nd).
Proof. intros []. by split. Qed.

Lemma new_Node_wf : node_wf (new_Node (V := V)).
Proof. split; cbn; by rewrite ?length_replicate. Qed.

(** The keys and children around the split. *)
Definition split_its its (i : nat) (m : KeyInfo V) : list (KeyInfo V) :=
  take i its ++ m :: drop i its.

Definition split_kids {A} (ks : list A) (i : nat) (z : A) : list A :=
  take (S i) ks ++ z :: drop (S i) ks.

Lemma lookup_split_kids {A} (ks : list A) i z j :
  (i < length ks)%nat →
  split_kids ks i z !! j =
    if (j <=? i)%nat then ks !! j else if decide (j = S i) then Some z else ks !! (j - 1)%nat.
Proof.
  intros Hi. unfold split_kids. destruct (Nat.leb_spec j i).
  - rewrite lookup_app_l by (rewrite length_take; lia). by rewrite lookup_take_lt by lia.
  - rewrite lookup_app_r by (rewrite length_take; lia). rewrite length_take, Nat.min_l by lia.
    case_decide as Hj; [by subst; rewrite Nat.sub_diag|].
    destruct (j - S i)%nat as [|n] eqn:E; [lia|].
    change ((z :: drop (S i) ks) !! S n) with (drop (S i) ks !! n).
    rewrite lookup_drop. f_equal. lia.
Qed.

Lemma lookup_split_its its i m j :
  (i ≤ length its)%nat →
  split_its its i m !! j =
    if (j <? i)%nat then its !! j else if decide (j = i) then Some m else its !! (j - 1)%nat.
Proof.
  intros Hi. unfold split_its. destruct (Nat.ltb_spec j i).
  - rewrite lookup_app_l by (rewrite length_take; lia). by rewrite lookup_take_lt by lia.
  - rewrite lookup_app_r by (rewrite length_take; lia). rewrite length_take, Nat.min_l by lia.
    case_decide as Hj; [by subst; rewrite Nat.sub_diag|].
    destruct (j - i)%nat as [|n] eqn:E; [lia|].
    change ((m :: drop i its) !! S n) with (drop i its !! n).
    rewrite lookup_drop. f_equal. lia.
Qed.

Lemma length_split_its its i m : (i ≤ length its)%nat → length (split_its its i m) = S (length its).
Proof.
  intros Hi. unfold split_its. rewrite length_app, length_take, length_cons, length_drop. lia.
Qed.

Lemma length_split_kids {A} (ks : list A) i z :
  (i < length ks)%nat → length (split_kids ks i z) = S (length ks).
Proof.
  intros Hi. unfold split_kids. rewrite length_app, length_take, length_cons, length_drop. lia.
Qed.

(** ** The new node *)

(** The first half of the function: the new node gets the keys behind the
    middle one and their children. *)
Section halves.
Context (p : Heap V) (z : ptr) (fl : list nat) (d : nat) (par : option ptr).
Context (y : ptr) (yd : Node V) (yits : list (KeyInfo V)) (ycs : list ptr).
Hypothesis Hp : heap_ok p fl.
Hypothesis Hz : node_at p z = Some new_Node.
Hypothesis Hy : node_at p y = Some yd.
Hypothesis Hyn : node_rep d par yits ycs yd.
Hypothesis Hfull : length yits = MAX_DEGREE.
Hypothesis Hcs : ∀ c, c ∈ ycs → is_Some (node_at p c).
Hypothesis Hnd : NoDup ycs.
Hypothesis Hyz : y ≠ z ∧ y ∉ ycs ∧ z ∉ ycs.

Lemma fill_half :
  ∃ p' zd,
    (upd z (node_set_is_leaf (is_leaf yd));;
     set_key_cnt z (Z.of_nat MIN_DEGREE);;
     for_each (range_up 0 MIN_DEGREE) (λ j, move_key y (MIN_DEGREE + j + 1) z j);;
     (if is_leaf yd then mret tt
      else for_each (range_up 0 (MIN_DEGREE + 1)) (λ j,
             ch ← child y (MIN_DEGREE + j + 1);
             set_child z j ch))) p = (Ok tt, p')
    ∧ heap_ok p' fl ∧ node_at p' z = Some zd
    ∧ node_rep d None (drop (S MIN_DEGREE) yits) (drop (S MIN_DEGREE) ycs) zd
    ∧ (∀ c cd, c ∈ drop (S MIN_DEGREE) ycs → node_at p c = Some cd →
         node_at p' c = Some (node_set_parent (Some z) cd))
    ∧ (∀ c, c ≠ z → c ∉ drop (S MIN_DEGREE) ycs → node_at p' c = node_at p c).
Proof.
  destruct max_degree as [HM Hm1]. destruct Hyz as (Hne & Hyc & Hzc).
  rewrite (bind_ok _ _ _ _ _ (upd_ok _ _ _ _ Hz)).
  erewrite bind_ok; [|apply set_key_cnt_ok; [apply node_at_put_eq|lia]]. rewrite put_put.
  set (z0 := node_set_key_cnt MIN_DEGREE (node_set_is_leaf (is_leaf yd) new_Node)).
  assert (node_wf z0) as Hz0 by apply node_wf_set_cnt, node_wf_set_leaf, new_Node_wf.
  destruct (copy_slots (put z z0 p) y yd z z0 (λ j, MIN_DEGREE + j + 1)%nat id MIN_DEGREE)
    as (z1 & Hr & Hsh & Hsl & _); [done|by rewrite node_at_put_ne|apply node_at_put_eq|done| |done|].
  { intros j Hj. split_and!; [|lia|unfold id; lia].
    destruct (lookup_lt_is_Some_2 yits (MIN_DEGREE + j + 1)) as [k Hk]; [lia|].
    rewrite (nr_slot _ _ _ _ _ _ _ Hyn Hk). by eexists. }
  unfold id in *. erewrite bind_ok; [|exact Hr]. rewrite put_put.
  pose proof (heap_ok_put _ _ _ z1 _ Hp Hz) as Hp1.
  pose proof (ss_wf _ _ Hsh Hz0) as Hz1.
  assert (∀ i k, drop (S MIN_DEGREE) yits !! i = Some k → slot z1 i = Some (k, d)) as Hslots.
  { intros i k Hk. rewrite lookup_drop in Hk. pose proof (lookup_lt_Some _ _ _ Hk).
    rewrite Hsl by lia. eapply nr_slot; [exact Hyn|]. rewrite <- Hk. f_equal. lia. }
  rewrite (nr_leaf _ _ _ _ _ Hyn). destruct (nr_arity _ _ _ _ _ Hyn) as [He|He].
  - rewrite bool_decide_true by done. exists (put z z1 p), z1.
    split_and!; [done|done|apply node_at_put_eq| | |].
    + rewrite He. apply node_rep_intro; [done|by rewrite (ss_compressed _ _ Hsh)| |
        rewrite length_drop; lia|done| |by left|done| |by rewrite (ss_parent _ _ Hsh)].
      * rewrite (ss_cnt _ _ Hsh), length_drop. cbn. lia.
      * rewrite (ss_leaf _ _ Hsh). cbn. by rewrite (nr_leaf _ _ _ _ _ Hyn), He.
      * intros _. by rewrite (ss_children _ _ Hsh).
    + rewrite He, drop_nil. by intros c cd ?%not_elem_of_nil.
    + intros c Hc _. by rewrite node_at_put_ne.
  - assert (ycs ≠ []) as Hyne by (intros ->; done). rewrite bool_decide_false by done.
    destruct (move_children (put z z1 p) fl y yd z z1 (λ j, MIN_DEGREE + j + 1)%nat id
                (drop (S MIN_DEGREE) ycs))
      as (p' & z2 & Hr2 & Hp2 & Hz2 & (ci & Hz2e & Hz2w) & Hci & _ & Hmv & Hot);
      [done|done|by rewrite node_at_put_ne|apply node_at_put_eq|done|done
      |unfold id; rewrite length_drop; lia| | | | |].
    + by eapply sublist_NoDup; [exact Hnd|apply sublist_drop].
    + by intros Hin%elem_of_drop_in.
    + by intros Hin%elem_of_drop_in.
    + intros j c Hc. rewrite lookup_drop in Hc. split.
      * apply (nr_kids _ _ _ _ _ Hyn). rewrite <- Hc. f_equal. lia.
      * assert (c ∈ ycs) as Hin by (by eapply list_elem_of_lookup_2).
        rewrite node_at_put_ne by (intros ->; done). by apply Hcs.
    + rewrite length_drop, He, Hfull in Hr2.
      replace (S MAX_DEGREE - S MIN_DEGREE)%nat with (MIN_DEGREE + 1)%nat in Hr2 by lia.
      exists p', z2. split_and!; [exact Hr2|done|done| | |].
      * assert (drop (S MIN_DEGREE) ycs ≠ []) as Hdne.
        { intros Hd%(f_equal length). rewrite length_drop in Hd. cbn in Hd. lia. }
        apply node_rep_intro; [done|rewrite Hz2e; cbn; by rewrite (ss_compressed _ _ Hsh)| |
          rewrite length_drop; lia|subst z2; exact Hslots| | |exact Hci| |
          rewrite Hz2e; cbn; by rewrite (ss_parent _ _ Hsh)].
        -- rewrite Hz2e. cbn. rewrite (ss_cnt _ _ Hsh), length_drop. cbn. lia.
        -- rewrite Hz2e. cbn. rewrite (ss_leaf _ _ Hsh). cbn.
           rewrite (nr_leaf _ _ _ _ _ Hyn), !bool_decide_false by done. done.
        -- right. rewrite !length_drop. lia.
        -- done.
      * intros c cd Hc Hcd. apply Hmv; [done|]. rewrite node_at_put_ne; [done|].
        intros ->. by apply elem_of_drop_in in Hc.
      * intros c Hc Hnc. rewrite Hot by done. by rewrite node_at_put_ne.
Qed.
End halves.

(** ** The parent *)

Lemma link_half p fl d par a nd its cs i y yd m z zd :
  heap_ok p fl → node_at p a = Some nd → node_rep d par its cs nd → (length its < MAX_DEGREE)%nat →
  cs !! i = Some y → node_at p y = Some yd → slot yd MIN_DEGREE = Some (m, d) →
  node_at p z = Some zd → a ∉ cs → z ∉ cs → z ≠ a →
  (∀ c, c ∈ cs → ∃ cd, node_at p c = Some cd ∧ parent cd = Some a) →
  ∃ nd',
    (set_key_cnt y (Z.of_nat MIN_DEGREE);;
     nd ← load a;
     assert_ (key_cnt nd <? MAX_DEGREE)%nat;;
     for_each (range_down (i + 1) (S (key_cnt nd))) (λ j, move_child a j a (j + 1));;
     set_child a (i + 1) (Some z);;
     for_each (range_down i (key_cnt nd)) (λ j, move_key a j a (j + 1));;
     move_key y MIN_DEGREE a i;;
     set_key_cnt a (Z.of_nat (key_cnt nd) + 1)) p
    = (Ok tt, put a nd' (put z (node_set_parent (Some a) zd)
                (put y (node_set_key_cnt MIN_DEGREE yd) p)))
    ∧ node_rep d par (split_its its i m) (split_kids cs i z) nd'.
Proof.
  intros Hp Ha Hn Hlt Hi Hy Hm Hz Hac Hzc Hza Hcs.
  destruct max_degree as [HM Hm1].
  pose proof (list_elem_of_lookup_2 _ _ _ Hi) as Hyin.
  assert (a ≠ y ∧ y ≠ z) as [Hay Hyz] by (split; intros ->; done).
  assert (length cs = S (length its)) as Hlc.
  { destruct (nr_arity _ _ _ _ _ Hn) as [->|]; done. }
  pose proof (lookup_lt_Some _ _ _ Hi) as Hil.
  set (yd' := node_set_key_cnt MIN_DEGREE yd). set (p1 := put y yd' p).
  pose proof (heap_ok_put _ _ _ yd' _ Hp Hy) as Hp1. fold p1 in Hp1.
  erewrite bind_ok; [|apply set_key_cnt_ok; [exact Hy|lia]]. fold yd' p1.
  assert (node_at p1 a = Some nd) as Ha1 by (subst p1; by rewrite node_at_put_ne).
  assert (node_at p1 z = Some zd) as Hz1 by (subst p1; by rewrite node_at_put_ne).
  rewrite (bind_load _ _ _ _ Ha1), (nr_cnt _ _ _ _ _ Hn), bind_assert by side_cond.
  (* the children *)
  destruct (shift_children_up p1 fl a nd (i + 1) (length cs) cs)
    as (n1 & Hr1 & (ci & Hn1 & Hw1) & Hc1 & Hc2); [done|done|apply (nr_wf _ _ _ _ _ Hn)|lia|lia|done| |].
  { intros j c Hc. split; [by apply (nr_kids _ _ _ _ _ Hn)|].
    pose proof (list_elem_of_lookup_2 _ _ _ Hc) as Hin. split; [intros ->; done|].
    destruct (Hcs c Hin) as (cd & Hcd & Hpar). destruct (decide (c = y)) as [->|Hcy].
    - exists yd'. subst p1. rewrite node_at_put_eq. split; [done|]. cbn.
      rewrite Hy in Hcd. by injection Hcd as ->.
    - exists cd. subst p1. by rewrite node_at_put_ne. }
  rewrite <- Hlc. erewrite bind_ok; [|exact Hr1].
  pose proof (heap_ok_put _ _ _ n1 _ Hp1 Ha1) as Hp2.
  erewrite bind_ok.
  2: { eapply set_child_ok; [exact Hp2|apply node_at_put_eq|done|lia| |done].
       by rewrite node_at_put_ne. }
  rewrite put_put. set (n2 := node_set_child_index (i + 1) (to_index z) n1).
  set (zd' := node_set_parent (Some a) zd).
  assert (node_wf n2) as Hw2 by by apply node_wf_child_index.
  assert (put z zd' (put a n2 p1) = put a n2 (put z zd' p1)) as ->.
  { unfold put, Pool.set_mempool. cbn. f_equal. by apply insert_insert_ne. }
  set (p3 := put z zd' p1).
  assert (∀ j, slot n2 j = slot nd j) as Hs2 by (intros j; subst n2; by rewrite Hn1).
  (* the keys *)
  destruct (shift_slots_up (put a n2 p3) a n2 i (length its))
    as (n3 & Hr3 & Hsh3 & Hs3 & Hs3'); [apply node_at_put_eq|done|lia|lia| |].
  { intros j Hj. rewrite Hs2. destruct (lookup_lt_is_Some_2 its j Hj) as [k Hk].
    rewrite (nr_slot _ _ _ _ _ _ _ Hn Hk). by eexists. }
  erewrite bind_ok; [|exact Hr3]. rewrite put_put.
  pose proof (ss_wf _ _ Hsh3 Hw2) as Hw3.
  erewrite bind_ok.
  2: { eapply (move_slot_ok _ y yd'); [|exact Hm|lia|apply node_at_put_eq|done|lia|left; done].
       rewrite node_at_put_ne by done. unfold p3. rewrite node_at_put_ne by done.
       unfold p1. apply node_at_put_eq. }
  rewrite put_put.
  replace (Z.of_nat (length its) + 1) with (Z.of_nat (S (length its))) by lia.
  erewrite set_key_cnt_ok; [|apply node_at_put_eq|lia]. rewrite put_put.
  set (n4 := node_set_key_cnt _ _). exists n4. split; [done|].
  assert (child_index n4 = child_index n2) as Hci4 by apply (ss_children _ _ Hsh3).
  apply node_rep_intro.
  - apply node_wf_set_cnt. by apply (ss_wf _ _ (set_slot_shape _ _ _)).
  - cbn. rewrite (ss_compressed _ _ Hsh3). subst n2. rewrite Hn1. apply (nr_compressed _ _ _ _ _ Hn).
  - cbn. rewrite length_split_its by lia. done.
  - rewrite length_split_its by lia. lia.
  - intros j k Hj. subst n4. rewrite slot_set_cnt, slot_set_slot by (done || lia).
    rewrite lookup_split_its in Hj by lia.
    destruct (Nat.ltb_spec j i); [rewrite decide_False by lia|case_decide; [by simplify_eq|]].
    + rewrite Hs3', Hs2 by lia. by eapply nr_slot.
    + replace j with (S (j - 1))%nat by lia.
      pose proof (lookup_lt_Some _ _ _ Hj). rewrite Hs3, Hs2 by lia. by eapply nr_slot.
  - cbn. rewrite (ss_leaf _ _ Hsh3). subst n2. rewrite Hn1. cbn. rewrite (nr_leaf _ _ _ _ _ Hn).
    rewrite !bool_decide_false; [done| |intros ->; done].
    intros Hnil%(f_equal length). by rewrite length_split_kids in Hnil.
  - right. rewrite length_split_kids, length_split_its by lia. lia.
  - intros j c Hj. rewrite Hci4. subst n2. cbn. rewrite lookup_split_kids in Hj by lia.
    destruct (Nat.leb_spec j i).
    + rewrite list_lookup_insert_ne, Hc2 by lia. by apply (nr_kids _ _ _ _ _ Hn).
    + case_decide as Hj'.
      * simplify_eq. rewrite Nat.add_1_r. apply list_lookup_insert_eq.
        rewrite (wf_children _ Hw1). lia.
      * pose proof (lookup_lt_Some _ _ _ Hj). rewrite list_lookup_insert_ne by lia.
        replace j with (S (j - 1))%nat by lia. rewrite Hc1 by lia.
        by apply (nr_kids _ _ _ _ _ Hn).
  - intros Hnil%(f_equal length). by rewrite length_split_kids in Hnil.
  - cbn. rewrite (ss_parent _ _ Hsh3). subst n2. rewrite Hn1. apply (nr_parent _ _ _ _ _ Hn).
Qed.

(** ** The tree after the split *)

Section tree.
Context (a y z : ptr) (its yits : list (KeyInfo V)) (ks yks : list (btree V)) (i : nat)
  (m : KeyInfo V).

Definition split_tree : btree V :=
  BNode a (split_its its i m)
    (take i ks ++ BNode y (take MIN_DEGREE yits) (take (S MIN_DEGREE) yks)
       :: BNode z (drop (S MIN_DEGREE) yits) (drop (S MIN_DEGREE) yks) :: drop (S i) ks).

Hypothesis Hi : ks !! i = Some (BNode y yits yks).

Lemma split_tree_addrs : addrs split_tree ≡ₚ z :: addrs (BNode a its ks).
Proof.
  unfold split_tree. rewrite !addrs_unfold.
  rewrite <- (take_drop_middle _ _ _ Hi) at 3.
  rewrite !fmap_app, !fmap_cons, !concat_app. cbn [concat].
  rewrite !addrs_unfold. rewrite <- (take_drop (S MIN_DEGREE) yks) at 3.
  rewrite fmap_app, concat_app. cbn [app]. solve_Permutation.
Qed.

Lemma split_tree_kid_addrs : addr <$> kids split_tree = split_kids (addr <$> ks) i z.
Proof.
  cbn. unfold split_kids. rewrite fmap_app. cbn.
  rewrite (take_S_r _ _ y) by (by rewrite list_lookup_fmap, Hi).
  by rewrite <- app_assoc, fmap_take, fmap_drop.
Qed.

Lemma split_tree_height : (height split_tree ≤ height (BNode a its ks))%nat.
Proof.
  assert (∀ (ks1 ks2 : list (btree V)), foldr Nat.max 0%nat (height <$> ks1 ++ ks2)
            = Nat.max (foldr Nat.max 0%nat (height <$> ks1)) (foldr Nat.max 0%nat (height <$> ks2)))
    as Happ.
  { induction ks1 as [|k ks1 IH]; intros ks2; cbn; [done|]. rewrite IH. lia. }
  unfold split_tree. cbn [height]. rewrite <- (take_drop_middle _ _ _ Hi) at 3.
  rewrite !Happ. cbn [fmap list_fmap foldr height].
  rewrite <- (take_drop (S MIN_DEGREE) yks) at 3. rewrite Happ. lia.
Qed.

Hypothesis Hl : length ks = S (length its).
Hypothesis Hyl : yks = [] ∨ length yks = S (length yits).
Hypothesis Hm : yits !! MIN_DEGREE = Some m.

Lemma weave_halves (n : nat) xs (xss : list (list (KeyInfo V))) k :
  xss = [] ∨ length xss = S (length xs) → xs !! n = Some k →
  weave xs xss = weave (take n xs) (take (S n) xss) ++ k :: weave (drop (S n) xs) (drop (S n) xss).
Proof.
  intros Hlen Hk. destruct Hlen as [->|Hlen].
  { rewrite take_nil, drop_nil. cbn. by rewrite take_drop_middle. }
  pose proof (lookup_lt_Some _ _ _ Hk).
  destruct (lookup_lt_is_Some_2 xss n) as [l Hlk]; [lia|].
  destruct (drop (S n) xss) as [|l' xss'] eqn:Hd.
  { apply (f_equal length) in Hd. rewrite length_drop in Hd. cbn in Hd. lia. }
  assert (length xss' = (length xs - S n)%nat).
  { apply (f_equal length) in Hd. rewrite length_drop in Hd. cbn in Hd. lia. }
  rewrite (weave_split xs xss n l) by done.
  rewrite (weave_split (take n xs) (take (S n) xss) n l);
    [|rewrite !length_take; lia|by rewrite lookup_take_lt by lia].
  rewrite weave_zip by (rewrite length_drop; lia).
  unfold weave_pre, weave_post. rewrite !take_take, !Nat.min_l by lia.
  rewrite (drop_ge (take n xs)) by (rewrite length_take; lia). cbn [zip_with concat].
  rewrite app_nil_r, <- !app_assoc, Hd, (drop_S _ _ _ Hk). done.
Qed.

Lemma split_tree_flat : flat split_tree = flat (BNode a its ks).
Proof.
  unfold split_tree. cbn [flat]. pose proof (lookup_lt_Some _ _ _ Hi).
  set (A := flat (BNode y (take MIN_DEGREE yits) (take (S MIN_DEGREE) yks))).
  set (B := flat (BNode z (drop (S MIN_DEGREE) yits) (drop (S MIN_DEGREE) yks))).
  assert (flat (BNode y yits yks) = A ++ m :: B) as HAB.
  { cbn [flat]. subst A B. cbn [flat]. rewrite (weave_halves MIN_DEGREE _ _ m); [|
      destruct Hyl as [->|Hy]; [by left|right; by rewrite length_fmap]|done].
    by rewrite fmap_take, fmap_drop. }
  rewrite (weave_split its _ i (flat (BNode y yits yks)));
    [|rewrite length_fmap; done|by rewrite list_lookup_fmap, Hi].
  rewrite fmap_app, !fmap_cons. fold A B.
  rewrite (weave_split _ _ i A); cycle 1.
  { rewrite length_app, !length_cons, !length_fmap, length_take, length_drop,
      length_split_its by lia. lia. }
  { rewrite lookup_app_r; rewrite length_fmap, length_take; [|lia].
    by rewrite Nat.min_l, Nat.sub_diag by lia. }
  rewrite HAB, <- !app_assoc. unfold weave_pre, weave_post, split_its. f_equal; [|f_equal].
  - rewrite !take_app_length' by (rewrite ?length_fmap, length_take; lia).
    by rewrite fmap_take.
  - rewrite drop_app_length' by (rewrite length_take; lia).
    rewrite drop_app_ge; rewrite length_fmap, length_take; [|lia].
    rewrite Nat.min_l, Nat.sub_succ_l, Nat.sub_diag by lia. cbn.
    by rewrite <- fmap_drop.
Qed.
End tree.

(** ** The memory after the split *)

Lemma node_rep_parent d par q its cs nd :
  node_rep d par its cs nd → node_rep d q its cs (node_set_parent q nd).
Proof.
  intros []. split; try done.
  by apply node_wf_set_parent.
Qed.

(** Only the root of a subtree knows its parent. *)
Lemma rep_reparent p p' d par q t nd :
  rep p d par t → node_at p (addr t) = Some nd → NoDup (addrs t) →
  node_at p' (addr t) = Some (node_set_parent q nd) →
  (∀ b, b ∈ addrs t → b ≠ addr t → node_at p' b = node_at p b) → rep p' d q t.
Proof.
  destruct t as [a its ks]. rewrite !rep_unfold, addrs_unfold. cbn [addr].
  intros [(nd' & Ha & Hn) Hks] Ha' [Hni _]%NoDup_cons Hp' Hf. simplify_eq. split.
  - eexists. split; [done|]. by eapply node_rep_parent.
  - rewrite Forall_forall in Hks |- *. intros k Hk. eapply rep_frame; [by apply Hks|].
    intros b Hb. assert (b ∈ concat (addrs <$> ks)) as Hin.
    { apply elem_of_concat. exists (addrs k). split; [done|]. by apply list_elem_of_fmap_2. }
    apply Hf; [by right|]. by intros ->.
Qed.

Lemma node_rep_take d par its cs nd n :
  node_rep d par its cs nd → (n < length its)%nat →
  node_rep d par (take n its) (take (S n) cs) (node_set_key_cnt n nd).
Proof.
  intros Hn Hlt. pose proof (nr_max _ _ _ _ _ Hn). split.
  - apply node_wf_set_cnt, (nr_wf _ _ _ _ _ Hn).
  - apply (nr_compressed _ _ _ _ _ Hn).
  - rewrite length_take. cbn. lia.
  - rewrite length_take. lia.
  - intros i k (Hk & _)%lookup_take_Some. by apply (nr_keys _ _ _ _ _ Hn).
  - intros i. rewrite length_take. intros. apply (nr_dims _ _ _ _ _ Hn). lia.
  - cbn [is_leaf node_set_key_cnt]. rewrite (nr_leaf _ _ _ _ _ Hn). apply bool_decide_ext. destruct cs; done.
  - destruct (nr_arity _ _ _ _ _ Hn) as [->|He]; [by left|right]. rewrite !length_take. lia.
  - intros i c (Hc & _)%lookup_take_Some. by apply (nr_kids _ _ _ _ _ Hn).
  - intros Hcs. apply (nr_no_kids _ _ _ _ _ Hn). by destruct cs.
  - apply (nr_parent _ _ _ _ _ Hn).
Qed.

(** The addresses of the parts of a tree are different. *)
Lemma addrs_disjoint a its (ks : list (btree V)) :
  NoDup (addrs (BNode a its ks)) →
  (∀ k, k ∈ ks → a ∉ addrs k ∧ NoDup (addrs k))
  ∧ (∀ i j k k' b, ks !! i = Some k → ks !! j = Some k' → b ∈ addrs k → b ∈ addrs k' → i = j)
  ∧ NoDup (addr <$> ks).
Proof.
  rewrite addrs_unfold. intros [Hni Hnd]%NoDup_cons.
  assert (∀ i j k k' b, ks !! i = Some k → ks !! j = Some k' → b ∈ addrs k → b ∈ addrs k' → i = j)
    as Hij.
  { intros i j k k' b Hi Hj. eapply NoDup_concat_inj; [exact Hnd|..]; by rewrite list_lookup_fmap, ?Hi, ?Hj. }
  split_and!; [|done|].
  - intros k Hk. split.
    + intros Ha. apply Hni, elem_of_concat. exists (addrs k). split; [done|].
      by apply list_elem_of_fmap_2.
    + eapply NoDup_concat_part; [exact Hnd|]. by apply list_elem_of_fmap_2.
  - apply NoDup_alt. intros i j b Hi Hj. rewrite list_lookup_fmap in Hi, Hj.
    apply fmap_Some in Hi as (k & Hi & ->), Hj as (k' & Hj & He).
    eapply Hij; [done..|apply addrs_root|]. rewrite He. apply addrs_root.
Qed.

Lemma rep_kids_live p d a par its ks :
  rep p d par (BNode a its ks) →
  ∀ c, c ∈ addr <$> ks → ∃ cd, node_at p c = Some cd ∧ parent cd = Some a.
Proof.
  rewrite rep_unfold, Forall_forall. intros [_ Hk] c (k & -> & Hin)%list_elem_of_fmap.
  specialize (Hk k Hin). destruct k as [b its' ks']. apply rep_unfold in Hk as [(nd & Hb & Hn) _].
  exists nd. split; [done|]. apply (nr_parent _ _ _ _ _ Hn).
Qed.

(** The two halves of a represented child, in a memory that agrees with the
    old one but for the nodes the split writes. *)
Lemma rep_halves p p' d a y yd yits (yks : list (btree V)) z zd :
  NoDup (addrs (BNode y yits yks)) → node_at p y = Some yd →
  node_rep d (Some a) yits (addr <$> yks) yd → Forall (rep p d (Some y)) yks →
  (MIN_DEGREE < length yits)%nat →
  node_at p' y = Some (node_set_key_cnt MIN_DEGREE yd) → node_at p' z = Some zd →
  node_rep d (Some a) (drop (S MIN_DEGREE) yits) (drop (S MIN_DEGREE) (addr <$> yks)) zd →
  (∀ c cd, c ∈ drop (S MIN_DEGREE) (addr <$> yks) → node_at p c = Some cd →
     node_at p' c = Some (node_set_parent (Some z) cd)) →
  (∀ b, b ∈ addrs (BNode y yits yks) → b ≠ y → b ∉ drop (S MIN_DEGREE) (addr <$> yks) →
     node_at p' b = node_at p b) →
  rep p' d (Some a) (BNode y (take MIN_DEGREE yits) (take (S MIN_DEGREE) yks))
  ∧ rep p' d (Some a) (BNode z (drop (S MIN_DEGREE) yits) (drop (S MIN_DEGREE) yks)).
Proof.
  intros Hnd Hy Hyn Hks Hlt Hy' Hz' Hzn Hmv Hfr. rewrite Forall_forall in Hks.
  destruct (addrs_disjoint _ _ _ Hnd) as (Hk & Hij & _).
  assert (∀ j k b, yks !! j = Some k → b ∈ addrs k → b ∈ addrs (BNode y yits yks) ∧ b ≠ y) as Hin.
  { intros j k b Hj Hb. apply list_elem_of_lookup_2 in Hj. split; [by eapply addrs_kid|].
    intros ->. by destruct (Hk k Hj). }
  assert (∀ j k b, yks !! j = Some k → b ∈ addrs k → b ∈ drop (S MIN_DEGREE) (addr <$> yks) →
            (S MIN_DEGREE ≤ j)%nat ∧ b = addr k) as Hdr.
  { intros j k b Hj Hb (l & Hl)%list_elem_of_lookup. rewrite lookup_drop, list_lookup_fmap in Hl.
    apply fmap_Some in Hl as (k' & Hk' & ->).
    pose proof (Hij _ _ _ _ _ Hj Hk' Hb (addrs_root k')) as Hjl.
    split; [lia|]. rewrite <- Hjl in Hk'. congruence. }
  rewrite !rep_unfold. split; (split; [eexists; split; [done|]|]).
  - rewrite fmap_take. by apply node_rep_take.
  - apply Forall_forall. intros k Hkt. apply list_elem_of_lookup in Hkt as (j & Hj).
    apply lookup_take_Some in Hj as [Hj Hjl].
    eapply rep_frame; [apply Hks; by eapply list_elem_of_lookup_2|]. intros b Hb.
    destruct (Hin _ _ _ Hj Hb). apply Hfr; [done..|]. intros Hbd.
    destruct (Hdr _ _ _ Hj Hb Hbd). lia.
  - by rewrite fmap_drop.
  - apply Forall_forall. intros k Hkt. apply list_elem_of_lookup in Hkt as (j & Hj).
    rewrite lookup_drop in Hj. pose proof (list_elem_of_lookup_2 _ _ _ Hj) as Hkin.
    destruct (rep_live _ _ _ _ (Hks k Hkin)) as [cd Hcd].
    eapply rep_reparent; [by apply Hks|exact Hcd|by apply Hk| |].
    + apply Hmv; [|done]. apply (list_elem_of_lookup_2 _ j).
      by rewrite lookup_drop, list_lookup_fmap, Hj.
    + intros b Hb Hne. destruct (Hin _ _ _ Hj Hb). apply Hfr; [done..|]. intros Hbd.
      by destruct (Hdr _ _ _ Hj Hb Hbd).
Qed.

(** Which addresses of the nodes around a split are different. *)
Section aliases.
Context (a y z : ptr) (its yits : list (KeyInfo V)) (ks yks : list (btree V)) (i : nat).
Let t := BNode a its ks.
Let moved := drop (S MIN_DEGREE) (addr <$> yks).
Hypothesis Hnd : NoDup (addrs t).
Hypothesis Hi : ks !! i = Some (BNode y yits yks).
Hypothesis Hzt : z ∉ addrs t.

Lemma split_child_in : BNode y yits yks ∈ ks.
Proof using Hi. by eapply list_elem_of_lookup_2. Qed.

Lemma split_roots : y ∈ addrs t ∧ y ≠ z ∧ a ≠ z ∧ a ≠ y ∧ NoDup (addrs (BNode y yits yks)).
Proof using Hnd Hi Hzt.
  pose proof split_child_in as Hyin. destruct (addrs_disjoint _ _ _ Hnd) as (Hk & _ & _).
  destruct (Hk _ Hyin) as [Hay Hynd].
  assert (y ∈ addrs t) by (eapply addrs_kid; [done|apply (addrs_root (BNode y yits yks))]).
  split_and!; [done|by intros ->| |by intros ->; apply Hay, (addrs_root (BNode _ yits yks))|done].
  intros ->. apply Hzt, (addrs_root t).
Qed.

Lemma split_grandkid b : b ∈ addr <$> yks → b ∈ addrs (BNode y yits yks) ∧ b ≠ y ∧ b ≠ z.
Proof using Hnd Hi Hzt.
  intros (k & -> & Hkin)%list_elem_of_fmap. destruct split_roots as (_ & _ & _ & _ & Hynd).
  destruct (addrs_disjoint _ _ _ Hynd) as (Hyk & _ & _).
  assert (addr k ∈ addrs (BNode y yits yks)) as Hin by (eapply addrs_kid; [done|apply addrs_root]).
  split_and!; [done| |].
  - intros He. destruct (Hyk k Hkin) as [Hn' _]. apply Hn'. rewrite <- He. apply addrs_root.
  - intros He. apply Hzt. rewrite <- He. eapply addrs_kid; [exact split_child_in|done].
Qed.

Lemma split_moved b : b ∈ moved → b ∈ addrs (BNode y yits yks) ∧ b ≠ y ∧ b ≠ z.
Proof using Hnd Hi Hzt. by intros Hb%elem_of_drop_in%split_grandkid. Qed.

Lemma split_kid c : c ∈ addr <$> ks → c ∈ addrs t ∧ c ≠ a ∧ c ≠ z ∧ c ∉ moved.
Proof using Hnd Hi Hzt.
  destruct (addrs_disjoint _ _ _ Hnd) as (Hk & Hij & _). intros Hc.
  apply list_elem_of_fmap in Hc as (k & -> & Hkin).
  assert (addr k ∈ addrs t) as Hin by (eapply addrs_kid; [done|apply addrs_root]).
  split_and!; [done| |by intros He; rewrite He in Hin|].
  - intros He. destruct (Hk k Hkin) as [Hn' _]. apply Hn'. rewrite <- He. apply addrs_root.
  - intros [Hb [Hne _]]%split_moved. apply list_elem_of_lookup in Hkin as [j Hj].
    pose proof (Hij _ _ _ _ _ Hj Hi (addrs_root k) Hb) as ->. by simplify_eq.
Qed.

(** The other children and their subtrees are not touched. *)
Lemma split_other j k b :
  ks !! j = Some k → j ≠ i → b ∈ addrs k → b ≠ a ∧ b ≠ z ∧ b ≠ y ∧ b ∉ moved.
Proof using Hnd Hi Hzt.
  destruct (addrs_disjoint _ _ _ Hnd) as (Hk & Hij & _). intros Hj Hji Hb.
  pose proof (list_elem_of_lookup_2 _ _ _ Hj) as Hkin.
  assert (b ∉ addrs (BNode y yits yks)) as Hby by (intros Hin; by destruct Hji; eapply Hij).
  split_and!.
  - intros ->. by destruct (Hk k Hkin).
  - intros ->. apply Hzt. by eapply addrs_kid.
  - intros ->. apply Hby, (addrs_root (BNode y yits yks)).
  - by intros [? _]%split_moved.
Qed.
End aliases.

(** The tree after the split in the memory [p2] it leaves: [p1] is the memory
    once the new node is filled. *)
Lemma split_rep p p1 d par a nd' y yd z zd its yits ks yks i m :
  let p2 := put a nd' (put z (node_set_parent (Some a) zd) (put y (node_set_key_cnt MIN_DEGREE yd) p1)) in
  rep p d par (BNode a its ks) → NoDup (addrs (BNode a its ks)) → z ∉ addrs (BNode a its ks) →
  ks !! i = Some (BNode y yits yks) → length yits = MAX_DEGREE → node_at p y = Some yd →
  node_rep d None (drop (S MIN_DEGREE) yits) (drop (S MIN_DEGREE) (addr <$> yks)) zd →
  node_rep d par (split_its its i m) (split_kids (addr <$> ks) i z) nd' →
  (∀ c cd, c ∈ drop (S MIN_DEGREE) (addr <$> yks) → node_at p c = Some cd →
     node_at p1 c = Some (node_set_parent (Some z) cd)) →
  (∀ c, c ≠ z → c ∉ drop (S MIN_DEGREE) (addr <$> yks) → node_at p1 c = node_at p c) →
  rep p2 d par (split_tree a y z its yits ks yks i m).
Proof.
  intros p2 Hr Hnd Hzt Hi Hyl Hy Hzn Hn' Hmv Hot. destruct max_degree as [HM _].
  pose proof Hr as [_ Hks]%rep_unfold. rewrite Forall_forall in Hks.
  pose proof (Hks _ (split_child_in _ _ _ _ _ Hi)) as [(yd' & Hy' & Hyn) Hyks]%rep_unfold.
  rewrite Hy in Hy'. injection Hy' as <-.
  pose proof (split_moved _ _ _ _ _ _ _ _ Hnd Hi Hzt) as Hmoved.
  pose proof (split_other _ _ _ _ _ _ _ _ Hnd Hi Hzt) as Hother.
  destruct (split_roots _ _ _ _ _ _ _ _ Hnd Hi Hzt) as (_ & Hyz & Haz & Hay & Hynd).
  assert (∀ b, b ≠ a → b ≠ z → b ≠ y → node_at p2 b = node_at p1 b) as Hp2.
  { intros b ???. subst p2. by rewrite !node_at_put_ne. }
  assert (∀ b, b ∈ addrs (BNode y yits yks) → b ≠ z ∧ b ≠ a) as Hyb.
  { destruct (addrs_disjoint _ _ _ Hnd) as (Hk & _ & _). intros b Hb.
    destruct (Hk _ (split_child_in _ _ _ _ _ Hi)). split; [|by intros ->].
    intros ->. apply Hzt. eapply addrs_kid; [by eapply split_child_in|done]. }
  destruct (rep_halves p p2 d a y yd yits yks z (node_set_parent (Some a) zd)) as [HY HZ];
    [done..|lia| | | | | |].
  - unfold p2. rewrite !node_at_put_ne by done. apply node_at_put_eq.
  - unfold p2. rewrite node_at_put_ne by done. apply node_at_put_eq.
  - by eapply node_rep_parent.
  - intros c cd Hc Hcd. destruct (Hmoved c Hc) as ([? ?]%Hyb & ? & ?). rewrite Hp2 by done. by apply Hmv.
  - intros b [??]%Hyb ??. by rewrite Hp2, Hot.
  - assert (∀ j k, ks !! j = Some k → j ≠ i → rep p2 d (Some a) k) as Hothers.
    { intros j k Hj Hji. eapply rep_frame; [apply Hks; by eapply list_elem_of_lookup_2|].
      intros b (? & ? & ? & ?)%(Hother j k b Hj Hji). by rewrite Hp2, Hot. }
    apply rep_unfold. split.
    + eexists. split; [apply node_at_put_eq|].
      pose proof (split_tree_kid_addrs a y z its yits ks yks i m Hi) as He.
      cbn [kids split_tree] in He. by rewrite He.
    + apply Forall_app. split; [|apply Forall_cons; split; [exact HY|apply Forall_cons; split; [exact HZ|]]].
      all: apply Forall_forall; intros k (j & Hj)%list_elem_of_lookup.
      * apply lookup_take_Some in Hj as [Hj ?]. eapply Hothers; [done|lia].
      * rewrite lookup_drop in Hj. eapply Hothers; [done|lia].
Qed.

Lemma split_child_ok p z fl d par a its ks i y yits yks m :
  let t := BNode a its ks in
  let t' := split_tree a y z its yits ks yks i m in
  heap_ok p (z :: fl) → (2 ≤ length fl)%nat → rep p d par t → NoDup (addrs t) →
  (length its < MAX_DEGREE)%nat → ks !! i = Some (BNode y yits yks) →
  length yits = MAX_DEGREE → yits !! MIN_DEGREE = Some m →
  ∃ p', split_child a i y p = (Ok tt, p') ∧ heap_ok p' fl ∧ rep p' d par t'
    ∧ NoDup (addrs t') ∧ modifies p p' (addrs t) (addrs t').
Proof.
  intros t t' Hp Hfl Hr Hnd Hlt Hi Hyl Hm.
  destruct (alloc_ok _ _ _ Hp Hfl) as (p0 & Halloc & Hp0 & Hz0 & Hzd & Hmod0).
  assert (z ∉ addrs t) as Hzt.
  { intros Hin. destruct (rep_addrs_live _ _ _ _ _ Hr Hin). congruence. }
  pose proof (rep_modifies _ _ _ _ _ _ _ Hr Hmod0 ltac:(intros; apply not_elem_of_nil)) as Hr0.
  pose proof (rep_kids_live _ _ _ _ _ _ Hr0) as Hlive.
  pose proof Hr0 as [(nd & Ha & Hn) Hks]%rep_unfold. rewrite Forall_forall in Hks.
  pose proof (split_child_in _ _ _ _ _ Hi) as Hyin.
  pose proof (rep_kids_live _ _ _ _ _ _ (Hks _ Hyin)) as Hylive.
  pose proof (Hks _ Hyin) as [(yd & Hy & Hyn) _]%rep_unfold.
  destruct (split_roots _ _ _ _ _ _ _ _ Hnd Hi Hzt) as (Hyt & Hyz & Haz & Hay & Hynd).
  pose proof (split_kid _ _ _ _ _ _ _ _ Hnd Hi Hzt) as Hkid.
  pose proof (split_grandkid _ _ _ _ _ _ _ _ Hnd Hi Hzt) as Hgk.
  pose proof (split_moved _ _ _ _ _ _ _ _ Hnd Hi Hzt) as Hmoved.
  destruct (addrs_disjoint _ _ _ Hynd) as (_ & _ & Hycnd).
  destruct (fill_half p0 z fl d (Some a) y yd yits (addr <$> yks))
    as (p1 & zd & Hfill & Hp1 & Hz1 & Hzn & Hmv & Hot); [done..| |done| |].
  { intros c Hc. destruct (Hylive c Hc) as (cd & Hcd & _). by eexists. }
  { split_and!; [done|by intros (_ & ? & _)%Hgk|by intros (_ & _ & ?)%Hgk]. }
  set (moved := drop (S MIN_DEGREE) (addr <$> yks)) in *.
  assert (a ∉ moved ∧ y ∉ moved) as [Ham Hym].
  { split; [|by intros (_ & ? & _)%Hmoved]. intros (Hin & _)%Hmoved.
    destruct (addrs_disjoint _ _ _ Hnd) as (Hk & _ & _). by destruct (Hk _ Hyin). }
  destruct (link_half p1 fl d par a nd its (addr <$> ks) i y yd m z zd) as (nd' & Hlink & Hn');
    [done|by rewrite Hot|done|done|by rewrite list_lookup_fmap, Hi|by rewrite Hot|by eapply nr_slot|done
    |by intros (_ & ? & _)%Hkid|by intros (_ & _ & ? & _)%Hkid|done| |].
  { intros c Hc. destruct (Hkid c Hc) as (_ & _ & ? & ?). rewrite Hot by done. by apply Hlive. }
  eexists. split.
  { unfold split_child. rewrite (bind_ok _ _ _ _ _ Halloc), (bind_load _ _ _ _ Hy).
    apply bind_Ok_inv in Hfill as ([] & q1 & Hq1 & Hfill). rewrite (bind_ok _ _ _ _ _ Hq1).
    apply bind_Ok_inv in Hfill as ([] & q2 & Hq2 & Hfill). rewrite (bind_ok _ _ _ _ _ Hq2).
    apply bind_Ok_inv in Hfill as ([] & q3 & Hq3 & Hfill). rewrite (bind_ok _ _ _ _ _ Hq3).
    rewrite (bind_ok _ _ _ _ _ Hfill). exact Hlink. }
  pose proof (split_tree_addrs a y z its yits ks yks i m Hi) as Hperm. fold t t' in Hperm.
  split_and!.
  - repeat eapply heap_ok_put; rewrite ?node_at_put_ne by done; [done| | |]; try done; by rewrite Hot.
  - by eapply (split_rep p0).
  - rewrite Hperm. by apply NoDup_cons.
  - split.
    + intros b bd Hb Hbd. assert (b ≠ z) by (intros ->; congruence).
      assert (b ∉ moved) by (intros (Hin & _)%Hmoved; apply Hb; by eapply addrs_kid).
      rewrite !node_at_put_ne, Hot; [eapply mod_frame; [exact Hmod0|apply not_elem_of_nil|done]|done..
        |by intros ->|done|intros ->; apply Hb, (addrs_root t)].
    + intros b. rewrite Hperm. intros [->|Hb]%elem_of_cons; [by right|by left].
Qed.
End Split.
