(* ===== verification/Chain.v ===== *)
(** * New subtrees

    What is inserted where nothing was stored: the keys of the rest of a rule,
    packed into compressed nodes.  The lemmas say which chain the loops of
    [insert_compressed] build, and that the subtree they return is
    represented. *)
From S2P Require Import Prelude Range RuleValue Mempool Node NodeLemmas Search Layer LayerSearch Trie Footprint Slots Insert Split.
Local Open Scope Z_scope.

Section Chain.
Context `{cfg : !BTreeCfg, Hok : !CfgOk} {V : Type} `{!RuleValue V}.
Implicit Types (p : Heap V) (nd : Node V) (its : list (KeyInfo V)) (g : gtrie V) (seg : list Range1d).

(** ** Next layers of keys *)

Definition set_next (z : Z) (x : KeyInfo V) : KeyInfo V := mkKeyInfo (key x) (kvalue x) z.

Lemma node_key_set_next nd j z i :
  node_wf nd → (j < MAX_DEGREE)%nat →
  node_key (node_set_next_level j z nd) i =
    if decide (i = j) then set_next z <$> node_key nd j else node_key nd i.
Proof.
  intros Hw Hj. destruct (node_key_total nd j Hw Hj) as [x Hx]. case_decide as He.
  - subst i. rewrite Hx. cbn. apply node_key_inv in Hx as (Hk & Hv & _). apply node_key_inv.
    cbn. split_and!; [done..|]. apply list_lookup_insert_eq. rewrite (wf_next _ Hw). done.
  - unfold node_key. cbn. by rewrite list_lookup_insert_ne by done.
Qed.

Lemma node_wf_set_next nd j z : node_wf nd → node_wf (node_set_next_level j z nd).
Proof. intros []. split; cbn; by rewrite ?length_insert. Qed.

Lemma node_wf_set_key nd j x : node_wf nd → node_wf (node_set_key j x nd).
Proof. intros []. split; cbn; by rewrite ?length_insert. Qed.

Lemma node_wf_set_compressed nd b : node_wf nd → node_wf (node_set_is_compressed b nd).
Proof. intros []. by split. Qed.

Lemma node_rep_set_next d par its cs nd j z :
  node_rep d par its cs nd → (j < length its)%nat →
  node_rep d par (alter (set_next z) j its) cs (node_set_next_level j z nd).
Proof.
  intros Hn Hj. pose proof (nr_max _ _ _ _ _ Hn).
  apply node_rep_intro; [by apply node_wf_set_next, (nr_wf _ _ _ _ _ Hn)
    |apply (nr_compressed _ _ _ _ _ Hn)|rewrite length_alter; apply (nr_cnt _ _ _ _ _ Hn)
    |by rewrite length_alter| |apply (nr_leaf _ _ _ _ _ Hn)
    |rewrite length_alter; apply (nr_arity _ _ _ _ _ Hn)|apply (nr_kids _ _ _ _ _ Hn)
    |apply (nr_no_kids _ _ _ _ _ Hn)|apply (nr_parent _ _ _ _ _ Hn)].
  intros i x (y & Hy & ->)%list_alter_inv. apply slot_Some. split.
  - rewrite node_key_set_next by (apply (nr_wf _ _ _ _ _ Hn) || lia).
    case_decide as He; [subst i|]; by rewrite (nr_keys _ _ _ _ _ Hn _ _ Hy).
  - apply (nr_dims _ _ _ _ _ Hn). by eapply lookup_lt_Some.
Qed.

Lemma chain_rep_set_next order level its nd j z :
  chain_rep order level its nd → (j < length its)%nat →
  chain_rep order level (alter (set_next z) j its) (node_set_next_level j z nd).
Proof.
  intros Hc Hj. pose proof (cr_max _ _ _ _ Hc). split.
  - apply node_wf_set_next, (cr_wf _ _ _ _ Hc).
  - apply (cr_compressed _ _ _ _ Hc).
  - apply (cr_leaf _ _ _ _ Hc).
  - rewrite length_alter. apply (cr_cnt _ _ _ _ Hc).
  - by rewrite length_alter.
  - intros i x (y & Hy & ->)%list_alter_inv.
    rewrite node_key_set_next by (apply (cr_wf _ _ _ _ Hc) || lia).
    case_decide as He; [subst i|]; by rewrite (cr_keys _ _ _ _ Hc _ _ Hy).
  - rewrite length_alter. apply (cr_dims _ _ _ _ Hc).
  - apply (cr_parent _ _ _ _ Hc).
  - apply (cr_no_kids _ _ _ _ Hc).
Qed.

Lemma chain_trie_set_next its j z nl :
  chain_trie (alter (set_next z) j its) nl = chain_trie its nl.
Proof.
  revert j. induction its as [|x its IH]; intros j; [done|].
  destruct j as [|j]; cbn; [done|]. by rewrite IH.
Qed.

(** ** Chains, by index *)

Lemma g_rep_chain p H order level a c cs nl :
  g_rep p H order level (GChain a c cs nl) ↔
  (∃ nd, node_at p a = Some nd ∧ chain_rep order level (c :: cs) nd)
  ∧ cs ≠ [] ∧ Forall (λ x, low (key x) ≤ high (key x)) (c :: cs)
  ∧ (∀ i x, (c :: cs) !! i = Some x → (i < length cs)%nat → knext_level x = INVALID_INDEX)
  ∧ (∀ x, (c :: cs) !! length cs = Some x → next_rep p H order (level + length (c :: cs)) x nl).
Proof.
  cbn [g_rep]. do 3 f_equiv. f_equiv.
  - rewrite Forall_forall, removelast_firstn_len. cbn [length Nat.pred]. split.
    + intros Hf i x Hx Hi. apply Hf. apply (list_elem_of_lookup_2 _ i).
      by rewrite lookup_take_lt.
    + intros Hf x (i & Hi)%list_elem_of_lookup. apply lookup_take_Some in Hi as [Hx Hi]. eauto.
  - pose proof (last_cons_default c cs) as Hl. rewrite last_lookup in Hl. cbn [length Nat.pred] in Hl.
    unfold next_rep. split; [|by intros Hf; apply Hf].
    intros Hn x Hx. rewrite Hx in Hl. by injection Hl as ->.
Qed.

Lemma g_rep_chain_intro p H order level a nd its nl :
  node_at p a = Some nd → chain_rep order level its nd → (2 ≤ length its)%nat →
  Forall (λ x, low (key x) ≤ high (key x)) its →
  (∀ i x, its !! i = Some x → (S i < length its)%nat → knext_level x = INVALID_INDEX) →
  (∀ x, its !! (length its - 1)%nat = Some x → next_rep p H order (level + length its) x nl) →
  ∀ c cs, its = c :: cs → g_rep p H order level (GChain a c cs nl).
Proof.
  intros Ha Hc Hl Hv Hi Hn c cs ->. cbn [length] in *. rewrite Nat.sub_succ, Nat.sub_0_r in Hn.
  apply g_rep_chain. split_and!; [by exists nd|by intros ->; cbn in Hl; lia|done| |done].
  intros i x Hx Hlt. apply (Hi i); [done|lia].
Qed.

Lemma length_cons_inv {A} (l : list A) : (2 ≤ length l)%nat → ∃ x l', l = x :: l'.
Proof. destruct l as [|x l]; cbn; [lia|]. eauto. Qed.

(** ** The keys of the rest of a rule *)

Fixpoint new_trie seg (v : V) : option (trie V) :=
  match seg with
  | [] => None
  | k :: seg' =>
      Some (Entries [(k, match seg' with [] => v | _ => rv_default end, new_trie seg' v)])
  end.

Definition seg_value seg (v : V) (j : nat) : V :=
  if (S j =? length seg)%nat then v else rv_default.

Definition seg_items (n : nat) seg (v : V) : list (KeyInfo V) :=
  imap (λ j k, mkKeyInfo k (seg_value seg v j) INVALID_INDEX) (take n seg).

Lemma lookup_seg_items n seg v j :
  seg_items n seg v !! j =
    k ← take n seg !! j; Some (mkKeyInfo k (seg_value seg v j) INVALID_INDEX).
Proof. unfold seg_items. rewrite list_lookup_imap. by destruct (take n seg !! j). Qed.

Lemma length_seg_items n seg v : length (seg_items n seg v) = Nat.min n (length seg).
Proof. unfold seg_items. by rewrite length_imap, length_take. Qed.

Lemma seg_items_cons n k seg v :
  seg_items (S n) (k :: seg) v
  = mkKeyInfo k (seg_value (k :: seg) v 0) INVALID_INDEX :: seg_items n seg v.
Proof. reflexivity. Qed.

Lemma chain_seg_items n seg v :
  chain_trie (seg_items n seg v) (new_trie (drop n seg) v) = new_trie seg v.
Proof.
  revert seg. induction n as [|n IH]; intros seg; [by rewrite drop_0|].
  destruct seg as [|k seg]; [done|]. rewrite seg_items_cons. cbn [chain_trie drop key kvalue].
  rewrite IH. cbn [new_trie]. by destruct seg.
Qed.

(** ** The rule being inserted *)

(** [ks] are the ranges of the rule in the order of the dimensions. *)
Record rule_path (order : list nat) (rule_ : rule_spec_t V) (ks : list Range1d) (req : nat)
    : Prop := {
  rp_keys : Forall2 (λ d k, fields rule_ !! d = Some k) order ks;
  rp_valid : Forall (λ k, low k ≤ high k) ks;
  rp_req : (req ≤ length ks)%nat;
  rp_dims : (req ≤ D)%nat;
}.

Section rule.
Context (order : list nat) (rule_ : rule_spec_t V) (ks : list Range1d) (req : nat).
Hypothesis Hrp : rule_path order rule_ ks req.

Definition cookie_at (l : nat) : InsertCookie V := mkCookie order l req rule_.

Lemma add_level_cookie n l : add_level n (cookie_at l) = cookie_at (l + n).
Proof. done. Qed.

Lemma rp_lookup l k :
  ks !! l = Some k → ∃ d, order !! l = Some d ∧ fields rule_ !! d = Some k.
Proof. intros Hk. destruct (Forall2_lookup_r _ _ _ _ _ (rp_keys _ _ _ _ Hrp) Hk); eauto. Qed.

Lemma rp_length : length order = length ks.
Proof. eapply Forall2_length, (rp_keys _ _ _ _ Hrp). Qed.

Lemma rp_key l : (l < req)%nat → ∃ k, ks !! l = Some k ∧ low k ≤ high k.
Proof.
  intros Hl. pose proof (rp_req _ _ _ _ Hrp).
  destruct (lookup_lt_is_Some_2 ks l) as [k Hk]; [lia|]. exists k. split; [done|].
  pose proof (rp_valid _ _ _ _ Hrp) as Hv. rewrite Forall_forall in Hv.
  by eapply Hv, list_elem_of_lookup_2.
Qed.

Lemma actual_key_ok l k p : ks !! l = Some k → get_actual_key (cookie_at l) p = (Ok k, p).
Proof.
  intros (d & Hd & Hf)%rp_lookup. unfold get_actual_key, at_. cbn [cookie_at dimension_order level rule].
  rewrite Hd, bind_ret. by rewrite Hf.
Qed.

(** The rest of the rule from a level on. *)
Definition rest (l : nat) : list Range1d := take (req - l) (drop l ks).

Lemma length_rest l : length (rest l) = (req - l)%nat.
Proof.
  unfold rest. rewrite length_take, length_drop. pose proof (rp_req _ _ _ _ Hrp). lia.
Qed.

Lemma lookup_rest l j : (l + j < req)%nat → rest l !! j = ks !! (l + j)%nat.
Proof.
  intros Hj. unfold rest. rewrite lookup_take_lt by lia. by rewrite lookup_drop.
Qed.

Lemma drop_rest l n : drop n (rest l) = rest (l + n).
Proof. unfold rest. rewrite skipn_firstn_comm, drop_drop. f_equal. lia. Qed.

(** ** The loop of [insert_compressed] *)

Lemma insert_compressed_loop_ok p root nd b n i :
  node_at p root = Some nd → node_wf nd → (i + n ≤ MAX_DEGREE)%nat → (i + n ≤ req - b)%nat →
  ∃ nd', insert_compressed_loop root (req - b) n i (cookie_at (b + i)) p
         = (Ok (cookie_at (b + i + (n - 1))), put root nd' p)
    ∧ same_shape nd nd'
    ∧ (∀ j, (i ≤ j < i + n)%nat → ∃ k d, rest b !! j = Some k ∧ order !! (b + j)%nat = Some d
         ∧ slot nd' j = Some (mkKeyInfo k (seg_value (rest b) (rvalue rule_) j) INVALID_INDEX, d))
    ∧ (∀ j, (j < i)%nat → slot nd' j = slot nd j).
Proof.
  revert p nd i. induction n as [|n IH]; intros p nd i Hr Hw Hmax Hreq.
  { exists nd. rewrite put_id by done. cbn. rewrite Nat.add_0_r.
    split_and!; [done|apply same_shape_refl|lia|done]. }
  destruct (rp_key (b + i)) as (k & Hk & _); [lia|]. destruct (rp_lookup _ _ Hk) as (d & Hd & _).
  cbn [insert_compressed_loop]. run_ok by (by apply actual_key_ok).
  run_ok by (by apply set_key_ok; [..|lia]).
  unfold at_. cbn [cookie_at dimension_order level rule]. rewrite Hd, bind_ret.
  pose proof cfg_dims.
  pose proof (node_wf_set_key nd i (mkKeyInfo k (seg_value (rest b) (rvalue rule_) i) INVALID_INDEX) Hw)
    as Hw'.
  replace (if (i =? req - b - 1)%nat then rvalue rule_ else rv_default)
    with (seg_value (rest b) (rvalue rule_) i).
  2: { unfold seg_value. rewrite length_rest.
       destruct (Nat.eqb_spec (S i) (req - b)), (Nat.eqb_spec i (req - b - 1)); done || lia. }
  run_ok by (apply set_dim_ok; [apply node_at_put_eq|exact Hw'|lia]). rewrite put_put.
  set (nd1 := node_set_dim i d _).
  assert (same_shape nd nd1) as Hsh1 by apply (set_slot_shape i (_, d) nd).
  assert (∀ j, slot nd1 j = if decide (j = i)
      then Some (mkKeyInfo k (seg_value (rest b) (rvalue rule_) i) INVALID_INDEX, d)
      else slot nd j) as Hs1.
  { intros j. apply (slot_set_slot nd i (mkKeyInfo k (seg_value (rest b) (rvalue rule_) i) INVALID_INDEX, d)); [done|lia]. }
  destruct n as [|n].
  - exists nd1. replace (b + i + (1 - 1))%nat with (b + i)%nat by lia.
    split_and!; [done|done| |].
    + intros j Hj. replace j with i by lia. exists k, d. rewrite Hs1, decide_True by done.
      rewrite lookup_rest by lia. done.
    + intros j Hj. rewrite Hs1. by rewrite decide_False by lia.
  - change (S n =? 0)%nat with false. cbn iota.
    destruct (IH (put root nd1 p) nd1 (S i)) as (nd2 & Hrun & Hsh2 & Hin & Hout);
      [apply node_at_put_eq|by apply (ss_wf _ _ Hsh1)|lia|lia|].
    rewrite add_level_cookie. replace (b + i + 1)%nat with (b + S i)%nat by lia.
    exists nd2. rewrite Hrun, put_put. split_and!.
    + by replace (b + i + (S (S n) - 1))%nat with (b + S i + (S n - 1))%nat by lia.
    + by eapply same_shape_trans.
    + intros j Hj. destruct (decide (j = i)) as [->|]; [|apply Hin; lia].
      exists k, d. rewrite Hout, Hs1, decide_True, lookup_rest by lia. done.
    + intros j Hj. rewrite Hout, Hs1 by lia. by rewrite decide_False by lia.
Qed.

(** ** The nodes of the rest of a rule *)

Lemma chain_of_slots b n nd :
  node_wf nd → same_shape new_Node nd → (n ≤ MAX_DEGREE)%nat → (n ≤ req - b)%nat →
  (∀ j, (0 ≤ j < 0 + n)%nat → ∃ k d, rest b !! j = Some k ∧ order !! (b + j)%nat = Some d
     ∧ slot nd j = Some (mkKeyInfo k (seg_value (rest b) (rvalue rule_) j) INVALID_INDEX, d)) →
  chain_rep order b (seg_items n (rest b) (rvalue rule_))
    (node_set_is_compressed true (node_set_key_cnt n nd)).
Proof.
  intros Hw Hsh Hmax Hn Hslots. assert (length (seg_items n (rest b) (rvalue rule_)) = n) as Hl.
  { rewrite length_seg_items, length_rest. lia. }
  split; [apply node_wf_set_compressed, node_wf_set_cnt, Hw|done|apply (ss_leaf _ _ Hsh)
    |by rewrite Hl|by rewrite Hl| | |apply (ss_parent _ _ Hsh)|apply (ss_children _ _ Hsh)].
  - intros j x Hx. pose proof (lookup_lt_Some _ _ _ Hx).
    destruct (Hslots j) as (k & d & Hk & _ & [Hs _]%slot_Some); [lia|].
    rewrite lookup_seg_items, lookup_take_lt, Hk in Hx by lia. cbn in Hx. by simplify_eq.
  - intros j Hj. destruct (Hslots j) as (k & d & _ & Hd & [_ Hs]%slot_Some); [lia|]. by exists d.
Qed.

Lemma seg_items_valid n b : Forall (λ x, low (key x) ≤ high (key x)) (seg_items n (rest b) (rvalue rule_)).
Proof.
  apply Forall_forall. intros x (j & Hj)%list_elem_of_lookup. rewrite lookup_seg_items in Hj.
  apply bind_Some in Hj as (k & (Hk & _)%lookup_take_Some & [= <-]). cbn.
  pose proof (lookup_lt_Some _ _ _ Hk) as Hlt. rewrite length_rest in Hlt.
  rewrite lookup_rest in Hk by lia.
  pose proof (rp_valid _ _ _ _ Hrp) as Hv. rewrite Forall_forall in Hv.
  by eapply Hv, list_elem_of_lookup_2.
Qed.

(** One level left: a node with one key. *)
Lemma new_node_one p z fl b f :
  heap_ok p (z :: fl) → (2 ≤ length fl)%nat → S b = req →
  ∃ p' g, insert_to_root (S (S f)) None (cookie_at b) p = (Ok z, p') ∧ heap_ok p' fl
    ∧ (∀ H, (1 ≤ H)%nat → g_rep p' H order b g) ∧ g_addrs g = [z] ∧ g_addr g = z ∧ g_shaped g
    ∧ Some (abs g) = new_trie (rest b) (rvalue rule_) ∧ modifies p p' [] [z].
Proof using Hok Hrp.
  intros Hp Hfl Hb. destruct max_degree as [HM _]. pose proof cfg_dims as Hdims.
  destruct (rp_key b) as (k & Hk & Hv); [lia|]. destruct (rp_lookup _ _ Hk) as (d & Hd & _).
  destruct (alloc_ok _ _ _ Hp Hfl) as (p0 & Halloc & Hp0 & Hz & Hzd & Hmod).
  set (x := mkKeyInfo k (rvalue rule_) INVALID_INDEX). pose proof new_Node_wf as Hw.
  pose proof (ss_wf _ _ (set_slot_shape 0 (x, d) new_Node) Hw) as Hw1.
  assert (required_more_levels (cookie_at b) = false) as Hreq.
  { unfold required_more_levels. cbn. apply Nat.ltb_ge. lia. }
  exists (put z (node_set_key_cnt 1 (set_slot 0 (x, d) new_Node)) p0), (GLayer (BNode z [x] []) [None]).
  split_and!.
  - cbn [insert_to_root insert_in_to_new_node]. run_ok by (by apply actual_key_ok).
    run_ok by (exact Halloc). rewrite Hreq, andb_false_r, bind_ret. cbn [Nat.ltb Nat.leb].
    run_ok by (apply set_key_ok; [done|done|lia]). cbn [cookie_at dimension_order level rule].
    rewrite Hd. run_steps.
    run_ok by (apply set_dim_ok; [apply node_at_put_eq|exact (node_wf_set_key _ 0 x Hw)|lia]). rewrite put_put.
    change 1 with (Z.of_nat 1).
    run_ok by (apply set_key_cnt_ok; [apply node_at_put_eq|lia]). rewrite put_put.
    done.
  - eapply heap_ok_put; [done|]. done.
  - intros H HH. apply g_rep_layer. split_and!.
    + exists d. split; [done|]. apply rep_unfold. split; [|constructor].
      eexists. split; [apply node_at_put_eq|]. apply node_rep_intro; try done.
      * by apply node_wf_set_cnt.
      * change (1 ≤ MAX_DEGREE)%nat. lia.
      * intros [|i] y Hy; [|done]. cbn in Hy. simplify_eq.
        rewrite slot_set_cnt, slot_set_slot by (done || lia). done.
      * by left.
    + split; [by constructor|]. repeat constructor.
    + cbn. lia.
    + repeat constructor.
  - done.
  - done.
  - apply g_shaped_layer. split; [by apply leaf_shaped|by repeat constructor].
  - pose proof (length_rest b) as Hl. destruct (rest b) as [|k' [|]] eqn:E; cbn in Hl; try lia.
    assert (rest b !! 0%nat = Some k) as Hk' by (rewrite lookup_rest by lia; by rewrite Nat.add_0_r).
    rewrite E in Hk'. cbn in Hk'. simplify_eq. done.
  - eapply modifies_trans; [exact Hmod|]. by apply modifies_put_in, list_elem_of_singleton.
Qed.

(** A new subtree for the rest of the rule. *)
Definition new_subtree p p' (fl : list nat) (b : nat) (a : ptr) : Prop :=
  ∃ n g, (n ≤ req - b)%nat ∧ heap_ok p' (drop n fl)
    ∧ (∀ H, (1 ≤ H)%nat → g_rep p' H order b g) ∧ g_addr g = a ∧ NoDup (g_addrs g)
    ∧ g_shaped g ∧ Some (abs g) = new_trie (rest b) (rvalue rule_)
    ∧ modifies p p' [] (g_addrs g).

(** The first of several nodes, before its last key gets a next layer. *)
Lemma new_chain_node p z fl b n :
  heap_ok p (z :: fl) → (2 ≤ length fl)%nat → n = Nat.min MAX_DEGREE (req - b) → (2 ≤ n)%nat →
  ∃ p1 nd1 nd2, node_allocator_get p = (Ok z, p1) ∧ node_at p1 z = Some new_Node
    ∧ insert_compressed_loop z (req - b) n 0 (cookie_at b) p1 = (Ok (cookie_at (b + n - 1)), put z nd1 p1)
    ∧ nd2 = node_set_key_cnt n nd1
    ∧ chain_rep order b (seg_items n (rest b) (rvalue rule_)) (node_set_is_compressed true nd2)
    ∧ heap_ok (put z nd2 p1) fl ∧ modifies p (put z nd2 p1) [] [z] ∧ node_at p z = None.
Proof using Hok Hrp.
  intros Hp Hfl Hn Hn2.
  destruct (alloc_ok _ _ _ Hp Hfl) as (p1 & Halloc & Hp1 & Hz & Hzd & Hmod).
  destruct (insert_compressed_loop_ok p1 z new_Node b n 0) as (nd1 & Hrun & Hsh & Hslots & _);
    [done|apply new_Node_wf|lia|lia|].
  exists p1, nd1, (node_set_key_cnt n nd1). rewrite !Nat.add_0_r in Hrun.
  replace (b + (n - 1))%nat with (b + n - 1)%nat in Hrun by lia. split_and!; [done..| | | |done].
  - apply chain_of_slots; [apply (ss_wf _ _ Hsh), new_Node_wf|done|lia|lia|done].
  - by eapply heap_ok_put.
  - eapply modifies_trans; [exact Hmod|]. by apply modifies_put_in, list_elem_of_singleton.
Qed.

(** What is left of the insertion once the first of several nodes is filled. *)
Definition after_chain_node (z : ptr) (b n f : nat) : M (Heap V) ptr :=
  (if required_more_levels (cookie_at (b + n - 1)) then
     end_next_level ← get_next_layer z (n - 1);
     nl ← insert_to_root f end_next_level (add_level 1 (cookie_at (b + n - 1)));
     set_next_layer z (n - 1) (Some nl)
   else mret tt);; upd z (node_set_is_compressed true);; mret z.

Lemma insert_chain_run p p1 z nd1 b n f :
  PATH_COMPRESSION = true → n = Nat.min MAX_DEGREE (req - b) → (2 ≤ n)%nat →
  node_allocator_get p = (Ok z, p1) → node_at p1 z = Some new_Node →
  insert_compressed_loop z (req - b) n 0 (cookie_at b) p1
    = (Ok (cookie_at (b + n - 1)), put z nd1 p1) →
  insert_to_root (S (S (S f))) None (cookie_at b) p
  = after_chain_node z b n f (put z (node_set_key_cnt n nd1) p1).
Proof using Hok Hrp.
  intros HPC Hn Hn2 Halloc Hz Hloop. destruct (rp_key b) as (k & Hk & _); [lia|].
  assert (required_more_levels (cookie_at b) = true) as Hreq.
  { unfold required_more_levels. cbn. apply Nat.ltb_lt. lia. }
  rewrite insert_to_root_S, insert_in_to_new_node_S.
  run_ok by (by apply actual_key_ok). run_ok by (exact Halloc). rewrite HPC, Hreq. cbn [andb].
  unfold additional_level_required_cnt. cbn [cookie_at level requires_levels].
  rewrite bind_assoc, bind_assert by (apply Nat.ltb_lt; lia). rewrite bind_ret.
  rewrite (proj2 (Nat.ltb_lt 0 (req - b - 1))) by lia.
  replace (req - b - 1 + 1)%nat with (req - b)%nat by lia.
  rewrite insert_compressed_S, !bind_assoc, bind_assert
    by (apply Nat.leb_le; pose proof (rp_dims _ _ _ _ Hrp); lia).
  rewrite bind_assoc, (bind_load _ _ _ _ Hz). cbn [key_cnt new_Node Nat.add]. rewrite Nat.sub_0_r.
  rewrite <- Hn. run_ok by (exact Hloop).
  run_ok by (apply set_key_cnt_ok; [apply node_at_put_eq|lia]). rewrite put_put.
  rewrite (proj2 (Nat.ltb_lt 1 n)) by lia. unfold after_chain_node. by rewrite !bind_assoc.
Qed.

Lemma seg_items_no_next n b i x :
  seg_items n (rest b) (rvalue rule_) !! i = Some x → knext_level x = INVALID_INDEX.
Proof. rewrite lookup_seg_items. by intros (? & _ & [= <-])%bind_Some. Qed.

(** The rule ends in the node. *)
Lemma chain_node_last p p1 z fl b n nd2 f :
  heap_ok (put z nd2 p1) fl → modifies p (put z nd2 p1) [] [z] →
  chain_rep order b (seg_items n (rest b) (rvalue rule_)) (node_set_is_compressed true nd2) →
  (2 ≤ n)%nat → (n = req - b)%nat →
  ∃ p' a, after_chain_node z b n f (put z nd2 p1) = (Ok a, p') ∧ new_subtree p p' (z :: fl) b a.
Proof using Hok Hrp.
  intros Hp2 Hmod2 Hch Hn2 Hn. pose proof (rp_req _ _ _ _ Hrp) as Hreq.
  assert (length (seg_items n (rest b) (rvalue rule_)) = n) as Hlen.
  { rewrite length_seg_items, length_rest. lia. }
  pose proof (seg_items_valid n b) as Hvalid. pose proof (seg_items_no_next n b) as Hnone.
  pose proof (chain_seg_items n (rest b) (rvalue rule_)) as Habs.
  set (its := seg_items n (rest b) (rvalue rule_)) in *.
  unfold after_chain_node, required_more_levels. cbn [cookie_at level requires_levels].
  rewrite (proj2 (Nat.ltb_ge _ _)) by lia. rewrite bind_ret.
  run_ok by (apply upd_ok, node_at_put_eq). eexists _, z. split; [done|].
  destruct (length_cons_inv its) as (c & cs & Hits); [lia|].
  exists 1%nat, (GChain z c cs None). split_and!.
  - lia.
  - eapply heap_ok_put; [done|apply node_at_put_eq].
  - intros H HH. eapply g_rep_chain_intro; [apply node_at_put_eq|exact Hch|lia|done
      |by intros; eapply Hnone|by intros; eapply Hnone|done].
  - done.
  - apply NoDup_singleton.
  - done.
  - rewrite abs_chain, <- Hits, <- Habs. rewrite drop_ge by (rewrite length_rest; lia). done.
  - eapply modifies_trans; [exact Hmod2|]. by apply modifies_put_in, list_elem_of_singleton.
Qed.

(** The rule goes on in a subtree behind the last key of the node. *)
Lemma chain_node_next p p1 z fl b n nd2 f :
  heap_ok (put z nd2 p1) fl → modifies p (put z nd2 p1) [] [z] →
  chain_rep order b (seg_items n (rest b) (rvalue rule_)) (node_set_is_compressed true nd2) →
  (2 ≤ n ≤ MAX_DEGREE)%nat → (n < req - b)%nat →
  (∃ p' a, insert_to_root f None (cookie_at (b + n)) (put z nd2 p1) = (Ok a, p')
     ∧ new_subtree (put z nd2 p1) p' fl (b + n) a) →
  ∃ p' a, after_chain_node z b n f (put z nd2 p1) = (Ok a, p') ∧ new_subtree p p' (z :: fl) b a.
Proof using Hok Hrp.
  intros Hp2 Hmod2 Hch [Hn2 HnM] Hn
    (p3 & a3 & Hrun3 & m & g3 & Hm & Hp3 & Hg3 & Ha3 & Hnd3 & Hne3 & Habs3 & Hmod3).
  pose proof (rp_req _ _ _ _ Hrp) as Hreq.
  assert (length (seg_items n (rest b) (rvalue rule_)) = n) as Hlen.
  { rewrite length_seg_items, length_rest. lia. }
  pose proof (seg_items_valid n b) as Hvalid. pose proof (seg_items_no_next n b) as Hnone.
  pose proof (chain_seg_items n (rest b) (rvalue rule_)) as Habs.
  set (its := seg_items n (rest b) (rvalue rule_)) in *.
  unfold after_chain_node, required_more_levels. cbn [cookie_at level requires_levels].
  rewrite (proj2 (Nat.ltb_lt _ _)) by lia.
  destruct (lookup_lt_is_Some_2 its (n - 1)) as [x Hx]; [lia|].
  pose proof (cr_keys _ _ _ _ Hch _ _ Hx) as (_ & _ & Hnl)%node_key_inv. rewrite (Hnone _ _ Hx) in Hnl.
  rewrite !bind_assoc. run_ok by (apply (next_layer_none _ _ nd2); [apply node_at_put_eq|done]).
  change (mkCookie order (b + n - 1) req rule_) with (cookie_at (b + n - 1)).
  rewrite add_level_cookie. replace (b + n - 1 + 1)%nat with (b + n)%nat by lia.
  run_ok by (exact Hrun3).
  assert (node_at p3 z = Some nd2) as Hz3.
  { eapply mod_frame; [exact Hmod3|apply not_elem_of_nil|apply node_at_put_eq]. }
  destruct (g_rep_live _ _ _ _ _ (Hg3 1%nat ltac:(lia))) as [gd Hgd]. rewrite Ha3 in Hgd.
  assert (node_wf nd2) as Hw by (by destruct (cr_wf _ _ _ _ Hch)).
  run_ok by (eapply set_next_layer_ok; [done|exact Hz3|exact Hw|lia|exact Hgd]).
  run_ok by (apply upd_ok, node_at_put_eq). rewrite put_put. set (p4 := put z _ p3).
  exists p4, z. split; [done|].
  destruct (length_cons_inv (alter (set_next (to_index a3)) (n - 1)%nat its)) as (c & cs & Hits);
    [rewrite length_alter; lia|].
  assert (z ∉ g_addrs g3) as Hzg.
  { intros [Hin|Hd]%(mod_fresh _ _ _ _ Hmod3); [by apply not_elem_of_nil in Hin|].
    by rewrite node_at_put_eq in Hd. }
  exists (S m), (GChain z c cs (Some g3)). split_and!; [lia|by eapply heap_ok_put| |done
    |cbn; by apply NoDup_cons|done| |].
  - intros H HH. eapply g_rep_chain_intro; [apply node_at_put_eq| | | | | |done].
    + apply (chain_rep_set_next _ _ _ _ (n - 1) (to_index a3)) in Hch; [exact Hch|lia].
    + rewrite length_alter. lia.
    + apply Forall_forall. intros y (j & (y' & Hy & ->)%list_alter_inv)%list_elem_of_lookup.
      rewrite Forall_forall in Hvalid. apply list_elem_of_lookup_2, Hvalid in Hy. by case_decide.
    + intros j y (y' & Hy & ->)%list_alter_inv. rewrite length_alter. intros.
      rewrite decide_False by lia. by eapply Hnone.
    + intros y. rewrite length_alter, Hlen. intros (y' & Hy & ->)%list_alter_inv.
      rewrite decide_True by done. cbn. rewrite Ha3. split; [done|].
      eapply g_rep_modifies; [by apply Hg3|apply modifies_put| |done].
      by intros b' Hb' ->%list_elem_of_singleton.
  - rewrite abs_chain, <- Hits, chain_trie_set_next. cbn [fmap option_fmap option_map].
    by rewrite Habs3, <- drop_rest.
  - eapply modifies_trans; [exact Hmod2|]. apply (modifies_trans _ p3 _ _ (g_addrs g3 ++ [z])).
    + by apply (modifies_app _ _ [] _ [z]).
    + eapply modifies_mono; [apply modifies_put|set_solver|cbn; set_solver].
Qed.

Lemma new_node_ok p fl b fuel :
  PATH_COMPRESSION = true → (b < req)%nat → heap_ok p fl → (req - b + 2 ≤ length fl)%nat →
  (3 * (req - b) ≤ fuel)%nat →
  ∃ p' a, insert_to_root fuel None (cookie_at b) p = (Ok a, p') ∧ new_subtree p p' fl b a.
Proof using Hok Hrp.
  intros HPC. remember (req - b)%nat as K eqn:HK. revert p fl b fuel HK.
  induction (lt_wf K) as [K _ IH]. intros p fl b fuel HK Hb Hp Hfl Hfuel.
  destruct fl as [|z fl]; [cbn in Hfl; lia|]. cbn [length] in Hfl.
  destruct fuel as [|[|[|f]]]; [lia..|]. destruct (decide (K = 1%nat)) as [HK1|HK1].
  { destruct (new_node_one p z fl b (S f)) as (p' & g & Hrun & Hp' & Hg & Ha & Haz & Hne & Habs & Hmod);
      [done|lia|lia|]. exists p', z. split; [done|]. exists 1%nat, g.
    rewrite Ha. split_and!; try done; [lia|apply NoDup_singleton]. }
  destruct max_degree as [HM Hm1]. set (n := Nat.min MAX_DEGREE K).
  destruct (new_chain_node p z fl b n) as
    (p1 & nd1 & nd2 & Halloc & Hz1 & Hloop & Hnd2 & Hch & Hp2 & Hmod2 & Hzd);
    [done|lia|subst; done|subst n; lia|].
  rewrite (insert_chain_run p p1 z nd1 b n f) by (done || (subst n; lia)). rewrite <- Hnd2.
  destruct (decide (n < K)%nat) as [Hmore|Hlast].
  - apply chain_node_next; [done..|subst n; lia|lia|].
    apply (IH (K - n)%nat); [lia|lia|lia|done|lia|lia].
  - apply chain_node_last; [done..|subst n; lia|subst n; lia].
Qed.
End rule.
End Chain.
