(* ===== verification/InsertLayer.v ===== *)
(** * Insertion into one layer

    [insert_non_full] on a represented layer: a new key that is disjoint from
    the keys of the layer is added between its neighbours, with the rest of
    the rule in a new subtree behind it; full children met on the way are
    split. *)
From S2P Require Import Prelude Range RuleValue Mempool Node NodeLemmas Search Layer LayerSearch Trie Footprint Slots Insert Split Chain.
Local Open Scope Z_scope.

Section InsertLayer.
Context `{cfg : !BTreeCfg, Hok : !CfgOk} {V : Type} `{!RuleValue V}.
Implicit Types (p : Heap V) (nd : Node V) (t : btree V) (its : list (KeyInfo V)) (x y : KeyInfo V)
  (k : Range1d).

(** ** Positions of a new key *)

Definition below k x : Prop := high (key x) < low k.
Definition above k x : Prop := high k < low (key x).
Definition apart k x : Prop := below k x ∨ above k x.

Lemma below_spec k x : low (key x) ≤ high (key x) → low k ≤ high k → apart k x → past (by_range k) (key x) ↔ below k x.
Proof.
  unfold apart, below, above. cbn. intros Hx Hk Ha. split; [lia|].
  intros Hb. split; [lia|]. intros He. rewrite He in Hb. lia.
Qed.

Lemma above_spec k x : low (key x) ≤ high (key x) → low k ≤ high k → apart k x → ahead (by_range k) (key x) ↔ above k x.
Proof. unfold apart, below, above. cbn. lia. Qed.

Lemma not_gt_past k x :
  low (key x) ≤ high (key x) → low k ≤ high k → apart k x →
  key_gt_range x k = false → past (by_range k) (key x).
Proof.
  intros Hx Hk Ha. unfold key_gt_range, range_gt. rewrite Z.gtb_ltb, Z.ltb_ge. intros Hg.
  apply below_spec; [done..|]. unfold apart, below, above in *. lia.
Qed.

Lemma gt_ahead k x : key_gt_range x k = true → ahead (by_range k) (key x).
Proof. unfold key_gt_range, range_gt. rewrite Z.gtb_ltb, Z.ltb_lt. done. Qed.

(** The place where the scans from the right stop. *)
Definition scan_at its k (i : nat) : Prop :=
  (i ≤ length its)%nat
  ∧ (∀ y, its !! (i - 1)%nat = Some y → (0 < i)%nat → past (by_range k) (key y))
  ∧ (∀ y, its !! i = Some y → ahead (by_range k) (key y)).

Lemma find_child_index_ok p a nd its k n :
  node_at p a = Some nd → low k ≤ high k →
  (∀ i y, its !! i = Some y → node_key nd i = Some y) → (n ≤ length its)%nat →
  (length its ≤ MAX_DEGREE)%nat →
  Forall (λ y, low (key y) ≤ high (key y)) its → Forall (apart k) its →
  (∀ y, its !! n = Some y → ahead (by_range k) (key y)) →
  ∃ i, find_child_index a k n p = (Ok i, p) ∧ scan_at its k i.
Proof.
  intros Ha Hk Hkeys Hn Hmax Hv Hap. rewrite Forall_forall in Hv, Hap.
  induction n as [|n IH]; intros Hahead.
  { exists 0%nat. split; [done|]. split_and!; [lia|lia|done]. }
  destruct (lookup_lt_is_Some_2 its n) as [y Hy]; [lia|].
  pose proof (list_elem_of_lookup_2 _ _ _ Hy) as Hin.
  cbn [find_child_index]. run_ok by (eapply get_key_ok; [done|by apply Hkeys|lia]).
  destruct (key_gt_range y k) eqn:Hg.
  - apply IH; [lia|]. intros z Hz. simplify_eq. by apply gt_ahead.
  - exists (S n). split; [done|]. split_and!; [lia| |done].
    intros z. cbn. rewrite Nat.sub_0_r. intros Hz _. simplify_eq.
    apply not_gt_past; auto.
Qed.

(** The scan that makes room for the key. *)
Lemma shift_greater_keys_ok p a nd its d k n :
  node_at p a = Some nd → node_wf nd → low k ≤ high k → (n < MAX_DEGREE)%nat →
  (∀ i y, its !! i = Some y → (i < n)%nat → slot nd i = Some (y, d)) → (n ≤ length its)%nat →
  Forall (λ y, low (key y) ≤ high (key y)) its → Forall (apart k) its →
  (∀ y, its !! n = Some y → ahead (by_range k) (key y)) →
  ∃ i nd', shift_greater_keys a k n p = (Ok i, put a nd' p) ∧ scan_at its k i ∧ (i ≤ n)%nat
    ∧ same_shape nd nd'
    ∧ (∀ j, (i ≤ j < n)%nat → slot nd' (S j) = slot nd j)
    ∧ (∀ j, (j < i ∨ n < j)%nat → slot nd' j = slot nd j).
Proof.
  intros Ha Hw Hk Hn Hslots Hl Hv Hap. rewrite Forall_forall in Hv, Hap.
  revert p nd Ha Hw Hslots. induction n as [|n IH]; intros p nd Ha Hw Hslots Hahead.
  { exists 0%nat, nd. rewrite put_id by done.
    split_and!; [done|split_and!; [lia|lia|done]|lia|apply same_shape_refl|lia|done]. }
  destruct (lookup_lt_is_Some_2 its n) as [y Hy]; [lia|].
  pose proof (list_elem_of_lookup_2 _ _ _ Hy) as Hin.
  pose proof (Hslots n y Hy ltac:(lia)) as Hs. pose proof Hs as [Hky _]%slot_Some.
  cbn [shift_greater_keys]. run_ok by (eapply get_key_ok; [done|done|lia]).
  destruct (key_gt_range y k) eqn:Hg.
  - run_ok by (eapply (move_slot_ok p a nd n a nd); [done|exact Hs|lia|done|done|lia|right; lia]).
    pose proof (set_slot_shape (n + 1) (y, d) nd) as Hsh.
    destruct (IH ltac:(lia) ltac:(lia) (put a (set_slot (n + 1) (y, d) nd) p) (set_slot (n + 1) (y, d) nd))
      as (i & nd' & Hrun & Hsc & Hi & Hsh' & Hin' & Hout); [apply node_at_put_eq|by apply (ss_wf _ _ Hsh)| | |].
    { intros j z Hz Hj. rewrite slot_set_slot by (done || lia). rewrite decide_False by lia.
      apply Hslots; [done|lia]. }
    { intros z Hz. simplify_eq. by apply gt_ahead. }
    exists i, nd'. rewrite Hrun, put_put. split_and!; [done|done|lia| | |].
    + by eapply same_shape_trans.
    + intros j Hj. destruct (decide (j = n)) as [->|].
      * rewrite Hout, slot_set_slot, decide_True by (done || lia). done.
      * rewrite Hin', slot_set_slot by (done || lia). by rewrite decide_False by lia.
    + intros j Hj. rewrite Hout by lia. rewrite slot_set_slot by (done || lia).
      by rewrite decide_False by lia.
  - exists (S n), nd. rewrite put_id by done.
    split_and!; [done|split_and!; [lia| |done]|lia|apply same_shape_refl|lia|done].
    intros z. cbn. rewrite Nat.sub_0_r. intros Hz _. simplify_eq. apply not_gt_past; auto.
Qed.

(** ** A subtree replaced *)

Lemma height_le a its (ks : list (btree V)) n :
  (height (BNode a its ks) ≤ S n)%nat ↔ Forall (λ c, height c ≤ n)%nat ks.
Proof.
  cbn [height]. rewrite <- Nat.succ_le_mono. induction ks as [|c ks IH]; cbn.
  - split; [constructor|lia].
  - rewrite Forall_cons, <- IH. lia.
Qed.

Lemma insert_kid_height a its (ks : list (btree V)) i c c' :
  ks !! i = Some c → (height c' ≤ height c)%nat →
  (height (BNode a its (<[i := c']> ks)) ≤ height (BNode a its ks))%nat.
Proof.
  intros Hi Hh. pose proof (height_le a its ks (foldr Nat.max 0%nat (height <$> ks))) as Hks.
  change (height (BNode a its ks)) with (S (foldr Nat.max 0%nat (height <$> ks))) in *.
  apply height_le. pose proof (proj1 Hks ltac:(lia)) as HF.
  apply Forall_insert; [done|]. rewrite Forall_forall in HF.
  specialize (HF c (list_elem_of_lookup_2 _ _ _ Hi)). cbn in HF. lia.
Qed.

Lemma insert_kid_flat a its (ks : list (btree V)) i c c' :
  length ks = S (length its) → ks !! i = Some c →
  let pre := weave_pre its (flat <$> ks) i in
  let post := weave_post its (flat <$> ks) i in
  flat (BNode a its ks) = pre ++ flat c ++ post
  ∧ flat (BNode a its (<[i := c']> ks)) = pre ++ flat c' ++ post.
Proof.
  intros Hl Hi pre post. pose proof (lookup_lt_Some _ _ _ Hi). cbn [flat]. split.
  - apply weave_split; [by rewrite length_fmap|]. by rewrite list_lookup_fmap, Hi.
  - rewrite list_fmap_insert. rewrite (weave_split _ _ i (flat c')).
    + unfold pre, post, weave_pre, weave_post. by rewrite take_insert_ge, drop_insert_lt by lia.
    + by rewrite length_insert, length_fmap.
    + apply list_lookup_insert_eq. by rewrite length_fmap.
Qed.

(** The memory of a layer one subtree of which has changed. *)
Lemma rep_insert_kid p p' d par a its (ks : list (btree V)) i c c' F :
  rep p d par (BNode a its ks) → NoDup (addrs (BNode a its ks)) → ks !! i = Some c →
  modifies p p' (addrs c) F → rep p' d (Some a) c' → addr c' = addr c →
  rep p' d par (BNode a its (<[i := c']> ks)).
Proof.
  rewrite !rep_unfold. intros [(nd & Ha & Hn) Hks] Hnd Hi Hmod Hc' Haddr.
  destruct (addrs_disjoint _ _ _ Hnd) as (Hk' & Hij & _).
  destruct (Hk' c (list_elem_of_lookup_2 _ _ _ Hi)) as [Hac _]. split.
  - exists nd. split; [by eapply mod_frame|]. rewrite list_fmap_insert.
    rewrite list_insert_id; [done|]. by rewrite list_lookup_fmap, Hi, Haddr.
  - apply Forall_lookup. intros j t Hj. destruct (decide (j = i)) as [->|Hne].
    + rewrite list_lookup_insert_eq in Hj by (by eapply lookup_lt_Some). by simplify_eq.
    + rewrite list_lookup_insert_ne in Hj by done. rewrite Forall_lookup in Hks.
      eapply rep_modifies; [by eapply Hks|done|]. intros b' Hb' Hbc. apply Hne. by eapply Hij.
Qed.

(** ** The result of an insertion *)

Section rule.
Context (order : list nat) (rule_ : rule_spec_t V) (ks : list Range1d) (req : nat).
Hypothesis Hrp : rule_path order rule_ ks req.
Hypothesis HPC : PATH_COMPRESSION = true.
Context (b : nat) (k : Range1d) (d : nat).
Hypothesis Hb : (b < req)%nat.
Hypothesis Hk : ks !! b = Some k.
Hypothesis Hd : order !! b = Some d.

Local Notation ck := (cookie_at order rule_ req).

(** The value of the new key: the rule's if it ends here. *)
Definition new_value : V := if required_more_levels (ck b) then rv_default else rvalue rule_.

(** The layer [t] with the key [k] added; at most [N] nodes were taken from
    the free list [fl]. *)
Definition inserted p p' (fl : list nat) (N : nat) (par : option ptr) t : Prop :=
  ∃ n t' x o l1 l2,
    ((n ≤ N)%nat ∧ heap_ok p' (drop n fl)
     ∧ rep p' d par t' ∧ addr t' = addr t ∧ t_nonempty t' ∧ (height t' ≤ height t)%nat ∧ grows t t')
    ∧ (flat t = l1 ++ l2 ∧ flat t' = l1 ++ x :: l2 ∧ Forall (below k) l1 ∧ Forall (above k) l2)
    ∧ (key x = k ∧ kvalue x = new_value ∧ (∀ H, (1 ≤ H)%nat → next_rep p' H order (S b) x o)
       ∧ o_shaped o ∧ abs <$> o = new_trie (rest ks req (S b)) (rvalue rule_))
    ∧ NoDup (addrs t' ++ o_addrs o) ∧ modifies p p' (addrs t) (addrs t' ++ o_addrs o).

Lemma key_valid : low k ≤ high k.
Proof using Hrp Hb Hk.
  destruct (rp_key _ _ _ _ Hrp b Hb) as (k' & Hk' & Hv). by simplify_eq.
Qed.

(** ** A leaf *)

Lemma scan_leaf_split its i :
  sorted_keys its → Forall (apart k) its → scan_at its k i →
  Forall (below k) (take i its) ∧ Forall (above k) (drop i its).
Proof using Hrp Hb Hk.
  intros Hs Hap (Hi & Hpast & Hahead). pose proof key_valid as Hkv.
  pose proof (proj1 Hs) as Hv. rewrite !Forall_forall in *.
  rewrite <- (take_drop i its) in Hs. apply sorted_app in Hs as (Hs1 & Hs2 & _). split; intros x Hx.
  - pose proof (elem_of_take_in _ _ _ Hx). apply below_spec; [auto..|].
    destruct i as [|j]; [by apply not_elem_of_nil in Hx|].
    destruct (lookup_lt_is_Some_2 its j) as [y Hy]; [lia|].
    rewrite (take_S_r _ _ _ Hy) in Hx, Hs1. eapply sorted_past; [exact Hs1| |exact Hx].
    apply Hpast; [|lia]. cbn. by rewrite Nat.sub_0_r.
  - pose proof (elem_of_drop_in _ _ _ Hx). apply above_spec; [auto..|].
    destruct (its !! i) as [y|] eqn:Hy.
    + rewrite (drop_S _ _ _ Hy) in Hx, Hs2. eapply sorted_ahead; [exact Hs2| |exact Hx]. by apply Hahead.
    + apply lookup_ge_None in Hy. rewrite drop_ge in Hx by done. by apply not_elem_of_nil in Hx.
Qed.

Lemma leaf_node par its nd nd' i x :
  node_rep d par its [] nd → same_shape nd nd' → (length its < MAX_DEGREE)%nat →
  (i ≤ length its)%nat →
  (∀ j, (i ≤ j < length its)%nat → slot nd' (S j) = slot nd j) →
  (∀ j, (j < i ∨ length its < j)%nat → slot nd' j = slot nd j) →
  node_rep d par (split_its its i x) []
    (node_set_key_cnt (S (length its)) (set_slot i (x, d) nd')).
Proof using Hok.
  clear Hb. intros Hn Hsh Hl Hi Hin Hout. pose proof (ss_wf _ _ Hsh (nr_wf _ _ _ _ _ Hn)) as Hw.
  apply node_rep_intro.
  - apply node_wf_set_cnt, (ss_wf _ _ (set_slot_shape _ _ _)), Hw.
  - cbn. rewrite (ss_compressed _ _ Hsh). apply (nr_compressed _ _ _ _ _ Hn).
  - by rewrite length_split_its.
  - rewrite length_split_its by done. lia.
  - intros j y Hj. rewrite slot_set_cnt, slot_set_slot by (done || lia).
    rewrite lookup_split_its in Hj by done.
    destruct (Nat.ltb_spec j i); [rewrite decide_False by lia|case_decide; [by simplify_eq|]].
    + rewrite Hout by lia. by eapply nr_slot.
    + pose proof (lookup_lt_Some _ _ _ Hj). replace j with (S (j - 1)) by lia.
      rewrite Hin by lia. by eapply nr_slot.
  - cbn. rewrite (ss_leaf _ _ Hsh). apply (nr_leaf _ _ _ _ _ Hn).
  - by left.
  - done.
  - intros _. cbn. rewrite (ss_children _ _ Hsh). by apply (nr_no_kids _ _ _ _ _ Hn).
  - cbn. rewrite (ss_parent _ _ Hsh). apply (nr_parent _ _ _ _ _ Hn).
Qed.

Lemma split_its_alter its i x z :
  (i ≤ length its)%nat → alter (set_next z) i (split_its its i x) = split_its its i (set_next z x).
Proof.
  intros Hi. apply list_eq. intros j. destruct (decide (j = i)) as [->|Hne].
  - by rewrite list_lookup_alter_eq, !lookup_split_its, Nat.ltb_irrefl, !decide_True by done.
  - by rewrite list_lookup_alter_ne, !lookup_split_its, !(decide_False (P := j = i)) by done.
Qed.

(** A leaf with the new key is what is promised, once its next layer is. *)
Lemma leaf_inserted p p' fl n par a its i x o nd :
  (n ≤ req - S b)%nat → heap_ok p' (drop n fl) → (i ≤ length its)%nat →
  node_at p' a = Some nd → node_rep d par (split_its its i x) [] nd →
  Forall (below k) (take i its) → Forall (above k) (drop i its) →
  key x = k → kvalue x = new_value → (∀ H, (1 ≤ H)%nat → next_rep p' H order (S b) x o) →
  o_shaped o → abs <$> o = new_trie (rest ks req (S b)) (rvalue rule_) →
  a ∉ o_addrs o → NoDup (o_addrs o) → modifies p p' [a] (a :: o_addrs o) →
  inserted p p' fl (req - S b) par (BNode a its []).
Proof.
  intros Hn Hp' Hi Ha Hnd Hbelow Habove Hx Hxv Hnext Hne Habs Hni Hndo Hmod.
  exists n, (BNode a (split_its its i x) []), x, o, (take i its), (drop i its). split_and!; try done.
  - apply rep_unfold. split; [by exists nd|constructor].
  - apply t_nonempty_unfold. split; [|constructor].
    intros He%(f_equal length). by rewrite length_split_its in He.
  - intros [|h]; [|done]. intros _. split; [done|]. cbn [items]. rewrite length_split_its by done. lia.
  - cbn. by rewrite take_drop.
  - cbn. by apply NoDup_cons.
Qed.

Lemma insert_leaf_ok p fl par a its fuel :
  heap_ok p fl → (req - S b + 2 ≤ length fl)%nat → rep p d par (BNode a its []) →
  (length its < MAX_DEGREE)%nat → sorted_keys its → Forall (apart k) its →
  (3 * (req - S b) ≤ fuel)%nat →
  ∃ p', insert_non_full (S fuel) a (ck b) p = (Ok tt, p')
    ∧ inserted p p' fl (req - S b) par (BNode a its []).
Proof using Hok HPC Hrp Hb Hk Hd.
  intros Hp Hfl [(nd & Ha & Hn) _]%rep_unfold Hl Hs Hap Hfuel. pose proof key_valid as Hkv.
  pose proof cfg_dims as Hdims. cbn [fmap list_fmap] in Hn.
  rewrite insert_non_full_S. run_ok by (by eapply actual_key_ok).
  rewrite (bind_load _ _ _ _ Ha), (nr_leaf _ _ _ _ _ Hn), bool_decide_true, (nr_cnt _ _ _ _ _ Hn) by done.
  destruct (shift_greater_keys_ok p a nd its d k (length its)) as (i & nd1 & Hrun & Hsc & Hi & Hsh & Hin & Hout);
    [done|apply (nr_wf _ _ _ _ _ Hn)|done|done|intros; by eapply nr_slot|done|apply Hs|done| |].
  { intros y Hy%lookup_lt_Some. lia. }
  run_ok by (exact Hrun). cbn zeta. fold new_value. set (x := mkKeyInfo k new_value INVALID_INDEX).
  pose proof (ss_wf _ _ Hsh (nr_wf _ _ _ _ _ Hn)) as Hw1.
  run_ok by (apply set_key_ok; [apply node_at_put_eq|done|lia]). rewrite put_put.
  cbn [cookie_at dimension_order level rule]. unfold at_. rewrite Hd, bind_ret.
  run_ok by (apply set_dim_ok; [apply node_at_put_eq|by apply node_wf_set_key|lia]). rewrite put_put.
  replace (Z.of_nat (length its) + 1) with (Z.of_nat (S (length its))) by lia.
  run_ok by (apply set_key_cnt_ok; [apply node_at_put_eq|lia]). rewrite put_put.
  pose proof (leaf_node par its nd nd1 i x Hn Hsh Hl Hi Hin Hout) as Hn2.
  set (nd2 := node_set_key_cnt (S (length its)) _) in *.
  change (node_set_key_cnt (S (length its)) (node_set_dim i d (node_set_key i x nd1))) with nd2.
  destruct (scan_leaf_split its i Hs Hap Hsc) as [Hbelow Habove].
  assert (heap_ok (put a nd2 p) fl) as Hp1 by (by eapply heap_ok_put).
  destruct (required_more_levels (ck b)) eqn:Hmore.
  - pose proof Hmore as Hlt%Nat.ltb_lt. cbn [cookie_at level requires_levels] in Hlt.
    assert (split_its its i x !! i = Some x) as Hxi
      by (by rewrite lookup_split_its, Nat.ltb_irrefl, decide_True by lia).
    pose proof (nr_keys _ _ _ _ _ Hn2 _ _ Hxi) as (_ & _ & Hnl)%node_key_inv.
    run_ok by (apply (next_layer_none _ _ nd2); [apply node_at_put_eq|exact Hnl]).
    rewrite add_level_cookie, Nat.add_1_r.
    destruct (new_node_ok order rule_ ks req Hrp (put a nd2 p) fl (S b) fuel)
      as (p3 & a3 & Hrun3 & m & g3 & Hm & Hp3 & Hg3 & Ha3 & Hnd3 & Hne3 & Habs3 & Hmod3);
      [done|lia|done|lia|lia|]. run_ok by (exact Hrun3).
    assert (node_at p3 a = Some nd2) as Haz3.
    { eapply mod_frame; [exact Hmod3|apply not_elem_of_nil|apply node_at_put_eq]. }
    assert (a ∉ g_addrs g3) as Hag.
    { intros [Hc|Hc]%(mod_fresh _ _ _ _ Hmod3); [by apply not_elem_of_nil in Hc|].
      by rewrite node_at_put_eq in Hc. }
    destruct (g_rep_live _ _ _ _ _ (Hg3 1%nat ltac:(lia))) as [gd Hgd]. rewrite Ha3 in Hgd.
    erewrite set_next_layer_ok; [|done|exact Haz3|apply (nr_wf _ _ _ _ _ Hn2)|lia|exact Hgd].
    eexists. split; [done|].
    apply (node_rep_set_next _ _ _ _ _ i (to_index a3)) in Hn2;
      [|rewrite length_split_its by done; lia].
    rewrite split_its_alter in Hn2 by done.
    eapply (leaf_inserted _ _ _ m _ _ _ i (set_next (to_index a3) x) (Some g3));
      [lia|by eapply heap_ok_put|done|apply node_at_put_eq|exact Hn2|done|done|done|done| |done
      |by cbn; rewrite Habs3|done|done|].
    + intros H HH. cbn. rewrite Ha3. split; [done|].
      eapply g_rep_modifies; [by apply Hg3|apply modifies_put| |done].
      by intros c Hc ->%list_elem_of_singleton.
    + eapply modifies_trans; [apply modifies_put|]. cbn.
      apply (modifies_trans _ p3 _ _ (g_addrs g3 ++ [a])).
      * by apply (modifies_app _ _ [] _ [a]).
      * eapply modifies_mono; [apply modifies_put|set_solver|cbn; set_solver].
  - pose proof Hmore as Hge%Nat.ltb_ge. cbn [cookie_at level requires_levels] in Hge.
    eexists. split; [done|].
    eapply (leaf_inserted _ _ _ 0 _ _ _ i x None);
      [lia|done|done|apply node_at_put_eq|exact Hn2|done|done|done|done|done|done| |by apply not_elem_of_nil
      |constructor|apply modifies_put].
    unfold rest. by replace (req - S b)%nat with 0%nat by lia.
Qed.

(** ** A subtree *)

(** Insertion into the subtree the scan leads to. *)
Lemma kid_inserted p p' fl N par a its (ts : list (btree V)) i c :
  rep p d par (BNode a its ts) → NoDup (addrs (BNode a its ts)) →
  sorted_keys (flat (BNode a its ts)) → Forall (apart k) (flat (BNode a its ts)) →
  length ts = S (length its) → its ≠ [] → Forall t_nonempty ts →
  ts !! i = Some c → scan_at its k i →
  inserted p p' fl N (Some a) c → inserted p p' fl N par (BNode a its ts).
Proof using Hb Hd Hk Hrp.
  intros Hr Hnd Hs Hap Hl Hne Hnes Hi (Hi' & Hpast & Hahead)
    (n & c' & x & o & l1 & l2 & (Hn & Hp' & Hc' & Haddr & Hne' & Hh & Hgr) & (Hf & Hf' & H1 & H2) & Hx & Hndo & Hmod).
  destruct (insert_kid_flat a its ts i c c' Hl Hi) as [Hflat Hflat'].
  destruct (kid_addrs a its ts i c c' Hi) as (R & HR & HR').
  pose proof key_valid as Hkv. pose proof (proj1 Hs) as Hv. rewrite Hflat in Hs, Hap, Hv.
  rewrite !Forall_app in Hap, Hv. destruct Hap as (Hap1 & _ & Hap2), Hv as (Hv1 & _ & Hv2).
  set (pre := weave_pre its (flat <$> ts) i) in *. set (post := weave_post its (flat <$> ts) i) in *.
  exists n, (BNode a its (<[i := c']> ts)), x, o, (pre ++ l1), (l2 ++ post).
  split; [split_and!|split; [split_and!|split; [done|split]]].
  - done.
  - done.
  - by eapply rep_insert_kid.
  - done.
  - apply t_nonempty_unfold. split; [done|]. by apply Forall_insert.
  - by eapply insert_kid_height.
  - by eapply grows_kid.
  - by rewrite Hflat, Hf, <- !app_assoc.
  - by rewrite Hflat', Hf', <- !app_assoc.
  - apply Forall_app. split; [|done]. rewrite Forall_forall in *. intros y Hy.
    apply below_spec; [auto..|]. eapply pre_past; [exact Hi'| |exact Hs|done|done].
    by rewrite length_fmap.
  - apply Forall_app. split; [done|]. rewrite Forall_forall in *. intros y Hy.
    apply above_spec; [auto..|]. rewrite app_assoc in Hs.
    eapply post_ahead; [exact Hi'| |exact Hs|done|done]. by rewrite length_fmap.
  - rewrite HR', <- app_assoc, (Permutation_app_comm R), app_assoc.
    eapply modifies_NoDup; [exact Hmod|by rewrite <- HR|done|].
    intros b' Hb'. eapply rep_addrs_live; [exact Hr|]. rewrite HR. apply elem_of_app. by right.
  - rewrite HR, HR', <- app_assoc, (Permutation_app_comm R), app_assoc. by apply modifies_app.
Qed.

(** ** The descent *)

Lemma inserted_mono p p' fl N N' par t :
  (N ≤ N')%nat → inserted p p' fl N par t → inserted p p' fl N' par t.
Proof.
  intros HN (n & t' & x & o & l1 & l2 & (Hn & Hrest) & Hi).
  exists n, t', x, o, l1, l2. split; [|done]. split; [lia|done].
Qed.

(** Insertion after a step that keeps the keys. *)
Lemma inserted_after p p1 p' z fl N par t t1 :
  modifies p p1 (addrs t) (addrs t1) → flat t1 = flat t → addr t1 = addr t →
  (height t1 ≤ height t)%nat → grows t t1 →
  inserted p1 p' fl N par t1 → inserted p p' (z :: fl) (S N) par t.
Proof.
  intros Hmod Hflat Haddr Hh Hgr
    (n & t' & x & o & l1 & l2 & (Hn & Hp' & Hr & Ha & Hne & Hh' & Hgr') & (Hf & Hf') & Hx & Hnd & Hm).
  exists (S n), t', x, o, l1, l2. rewrite Hflat in Hf.
  split; [|split; [done|split; [done|split; [done|by eapply modifies_trans]]]].
  split_and!; [lia|done|done|congruence|done|lia|by eapply grows_trans].
Qed.

Lemma kid_facts p par a its ts i c :
  rep p d par (BNode a its ts) → NoDup (addrs (BNode a its ts)) → Forall t_nonempty ts →
  length ts = S (length its) → sorted_keys (flat (BNode a its ts)) →
  Forall (apart k) (flat (BNode a its ts)) → ts !! i = Some c →
  rep p d (Some a) c ∧ NoDup (addrs c) ∧ t_nonempty c ∧ sorted_keys (flat c)
  ∧ Forall (apart k) (flat c) ∧ (height c < height (BNode a its ts))%nat.
Proof.
  intros [_ Hts]%rep_unfold Hnd Hne Hl Hs Hap Hi. pose proof (list_elem_of_lookup_2 _ _ _ Hi) as Hin.
  rewrite Forall_forall in Hts, Hne. destruct (addrs_disjoint _ _ _ Hnd) as (Hk' & _ & _).
  split_and!; [by apply Hts|by apply Hk'|by apply Hne|by eapply sorted_kid| |by apply height_kid].
  rewrite Forall_forall in Hap |- *. intros x Hx. apply Hap. by eapply flat_kids.
Qed.

Lemma child_at p fl par a its ts i c :
  heap_ok p fl → rep p d par (BNode a its ts) → ts !! i = Some c →
  child a i p = (Ok (Some (addr c)), p).
Proof.
  intros Hp [(nd & Ha & Hn) Hts]%rep_unfold Hi. rewrite Forall_forall in Hts.
  destruct (rep_live _ _ _ _ (Hts c (list_elem_of_lookup_2 _ _ _ Hi))) as [cd Hcd].
  eapply child_some; [done|done| |done]. apply (nr_kids _ _ _ _ _ Hn).
  by rewrite list_lookup_fmap, Hi.
Qed.

(** The place of the key after the split of the child. *)
Lemma scan_at_split its i m :
  scan_at its k i → low (key m) ≤ high (key m) → apart k m →
  scan_at (split_its its i m) k (if key_lt_range m k then S i else i).
Proof using Hrp Hb Hk.
  intros (Hi & Hpast & Hahead) Hm Hap. pose proof key_valid as Hkv.
  unfold key_lt_range, range_lt. destruct (Z.ltb_spec (low (key m)) (low k)) as [Hlt|Hge].
  - split_and!.
    + rewrite length_split_its by done. lia.
    + intros y. replace (S i - 1)%nat with i by lia.
      rewrite lookup_split_its, Nat.ltb_irrefl, decide_True by done. intros [= <-] _. apply below_spec; [done..|].
      unfold apart, below, above in *. lia.
    + intros y. rewrite lookup_split_its by done. rewrite (proj2 (Nat.ltb_ge _ _)) by lia.
      rewrite decide_False by lia. replace (S i - 1)%nat with i by lia. apply Hahead.
  - split_and!.
    + rewrite length_split_its by done. lia.
    + intros y. rewrite lookup_split_its by done. intros Hy Hpos. revert Hy.
      rewrite (proj2 (Nat.ltb_lt _ _)) by lia. intros Hy. by apply Hpast.
    + intros y. rewrite lookup_split_its, Nat.ltb_irrefl, decide_True by done.
      intros [= <-]. apply above_spec; [done..|]. unfold apart, below, above in *. lia.
Qed.

(** The child the descent goes on to after the split, which is not full. *)
Lemma split_tree_kid (a y z : ptr) its yits ts yts i m j :
  ts !! i = Some (BNode y yits yts) → length yits = MAX_DEGREE → (j = i ∨ j = S i) →
  ∃ c, kids (split_tree a y z its yits ts yts i m) !! j = Some c
    ∧ (length (items c) < MAX_DEGREE)%nat.
Proof using Hok.
  clear Hb. intros Hi Hl Hj. pose proof (lookup_lt_Some _ _ _ Hi). destruct max_degree as [HM ?].
  cbn [kids split_tree]. destruct Hj as [->| ->].
  - eexists. split.
    + rewrite lookup_app_r; rewrite length_take; [|lia]. by rewrite Nat.min_l, Nat.sub_diag by lia.
    + cbn [items]. rewrite length_take. lia.
  - eexists. split.
    + rewrite lookup_app_r; rewrite length_take; [|lia].
      by rewrite Nat.min_l, Nat.sub_succ_l, Nat.sub_diag by lia.
    + cbn [items]. rewrite length_drop. lia.
Qed.

Lemma split_tree_nonempty (a y z : ptr) its yits ts yts i m :
  ts !! i = Some (BNode y yits yts) → length yits = MAX_DEGREE → Forall t_nonempty ts →
  Forall t_nonempty (kids (split_tree a y z its yits ts yts i m)).
Proof using Hok.
  clear Hb. intros Hi Hl Hne. destruct max_degree as [HM ?]. cbn [kids split_tree].
  pose proof (proj1 (Forall_lookup _ _) Hne _ _ Hi) as [_ Hyne]%t_nonempty_unfold.
  apply Forall_app. split; [by apply Forall_take|].
  rewrite !Forall_cons, !t_nonempty_unfold. split_and!.
  - intros He%(f_equal length). rewrite length_take in He. cbn in He. lia.
  - by apply Forall_take.
  - intros He%(f_equal length). rewrite length_drop in He. cbn in He. lia.
  - by apply Forall_drop.
  - by apply Forall_drop.
Qed.

Lemma split_tree_grows (a y z : ptr) its yits ts yts i m :
  ts !! i = Some (BNode y yits yts) → length yits = MAX_DEGREE → (yts = [] ∨ length yts = S (length yits)) →
  grows (BNode a its ts) (split_tree a y z its yits ts yts i m).
Proof using Hok.
  clear Hb. intros Hi Hl Hy [|h]; [by intros ->%balanced_0|]. destruct max_degree as [HM ?].
  unfold split_tree. rewrite !balanced_S. intros [_ Hg]. cbn [items].
  assert (good_kid h (BNode y (take MIN_DEGREE yits) (take (S MIN_DEGREE) yts))
          ∧ good_kid h (BNode z (drop (S MIN_DEGREE) yits) (drop (S MIN_DEGREE) yts))) as [Hgy Hgz].
  { pose proof (proj1 (Forall_lookup _ _) Hg _ _ Hi) as [_ Hb]. unfold good_kid. cbn [items].
    rewrite length_take, length_drop. split; (split; [lia|]).
    - eapply balanced_part; [exact Hb|apply Forall_take, Forall_forall; done|]. by destruct yts.
    - eapply balanced_part; [exact Hb|apply Forall_drop, Forall_forall; done|].
      intros He%(f_equal length). rewrite length_drop in He. cbn [length] in He. destruct Hy; [done|lia]. }
  split; [split; [by destruct (take i ts)|]|].
  - apply Forall_app. split; [by apply Forall_take|]. do 2 (constructor; [done|]). by apply Forall_drop.
  - pose proof (lookup_lt_Some _ _ _ Hi). unfold split_its. rewrite length_app, length_cons, length_take, length_drop. lia.
Qed.

(** The split of a full child, as a step that keeps the keys of the layer. *)
Lemma split_step p z fl par a its ts i (y : ptr) yits yts :
  let t := BNode a its ts in
  heap_ok p (z :: fl) → (2 ≤ length fl)%nat → rep p d par t → NoDup (addrs t) →
  (length its < MAX_DEGREE)%nat → length ts = S (length its) →
  ts !! i = Some (BNode y yits yts) → length yits = MAX_DEGREE → 
  ∃ p1 m, let t1 := split_tree a y z its yits ts yts i m in
    split_child a i y p = (Ok tt, p1) ∧ heap_ok p1 fl ∧ rep p1 d par t1 ∧ NoDup (addrs t1)
    ∧ modifies p p1 (addrs t) (addrs t1) ∧ flat t1 = flat t ∧ (height t1 ≤ height t)%nat ∧ grows t t1
    ∧ get_key a i p1 = (Ok m, p1) ∧ m ∈ flat t.
Proof using Hok.
  clear Hb. intros t Hp Hfl Hr Hnd Hlt Hl Hi Hfull. destruct max_degree as [HM ?].
  destruct (lookup_lt_is_Some_2 yits MIN_DEGREE) as [m Hm]; [lia|].
  destruct (split_child_ok p z fl d par a its ts i y yits yts m) as (p1 & Hrun & Hp1 & Hr1 & Hnd1 & Hmod);
    [done..|]. pose proof (lookup_lt_Some _ _ _ Hi).
  pose proof Hr as [_ Hts]%rep_unfold. rewrite Forall_lookup in Hts.
  pose proof (Hts _ _ Hi) as [(yd & _ & Hyn) _]%rep_unfold. pose proof (rep_arity _ _ _ _ _ Hyn) as Hya.
  exists p1, m. split_and!; [done..| | | | |].
  - by apply split_tree_flat.
  - by apply split_tree_height.
  - by apply split_tree_grows.
  - pose proof Hr1 as [(nd1 & Ha1 & Hn1) _]%rep_unfold.
    eapply get_key_ok; [exact Ha1| |lia]. apply (nr_keys _ _ _ _ _ Hn1).
    rewrite lookup_split_its by lia. by rewrite Nat.ltb_irrefl, decide_True.
  - eapply flat_kids; [done|by eapply list_elem_of_lookup_2|].
    apply flat_items; [done|by eapply list_elem_of_lookup_2].
Qed.

Lemma insert_non_full_ok h p fl par t fuel :
  (height t ≤ h)%nat → heap_ok p fl → (h + (req - S b) + 2 ≤ length fl)%nat →
  rep p d par t → NoDup (addrs t) → t_nonempty t → (length (items t) < MAX_DEGREE)%nat →
  sorted_keys (flat t) → Forall (apart k) (flat t) → (h + 3 * (req - S b) ≤ fuel)%nat →
  ∃ p', insert_non_full fuel (addr t) (ck b) p = (Ok tt, p')
    ∧ inserted p p' fl (h + (req - S b)) par t.
Proof using Hok HPC Hrp Hb Hk Hd.
  revert p fl par t fuel. induction h as [|h IH]; intros p fl par [a its ts] fuel Hh Hp Hfl Hr Hnd Hne Hlt Hs Hap Hfuel.
  { cbn in Hh. lia. }
  destruct fuel as [|fuel]; [lia|]. cbn [addr items] in *.
  pose proof Hr as [(nd & Ha & Hn) _]%rep_unfold. destruct (rep_arity _ _ _ _ _ Hn) as [->|Hl].
  { destruct (insert_leaf_ok p fl par a its fuel) as (p' & Hrun & Hins); [done|lia|done..|lia|].
    exists p'. split; [done|]. eapply inserted_mono; [|exact Hins]. lia. }
  assert (ts ≠ []) as Htne by (intros ->; done).
  rewrite insert_non_full_S. run_ok by (by eapply actual_key_ok).
  rewrite (bind_load _ _ _ _ Ha), (nr_leaf _ _ _ _ _ Hn), bool_decide_false, (nr_cnt _ _ _ _ _ Hn)
    by (by intros ?%fmap_nil_inv).
  pose proof (proj1 Hs) as Hv. pose proof Hne as [Hine Htsne]%t_nonempty_unfold.
  assert (∀ y, y ∈ its → y ∈ flat (BNode a its ts)) as Hsub by (intros; apply flat_items; auto).
  rewrite Forall_forall in Hv, Hap.
  destruct (find_child_index_ok p a nd its k (length its)) as (i & Hfind & Hsc);
    [done|by apply key_valid|apply (nr_keys _ _ _ _ _ Hn)|done|lia
    |apply Forall_forall; auto|apply Forall_forall; auto|by intros y ?%lookup_lt_Some; lia|].
  run_ok by (exact Hfind). pose proof (proj1 Hsc) as Hile.
  rewrite <- Forall_forall in Hv, Hap.
  destruct (lookup_lt_is_Some_2 ts i) as [[y yits yts] Hi]; [lia|].
  run_ok by (by eapply child_at). cbn [or_ub]. rewrite bind_ret.
  destruct (kid_facts p par a its ts i _ Hr Hnd Htsne Hl Hs Hap Hi) as (Hry & Hndy & Hney & Hsy & Hapy & Hhy).
  pose proof Hry as [(yd & Hy & Hyn) _]%rep_unfold. cbn [addr].
  rewrite (bind_load _ _ _ _ Hy), (nr_cnt _ _ _ _ _ Hyn).
  destruct (Nat.eqb_spec (length yits) MAX_DEGREE) as [Hfull|Hnfull].
  - destruct fl as [|z fl]; [cbn in Hfl; lia|]. cbn [length] in Hfl.
    destruct (split_step p z fl par a its ts i y yits yts) as
      (p1 & m & Hsplit & Hp1 & Hr1 & Hnd1 & Hmod1 & Hflat1 & Hh1 & Hgr1 & Hget & Hmin); [done|lia|done..|].
    pose proof (split_tree_nonempty a y z its yits ts yts i m Hi Hfull Htsne) as Hne1.
    rewrite <- Hflat1 in Hs, Hap.
    assert (scan_at (split_its its i m) k (if key_lt_range m k then S i else i)) as Hsc1.
    { rewrite <- Hflat1 in Hmin. pose proof (proj1 Hs) as Hv1. rewrite Forall_forall in Hv1, Hap.
      apply scan_at_split; auto. }
    rewrite bind_assoc. run_ok by (exact Hsplit). rewrite bind_assoc. run_ok by (exact Hget). rewrite bind_ret.
    set (j := if key_lt_range m k then S i else i) in *.
    destruct (split_tree_kid a y z its yits ts yts i m j Hi Hfull) as (c & Hj & Hc);
      [subst j; destruct (key_lt_range m k); auto|].
    unfold split_tree in *. cbn [kids] in Hj, Hne1. set (ts1 := take i ts ++ _) in *.
    assert (length ts1 = S (length (split_its its i m))) as Hl1.
    { rewrite length_split_its by done. subst ts1.
      rewrite length_app, length_take, !length_cons, length_drop. lia. }
    assert (split_its its i m ≠ []) as Hine1.
    { intros He%(f_equal length). by rewrite length_split_its in He. }
    run_ok by (by eapply child_at). cbn [or_ub]. rewrite bind_ret.
    destruct (kid_facts p1 par a _ ts1 j c Hr1 Hnd1 Hne1 Hl1 Hs Hap Hj) as (Hrc & Hndc & Hnec & Hsc' & Hapc & Hhc).
    destruct (IH p1 fl (Some a) c fuel) as (p' & Hrun & Hins); [lia|done|lia|done..|lia|].
    exists p'. split; [exact Hrun|]. eapply inserted_after; [exact Hmod1|done|done|done|exact Hgr1|].
    by eapply kid_inserted.
  - rewrite bind_ret. run_ok by (by eapply child_at). cbn [or_ub]. rewrite bind_ret.
    destruct (IH p fl (Some a) (BNode y yits yts) fuel) as (p' & Hrun & Hins);
      [lia|done|lia|done|done|done| |done|done|lia|].
    { cbn [items]. pose proof (nr_max _ _ _ _ _ Hyn). lia. }
    exists p'. split; [done|]. eapply inserted_mono, kid_inserted; [|done..]. lia.
Qed.
End rule.
End InsertLayer.
