(* ===== verification/InsertRoot.v ===== *)
(** * Insertion at the root of a layer

    [insert_to_root] on the next layer of a key, when no key of it equals the
    key of the rule: a full root is split under a new one, a compressed node
    is first taken apart, and an empty layer gets a new subtree.  [t_insert]
    is the insertion into the stored trie. *)
From S2P Require Import Prelude Range RuleValue Mempool Node NodeLemmas Search Layer LayerSearch Trie Footprint Slots Insert Split Chain InsertLayer.
Local Open Scope Z_scope.

(** ** Insertion into a trie *)

Section t_insert.
Context {V : Type} `{!RuleValue V}.
Local Notation entry := (Range1d * V * option (trie V))%type.

Definition find_key (k : Range1d) (es : list entry) : option (nat * entry) :=
  list_find (λ e, e.1.1 = k) es.

(** The next layer has a key equal to the next range of the rule. *)
Definition has_key (ks : list Range1d) (tr : option (trie V)) : bool :=
  match tr, ks with
  | Some tr, k :: _ => match find_key k (entries tr) with Some _ => true | None => false end
  | _, _ => false
  end.

Fixpoint insert_entry (e : entry) (es : list entry) : list entry :=
  match es with
  | [] => [e]
  | e' :: es' => if low e.1.1 <? low e'.1.1 then e :: es else e' :: insert_entry e es'
  end.

(** Store the value [v] at the end of the first [n] ranges of [ks]: equal keys
    are followed, also behind the [n]-th range, and the value is stored at the
    last of them when they cover the [n] ranges. *)
Fixpoint t_insert (n : nat) (ks : list Range1d) (v : V) (tr : option (trie V))
    : option (trie V) :=
  match tr, ks with
  | None, _ => new_trie (take n ks) v
  | Some _, [] => tr
  | Some (Entries es), k :: ks' =>
      match find_key k es with
      | None =>
          Some (Entries (insert_entry
            (k, if (1 <? n)%nat then rv_default else v, new_trie (take (n - 1) ks') v) es))
      | Some (j, (_, v0, nl)) =>
          Some (Entries (<[j :=
            if (1 <? n)%nat || has_key ks' nl then (k, v0, t_insert (n - 1) ks' v nl)
            else (k, v, nl)]> es))
      end
  end.

Lemma insert_entry_between e es1 es2 :
  Forall (λ e', ¬ low e.1.1 < low e'.1.1) es1 → Forall (λ e', low e.1.1 < low e'.1.1) es2 →
  insert_entry e (es1 ++ es2) = es1 ++ e :: es2.
Proof.
  intros H1 H2. induction H1 as [|e' es1 He _ IH]; cbn.
  - destruct H2 as [|e' es2 He _]; [done|]. cbn. by rewrite (proj2 (Z.ltb_lt _ _)).
  - rewrite (proj2 (Z.ltb_ge _ _)) by lia. by rewrite IH.
Qed.
End t_insert.

Section InsertRoot.
Context `{cfg : !BTreeCfg, Hok : !CfgOk} {V : Type} `{!RuleValue V}.
Implicit Types (p : Heap V) (nd : Node V) (t : btree V) (g : gtrie V) (o : option (gtrie V)).

(** ** Splitting the root *)

(** The layer under a new root. *)
Lemma new_root_ok p s fl d t :
  heap_ok p (s :: fl) → (2 ≤ length fl)%nat → rep p d None t → NoDup (addrs t) →
  ∃ p1, (s ← node_allocator_get; upd s (node_set_is_leaf false);; set_child s 0 (Some (addr t));;
         mret s) p = (Ok s, p1)
    ∧ heap_ok p1 fl ∧ rep p1 d None (BNode s [] [t]) ∧ NoDup (addrs (BNode s [] [t]))
    ∧ modifies p p1 (addrs t) (addrs (BNode s [] [t])).
Proof.
  intros Hp Hfl Hr Hnd. destruct max_degree as [HM _].
  destruct (alloc_ok _ _ _ Hp Hfl) as (p0 & Halloc & Hp0 & Hs & Hsd & Hmod).
  assert (s ∉ addrs t) as Hst.
  { intros Hin. destruct (rep_addrs_live _ _ _ _ _ Hr Hin). congruence. }
  pose proof (rep_modifies _ _ _ _ _ _ _ Hr Hmod ltac:(intros; apply not_elem_of_nil)) as Hr0.
  destruct (rep_live _ _ _ _ Hr0) as [nd Ha].
  assert (s ≠ addr t) as Hne by (intros ->; apply Hst, addrs_root).
  run_ok by (exact Halloc). run_ok by (by apply upd_ok).
  set (s1 := node_set_is_leaf false new_Node : Node V).
  assert (node_wf s1) as Hw1 by apply node_wf_set_leaf, new_Node_wf.
  pose proof (heap_ok_put _ _ _ s1 _ Hp0 Hs) as Hp1.
  run_ok by (eapply set_child_ok; [exact Hp1|apply node_at_put_eq|done|lia
    |by rewrite node_at_put_ne|done]).
  rewrite put_put. set (s2 := node_set_child_index 0 (to_index (addr t)) s1).
  eexists. split; [done|]. rewrite addrs_unfold. cbn [concat fmap list_fmap]. rewrite app_nil_r.
  split_and!.
  - eapply heap_ok_put; [by eapply heap_ok_put|]. by rewrite node_at_put_ne.
  - apply rep_unfold. split.
    + exists s2. rewrite node_at_put_ne by done. split; [apply node_at_put_eq|].
      apply node_rep_intro; try done; [by apply node_wf_child_index|cbn; lia|by right|].
      intros [|i] c Hi; [|done]. cbn in Hi. simplify_eq. apply list_lookup_insert_eq.
      rewrite (wf_children _ Hw1). lia.
    + apply Forall_singleton. eapply rep_reparent; [exact Hr0|exact Ha|done|apply node_at_put_eq|].
      intros b Hb Hba. rewrite !node_at_put_ne; [done| |by intros <-]. by intros <-.
  - by apply NoDup_cons.
  - eapply modifies_trans; [by apply (modifies_app _ _ [] [s] (addrs t))|].
    eapply modifies_trans; apply modifies_put_in; [left|right; apply addrs_root].
Qed.

Section rule.
Context (order : list nat) (rule_ : rule_spec_t V) (ks : list Range1d) (req : nat).
Hypothesis Hrp : rule_path order rule_ ks req.
Hypothesis HPC : PATH_COMPRESSION = true.
Context (b : nat) (k : Range1d) (d : nat).
Hypothesis Hb : (b < req)%nat.
Hypothesis Hk : ks !! b = Some k.
Hypothesis Hd : order !! b = Some d.

Local Notation ck := (cookie_at order rule_ req).

(** The next layer [o] of level [b] with the rest of the rule added; at most
    [N] nodes were taken from the free list [fl], and a layer has become higher
    by at most one. *)
Definition o_inserted p p' (fl : list nat) (N H : nat) o (r : ptr) : Prop :=
  ∃ n g', ((n ≤ N)%nat ∧ heap_ok p' (drop n fl))
    ∧ (g_rep p' (S H) order b g' ∧ g_addr g' = r ∧ NoDup (g_addrs g') ∧ g_shaped g')
    ∧ Some (abs g') = t_insert (req - b) (drop b ks) (rvalue rule_) (abs <$> o)
    ∧ modifies p p' (o_addrs o) (g_addrs g').

Lemma find_key_apart (xs : list (KeyInfo V)) (os : list (option (trie V))) :
  low k ≤ high k → Forall (apart k) xs → find_key k (layer_entries xs os) = None.
Proof.
  intros Hkv Hap. apply list_find_None, Forall_forall. intros e (i & Hi)%list_elem_of_lookup He.
  unfold layer_entries in Hi. rewrite lookup_zip_with in Hi.
  apply bind_Some in Hi as (x & Hx & (o & Ho & [= <-])%bind_Some). cbn in He.
  rewrite Forall_lookup in Hap. specialize (Hap _ _ Hx). unfold apart, below, above in Hap.
  rewrite He in Hap. lia.
Qed.

Lemma t_insert_new (xs : list (KeyInfo V)) (os : list (option (trie V))) :
  Forall (apart k) xs →
  t_insert (req - b) (drop b ks) (rvalue rule_) (Some (Entries (layer_entries xs os))) =
  Some (Entries (insert_entry
    (k, new_value order rule_ req b, new_trie (rest ks req (S b)) (rvalue rule_))
    (layer_entries xs os))).
Proof using Hrp Hb Hk.
  intros Hap. rewrite (drop_S _ _ _ Hk). cbn [t_insert].
  rewrite find_key_apart by (done || by eapply key_valid).
  unfold new_value, required_more_levels, rest. cbn [cookie_at level requires_levels].
  replace (req - b - 1)%nat with (req - S b)%nat by lia.
  destruct (Nat.ltb_spec 1 (req - b)), (Nat.ltb_spec (b + 1) req); done || lia.
Qed.

Lemma sorted_insert (l1 l2 : list (KeyInfo V)) x :
  sorted_keys (l1 ++ l2) → key x = k → Forall (below k) l1 → Forall (above k) l2 →
  sorted_keys (l1 ++ x :: l2).
Proof using Hrp Hb Hk.
  intros (H1 & H2 & H12)%sorted_app Hx Hbelow Habove.
  pose proof (key_valid _ _ _ _ Hrp _ _ Hb Hk) as Hkv.
  rewrite Forall_forall in Hbelow, Habove. apply sorted_app. split_and!; [done| |].
  - destruct H2 as [Hv Hs]. split; [constructor; [by rewrite Hx|done]|].
    constructor; [done|]. apply Forall_forall. intros y Hy. unfold key_before. rewrite Hx.
    by apply Habove.
  - intros y z Hy [->|Hz]%elem_of_cons; [|by apply H12]. unfold key_before. rewrite Hx.
    by apply Hbelow.
Qed.

Lemma o_inserted_skip p p' z fl N H o r :
  o_inserted p p' fl N H o r → o_inserted p p' (z :: fl) (S N) H o r.
Proof. clear Hb. intros (n & g' & [Hn Hp'] & Hrest). exists (S n), g'. split; [split; [lia|done]|done]. Qed.

Lemma o_inserted_mono p p' fl N N' H o r :
  (N ≤ N')%nat → o_inserted p p' fl N H o r → o_inserted p p' fl N' H o r.
Proof. clear Hb. intros HN (n & g' & [Hn Hp'] & Hrest). exists n, g'. split; [split; [lia|done]|done]. Qed.

(** ** A layer that is a B-tree *)

Lemma layer_entries_app (l1 l2 : list (KeyInfo V)) (os1 os2 : list (option (trie V))) :
  length l1 = length os1 → layer_entries (l1 ++ l2) (os1 ++ os2) = layer_entries l1 os1 ++ layer_entries l2 os2.
Proof. apply zip_with_app. Qed.

Lemma next_reps_modifies p p' H H' level (xs : list (KeyInfo V)) os F F' :
  Forall2 (next_rep p H order level) xs os → modifies p p' F F' →
  (∀ o a, o ∈ os → a ∈ o_addrs o → a ∉ F) → (H ≤ H')%nat →
  Forall2 (next_rep p' H' order level) xs os.
Proof.
  rewrite !Forall2_same_length_lookup. intros [Hl Hn] Hmod Hdis HH. split; [done|].
  intros i x o Hx Ho. eapply next_rep_modifies; [by eapply Hn|done| |done].
  intros a. apply Hdis. by eapply list_elem_of_lookup_2.
Qed.

Lemma Forall_layer_entries (P : Range1d → Prop) (xs : list (KeyInfo V)) os :
  Forall (λ x, P (key x)) xs → Forall (λ e, P e.1.1) (layer_entries xs os).
Proof.
  intros HP. apply Forall_lookup. intros i e Hi. unfold layer_entries in Hi.
  rewrite lookup_zip_with in Hi. apply bind_Some in Hi as (x & Hx & (o & Ho & [= <-])%bind_Some).
  rewrite Forall_lookup in HP. by eapply HP.
Qed.

Lemma layer_inserted p p1 p' fl N H t t1 nexts :
  g_rep p H order b (GLayer t nexts) → NoDup (g_addrs (GLayer t nexts)) →
  g_shaped (GLayer t nexts) → Forall (apart k) (flat t) →
  modifies p p1 (addrs t) (addrs t1) → flat t1 = flat t → (height t1 ≤ S (height t))%nat → (t_shaped t → ∃ h, balanced h t1 = true) →
  inserted order rule_ ks req b k d p1 p' fl N None t1 →
  o_inserted p p' fl N H (Some (GLayer t nexts)) (addr t1).
Proof using Hrp Hb Hk Hd.
  intros Hg Hnd [Hsh Hne]%g_shaped_layer Hap Hmod1 Hflat Hh1 Hsh1
    (n & t' & x & o & l1 & l2 & (Hn' & Hp' & Hr' & Ha' & Hne' & Hh' & Hgr) & (Hf & Hf' & Hbelow & Habove)
     & (Hx & Hxv & Hnext & Hone & Habs) & Hndo & Hmod).
  pose proof Hg as ((d' & Hd' & Hr) & Hs & Hh & Hn)%g_rep_layer.
  rewrite Hflat in Hf. rewrite Hf in Hs, Hn, Hap.
  pose proof (modifies_trans _ _ _ _ _ _ Hmod1 Hmod) as Hmod2.
  apply Forall2_app_inv_l in Hn as (n1 & n2 & Hn1 & Hn2 & ->).
  rewrite g_addrs_layer, fmap_app, concat_app in Hnd.
  pose proof Hnd as (_ & Hdis & _)%NoDup_app.
  apply Forall_app in Hne as [Hne1 Hne2].
  assert (∀ o' a, o' ∈ n1 ++ n2 → a ∈ o_addrs o' → a ∉ addrs t) as Hdis'.
  { intros o' a Ho' Hao Hat. apply (Hdis a Hat). rewrite <- concat_app, <- fmap_app.
    apply elem_of_concat. exists (o_addrs o'). split; [done|]. by apply list_elem_of_fmap_2. }
  exists n, (GLayer t' (n1 ++ o :: n2)).
  assert (addrs t' ++ concat (o_addrs <$> n1 ++ o :: n2)
          ≡ₚ (addrs t' ++ o_addrs o) ++ concat (o_addrs <$> n1) ++ concat (o_addrs <$> n2)) as Hperm.
  { rewrite fmap_app, concat_app. cbn. solve_Permutation. }
  split; [done|]. split; [split_and!|split].
  - apply g_rep_layer. split_and!.
    + exists d. split; [done|exact Hr'].
    + rewrite Hf'. by eapply sorted_insert.
    + lia.
    + rewrite Hf'. apply Forall2_app; [|constructor; [apply Hnext; lia|]].
      * eapply next_reps_modifies; [exact Hn1|exact Hmod2| |lia].
        intros o' a Ho'. apply Hdis', elem_of_app. by left.
      * eapply next_reps_modifies; [exact Hn2|exact Hmod2| |lia].
        intros o' a Ho'. apply Hdis', elem_of_app. by right.
  - done.
  - rewrite g_addrs_layer, Hperm. eapply modifies_NoDup; [exact Hmod2|exact Hnd|done|].
    intros a Ha. eapply g_rep_addrs_live; [exact Hg|].
    rewrite g_addrs_layer, fmap_app, concat_app. apply elem_of_app. by right.
  - apply g_shaped_layer. split; [|apply Forall_app; by split; [|constructor]].
    destruct (Hsh1 Hsh) as [h1 Hb1]. split; [done|]. exists h1. by apply Hgr.
  - cbn [fmap option_fmap option_map]. rewrite (abs_layer t), fmap_app, Hf.
    rewrite t_insert_new by done. rewrite abs_layer, Hf', fmap_app, fmap_cons.
    pose proof (proj1 Hs) as Hv.
    rewrite !layer_entries_app by (rewrite length_fmap; by eapply Forall2_length).
    rewrite insert_entry_between; [cbn; by rewrite Hx, Hxv, <- Habs| |].
    + apply (Forall_layer_entries (λ k', ¬ low k < low k')).
      apply Forall_app in Hv as [Hv _]. rewrite Forall_forall in *. intros y Hy.
      specialize (Hv y Hy). specialize (Hbelow y Hy). unfold below in Hbelow. cbn. lia.
    + apply (Forall_layer_entries (λ k', low k < low k')).
      pose proof (key_valid _ _ _ _ Hrp _ _ Hb Hk). eapply Forall_impl; [exact Habove|].
      intros y Hy. unfold above in Hy. cbn. lia.
  - cbn [o_addrs]. rewrite !g_addrs_layer, Hperm, fmap_app, concat_app. by apply modifies_app.
Qed.

Lemma insert_full_root_ok p fl t fuel :
  heap_ok p fl → (height t + (req - S b) + 5 ≤ length fl)%nat →
  rep p d None t → NoDup (addrs t) → t_nonempty t → length (items t) = MAX_DEGREE →
  sorted_keys (flat t) → Forall (apart k) (flat t) → (height t + 3 * (req - S b) ≤ fuel)%nat →
  ∃ p' p1 t1 fl', insert_to_root (S fuel) (Some (addr t)) (ck b) p = (Ok (addr t1), p')
    ∧ (∃ s z, fl = s :: z :: fl')
    ∧ modifies p p1 (addrs t) (addrs t1) ∧ flat t1 = flat t ∧ (height t1 ≤ S (height t))%nat
    ∧ (t_shaped t → ∃ h, balanced h t1 = true)
    ∧ inserted order rule_ ks req b k d p1 p' fl' (height t + (req - S b)) None t1.
Proof using Hok Hrp HPC Hb Hk Hd.
  intros Hp Hfl Hr Hnd Hne Hfull Hs Hap Hfuel. destruct fl as [|s [|z fl]]; cbn [length] in Hfl; [lia..|].
  destruct t as [y yits yts]. cbn [items] in Hfull.
  destruct (new_root_ok p s (z :: fl) d (BNode y yits yts)) as (p0 & Hrun0 & Hp0 & Hr0 & Hnd0 & Hmod0);
    [done|cbn; lia|done|done|].
  pose proof Hr as [(yd & Hy & Hyn) _]%rep_unfold. destruct max_degree as [HM _].
  pose proof (rep_arity _ _ _ _ _ Hyn) as Hya.
  assert (flat (BNode s [] [BNode y yits yts]) = flat (BNode y yits yts)) as Hf0 by apply app_nil_r.
  destruct (split_step d p0 z fl None s [] [BNode y yits yts] 0 y yits yts) as
    (p1 & m & Hsplit & Hp1 & Hr1 & Hnd1 & Hmod1 & Hflat1 & Hh1 & Hgr1 & Hget & Hmin); [done|lia|done|done|cbn [length]; lia|done..|].
  pose proof (split_tree_nonempty s y z [] yits [BNode y yits yts] yts 0 m eq_refl Hfull
    (proj2 (Forall_singleton _ _) Hne)) as Hne1.
  rewrite Hf0 in Hflat1, Hmin. pose proof (proj1 Hs) as Hv. rewrite Forall_forall in Hv.
  pose proof (proj1 (Forall_forall _ _) Hap m Hmin) as Hmap. specialize (Hv m Hmin).
  rewrite <- Hflat1 in Hs, Hap.
  assert (scan_at (split_its [] 0 m) k (if key_lt_range m k then 1%nat else 0%nat)) as Hsc.
  { eapply scan_at_split; [exact Hrp|exact Hb|exact Hk|split_and!; cbn; done || lia|done|done]. }
  set (j := if key_lt_range m k then 1%nat else 0%nat) in *.
  destruct (split_tree_kid s y z [] yits [BNode y yits yts] yts 0 m j eq_refl Hfull) as (c & Hj & Hc);
    [subst j; destruct (key_lt_range m k); auto|].
  unfold split_tree in *. cbn [kids] in Hj, Hne1. set (ts1 := take 0 _ ++ _) in *.
  assert (length ts1 = S (length (split_its [] 0 m))) as Hl1 by done.
  destruct (kid_facts k d p1 None s (split_its [] 0 m) ts1 j c Hr1 Hnd1 Hne1 Hl1 Hs Hap Hj)
    as (Hrc & Hndc & Hnec & Hsc' & Hapc & Hhc).
  assert (height (BNode s [] [BNode y yits yts]) = S (height (BNode y yits yts))) as Hh0.
  { cbn. lia. }
  destruct (insert_non_full_ok order rule_ ks req Hrp HPC b k d Hb Hk Hd
      (height (BNode y yits yts)) p1 fl (Some s) c fuel) as (p' & Hrun & Hins);
    [lia|done|lia|done..|].
  exists p', p1, (BNode s (split_its [] 0 m) ts1), fl. split_and!.
  - rewrite insert_to_root_S. cbn [addr]. rewrite (bind_load _ _ _ _ Hy).
    rewrite (nr_compressed _ _ _ _ _ Hyn), (nr_cnt _ _ _ _ _ Hyn), Hfull, Nat.eqb_refl.
    run_ok by (by eapply actual_key_ok).
    apply bind_Ok_inv in Hrun0 as (s' & q1 & Hq1 & Hrun0). rewrite (bind_ok _ _ _ _ _ Hq1).
    apply bind_Ok_inv in Hrun0 as ([] & q2 & Hq2 & Hrun0). rewrite (bind_ok _ _ _ _ _ Hq2).
    apply bind_Ok_inv in Hrun0 as ([] & q3 & Hq3 & Hrun0). cbn [addr] in Hq3.
    rewrite (bind_ok _ _ _ _ _ Hq3). injection Hrun0 as -> ->.
    rewrite (bind_ok _ _ _ _ _ Hsplit), (bind_ok _ _ _ _ _ Hget).
    run_ok by (by eapply child_at). cbn [or_ub]. rewrite bind_ret.
    run_ok by (exact Hrun). done.
  - by exists s, z.
  - by eapply modifies_trans.
  - done.
  - lia.
  - intros [_ [h Hbal]]. exists (S h). apply Hgr1, balanced_S. split; [done|].
    constructor; [|done]. split; [cbn [items]; lia|done].
  - by eapply kid_inserted.
Qed.

Lemma insert_to_root_layer_ok p fl H t nexts fuel :
  heap_ok p fl → (H + (req - S b) + 5 ≤ length fl)%nat →
  g_rep p H order b (GLayer t nexts) → NoDup (g_addrs (GLayer t nexts)) →
  g_shaped (GLayer t nexts) → Forall (apart k) (flat t) → (S H + 3 * (req - S b) ≤ fuel)%nat →
  ∃ p' r, insert_to_root fuel (Some (addr t)) (ck b) p = (Ok r, p')
    ∧ o_inserted p p' fl (S (S (H + (req - S b)))) H (Some (GLayer t nexts)) r
    ∧ ((length (items t) < MAX_DEGREE)%nat → r = addr t).
Proof using Hok Hrp HPC Hb Hk Hd.
  intros Hp Hfl Hg Hnd Hne Hap Hfuel.
  pose proof Hg as ((d' & Hd' & Hr) & Hs & Hh & _)%g_rep_layer. rewrite Hd in Hd'. injection Hd' as <-.
  pose proof Hne as [[Htne _] _]%g_shaped_layer.
  assert (NoDup (addrs t)) as Hndt by (rewrite g_addrs_layer in Hnd; by apply NoDup_app in Hnd as [? _]).
  destruct fuel as [|fuel]; [lia|].
  destruct (decide (length (items t) = MAX_DEGREE)) as [Hfull|Hnfull].
  - destruct (insert_full_root_ok p fl t fuel) as
      (p' & p1 & t1 & fl' & Hrun & (s & z & ->) & Hmod1 & Hflat1 & Hh1 & Hsh1 & Hins); [done|lia|done..|lia|].
    exists p', (addr t1). split; [exact Hrun|]. split; [|lia].
    do 2 apply o_inserted_skip. eapply layer_inserted; [done..|].
    eapply inserted_mono; [done| |exact Hins]. lia.
  - destruct t as [a its ts]. cbn [items] in *.
    pose proof Hr as [(nd & Ha & Hn) _]%rep_unfold. pose proof (nr_max _ _ _ _ _ Hn).
    destruct (insert_non_full_ok order rule_ ks req Hrp HPC b k d Hb Hk Hd H p fl None (BNode a its ts) fuel)
      as (p' & Hrun & Hins); [done|done|lia|done|done|done|cbn [items]; lia|done|done|lia|].
    exists p', a. split; [|split; [|done]].
    + rewrite insert_to_root_S. cbn [addr]. rewrite (bind_load _ _ _ _ Ha).
      rewrite (nr_compressed _ _ _ _ _ Hn), (nr_cnt _ _ _ _ _ Hn).
      rewrite (proj2 (Nat.eqb_neq _ _)) by done. run_ok by (exact Hrun). done.
    + apply o_inserted_mono with (H + (req - S b))%nat; [lia|].
      eapply (layer_inserted _ _ _ _ _ _ (BNode a its ts) (BNode a its ts));
        [done..|apply modifies_refl|done|lia|by intros [_ ?]|done].
Qed.
End rule.
End InsertRoot.
