(* ===== verification/Decompress.v ===== *)
(** * Taking a compressed node apart

    [decompress_node] on a represented chain: the key at the given index moves
    to a node of its own, the keys behind it to a third one; the stored trie is
    the same. *)
From S2P Require Import Prelude Range RuleValue Mempool Node NodeLemmas Search Layer LayerSearch Trie Footprint Slots Insert Split Chain.
Local Open Scope Z_scope.

Section Decompress.
Context `{cfg : !BTreeCfg, Hok : !CfgOk} {V : Type} `{!RuleValue V}.
Implicit Types (p : Heap V) (nd : Node V) (its : list (KeyInfo V)) (g : gtrie V) (o : option (gtrie V)).

(** ** Runs of keys of consecutive dimensions in one node *)

Record seg_rep (order : list nat) (level : nat) its nd : Prop := {
  sr_wf : node_wf nd;
  sr_leaf : is_leaf nd = true;
  sr_cnt : key_cnt nd = length its;
  sr_max : (length its ≤ MAX_DEGREE)%nat;
  sr_slots : ∀ i x, its !! i = Some x →
    ∃ d, order !! (level + i)%nat = Some d ∧ slot nd i = Some (x, d);
  sr_parent : parent nd = None;
  sr_no_kids : child_index nd = replicate (S MAX_DEGREE) INVALID_INDEX;
}.

(** One key makes a node of a B-tree, several a compressed one. *)
Definition packed (a : ptr) (x : KeyInfo V) (xs : list (KeyInfo V)) o : gtrie V :=
  match xs with
  | [] => GLayer (BNode a [x] []) [o]
  | _ => GChain a x xs o
  end.

Lemma packed_addr a x xs o : g_addr (packed a x xs o) = a.
Proof. by destruct xs. Qed.

Lemma packed_addrs a x xs o : g_addrs (packed a x xs o) = a :: o_addrs o.
Proof. destruct xs; [cbn; by rewrite app_nil_r|done]. Qed.

Lemma packed_shaped a x xs o : o_shaped o → g_shaped (packed a x xs o).
Proof.
  intros Ho. destruct xs; [|exact Ho]. apply g_shaped_layer.
  split; [by apply leaf_shaped|by constructor].
Qed.

Lemma packed_abs a x xs o : Some (abs (packed a x xs o)) = chain_trie (x :: xs) (abs <$> o).
Proof. by destruct xs. Qed.

(** The keys but the last have no next layer, the last one leads to [o]. *)
Definition next_last p H order level its o : Prop :=
  (∀ i x, its !! i = Some x → (S i < length its)%nat → knext_level x = INVALID_INDEX)
  ∧ (∀ x, its !! (length its - 1)%nat = Some x → next_rep p H order (level + length its) x o).

Lemma packed_rep p H order level a nd x xs o :
  node_at p a = Some nd → seg_rep order level (x :: xs) nd →
  is_compressed nd = (1 <? length (x :: xs))%nat → (1 ≤ H)%nat →
  Forall (λ x, low (key x) ≤ high (key x)) (x :: xs) → next_last p H order level (x :: xs) o →
  g_rep p H order level (packed a x xs o).
Proof.
  intros Ha Hn Hc HH Hv [Hnone Hlast]. destruct xs as [|y xs].
  - destruct (sr_slots _ _ _ _ Hn 0 x eq_refl) as (d & Hd & Hs). rewrite Nat.add_0_r in Hd.
    apply g_rep_layer. split_and!.
    + exists d. split; [done|]. apply rep_unfold. split; [|constructor]. exists nd. split; [done|].
      apply node_rep_intro; [apply (sr_wf _ _ _ _ Hn)|done|apply (sr_cnt _ _ _ _ Hn)
        |apply (sr_max _ _ _ _ Hn)| |apply (sr_leaf _ _ _ _ Hn)|by left|done
        |intros _; apply (sr_no_kids _ _ _ _ Hn)|apply (sr_parent _ _ _ _ Hn)].
      intros [|i] y Hy; [|done]. cbn in Hy. by simplify_eq.
    + split; [done|]. repeat constructor.
    + done.
    + constructor; [|constructor]. specialize (Hlast x eq_refl). cbn [length] in Hlast.
      by rewrite Nat.add_1_r in Hlast.
  - unfold packed. eapply (g_rep_chain_intro _ _ _ _ _ nd (x :: y :: xs)); [exact Ha| |cbn; lia|done|done|done|done].
    split; [apply (sr_wf _ _ _ _ Hn)|done|apply (sr_leaf _ _ _ _ Hn)|apply (sr_cnt _ _ _ _ Hn)
      |apply (sr_max _ _ _ _ Hn)| | |apply (sr_parent _ _ _ _ Hn)|apply (sr_no_kids _ _ _ _ Hn)].
    + intros i z Hz. destruct (sr_slots _ _ _ _ Hn i z Hz) as (d & _ & [Hk _]%slot_Some). done.
    + intros i Hi. destruct (lookup_lt_is_Some_2 _ _ Hi) as [z Hz].
      destruct (sr_slots _ _ _ _ Hn i z Hz) as (d & Hd & [_ Hk]%slot_Some). by exists d.
Qed.

Lemma chain_seg order level its nd : chain_rep order level its nd → seg_rep order level its nd.
Proof.
  intros Hc. split; [apply (cr_wf _ _ _ _ Hc)|apply (cr_leaf _ _ _ _ Hc)|apply (cr_cnt _ _ _ _ Hc)
    |apply (cr_max _ _ _ _ Hc)| |apply (cr_parent _ _ _ _ Hc)|apply (cr_no_kids _ _ _ _ Hc)].
  intros i x Hx. destruct (cr_dims _ _ _ _ Hc i) as (d & Hd & Hnd); [by eapply lookup_lt_Some|].
  exists d. split; [done|]. apply slot_Some. split; [|done]. by apply (cr_keys _ _ _ _ Hc).
Qed.

Lemma seg_rep_compressed order level its nd c :
  seg_rep order level its nd → seg_rep order level its (node_set_is_compressed c nd).
Proof. intros []. split; try done. by apply node_wf_set_compressed. Qed.

Lemma seg_rep_take order level its nd n :
  seg_rep order level its nd → (n ≤ length its)%nat →
  seg_rep order level (take n its) (node_set_key_cnt n nd).
Proof.
  intros Hs Hn. pose proof (sr_max _ _ _ _ Hs).
  split; [apply node_wf_set_cnt, (sr_wf _ _ _ _ Hs)|apply (sr_leaf _ _ _ _ Hs)
    |rewrite length_take; cbn; lia|rewrite length_take; lia| |apply (sr_parent _ _ _ _ Hs)
    |apply (sr_no_kids _ _ _ _ Hs)].
  intros i x [Hx _]%lookup_take_Some. by apply (sr_slots _ _ _ _ Hs).
Qed.

Lemma seg_rep_set_next order level its nd j z :
  seg_rep order level its nd → (j < length its)%nat →
  seg_rep order level (alter (set_next z) j its) (node_set_next_level j z nd).
Proof.
  intros Hs Hj. pose proof (sr_max _ _ _ _ Hs).
  split; [apply node_wf_set_next, (sr_wf _ _ _ _ Hs)|apply (sr_leaf _ _ _ _ Hs)
    |rewrite length_alter; apply (sr_cnt _ _ _ _ Hs)|by rewrite length_alter| |apply (sr_parent _ _ _ _ Hs)
    |apply (sr_no_kids _ _ _ _ Hs)].
  intros i x (y & Hy & ->)%list_alter_inv.
  destruct (sr_slots _ _ _ _ Hs i y Hy) as (d & Hd & [Hk Hnd]%slot_Some). exists d. split; [done|].
  apply slot_Some. split; [|exact Hnd].
  rewrite node_key_set_next by (apply (sr_wf _ _ _ _ Hs) || lia).
  case_decide as He; [subst i|]; by rewrite Hk.
Qed.

(** The keys from [s] on copied to a new node. *)
Lemma copy_keys_ok p a nd order level its s m z :
  node_at p a = Some nd → seg_rep order level its nd → (s + m ≤ length its)%nat →
  node_at p z = Some new_Node → a ≠ z →
  ∃ zd, copy_keys a s z m p = (Ok tt, put z zd p)
    ∧ seg_rep order (level + s) (take m (drop s its)) (node_set_key_cnt m zd)
    ∧ is_compressed zd = false.
Proof.
  intros Ha Hs Hm Hz Hne. pose proof (sr_max _ _ _ _ Hs).
  destruct (copy_slots p a nd z new_Node (λ j, s + j)%nat id m) as (zd & Hrun & Hsh & Hin & _);
    [done|done|done|apply new_Node_wf| |done|].
  { intros j Hj. destruct (lookup_lt_is_Some_2 its (s + j)) as [x Hx]; [lia|].
    destruct (sr_slots _ _ _ _ Hs _ _ Hx) as (d & _ & Hsl). split_and!; [by eexists|lia|unfold id; lia]. }
  exists zd. split; [exact Hrun|]. split; [|apply (ss_compressed _ _ Hsh)].
  split; [apply node_wf_set_cnt, (ss_wf _ _ Hsh), new_Node_wf|apply (ss_leaf _ _ Hsh)
    |rewrite length_take, length_drop; cbn; lia|rewrite length_take, length_drop; lia|
    |apply (ss_parent _ _ Hsh)|apply (ss_children _ _ Hsh)].
  intros i x (Hx & Hi)%lookup_take_Some. rewrite lookup_drop in Hx.
  destruct (sr_slots _ _ _ _ Hs _ _ Hx) as (d & Hd & Hsl). exists d.
  split; [by rewrite <- Nat.add_assoc|]. rewrite slot_set_cnt. unfold id in Hin. by rewrite Hin.
Qed.

(** A new node with the keys from [s] on. *)
Lemma new_tail_ok p z fl a nd order level its s n :
  heap_ok p (z :: fl) → (2 ≤ length fl)%nat → node_at p a = Some nd → seg_rep order level its nd →
  n = (length its - s)%nat → (s < length its)%nat →
  ∃ p1 zd,
    (∀ B (f : ptr → HM V B),
       (nl ← node_allocator_get; copy_keys a s nl n;; set_key_cnt nl (Z.of_nat n);;
        upd nl (node_set_is_compressed (1 <? n)%nat);; f nl) p = f z p1)
    ∧ heap_ok p1 fl ∧ node_at p1 z = Some zd ∧ seg_rep order (level + s) (drop s its) zd
    ∧ is_compressed zd = (1 <? length (drop s its))%nat
    ∧ node_at p z = None ∧ modifies p p1 [] [z].
Proof.
  intros Hp Hfl Ha Hs -> Hlt. pose proof (sr_max _ _ _ _ Hs).
  destruct (alloc_ok _ _ _ Hp Hfl) as (p0 & Halloc & Hp0 & Hz & Hzd & Hmod).
  assert (a ≠ z) as Haz by (intros ->; congruence).
  assert (node_at p0 a = Some nd) as Ha0 by (eapply mod_frame; [exact Hmod|apply not_elem_of_nil|done]).
  destruct (copy_keys_ok p0 a nd order level its s (length its - s) z) as (zd & Hcopy & Hsd & _);
    [done|done|lia|done|done|].
  rewrite take_ge in Hsd by (rewrite length_drop; lia).
  set (zd2 := node_set_is_compressed (1 <? length its - s)%nat (node_set_key_cnt (length its - s) zd)).
  exists (put z zd2 p0), zd2. split_and!.
  - intros B f. run_ok by (exact Halloc). run_ok by (exact Hcopy).
    run_ok by (apply set_key_cnt_ok; [apply node_at_put_eq|lia]). rewrite put_put.
    run_ok by (apply upd_ok, node_at_put_eq). by rewrite put_put.
  - by eapply heap_ok_put.
  - apply node_at_put_eq.
  - by apply seg_rep_compressed.
  - by rewrite length_drop.
  - done.
  - eapply modifies_trans; [exact Hmod|]. by apply modifies_put_in, list_elem_of_singleton.
Qed.

Lemma next_last_drop p H order level its o s :
  (s < length its)%nat → next_last p H order level its o →
  next_last p H order (level + s) (drop s its) o.
Proof.
  intros Hs [Hnone Hlast]. split.
  - intros i x Hx Hi. rewrite lookup_drop in Hx. rewrite length_drop in Hi. apply (Hnone _ _ Hx). lia.
  - intros x. rewrite length_drop, lookup_drop. intros Hx.
    replace (level + s + (length its - s))%nat with (level + length its)%nat by lia.
    apply Hlast. rewrite <- Hx. f_equal. lia.
Qed.

Lemma next_last_modifies p p' H H' order level its o F F' :
  next_last p H order level its o → modifies p p' F F' → (∀ a, a ∈ o_addrs o → a ∉ F) →
  (H ≤ H')%nat → next_last p' H' order level its o.
Proof.
  intros [Hnone Hlast] Hmod Hdis HH. split; [done|]. intros x Hx. specialize (Hlast x Hx).
  destruct o as [g|]; [|exact Hlast]. destruct Hlast as [Hx' Hg]. split; [done|].
  by eapply g_rep_modifies.
Qed.

Lemma chain_parts p H order level a c cs o :
  g_rep p H order level (GChain a c cs o) →
  ∃ nd, node_at p a = Some nd ∧ chain_rep order level (c :: cs) nd
    ∧ Forall (λ x, low (key x) ≤ high (key x)) (c :: cs)
    ∧ next_last p H order level (c :: cs) o ∧ cs ≠ [].
Proof.
  intros ((nd & Ha & Hc) & Hne & Hv & Hnone & Hlast)%g_rep_chain.
  exists nd. split_and!; [done|done|done| |done]. split.
  - intros i x Hx Hi. apply (Hnone i x Hx). cbn in Hi. lia.
  - cbn [length]. rewrite Nat.sub_succ, Nat.sub_0_r. exact Hlast.
Qed.

(** ** The first key separated *)

Lemma decompress_front_ok p z fl H order level a c c1 cs o :
  let g := GChain a c (c1 :: cs) o in
  let g' := GLayer (BNode a [set_next (to_index z) c] []) [Some (packed z c1 cs o)] in
  heap_ok p (z :: fl) → (2 ≤ length fl)%nat → g_rep p H order level g → NoDup (g_addrs g) →
  (1 ≤ H)%nat →
  ∃ p', decompress_node a 0 p = (Ok a, p') ∧ heap_ok p' fl ∧ g_rep p' H order level g'
    ∧ NoDup (g_addrs g') ∧ modifies p p' (g_addrs g) (g_addrs g').
Proof.
  intros g g' Hp Hfl Hg Hnd HH. pose proof (g_rep_addrs_live _ _ _ _ _ z Hg) as Hzlive.
  apply chain_parts in Hg as (nd & Ha & Hc & Hv & Hnl & _). pose proof (chain_seg _ _ _ _ Hc) as Hs.
  cbn [g g_addrs] in Hnd. apply NoDup_cons in Hnd as [Hao Hndo].
  set (its := c :: c1 :: cs) in *.
  destruct (new_tail_ok p z fl a nd order level its 1 (length its - 1)) as
    (p1 & zd & Htail & Hp1 & Hz1 & Hzs & Hzc & Hzd & Hmod1); [done|done|done|done|done|cbn; lia|].
  assert (z ∉ g_addrs g) as Hzg.
  { intros Hin. destruct (Hzlive Hin). congruence. }
  cbn [g g_addrs] in Hzg. apply not_elem_of_cons in Hzg as [Hza Hzo].
  assert (node_at p1 a = Some nd) as Ha1
    by (eapply mod_frame; [exact Hmod1|apply not_elem_of_nil|done]).
  set (a1 := node_set_next_level 0 (to_index z) nd).
  set (a2 := node_set_is_compressed false (node_set_key_cnt 1 a1)).
  assert (modifies p (put a a2 p1) [a] [z; a]) as Hmod.
  { eapply modifies_trans; [by apply (modifies_app _ _ [] [z] [a])|].
    apply modifies_put_in. right. left. }
  pose proof (cr_max _ _ _ _ Hc) as Hmax.
  assert (a ≠ z) as Haz by done.
  assert (1 < length its)%nat as H1 by (cbn; lia).
  exists (put a a2 p1). split_and!.
  - unfold decompress_node. rewrite (bind_load _ _ _ _ Ha), (cr_cnt _ _ _ _ Hc).
    rewrite (proj2 (Nat.leb_gt _ _)), (proj2 (Nat.eqb_neq (length its) 1)) by lia.
    change (0 =? 0)%nat with true. cbn iota.
    replace (Z.of_nat (length its) - 1) with (Z.of_nat (length its - 1)) by lia.
    rewrite Htail.
    run_ok by (eapply set_next_layer_ok; [exact Hp1|exact Ha1|apply (cr_wf _ _ _ _ Hc)|lia|exact Hz1]).
    change 1 with (Z.of_nat 1).
    run_ok by (apply set_key_cnt_ok; [apply node_at_put_eq|lia]). rewrite put_put.
    run_ok by (apply upd_ok, node_at_put_eq). by rewrite put_put.
  - by eapply heap_ok_put.
  - change g' with (packed a (set_next (to_index z) c) [] (Some (packed z c1 cs o))).
    eapply packed_rep; [apply node_at_put_eq| |done|done| |].
    + apply seg_rep_compressed.
      apply (seg_rep_take _ _ _ _ 1 (seg_rep_set_next _ _ _ _ 0 (to_index z) Hs ltac:(lia))).
      rewrite length_alter. lia.
    + by apply Forall_cons in Hv as [Hv _]; constructor.
    + split; [intros [|i] x Hx Hi; cbn in Hi; [lia|done]|]. intros x [= <-]. cbn [length].
      split; [by rewrite packed_addr|].
      eapply packed_rep; [by rewrite node_at_put_ne|exact Hzs|exact Hzc|done|by apply Forall_cons in Hv as [_ Hv]|].
      apply (next_last_drop _ _ _ _ _ _ 1) in Hnl; [|done].
      eapply next_last_modifies; [exact Hnl|exact Hmod| |done].
      by intros a' Ha' ->%list_elem_of_singleton.
  - unfold g'. rewrite g_addrs_layer. cbn [addrs fmap list_fmap concat o_addrs].
    rewrite packed_addrs, app_nil_r. cbn. repeat apply NoDup_cons_2; [|done..].
    by rewrite not_elem_of_cons.
  - unfold g, g'. rewrite g_addrs_layer. cbn [fmap list_fmap concat o_addrs]. rewrite packed_addrs, app_nil_r.
    eapply modifies_mono; [exact Hmod| |]; cbn; set_solver.
Qed.

(** ** A later key separated *)

(** The node of the separated key, linked between the shortened node and the
    node of the keys behind it. *)
Lemma link_single_ok p z fl a nd order level its idx nnl x :
  heap_ok p (z :: fl) → (2 ≤ length fl)%nat → node_at p a = Some nd → seg_rep order level its nd →
  (1 ≤ idx)%nat → its !! idx = Some x →
  (∀ y, its !! (idx - 1)%nat = Some y → knext_level y = INVALID_INDEX) →
  (∀ z1, nnl = Some z1 → is_Some (node_at p z1) ∧ knext_level x = INVALID_INDEX) →
  let x' := match nnl with None => x | Some z1 => set_next (to_index z1) x end in
  ∃ p' zd nd',
    (nl ← node_allocator_get;
     copy_keys a idx nl 1;;
     set_key_cnt nl 1;;
     l ← get_next_layer a (idx - 1);
     assert_ (bool_decide (l = None));;
     set_next_layer a (idx - 1) (Some nl);;
     (match nnl with
      | None => mret tt
      | Some _ =>
          l ← get_next_layer nl 0;
          assert_ (bool_decide (l = None));;
          set_next_layer nl 0 nnl
      end);;
     set_key_cnt a (Z.of_nat idx);;
     upd a (node_set_is_compressed (1 <? idx)%nat);;
     mret nl) p = (Ok z, p')
    ∧ heap_ok p' fl ∧ node_at p' z = Some zd ∧ seg_rep order (level + idx) [x'] zd
    ∧ is_compressed zd = false ∧ node_at p' a = Some nd'
    ∧ seg_rep order level (alter (set_next (to_index z)) (idx - 1)%nat (take idx its)) nd'
    ∧ is_compressed nd' = (1 <? idx)%nat ∧ modifies p p' [a] [z; a] ∧ node_at p z = None.
Proof.
  intros Hp Hfl Ha Hs Hidx Hx Hprev Hnnl x'. pose proof (sr_max _ _ _ _ Hs) as Hmax.
  pose proof (lookup_lt_Some _ _ _ Hx) as Hlt.
  destruct (alloc_ok _ _ _ Hp Hfl) as (p0 & Halloc & Hp0 & Hz & Hzd & Hmod0).
  assert (a ≠ z) as Haz by (intros ->; congruence).
  assert (node_at p0 a = Some nd) as Ha0 by (eapply mod_frame; [exact Hmod0|apply not_elem_of_nil|done]).
  destruct (copy_keys_ok p0 a nd order level its idx 1 z) as (zd & Hcopy & Hzs & Hzc);
    [done|done|lia|done|done|].
  rewrite (drop_S _ _ _ Hx) in Hzs. cbn [take] in Hzs. rewrite take_0 in Hzs.
  set (zd1 := node_set_key_cnt 1 zd) in *. pose proof (heap_ok_put _ _ _ zd1 _ Hp0 Hz) as Hp1.
  destruct (lookup_lt_is_Some_2 its (idx - 1)) as [y Hy]; [lia|].
  destruct (sr_slots _ _ _ _ Hs _ _ Hy) as (dy & _ & [Hyk _]%slot_Some).
  pose proof Hyk as (_ & _ & Hyn)%node_key_inv. rewrite (Hprev y Hy) in Hyn.
  set (a1 := node_set_next_level (idx - 1) (to_index z) nd).
  set (p2 := put a a1 (put z zd1 p0)).
  assert (node_at (put z zd1 p0) a = Some nd) as Ha1 by (by rewrite node_at_put_ne).
  pose proof (heap_ok_put _ _ _ a1 _ Hp1 Ha1) as Hp2. fold p2 in Hp2.
  assert (node_at p2 z = Some zd1) as Hz2.
  { unfold p2. rewrite node_at_put_ne by done. apply node_at_put_eq. }
  set (a2 := node_set_is_compressed (1 <? idx)%nat (node_set_key_cnt idx a1)).
  assert (seg_rep order level (alter (set_next (to_index z)) (idx - 1)%nat (take idx its)) a2) as Ha2.
  { apply seg_rep_compressed.
    pose proof (seg_rep_set_next _ _ _ _ (idx - 1) (to_index z) Hs ltac:(lia)) as H1.
    apply (seg_rep_take _ _ _ _ idx) in H1; [|rewrite length_alter; lia].
    assert (take idx (alter (set_next (to_index z)) (idx - 1)%nat its)
            = alter (set_next (to_index z)) (idx - 1)%nat (take idx its)) as <-; [|exact H1].
    apply list_eq. intros j. destruct (decide (j < idx)%nat).
    - rewrite lookup_take_lt by done. destruct (decide (j = idx - 1)%nat) as [->|].
      + by rewrite !list_lookup_alter_eq, lookup_take_lt by done.
      + by rewrite !list_lookup_alter_ne, lookup_take_lt by done.
    - rewrite !lookup_ge_None_2; [done|rewrite length_alter, length_take; lia|rewrite length_take; lia]. }
  set (zd2 := match nnl with None => zd1 | Some z1 => node_set_next_level 0 (to_index z1) zd1 end).
  assert (seg_rep order (level + idx) [x'] zd2) as Hzs2.
  { subst zd2 x'. destruct nnl as [z1|]; [|exact Hzs].
    apply (seg_rep_set_next _ _ _ _ 0 (to_index z1)) in Hzs; [exact Hzs|cbn; lia]. }
  exists (put a a2 (put z zd2 p2)), zd2, a2. split_and!; try done.
  - run_ok by (exact Halloc). run_ok by (exact Hcopy). change 1 with (Z.of_nat 1).
    run_ok by (apply set_key_cnt_ok; [apply node_at_put_eq|lia]). rewrite put_put. fold zd1.
    run_ok by (by apply (next_layer_none _ _ nd)). rewrite bind_assert by done.
    run_ok by (eapply set_next_layer_ok; [exact Hp1|exact Ha1|apply (sr_wf _ _ _ _ Hs)|lia|apply node_at_put_eq]).
    fold a1 p2.
    assert ((match nnl with
             | None => mret tt
             | Some _ =>
                 l ← get_next_layer z 0;
                 assert_ (bool_decide (l = None));;
                 set_next_layer z 0 nnl
             end) p2 = (Ok tt, put z zd2 p2)) as Hlink.
    { destruct nnl as [z1|]; [|by rewrite put_id]. destruct (Hnnl z1 eq_refl) as [[z1d Hz1] Hxn].
      assert (is_Some (node_at p2 z1)) as [z1d' Hz1'].
      { destruct (decide (z1 = a)) as [->|]; [unfold p2; rewrite node_at_put_eq; by eexists|].
        destruct (decide (z1 = z)) as [->|]; [by eexists|].
        unfold p2. rewrite !node_at_put_ne by done. exists z1d.
        eapply mod_frame; [exact Hmod0|apply not_elem_of_nil|done]. }
      destruct (sr_slots _ _ _ _ Hzs 0 x eq_refl) as (dx & _ & [(_ & _ & Hn0)%node_key_inv _]%slot_Some).
      rewrite Hxn in Hn0. run_ok by (by eapply next_layer_none). rewrite bind_assert by done.
      eapply set_next_layer_ok; [exact Hp2|exact Hz2|apply (sr_wf _ _ _ _ Hzs)|lia|exact Hz1']. }
    run_ok by (exact Hlink).
    run_ok by (apply set_key_cnt_ok; [by rewrite node_at_put_ne; [apply node_at_put_eq|]|lia]).
    run_ok by (apply upd_ok, node_at_put_eq). rewrite put_put. done.
  - eapply heap_ok_put; [by eapply heap_ok_put|]. rewrite node_at_put_ne by done. apply node_at_put_eq.
  - rewrite node_at_put_ne by done. apply node_at_put_eq.
  - subst zd2. by destruct nnl.
  - apply node_at_put_eq.
  - eapply modifies_trans; [by apply (modifies_app _ _ [] [z] [a])|]. cbn [app].
    unfold p2. eapply modifies_trans; [apply modifies_put_in; left|].
    eapply modifies_trans; [apply modifies_put_in; right; left|].
    eapply modifies_trans; [apply modifies_put_in; left|apply modifies_put_in; right; left].
Qed.

(** The keys behind the separated one: the next layer it gets. *)
Lemma decompress_rest_ok p fl a nd H order level its idx o :
  heap_ok p fl → (3 ≤ length fl)%nat → node_at p a = Some nd → seg_rep order level its nd →
  (S idx ≤ length its)%nat → Forall (λ x, low (key x) ≤ high (key x)) its →
  next_last p H order level its o → (1 ≤ H)%nat → a ∉ o_addrs o → NoDup (o_addrs o) →
  (∀ b, b ∈ o_addrs o → is_Some (node_at p b)) → o_shaped o →
  ∃ p1 n nnl o',
    (if (length its - idx - 1 =? 0)%nat then mret None
     else
       nnl ← node_allocator_get;
       copy_keys a (idx + 1) nnl (length its - idx - 1);;
       set_key_cnt nnl (Z.of_nat (length its - idx - 1));;
       upd nnl (node_set_is_compressed (1 <? length its - idx - 1)%nat);;
       mret (Some nnl)) p = (Ok nnl, p1)
    ∧ (n ≤ 1)%nat ∧ heap_ok p1 (drop n fl) ∧ modifies p p1 (o_addrs o) (o_addrs o')
    ∧ NoDup (o_addrs o') ∧ o_shaped o'
    ∧ (∀ z1, nnl = Some z1 → is_Some (node_at p1 z1) ∧ (S idx < length its)%nat)
    ∧ (∀ x, its !! idx = Some x →
         next_rep p1 H order (S (level + idx))
           (match nnl with None => x | Some z1 => set_next (to_index z1) x end) o')
    ∧ (abs <$> o') = chain_trie (drop (S idx) its) (abs <$> o).
Proof.
  intros Hp Hfl Ha Hs Hlt Hv Hnl HH Hao Hndo Hlive Hne.
  destruct (Nat.eqb_spec (length its - idx - 1) 0) as [Hz|Hz].
  - exists p, 0%nat, None, o. rewrite (drop_ge its) by lia. split_and!; try done; [lia|apply modifies_refl|].
    intros x Hx. destruct Hnl as [_ Hlast]. replace (S (level + idx)) with (level + length its)%nat by lia.
    apply Hlast. rewrite <- Hx. f_equal. lia.
  - destruct fl as [|z fl]; [cbn in Hfl; lia|]. cbn [length] in Hfl.
    destruct (new_tail_ok p z fl a nd order level its (S idx) (length its - idx - 1)) as
      (p1 & zd & Htail & Hp1 & Hz1 & Hzs & Hzc & Hzd & Hmod1); [done|lia|done|done|lia|lia|].
    destruct (drop (S idx) its) as [|x1 xs] eqn:Hd.
    { apply (f_equal length) in Hd. rewrite length_drop in Hd. cbn in Hd. lia. }
    assert (z ∉ o_addrs o) as Hzo by (intros Hin; destruct (Hlive z Hin); congruence).
    assert (g_rep p1 H order (level + S idx) (packed z x1 xs o)) as Hg.
    { eapply packed_rep; [exact Hz1|exact Hzs|exact Hzc|done| |].
      - rewrite <- Hd. by apply Forall_drop.
      - apply (next_last_drop _ _ _ _ _ _ (S idx)) in Hnl; [|lia]. rewrite Hd in Hnl.
        eapply next_last_modifies; [exact Hnl|exact Hmod1| |done]. intros b _. apply not_elem_of_nil. }
    exists p1, 1%nat, (Some z), (Some (packed z x1 xs o)).
    replace (idx + 1)%nat with (S idx) by lia. cbn [o_addrs]. rewrite packed_addrs. split_and!.
    + rewrite (Htail _ (λ nnl, mret (Some nnl))). done.
    + done.
    + done.
    + by apply (modifies_app _ _ [] [z] (o_addrs o)).
    + by apply NoDup_cons.
    + by apply packed_shaped.
    + intros z1 [= <-]. split; [by eexists|lia].
    + intros x Hx. cbn. rewrite packed_addr. split; [done|]. by rewrite Nat.add_succ_r in Hg.
    + apply packed_abs.
Qed.

Lemma decompress_mid_ok p fl H order level a c cs o idx x :
  let its := c :: cs in
  let g := GChain a c cs o in
  heap_ok p fl → (4 ≤ length fl)%nat → g_rep p H order level g → NoDup (g_addrs g) →
  o_shaped o → (1 ≤ H)%nat → (1 ≤ idx)%nat → its !! idx = Some x →
  ∃ p' n z x' o' nd',
    (decompress_node a idx p = (Ok z, p') ∧ (n ≤ 2)%nat ∧ heap_ok p' (drop n fl))
    ∧ (g_rep p' H order (level + idx) (packed z x' [] o') ∧ key x' = key x ∧ o_shaped o'
       ∧ Some (abs (packed z x' [] o')) = chain_trie (drop idx its) (abs <$> o))
    ∧ (node_at p' a = Some nd'
       ∧ seg_rep order level (alter (set_next (to_index z)) (idx - 1)%nat (take idx its)) nd'
       ∧ is_compressed nd' = (1 <? idx)%nat)
    ∧ NoDup (a :: z :: o_addrs o') ∧ modifies p p' (g_addrs g) (a :: z :: o_addrs o').
Proof.
  intros its g Hp Hfl Hg Hnd Hne HH Hidx Hx.
  pose proof (λ b, g_rep_addrs_live _ _ _ _ _ b Hg) as Hlive.
  apply chain_parts in Hg as (nd & Ha & Hc & Hv & Hnl & _). pose proof (chain_seg _ _ _ _ Hc) as Hs.
  cbn [g g_addrs] in Hnd. apply NoDup_cons in Hnd as [Hao Hndo]. fold its in Hc, Hs, Hv, Hnl.
  pose proof (lookup_lt_Some _ _ _ Hx) as Hlt.
  destruct (decompress_rest_ok p fl a nd H order level its idx o) as
    (p1 & n & nnl & o' & Hrun1 & Hn & Hp1 & Hmod1 & Hndo' & Hne' & Hnnl & Hnext & Habs);
    [done|lia|done|done|lia|done|done|done|done|done| |done|].
  { intros b Hb. apply Hlive. by right. }
  assert (node_at p1 a = Some nd) as Ha1 by (by eapply mod_frame).
  destruct (drop n fl) as [|z fl1] eqn:Hfl1.
  { apply (f_equal length) in Hfl1. rewrite length_drop in Hfl1. cbn in Hfl1. lia. }
  assert (2 ≤ length fl1)%nat as Hlen1.
  { apply (f_equal length) in Hfl1. rewrite length_drop in Hfl1. cbn in Hfl1. lia. }
  destruct (link_single_ok p1 z fl1 a nd order level its idx nnl x) as
    (p2 & zd & nd' & Hrun2 & Hp2 & Hz2 & Hzs & Hzc & Ha2 & Hns & Hnc & Hmod2 & Hzd);
    [done|done|done|done|done|done| | |].
  { intros y Hy. apply (proj1 Hnl _ _ Hy). lia. }
  { intros z1 Hz1. destruct (Hnnl z1 Hz1). split; [done|]. by apply (proj1 Hnl _ _ Hx). }
  set (x' := match nnl with None => x | Some z1 => set_next (to_index z1) x end) in *.
  assert (key x' = key x ∧ kvalue x' = kvalue x) as [Hkx Hvx] by (subst x'; by destruct nnl).
  assert (∀ b, b ∈ o_addrs o' → b ≠ a ∧ b ≠ z) as Hdis.
  { specialize (Hnext x Hx). intros b Hb.
    assert (is_Some (node_at p1 b)) as Hlive1.
    { destruct o' as [g'|]; [|by apply not_elem_of_nil in Hb]. destruct Hnext as [_ Hg'].
      by eapply g_rep_addrs_live. }
    split; [|intros ->; destruct Hlive1; congruence].
    intros ->. destruct (mod_fresh _ _ _ _ Hmod1 a Hb) as [?|?]; [done|congruence]. }
  exists p2, (S n), z, x', o', nd'. split; [split_and!|split; [split_and!|split; [done|split]]].
  - unfold decompress_node. rewrite (bind_load _ _ _ _ Ha), (cr_cnt _ _ _ _ Hc). fold its.
    rewrite (proj2 (Nat.leb_gt _ _)), (proj2 (Nat.eqb_neq idx 0)) by lia. cbn zeta.
    run_ok by (exact Hrun1). exact Hrun2.
  - lia.
  - replace (drop (S n) fl) with fl1; [done|].
    by rewrite <- Nat.add_1_r, <- drop_drop, Hfl1.
  - eapply packed_rep; [exact Hz2|exact Hzs|exact Hzc|done| |].
    + constructor; [|done]. rewrite Hkx. rewrite Forall_forall in Hv.
      by eapply Hv, list_elem_of_lookup_2.
    + split; [intros [|i] y Hy Hi; cbn in Hi; [lia|done]|]. intros y [= <-]. cbn [length].
      rewrite Nat.add_1_r. eapply next_rep_modifies; [by apply Hnext|exact Hmod2| |done].
      intros b Hb ->%list_elem_of_singleton. by destruct (Hdis _ Hb).
  - done.
  - done.
  - rewrite packed_abs, (drop_S _ _ _ Hx). cbn [chain_trie]. by rewrite Hkx, Hvx, Habs.
  - repeat apply NoDup_cons_2; [|by intros Hin; destruct (Hdis _ Hin)|done].
    apply not_elem_of_cons. split; [by intros ->; rewrite Ha1 in Hzd|].
    intros Hin. by destruct (Hdis _ Hin).
  - apply (modifies_app _ _ _ _ [a]) in Hmod1. apply (modifies_app _ _ _ _ (o_addrs o')) in Hmod2.
    rewrite (Permutation_app_comm (o_addrs o') [a]) in Hmod1.
    pose proof (modifies_trans _ _ _ _ _ _ Hmod1 Hmod2) as Hmod.
    eapply modifies_mono; [exact Hmod| |]; unfold g; cbn; set_solver.
Qed.
End Decompress.
