(* ===== verification/Integrity.v ===== *)
(** * The integrity check holds

    [integrity_check] of [b_tree_node_navigator.h] on a represented tree all of
    whose nodes hold keys: no assertion fails. *)
From S2P Require Import Prelude Range RuleValue Mempool Node NodeLemmas Search Layer LayerSearch Trie Footprint Slots Insert Split Chain.
Local Open Scope Z_scope.

Section Integrity.
Context `{cfg : !BTreeCfg, Hok : !CfgOk} {V : Type} `{!RuleValue V}.
Implicit Types (p : Heap V) (nd : Node V) (t : btree V) (g : gtrie V) (order : list nat).

Lemma g_rep_root p H order level g :
  g_rep p H order level g → ∃ nd, node_at p (g_addr g) = Some nd ∧ parent nd = None.
Proof.
  destruct g as [[a its ts] nexts|a c cs nl].
  - intros ((d & _ & [(nd & Ha & Hn) _]%rep_unfold) & _)%g_rep_layer. exists nd.
    split; [done|]. apply (nr_parent _ _ _ _ _ Hn).
  - intros ((nd & Ha & Hc) & _)%g_rep_chain. exists nd. split; [done|]. apply (cr_parent _ _ _ _ Hc).
Qed.

(** The next layer of a key, as the code reads it. *)
Lemma next_layer_at p fl H order level a nd i x o :
  heap_ok p fl → node_at p a = Some nd → node_key nd i = Some x → next_rep p H order level x o →
  get_next_layer a i p = (Ok (g_addr <$> o), p).
Proof.
  intros Hp Ha (_ & _ & Hn)%node_key_inv Ho. destruct o as [g|]; cbn in Ho |- *.
  - destruct Ho as [Hx Hg]. destruct (g_rep_live _ _ _ _ _ Hg) as [gd Hgd]. rewrite Hx in Hn.
    by eapply next_layer_some.
  - rewrite Ho in Hn. by eapply next_layer_none.
Qed.

Section check.
Context (p : Heap V) (fl : list nat) (H : nat) (order : list nat).
Hypothesis Hp : heap_ok p fl.

(** The check of the next layer of a key succeeds with [F] fuel. *)
Definition next_checked (level F : nat) (o : option (gtrie V)) : Prop :=
  ∀ g fuel, o = Some g → (F ≤ fuel)%nat → integrity_check fuel (g_addr g) order level p = (Ok tt, p).

(** The loop over the next layers of a node. *)
Lemma check_next_ok a nd (its : list (KeyInfo V)) i x o level F fuel :
  node_at p a = Some nd → node_key nd i = Some x → (i < MAX_DEGREE)%nat →
  next_rep p H order level x o → next_checked level F o → (F ≤ fuel)%nat →
  (_ ← get_key a i;
   nl ← get_next_layer a i;
   match nl with
   | None => mret tt
   | Some l =>
       ld ← load l;
       assert_ (bool_decide (parent ld = None));;
       integrity_check fuel l order level
   end) p = (Ok tt, p).
Proof using Hp.
  intros Ha Hx Hi Ho Hc HF. run_ok by (by eapply get_key_ok). run_ok by (by eapply next_layer_at).
  destruct o as [g|]; [|done]. cbn. destruct Ho as [_ Hg].
  destruct (g_rep_root _ _ _ _ _ Hg) as (gd & Hgd & Hpar).
  rewrite (bind_load _ _ _ _ Hgd), bind_assert by (by apply bool_decide_true). by apply Hc.
Qed.

Lemma check_btree_ok d level F t par fuel :
  rep p d par t → t_nonempty t →
  (∀ x, x ∈ flat t → ∃ o, next_rep p H order (S level) x o ∧ next_checked (S level) F o) →
  (height t + F ≤ fuel)%nat →
  integrity_check fuel (addr t) order level p = (Ok tt, p).
Proof using Hp.
  revert par fuel. induction t as [a its ts IH] using btree_ind'.
  intros par fuel Hr Hne Hx Hf. destruct fuel as [|fuel]; [cbn in Hf; lia|].
  pose proof Hr as [(nd & Ha & Hn) Hts]%rep_unfold. apply t_nonempty_unfold in Hne as [Hine Htne].
  pose proof (nr_max _ _ _ _ _ Hn). assert (0 < length its)%nat by (destruct its; [done|cbn; lia]).
  cbn [integrity_check addr]. rewrite (bind_load _ _ _ _ Ha), (nr_cnt _ _ _ _ _ Hn).
  rewrite !bind_assert by (apply Nat.ltb_lt || apply Nat.leb_le; lia).
  rewrite (nr_compressed _ _ _ _ _ Hn), bind_ret, (nr_leaf _ _ _ _ _ Hn).
  assert ((if bool_decide (addr <$> ts = []) then mret tt
     else
       assert_ (negb false);;
       for_each (range_up 0 (S (length its))) (λ i,
         ch ← child a i;
         assert_ (bool_decide (ch ≠ None));;
         c ← or_ub ch;
         cd ← load c;
         assert_ (bool_decide (parent cd = Some a));;
         integrity_check fuel c order level)) p = (Ok tt, p)) as Hkids.
  { destruct (rep_arity _ _ _ _ _ Hn) as [->|Hl]; [done|].
    rewrite bool_decide_false by (intros ->%fmap_nil_inv; done). rewrite bind_assert by done.
    apply for_each_pure. intros i Hi. destruct (lookup_lt_is_Some_2 ts i) as [c Hc]; [lia|].
    pose proof (list_elem_of_lookup_2 _ _ _ Hc) as Hcin.
    destruct (rep_kids_live _ _ _ _ _ _ Hr (addr c)) as (cd & Hcd & Hpar);
      [by apply list_elem_of_fmap_2|].
    run_ok by (eapply child_some; [done|done| |done];
      apply (nr_kids _ _ _ _ _ Hn); by rewrite list_lookup_fmap, Hc).
    rewrite bind_assert by done. cbn [or_ub]. rewrite bind_ret, (bind_load _ _ _ _ Hcd).
    rewrite bind_assert by (by apply bool_decide_true).
    rewrite Forall_forall in IH, Hts, Htne. eapply (IH c Hcin); [by apply Hts|by apply Htne| |].
    - intros x Hxc. apply Hx. by eapply flat_kids.
    - pose proof (height_kid a its ts c Hcin). lia. }
  run_ok by (exact Hkids). apply for_each_pure. intros i Hi.
  destruct (lookup_lt_is_Some_2 its i) as [x Hxi]; [lia|].
  destruct (Hx x) as (o & Ho & Hoc).
  { apply flat_items; [by eapply rep_arity|by eapply list_elem_of_lookup_2]. }
  rewrite Nat.add_1_r.
  eapply (check_next_ok a nd its i x o (S level) F);
    [done|by apply (nr_keys _ _ _ _ _ Hn)|lia|done|done|cbn in Hf; lia].
Qed.

Lemma integrity_check_ok g level fuel :
  g_rep p H order level g → g_shaped g → (S H * (length order - level) ≤ fuel)%nat →
  integrity_check fuel (g_addr g) order level p = (Ok tt, p).
Proof using Hp Hok.
  revert level fuel. induction g as [t nexts IH|a c cs nl IH] using gtrie_ind'; intros level fuel Hg Hne Hf.
  - pose proof (g_rep_level _ _ _ _ _ Hg).
    apply g_rep_layer in Hg as ((d & Hd & Hr) & _ & Hh & Hn). apply g_shaped_layer in Hne as [[Htne _] Hne].
    apply (check_btree_ok d level (S H * (length order - S level)) t None); [done|done| |].
    + intros x (i & Hi)%list_elem_of_lookup.
      destruct (Forall2_lookup_l _ _ _ _ _ Hn Hi) as (o & Ho & Hxo). exists o. split; [done|].
      intros g fuel' -> HF. cbn in Hxo. destruct Hxo as [_ Hg]. apply IH; [|done| |done].
      * by eapply list_elem_of_lookup_2.
      * rewrite Forall_lookup in Hne. by apply (Hne i (Some g)).
    + replace (length order - level)%nat with (S (length order - S level)) in Hf by lia. lia.
  - pose proof (g_rep_level _ _ _ _ _ Hg). cbn [g_addr].
    apply g_rep_chain in Hg as ((nd & Ha & Hc) & Hcs & _ & Hnone & Hlast).
    destruct fuel as [|fuel]; [lia|]. pose proof (cr_max _ _ _ _ Hc) as Hmax.
    assert (1 < length (c :: cs))%nat by (destruct cs; [done|cbn; lia]).
    cbn [integrity_check]. rewrite (bind_load _ _ _ _ Ha), (cr_cnt _ _ _ _ Hc).
    rewrite bind_assert by (apply Nat.ltb_lt; lia). rewrite bind_assert by (by apply Nat.leb_le).
    rewrite (cr_compressed _ _ _ _ Hc), (cr_leaf _ _ _ _ Hc).
    assert (for_each (range_up 0 (length (c :: cs))) (λ i,
           d ← (match order !! (level + i)%nat with Some d => mret d | None => throw out_of_range end);
           actual_d ← get_dim a i;
           assert_ (d =? actual_d)%nat) p = (Ok tt, p)) as Hdims.
    { apply for_each_pure. intros i Hi. destruct (cr_dims _ _ _ _ Hc i) as (d & Hd & Hnd); [lia|].
      rewrite Hd, bind_ret. run_ok by (by eapply get_dim_ok). by rewrite Nat.eqb_refl. }
    assert ((assert_ true;; assert_ (1 <? length (c :: cs))%nat;;
      for_each (range_up 0 (length (c :: cs))) (λ i,
           d ← (match order !! (level + i)%nat with Some d => mret d | None => throw out_of_range end);
           actual_d ← get_dim a i;
           assert_ (d =? actual_d)%nat)) p = (Ok tt, p)) as Hcomp.
    { rewrite !bind_assert by (done || by apply Nat.ltb_lt). exact Hdims. }
    run_ok by (exact Hcomp). rewrite bind_ret.
    apply for_each_pure. intros i Hi. destruct (lookup_lt_is_Some_2 (c :: cs) i) as [x Hx]; [lia|].
    destruct (decide (i = length cs)) as [->|Hil].
    + replace (level + 1 + length cs)%nat with (level + length (c :: cs))%nat by (cbn; lia).
      eapply (check_next_ok a nd (c :: cs) (length cs) x nl _ (S H * (length order - (level + length (c :: cs)))));
        [done|by apply (cr_keys _ _ _ _ Hc)|lia|by apply Hlast| |nia].
      intros g fuel' -> HF. specialize (Hlast x Hx) as [_ Hg]. by apply IH.
    + eapply (check_next_ok a nd (c :: cs) i x None (level + 1 + i) 0);
        [done|by apply (cr_keys _ _ _ _ Hc)|lia| |done|lia].
      apply (Hnone i x Hx). cbn in Hi. lia.
Qed.
End check.
End Integrity.
