(* ===== verification/SearchPath.v ===== *)
(** * The path of a rule

    [search_path] on a represented tree: it follows the keys equal to the
    ranges of the rule and returns the positions of the longest such prefix;
    the check of the path it ends with succeeds.  [walk] describes the prefix
    in terms of the tree. *)
From S2P Require Import Prelude Range RuleValue Mempool Node NodeLemmas Search Layer LayerSearch Trie Footprint Slots Insert Split Chain Integrity.
Local Open Scope Z_scope.

Section SearchPath.
Context `{cfg : !BTreeCfg, Hok : !CfgOk} {V : Type} `{!RuleValue V}.
Implicit Types (p : Heap V) (nd : Node V) (t : btree V) (g : gtrie V) (o : option (gtrie V)).

(** The items of the keys [i], ..., [i + m - 1] of a compressed node. *)
Definition chain_items (a : ptr) (i m : nat) : list path_item := (λ j, (a, a, j)) <$> seq i m.

(** From level [l] on, the keys [ks] lead through the positions [path]. *)
Inductive walk (ks : list Range1d) : nat → option (gtrie V) → list path_item → Prop :=
| walk_none l : walk ks l None []
| walk_miss l t nexts k :
    ks !! l = Some k → (∀ x, x ∈ flat t → key x ≠ k) → walk ks l (Some (GLayer t nexts)) []
| walk_hit l t nexts b i j x o rest :
    ks !! l = Some (key x) → key_at t b i x → flat t !! j = Some x → nexts !! j = Some o →
    walk ks (S l) o rest → walk ks l (Some (GLayer t nexts)) ((addr t, b, i) :: rest)
| walk_chain_miss l a c cs nl k :
    ks !! l = Some k → key c ≠ k → walk ks l (Some (GChain a c cs nl)) []
| walk_chain_part l a c cs nl m x k :
    (∀ i y, (i < m)%nat → (c :: cs) !! i = Some y → ks !! (l + i)%nat = Some (key y)) →
    (1 ≤ m)%nat → (c :: cs) !! m = Some x → ks !! (l + m)%nat = Some k → key x ≠ k →
    walk ks l (Some (GChain a c cs nl)) (chain_items a 0 m)
| walk_chain l a c cs nl rest :
    (∀ i y, (c :: cs) !! i = Some y → ks !! (l + i)%nat = Some (key y)) →
    walk ks (l + length (c :: cs)) nl rest →
    walk ks l (Some (GChain a c cs nl)) (chain_items a 0 (length (c :: cs)) ++ rest).

Section search.
Context (p : Heap V) (fl : list nat) (H : nat) (order : list nat).
Context (rule_ : rule_spec_t V) (ks : list Range1d).
Hypothesis Hp : heap_ok p fl.
Hypothesis Hks : Forall2 (λ d k, fields rule_ !! d = Some k) order ks.

Lemma order_key l d : order !! l = Some d → ∃ k, ks !! l = Some k ∧ fields rule_ !! d = Some k.
Proof using Hks. intros Hd. destruct (Forall2_lookup_l _ _ _ _ _ Hks Hd); eauto. Qed.

(** The dimension of the first key of a layer. *)
Lemma root_dim level g :
  g_rep p H order level g → g_shaped g →
  ∃ d, order !! level = Some d ∧ get_dim (g_addr g) 0 p = (Ok d, p).
Proof.
  destruct g as [[a its ts] nexts|a c cs nl].
  - intros ((d & Hd & [(nd & Ha & Hn) _]%rep_unfold) & _)%g_rep_layer
      [[[Hne _]%t_nonempty_unfold _] _]%g_shaped_layer.
    exists d. split; [done|]. eapply get_dim_ok; [exact Ha|].
    apply (nr_dims _ _ _ _ _ Hn). destruct its; [done|cbn; lia].
  - intros ((nd & Ha & Hc) & _)%g_rep_chain _.
    destruct (cr_dims _ _ _ _ Hc 0) as (d & Hd & Hnd); [cbn; lia|]. rewrite Nat.add_0_r in Hd.
    exists d. split; [done|]. by eapply get_dim_ok.
Qed.

(** The dimension of the first key of a node. *)
Lemma rep_first_dim d par t b :
  rep p d par t → t_nonempty t → b ∈ addrs t → get_dim b 0 p = (Ok d, p).
Proof.
  intros Hr Hne Hb. unfold addrs in Hb. apply list_elem_of_fmap in Hb as ([b' its] & -> & Hin).
  unfold t_nonempty in Hne. rewrite Forall_forall in Hne. specialize (Hne _ Hin). cbn in Hne |- *.
  destruct its as [|x its]; [done|].
  destruct (rep_key_at p d par t b' 0 x Hr) as (nd & Hb & _ & _ & _ & _ & Hd); [by exists (x :: its)|].
  by eapply get_dim_ok.
Qed.

(** The check of the dimension of the next layer. *)
Lemma next_dim_ok level x o _d :
  next_rep p H order (S level) x o → o_shaped o → order !! (level + 1)%nat = Some _d →
  (match g_addr <$> o with
   | None => mret tt
   | Some l => nl_dim ← get_dim l 0; assert_ (nl_dim =? _d)%nat
   end) p = (Ok tt, p).
Proof.
  destruct o as [g|]; [|done]. intros [_ Hg] Hne Hd'. cbn.
  destruct (root_dim _ _ Hg Hne) as (d & Hd & Hdim). run_ok by (exact Hdim).
  rewrite Nat.add_1_r, Hd in Hd'. injection Hd' as ->. by rewrite Nat.eqb_refl.
Qed.

(** The debug block reads behind the dimension order: the path has reached the
    last level, in a node that is not compressed. *)
Definition overreads (level : nat) (path : list path_item) : bool :=
  (level + length path =? length order)%nat
  && match last path with
     | Some (_, b, _) => match node_at p b with Some nd => negb (is_compressed nd) | None => false end
     | None => false
     end.

Lemma overreads_nil level : overreads level [] = false.
Proof. unfold overreads. cbn. by rewrite andb_false_r. Qed.

Lemma overreads_app level l1 rest :
  overreads level l1 = false → overreads level (l1 ++ rest) = overreads (level + length l1) rest.
Proof.
  intros Hl. destruct rest as [|x rest]; [by rewrite app_nil_r, overreads_nil|].
  unfold overreads. by rewrite length_app, Nat.add_assoc, last_app_cons.
Qed.

Lemma overreads_short level path :
  (level + length path < length order)%nat → overreads level path = false.
Proof. intros Hl. unfold overreads. by rewrite (proj2 (Nat.eqb_neq _ _)) by lia. Qed.

Lemma overreads_chain level a nd i m :
  node_at p a = Some nd → is_compressed nd = true → overreads level (chain_items a i m) = false.
Proof.
  intros Ha Hc. unfold overreads, chain_items. destruct m as [|m]; [by rewrite andb_false_r|].
  rewrite seq_S, fmap_app. cbn [fmap list_fmap]. by rewrite last_snoc, Ha, Hc, andb_false_r.
Qed.

(** The outcome of a search for the path [path]. *)
Definition found_path (level : nat) (path : list path_item) : result (list path_item) * Heap V :=
  (if overreads level path then Err undefined_behaviour else Ok path, p).

Lemma search_path_compressed_ok level a nd its n i :
  node_at p a = Some nd → chain_rep order level its nd → (i + n = length its)%nat →
  ∃ m, (i ≤ m ≤ length its)%nat
    ∧ search_path_compressed a order rule_ level n i p
      = (Ok (bool_decide (m = length its), chain_items a i (m - i)), p)
    ∧ (∀ j y, (i ≤ j < m)%nat → its !! j = Some y → ks !! (level + j)%nat = Some (key y))
    ∧ ((m < length its)%nat → ∃ x k, its !! m = Some x ∧ ks !! (level + m)%nat = Some k ∧ key x ≠ k).
Proof using Hks.
  intros Ha Hc. pose proof (cr_max _ _ _ _ Hc). revert i. induction n as [|n IH]; intros i Hn.
  - exists i. rewrite Nat.sub_diag, bool_decide_true by lia. split_and!; [lia|lia|done|lia|lia].
  - destruct (lookup_lt_is_Some_2 its i) as [x Hx]; [lia|].
    destruct (cr_dims _ _ _ _ Hc i) as (d & Hd & Hnd); [lia|].
    destruct (order_key _ _ Hd) as (k & Hk & Hf).
    cbn [search_path_compressed]. rewrite Hd. cbn [or_ub]. rewrite bind_ret.
    run_ok by (by eapply get_dim_ok). rewrite bind_assert by (apply Nat.eqb_refl).
    rewrite Hf. cbn [or_ub]. rewrite bind_ret.
    run_ok by (eapply get_key_ok; [exact Ha|by apply (cr_keys _ _ _ _ Hc)|lia]).
    rewrite range_ne_spec. destruct (range_eq (key x) k) eqn:E; cbn [negb].
    + apply range_eq_spec in E as <-. destruct (IH (S i)) as (m & Hm & Hrun & Hmatch & Hmiss); [lia|].
      run_ok by (exact Hrun). exists m. split_and!; [lia|lia| |..|done].
      * unfold chain_items. by replace (m - i)%nat with (S (m - S i)) by lia.
      * intros j y Hj Hy. destruct (decide (j = i)) as [->|]; [by simplify_eq|].
        apply Hmatch; [lia|done].
    + exists i. rewrite Nat.sub_diag, bool_decide_false by lia.
      split_and!; [lia|lia|done|lia|]. intros _. exists x, k. split_and!; [done..|].
      intros He. by rewrite (proj2 (range_eq_spec _ _) He) in E.
Qed.

Lemma flat_index t x : x ∈ flat t → ∃ j, flat t !! j = Some x.
Proof. apply list_elem_of_lookup_1. Qed.

Lemma search_path_layer_ok level t nexts fuel :
  g_rep p H order level (GLayer t nexts) → g_shaped (GLayer t nexts) → (H ≤ fuel)%nat →
  (∀ o, o ∈ nexts → ∃ rest,
     search_path_loop fuel (g_addr <$> o) order rule_ (S level) p = found_path (S level) rest
     ∧ walk ks (S level) o rest) →
  ∃ path, search_path_loop (S fuel) (Some (addr t)) order rule_ level p = found_path level path
    ∧ walk ks level (Some (GLayer t nexts)) path.
Proof using Hp Hks.
  intros Hg Hne Hf IH. destruct (root_dim _ _ Hg Hne) as (d & Hd & Hdim).
  destruct (order_key _ _ Hd) as (k & Hk & Hfk).
  pose proof Hg as ((d' & Hd' & Hr) & Hs & Hh & Hn)%g_rep_layer. rewrite Hd in Hd'. injection Hd' as <-.
  apply g_shaped_layer in Hne as [_ Hne].
  cbn [search_path_loop]. rewrite Hd. cbn [or_ub]. rewrite bind_ret. run_ok by (exact Hdim).
  rewrite bind_assert by apply Nat.eqb_refl. rewrite Hfk. cbn [or_ub]. rewrite bind_ret.
  destruct (search_1d_ok p fl d None t (by_range k) fuel Hp Hr Hs ltac:(lia)) as ([r1 i] & Hr1 & Hres).
  run_ok by (exact Hr1). cbn [fst snd] in *. destruct r1 as [b|].
  2: { exists []. split; [unfold found_path; by rewrite overreads_nil|by eapply walk_miss]. }
  destruct Hres as (x & Hx & Hxf & Hm). cbn in Hm. subst k.
  destruct (rep_key_at _ _ _ _ _ _ _ Hr Hx) as (nb & Hb & Hkey & Hnc & Hlt & Hmax & Hnd).
  destruct (flat_index _ _ Hxf) as [j Hj]. destruct (Forall2_lookup_l _ _ _ _ _ Hn Hj) as (o & Ho & Hxo).
  pose proof (list_elem_of_lookup_2 _ _ _ Ho) as Hin. destruct (IH o Hin) as (rest & Hrest & Hw).
  rewrite Forall_forall in Hne. destruct (rep_live _ _ _ _ Hr) as [na Ha].
  exists ((addr t, b, i) :: rest). split; [|by eapply walk_hit].
  run_ok by (by eapply get_dim_ok). rewrite bind_assert by apply Nat.eqb_refl.
  run_ok by (by eapply next_layer_at).
  destruct (order !! (level + 1)%nat) as [_d|] eqn:Hd1; cbn [or_ub].
  - apply lookup_lt_Some in Hd1 as Hlt1.
    rewrite bind_ret. run_ok by (eapply next_dim_ok; [exact Hxo|by apply Hne|done]).
    rewrite (bind_load _ _ _ _ Ha), (bind_load _ _ _ _ Hb), Hnc. cbn [andb].
    unfold found_path in Hrest |- *. change ((addr t, b, i) :: rest) with ([(addr t, b, i)] ++ rest).
    rewrite overreads_app by (apply overreads_short; cbn; lia). cbn [length app].
    rewrite Nat.add_1_r. destruct (overreads (S level) rest).
    + by rewrite (bind_err _ _ _ _ _ Hrest).
    + by run_ok by (exact Hrest).
  - apply lookup_ge_None in Hd1. apply lookup_lt_Some in Hd. destruct o as [g|].
    + destruct Hxo as [_ Hl%g_rep_level]. lia.
    + inversion Hw; subst. unfold found_path, overreads. cbn [length last].
      assert (level + 1 = length order)%nat as El by lia. rewrite El, Nat.eqb_refl, Hb, Hnc.
      apply bind_throw.
Qed.

Lemma search_path_chain_ok level a c cs nl fuel :
  g_rep p H order level (GChain a c cs nl) → (1 ≤ fuel)%nat →
  (∃ rest, search_path_loop fuel (g_addr <$> nl) order rule_ (level + length (c :: cs)) p
       = found_path (level + length (c :: cs)) rest
     ∧ walk ks (level + length (c :: cs)) nl rest) →
  ∃ path, search_path_loop (S fuel) (Some a) order rule_ level p = found_path level path
    ∧ walk ks level (Some (GChain a c cs nl)) path.
Proof using Hp Hks.
  intros Hg Hf (rest & Hrest & Hw).
  apply g_rep_chain in Hg as ((nd & Ha & Hc) & Hcs & _ & Hnone & Hlast).
  destruct (cr_dims _ _ _ _ Hc 0) as (d & Hd & Hnd); [cbn; lia|]. rewrite Nat.add_0_r in Hd.
  destruct (order_key _ _ Hd) as (k & Hk & Hfk).
  assert (1 < length (c :: cs))%nat as Hl by (destruct cs; [done|cbn; lia]).
  destruct (cr_dims _ _ _ _ Hc 1) as (d1 & Hd1 & _); [lia|].
  pose proof (cr_keys _ _ _ _ Hc 0 c eq_refl) as Hc0.
  pose proof Hc0 as (Hkeys0 & _ & _)%node_key_inv.
  cbn [search_path_loop]. rewrite Hd. cbn [or_ub]. rewrite bind_ret.
  run_ok by (by eapply get_dim_ok). rewrite bind_assert by apply Nat.eqb_refl.
  rewrite Hfk. cbn [or_ub]. rewrite bind_ret.
  assert (search_possition_1d fuel (Some a) (by_range k) p
          = (Ok (if range_eq (key c) k then (Some a, 0%nat) else (None, 0%nat)), p)) as Hsp.
  { destruct fuel as [|f]; [lia|]. cbn [search_possition_1d].
    rewrite (bind_load _ _ _ _ Ha), (cr_compressed _ _ _ _ Hc).
    unfold search_compressed_seq. rewrite Hkeys0. cbn [mbind option_bind or_ub].
    rewrite bind_ret, orb_true_r. cbn [found val_index]. by destruct (range_eq (key c) k). }
  run_ok by (exact Hsp). destruct (range_eq (key c) k) eqn:E; cbn [fst snd].
  2: { exists []. split; [unfold found_path; by rewrite overreads_nil|].
       eapply walk_chain_miss; [exact Hk|]. intros He.
       by rewrite (proj2 (range_eq_spec _ _) He) in E. }
  apply range_eq_spec in E as <-.
  run_ok by (by eapply get_dim_ok). rewrite bind_assert by apply Nat.eqb_refl.
  run_ok by (apply (next_layer_none _ _ nd); [done|];
    apply node_key_inv in Hc0 as (_ & _ & ->); f_equal; apply (Hnone 0%nat c eq_refl); cbn in Hl; lia).
  rewrite Hd1. cbn [or_ub].
  rewrite !bind_ret, !(bind_load _ _ _ _ Ha), (cr_compressed _ _ _ _ Hc), (cr_cnt _ _ _ _ Hc).
  rewrite (proj2 (Nat.ltb_lt 0 _)) by lia. cbn [andb]. rewrite bind_assert by (by apply Nat.ltb_lt).
  rewrite bind_assert by apply Nat.eqb_refl.
  destruct (search_path_compressed_ok level a nd (c :: cs) (length (c :: cs) - 1) 1 Ha Hc)
    as (m & Hm & Hrun & Hmatch & Hmiss); [lia|].
  assert (∀ i y, (i < m)%nat → (c :: cs) !! i = Some y → ks !! (level + i)%nat = Some (key y)) as Hall.
  { intros [|i] y Hi Hy; [rewrite Nat.add_0_r; cbn in Hy; by simplify_eq|]. apply Hmatch; [lia|done]. }
  run_ok by (exact Hrun).
  assert ((a, a, 0%nat) :: chain_items a 1 (m - 1) = chain_items a 0 m) as Hitems.
  { unfold chain_items. destruct m as [|m]; [lia|]. cbn [seq fmap list_fmap]. by rewrite Nat.sub_succ, Nat.sub_0_r. }
  case_bool_decide as Hfull.
  - subst m. destruct (lookup_lt_is_Some_2 (c :: cs) (length cs)) as [x Hx]; [cbn; lia|].
    replace (length (c :: cs) - 1)%nat with (length cs) in Hitems |- * by (cbn; lia).
    run_ok by (eapply (next_layer_at p fl H order _ a nd); [done|done| |by apply Hlast];
      by apply (cr_keys _ _ _ _ Hc)).
    exists (chain_items a 0 (length (c :: cs)) ++ rest).
    split; [|apply walk_chain; [|done]; intros i y Hy; apply Hall; [by eapply lookup_lt_Some|done]].
    unfold found_path in Hrest |- *.
    rewrite overreads_app by (by eapply overreads_chain; [|apply (cr_compressed _ _ _ _ Hc)]).
    unfold chain_items at 2. rewrite length_fmap, length_seq, <- Hitems. cbn [app].
    destruct (overreads _ rest); [by rewrite (bind_err _ _ _ _ _ Hrest)|by run_ok by (exact Hrest)].
  - destruct Hmiss as (x & k' & Hx & Hk' & Hne); [lia|].
    exists (chain_items a 0 m). split; [|eapply walk_chain_part; [done|lia|done..]].
    unfold found_path. rewrite (overreads_chain _ _ nd) by (done || apply (cr_compressed _ _ _ _ Hc)).
    by rewrite <- Hitems.
Qed.

Lemma search_path_loop_None level fuel :
  search_path_loop fuel None order rule_ level p = found_path level [].
Proof. unfold found_path. rewrite overreads_nil. by destruct fuel. Qed.

Lemma search_path_loop_ok level o fuel :
  (∀ g, o = Some g → g_rep p H order level g) → o_shaped o →
  (S H + (length order - level) ≤ fuel)%nat →
  ∃ path, search_path_loop fuel (g_addr <$> o) order rule_ level p = found_path level path
    ∧ walk ks level o path.
Proof using Hp Hks.
  intros Ho Hne Hf. destruct o as [g|].
  2: { exists []. split; [apply search_path_loop_None|constructor]. }
  specialize (Ho g eq_refl). cbn in Hne |- *. revert level fuel Ho Hne Hf.
  induction g as [t nexts IH|a c cs nl IH] using gtrie_ind'; intros level fuel Hg Hne Hf.
  - pose proof (g_rep_level _ _ _ _ _ Hg). destruct fuel as [|fuel]; [lia|].
    apply search_path_layer_ok; [done|done|lia|].
    apply g_rep_layer in Hg as (_ & _ & _ & Hn). apply g_shaped_layer in Hne as [_ Hne].
    intros [g|] Hin; [|exists []; split; [apply search_path_loop_None|constructor]].
    apply list_elem_of_lookup in Hin as Hi. destruct Hi as [i Hi].
    destruct (Forall2_lookup_r _ _ _ _ _ Hn Hi) as (x & _ & _ & Hg).
    rewrite Forall_forall in Hne. apply IH; [done|done|by apply (Hne (Some g))|lia].
  - pose proof (g_rep_level _ _ _ _ _ Hg). destruct fuel as [|fuel]; [lia|].
    cbn [g_addr]. apply search_path_chain_ok; [done|lia|].
    apply g_rep_chain in Hg as (_ & _ & _ & _ & Hlast). destruct nl as [g|].
    2: { exists []. split; [apply search_path_loop_None|constructor]. }
    destruct (lookup_lt_is_Some_2 (c :: cs) (length cs)) as [x Hx]; [cbn; lia|].
    specialize (Hlast x Hx) as [_ Hg]. apply IH; [done|done|done|cbn; lia].
Qed.

(** ** The check of the path *)

(** The position before the path leads to the layer [o]. *)
Definition linked (root : option ptr) (prev : option path_item) o : Prop :=
  match prev with
  | None => root = g_addr <$> o
  | Some (_, n, i) =>
      is_Some (node_at p n) ∧ n ∉ o_addrs o ∧ get_next_layer n i p = (Ok (g_addr <$> o), p)
  end.

Lemma check_item root start prev r n i path l nd rd d :
  node_at p n = Some nd → node_at p r = Some rd → parent rd = None →
  (if is_compressed nd then r = n else ∃ d', get_dim r 0 p = (Ok d', p) ∧ get_dim n 0 p = (Ok d', p)) →
  order !! (start + l)%nat = Some d → node_dim nd i = Some d →
  match prev with
  | None => root = Some r
  | Some (_, n', i') =>
      (∃ nd', node_at p n' = Some nd'
       ∧ if is_compressed nd' && (n' =? n)%nat then i = (i' + 1)%nat
         else get_next_layer n' i' p = (Ok (Some r), p))
  end →
  search_path_check root order start prev ((r, n, i) :: path) l p
  = search_path_check root order start (Some (r, n, i)) path (S l) p.
Proof.
  intros Hn Hr Hpar Hdims Hd Hnd Hprev. cbn [search_path_check].
  rewrite (bind_load _ _ _ _ Hn), (bind_load _ _ _ _ Hr).
  assert ((match prev with
       | None => assert_ (bool_decide (Some r = root))
       | Some (_, _n, _i2) =>
           _nd ← load _n;
           if is_compressed _nd && (_n =? n)%nat then assert_ (i =? _i2 + 1)%nat
           else nl ← get_next_layer _n _i2; assert_ (bool_decide (Some r = nl))
       end) p = (Ok tt, p)) as Hlink.
  { destruct prev as [[[r' n'] i']|]; [|by rewrite bool_decide_true].
    destruct Hprev as (nd' & Hn' & Hcase). rewrite (bind_load _ _ _ _ Hn').
    destruct (is_compressed nd' && (n' =? n)%nat); [subst i; by rewrite Nat.eqb_refl|].
    run_ok by (exact Hcase). by rewrite bool_decide_true. }
  run_ok by (exact Hlink). rewrite bind_assert by (by apply bool_decide_true).
  assert ((if is_compressed nd then assert_ (r =? n)%nat
       else rd0 ← get_dim r 0; nd0 ← get_dim n 0; assert_ (rd0 =? nd0)%nat) p = (Ok tt, p)) as Hdim.
  { destruct (is_compressed nd); [subst r; by rewrite Nat.eqb_refl|].
    destruct Hdims as (d' & H1 & H2). run_ok by (exact H1). run_ok by (exact H2).
    by rewrite Nat.eqb_refl. }
  run_ok by (exact Hdim). run_ok by (by eapply get_dim_ok). rewrite Hd. cbn [or_ub].
  by rewrite bind_ret, bind_assert by apply Nat.eqb_refl.
Qed.

(** The items of a compressed node behind its first one. *)
Lemma check_chain_items root start level a nd its j m l rest :
  node_at p a = Some nd → chain_rep order level its nd → (1 ≤ j)%nat → (j + m ≤ length its)%nat →
  (start + l = level + j)%nat →
  search_path_check root order start (Some (a, a, j - 1)%nat) (chain_items a j m ++ rest) l p
  = search_path_check root order start (Some (a, a, j + m - 1)%nat) rest (l + m) p.
Proof.
  intros Ha Hc. revert j l. induction m as [|m IH]; intros j l Hj Hm Hl.
  - rewrite !Nat.add_0_r. done.
  - cbn [chain_items seq fmap list_fmap app]. destruct (cr_dims _ _ _ _ Hc j) as (d & Hd & Hnd); [lia|].
    erewrite check_item; [|exact Ha|exact Ha|apply (cr_parent _ _ _ _ Hc)|
      by rewrite (cr_compressed _ _ _ _ Hc)|by rewrite Hl|exact Hnd|].
    + replace j with (S j - 1)%nat at 1 by lia. fold (chain_items a (S j) m). rewrite IH by lia.
      f_equal; [do 2 f_equal|]; lia.
    + exists nd. split; [done|]. rewrite (cr_compressed _ _ _ _ Hc), Nat.eqb_refl. cbn. lia.
Qed.

(** The node a linked layer is entered from is not the node of its first item. *)
Lemma linked_prev root prev o r n i :
  linked root prev o → g_addr <$> o = Some r → n ∈ o_addrs o →
  match prev with
  | None => root = Some r
  | Some (_, n', i') =>
      (∃ nd', node_at p n' = Some nd'
       ∧ if is_compressed nd' && (n' =? n)%nat then i = (i' + 1)%nat
         else get_next_layer n' i' p = (Ok (Some r), p))
  end.
Proof.
  intros Hl Hr Hn. destruct prev as [[[r' n'] i']|]; cbn in Hl; [|by rewrite <- Hr].
  destruct Hl as ([nd' Hn'] & Hni & Hnl). exists nd'. split; [done|].
  destruct (Nat.eqb_spec n' n) as [->|]; [done|]. rewrite andb_false_r. by rewrite <- Hr.
Qed.

Lemma check_chain_first root start prev a c cs nl nd i path :
  node_at p a = Some nd → chain_rep order (start + i) (c :: cs) nd →
  linked root prev (Some (GChain a c cs nl)) →
  search_path_check root order start prev ((a, a, 0%nat) :: path) i p
  = search_path_check root order start (Some (a, a, 0%nat)) path (S i) p.
Proof.
  intros Ha Hc Hlink. destruct (cr_dims _ _ _ _ Hc 0) as (d & Hd & Hnd); [cbn; lia|].
  rewrite Nat.add_0_r in Hd.
  apply (check_item _ _ _ _ _ _ _ _ nd nd d); [exact Ha|exact Ha|apply (cr_parent _ _ _ _ Hc)|
    by rewrite (cr_compressed _ _ _ _ Hc)|exact Hd|exact Hnd|].
  eapply linked_prev; [exact Hlink|done|]. cbn. left.
Qed.

Lemma search_path_check_ok root start l o path prev i :
  walk ks l o path → l = (start + i)%nat → (∀ g, o = Some g → g_rep p H order l g) →
  o_shaped o → NoDup (o_addrs o) → linked root prev o →
  search_path_check root order start prev path i p = (Ok tt, p).
Proof using Hp.
  intros Hw. revert prev i.
  induction Hw as [l|l t nexts k Hk Hno|l t nexts b j jx x o rest Hk Hx Hj Ho _ IH|l a c cs nl k Hk Hc
    |l a c cs nl m x k Hmatch Hm Hx Hk Hxk|l a c cs nl rest Hmatch _ IH];
    intros prev i -> Hg Hne Hnd Hlink; [done|done| |done| |].
  - specialize (Hg _ eq_refl). destruct (root_dim _ _ Hg Hne) as (d & Hd & Hdim).
    pose proof Hg as ((d' & Hd' & Hr) & Hs & _ & Hn)%g_rep_layer. rewrite Hd in Hd'. injection Hd' as <-.
    cbn [o_shaped] in Hne. cbn [o_addrs] in Hnd. apply g_shaped_layer in Hne as [[Htne _] Hne].
    destruct (rep_key_at _ _ _ _ _ _ _ Hr Hx) as (nb & Hb & Hkey & Hnc & Hlt & Hmax & Hbd).
    destruct (g_rep_root _ _ _ _ _ Hg) as (nr & Hnr & Hpar). cbn [g_addr] in Hnr.
    assert (b ∈ addrs t) as Hbt.
    { destruct Hx as (its & Hin & _). unfold addrs. by apply (list_elem_of_fmap_2 fst) in Hin. }
    erewrite check_item; [|exact Hb|exact Hnr|exact Hpar| |exact Hd|exact Hbd|].
    + pose proof (list_elem_of_lookup_2 _ _ _ Ho) as Hoin.
      pose proof (Forall2_lookup_lr _ _ _ _ _ _ Hn Hj Ho) as Hxo. rewrite Forall_forall in Hne.
      rewrite g_addrs_layer in Hnd. apply NoDup_app in Hnd as (_ & Hdis & Hndn).
      assert (o_addrs o ∈ o_addrs <$> nexts) as Hon by by apply list_elem_of_fmap_2.
      apply IH; [lia| |by apply Hne|by eapply NoDup_concat_part|].
      * intros g ->. by destruct Hxo.
      * cbn. split_and!; [by eexists| |eapply next_layer_at; [exact Hp|exact Hb|exact Hkey|exact Hxo]].
        intros Hin. apply (Hdis b Hbt), elem_of_concat. by exists (o_addrs o).
    + rewrite Hnc. destruct Hx as (its & Hin & Hi). exists d. split; [exact Hdim|].
      by eapply rep_first_dim.
    + eapply linked_prev; [exact Hlink|done|]. cbn. apply elem_of_app. by left.
  - specialize (Hg _ eq_refl). apply g_rep_chain in Hg as ((nd & Ha & Hc) & _).
    pose proof (lookup_lt_Some _ _ _ Hx) as Hlt. destruct m as [|m]; [lia|].
    change (chain_items a 0 (S m)) with ((a, a, 0%nat) :: chain_items a 1 m).
    erewrite check_chain_first; [|done|done|done].
    rewrite <- (app_nil_r (chain_items a 1 m)).
    rewrite (check_chain_items root start (start + i) a nd (c :: cs) 1 m) by (done || lia). done.
  - specialize (Hg _ eq_refl). pose proof Hg as ((nd & Ha & Hc) & _ & _ & _ & Hlast)%g_rep_chain.
    cbn in Hne, Hnd. apply NoDup_cons in Hnd as [Hani Hnd].
    change (chain_items a 0 (length (c :: cs)) ++ rest)
      with ((a, a, 0%nat) :: chain_items a 1 (length cs) ++ rest).
    erewrite check_chain_first; [|done|done|done].
    rewrite (check_chain_items root start (start + i) a nd (c :: cs) 1 (length cs)) by (done || cbn; lia).
    destruct (lookup_lt_is_Some_2 (c :: cs) (length cs)) as [x Hx]; [cbn; lia|].
    specialize (Hlast x Hx). apply IH; [cbn; lia| |done|done|].
    + intros g ->. by destruct Hlast.
    + cbn [linked]. split_and!; [by eexists|done|].
      replace (1 + length cs - 1)%nat with (length cs) by lia.
      eapply next_layer_at; [exact Hp|exact Ha|by apply (cr_keys _ _ _ _ Hc)|exact Hlast].
Qed.

(** The search: it follows the keys, and reads out of bounds when they end in
    the last level of a tree, outside of a compressed node. *)
Lemma search_path_run level o fuel :
  (∀ g, o = Some g → g_rep p H order level g) → o_shaped o → NoDup (o_addrs o) →
  (S H + (length order - level) ≤ fuel)%nat →
  ∃ path, search_path fuel (g_addr <$> o) order rule_ level p = found_path level path ∧ walk ks level o path.
Proof using Hp Hks.
  intros Hg Hne Hnd Hf. destruct (search_path_loop_ok level o fuel Hg Hne Hf) as (path & Hrun & Hw).
  exists path. split; [|done]. unfold search_path, found_path in Hrun |- *.
  destruct (overreads level path); [by rewrite (bind_err _ _ _ _ _ Hrun)|]. run_ok by (exact Hrun).
  run_ok by (eapply search_path_check_ok; [exact Hw|by rewrite Nat.add_0_r|done|done|done|done]). done.
Qed.

(** A search that returned found the whole path. *)
Lemma search_path_inv level o fuel path :
  (∀ g, o = Some g → g_rep p H order level g) → o_shaped o → NoDup (o_addrs o) →
  (S H + (length order - level) ≤ fuel)%nat →
  search_path fuel (g_addr <$> o) order rule_ level p = (Ok path, p) → walk ks level o path.
Proof using Hp Hks.
  intros Hg Hne Hnd Hf Hrun.
  destruct (search_path_run level o fuel Hg Hne Hnd Hf) as (path' & Hrun' & Hw).
  rewrite Hrun in Hrun'. unfold found_path in Hrun'. destruct (overreads level path'); [done|].
  by injection Hrun' as ->.
Qed.
End search.
End SearchPath.
