(* ===== verification/InsertNext.v ===== *)
(** * Insertion into a layer without a matching key

    [insert_to_root] on a next layer none of whose keys equals the key of the
    rule, whatever holds it: a B-tree, a compressed node, or nothing. *)
From S2P Require Import Prelude Range RuleValue Mempool Node NodeLemmas Search Layer LayerSearch Trie Footprint Slots Insert Split Chain InsertLayer InsertRoot Decompress Integrity SearchPath.
Local Open Scope Z_scope.

Section InsertNext.
Context `{cfg : !BTreeCfg, Hok : !CfgOk} {V : Type} `{!RuleValue V}.
Implicit Types (p : Heap V) (nd : Node V) (t : btree V) (g : gtrie V) (o : option (gtrie V)).

(** No key of the layer overlaps [k]. *)
Definition apart_root (k : Range1d) o : Prop :=
  match o with
  | None => True
  | Some (GLayer t _) => Forall (apart k) (flat t)
  | Some (GChain _ c _ _) => apart k c
  end.

(** Enough fuel for the checks and the descents of one insertion. *)
Definition fuel_bound (H : nat) (order : list nat) : nat :=
  (S H * length order + S H + 3 * length order)%nat.

Lemma apart_ne k (x : KeyInfo V) : low k ≤ high k → apart k x → key x ≠ k.
Proof. unfold apart, below, above. intros Hk Ha He. rewrite He in Ha. lia. Qed.

Section rule.
Context (order : list nat) (rule_ : rule_spec_t V) (ks : list Range1d) (req : nat).
Hypothesis Hrp : rule_path order rule_ ks req.
Hypothesis HPC : PATH_COMPRESSION = true.
Context (b : nat) (k : Range1d) (d : nat).
Hypothesis Hb : (b < req)%nat.
Hypothesis Hk : ks !! b = Some k.
Hypothesis Hd : order !! b = Some d.

Local Notation ck := (cookie_at order rule_ req).
Local Notation inserted := (o_inserted order rule_ ks req b).

Lemma apart_walk o path :
  apart_root k o → walk ks b o path → path = [].
Proof using Hrp Hb Hk.
  pose proof (key_valid _ _ _ _ Hrp _ _ Hb Hk) as Hkv. intros Hap Hw.
  inversion Hw; subst; [done|done| |done| |]; exfalso; cbn in Hap.
  - rewrite Forall_forall in Hap. eapply (apart_ne k x); [done| |congruence].
    apply Hap. by eapply list_elem_of_lookup_2.
  - match goal with
    | Hm : ∀ i y, (i < _)%nat → _ |- _ => specialize (Hm 0%nat c ltac:(lia) eq_refl)
    end. rewrite Nat.add_0_r in *. eapply (apart_ne k c); [done|done|congruence].
  - match goal with
    | Hm : ∀ i y, (c :: cs) !! i = _ → _ |- _ => specialize (Hm 0%nat c eq_refl)
    end. rewrite Nat.add_0_r in *. eapply (apart_ne k c); [done|done|congruence].
Qed.

Lemma req_order : (req ≤ length order)%nat.
Proof using Hrp. rewrite (rp_length _ _ _ _ Hrp). apply (rp_req _ _ _ _ Hrp). Qed.

Lemma inserted_after_skip p p1 p' z fl N H o o1 r :
  modifies p p1 (o_addrs o) (o_addrs o1) → (abs <$> o1) = (abs <$> o) →
  inserted p1 p' fl N H o1 r → inserted p p' (z :: fl) (S N) H o r.
Proof.
  intros Hmod Habs (n & g' & [Hn Hp'] & Hg & Ha & Hm). exists (S n), g'.
  split; [split; [lia|done]|split; [done|split]].
  - by rewrite <- Habs.
  - by eapply modifies_trans.
Qed.

(** Insertion into a layer by a new search that finds nothing. *)
Lemma insert_miss_ok p fl H t nexts fuel :
  heap_ok p fl → (H + req + 8 ≤ length fl)%nat →
  g_rep p H order b (GLayer t nexts) → NoDup (g_addrs (GLayer t nexts)) →
  g_shaped (GLayer t nexts) → Forall (apart k) (flat t) → (fuel_bound H order + 2 ≤ fuel)%nat →
  ∃ p' r, insert fuel (Some (addr t)) (ck b) p = (Ok (Some r), p')
    ∧ inserted p p' fl (H + req + 2) H (Some (GLayer t nexts)) r
    ∧ ((length (items t) < MAX_DEGREE)%nat → r = addr t).
Proof using Hok Hrp HPC Hb Hk Hd.
  intros Hp Hfl Hg Hnd Hne Hap Hfuel. pose proof req_order. unfold fuel_bound in Hfuel.
  destruct fuel as [|fuel]; [lia|].
  destruct (search_path_run p fl H order rule_ ks Hp (rp_keys _ _ _ _ Hrp) b (Some (GLayer t nexts)) fuel)
    as (path & Hsp & Hw); [by intros ? [= <-]|done|done|lia|].
  apply (apart_walk (Some (GLayer t nexts))) in Hw as ->; [|done].
  unfold found_path in Hsp. rewrite overreads_nil in Hsp.
  destruct (insert_to_root_layer_ok order rule_ ks req Hrp HPC b k d Hb Hk Hd p fl H t nexts fuel)
    as (p' & r & Hrun & Hins & Hr); [done|lia|done|done|done|done|lia|].
  exists p', r. split; [|split; [|done]].
  - rewrite insert_S. cbn [cookie_at dimension_order rule level]. run_ok by (exact Hsp).
    cbn [last]. run_ok by (exact Hrun). done.
  - eapply o_inserted_mono; [|exact Hins]. lia.
Qed.

(** The common prefix of a compressed node and the rule is empty. *)
Lemma common_keys_none p a nd c cs :
  node_at p a = Some nd → chain_rep order b (c :: cs) nd → apart k c →
  common_keys_loop a (length (c :: cs)) 0 (ck b) p = (Ok (0%nat, ck b), p).
Proof using Hrp Hb Hk Hd Hok.
  intros Ha Hc Hap. pose proof (key_valid _ _ _ _ Hrp _ _ Hb Hk) as Hkv.
  pose proof (cr_max _ _ _ _ Hc) as Hmax. cbn [length] in Hmax.
  destruct (cr_dims _ _ _ _ Hc 0) as (d' & Hd' & Hnd); [cbn; lia|].
  rewrite Nat.add_0_r, Hd in Hd'. injection Hd' as <-.
  cbn [length common_keys_loop]. run_ok by (by eapply get_dim_ok).
  unfold at_. cbn [cookie_at dimension_order level]. rewrite Hd, bind_ret, bind_assert by apply Nat.eqb_refl.
  run_ok by (by eapply actual_key_ok).
  run_ok by (eapply get_key_ok; [exact Ha|by apply (cr_keys _ _ _ _ Hc)|lia]).
  rewrite range_ne_spec. destruct (range_eq (key c) k) eqn:E; [|done].
  apply range_eq_spec in E. by apply apart_ne in Hap.
Qed.

(** A compressed root: its first key is separated, then the rule goes into the
    layer of that key. *)
Lemma insert_to_root_chain_ok p fl H a c cs o fuel :
  heap_ok p fl → (H + req + 9 ≤ length fl)%nat → (1 ≤ H)%nat →
  g_rep p H order b (GChain a c cs o) → NoDup (g_addrs (GChain a c cs o)) → o_shaped o →
  apart k c → (fuel_bound H order + 5 ≤ fuel)%nat →
  ∃ p', insert_to_root fuel (Some a) (ck b) p = (Ok a, p')
    ∧ inserted p p' fl (H + req + 3) H (Some (GChain a c cs o)) a.
Proof using Hok Hrp HPC Hb Hk Hd.
  intros Hp Hfl HH Hg Hnd Hne Hap Hfuel. pose proof req_order.
  destruct fl as [|z fl]; cbn [length] in Hfl; [lia|].
  destruct (chain_parts _ _ _ _ _ _ _ _ Hg) as (nd & Ha & Hc & _ & _ & Hcs).
  destruct cs as [|c1 cs]; [done|].
  destruct (decompress_front_ok p z fl H order b a c c1 cs o) as (p1 & Hdec & Hp1 & Hg1 & Hnd1 & Hmod1);
    [done|lia|done|done|done|].
  set (t1 := BNode a [set_next (to_index z) c] []) in *. set (nx := [Some (packed z c1 cs o)]) in *.
  assert (g_shaped (GLayer t1 nx)) as Hne1.
  { apply g_shaped_layer. split; [by apply leaf_shaped|].
    constructor; [by apply packed_shaped|done]. }
  destruct max_degree as [HM HM1]. unfold fuel_bound in Hfuel.
  destruct fuel as [|[|[|fuel]]]; [lia..|].
  assert (integrity_check fuel a order b p1 = (Ok tt, p1)) as Hcheck.
  { apply (integrity_check_ok p1 fl H order Hp1 (GLayer t1 nx) b fuel Hg1 Hne1).
    assert (S H * (length order - b) ≤ S H * length order)%nat by (apply Nat.mul_le_mono_l; lia). lia. }
  destruct (insert_miss_ok p1 fl H t1 nx fuel) as (p' & r & Hrun & Hins & Hr);
    [done|lia|done|done|done|by constructor|unfold fuel_bound; lia|].
  rewrite (Hr ltac:(change (1 < MAX_DEGREE)%nat; lia)) in Hrun, Hins. exists p'. split.
  - rewrite insert_to_root_S, (bind_load _ _ _ _ Ha), (cr_compressed _ _ _ _ Hc).
    assert (1 < length (c :: c1 :: cs))%nat by (cbn; lia).
    assert (insert_in_to_compressed (S (S fuel)) a (ck b) p = (Ok tt, p')) as Hcomp.
    { rewrite insert_in_to_compressed_S, (bind_load _ _ _ _ Ha).
      rewrite !bind_assert by (first [apply (cr_compressed _ _ _ _ Hc)|apply (cr_leaf _ _ _ _ Hc)
        |rewrite (cr_cnt _ _ _ _ Hc); by apply Nat.ltb_lt]).
      rewrite (cr_cnt _ _ _ _ Hc). run_ok by (by eapply common_keys_none).
      rewrite _insert_in_to_compressed_S, (bind_load _ _ _ _ Ha).
      rewrite !bind_assert by (first [apply (cr_compressed _ _ _ _ Hc)|apply (cr_leaf _ _ _ _ Hc)|done]).
      rewrite (cr_cnt _ _ _ _ Hc). cbn [length Nat.eqb].
      run_ok by (exact Hdec). cbn [cookie_at dimension_order level]. run_ok by (exact Hcheck).
      run_ok by (exact Hrun). done. }
    run_ok by (exact Hcomp). done.
  - replace (H + req + 3)%nat with (S (H + req + 2)) by lia.
    eapply (inserted_after_skip p p1 p' z fl _ H (Some (GChain a c (c1 :: cs) o)) (Some (GLayer t1 nx)));
      [exact Hmod1| |exact Hins].
    subst t1 nx. cbn [fmap option_fmap option_map]. rewrite abs_chain. cbn [fmap option_fmap option_map].
    change (GLayer (BNode a [set_next (to_index z) c] []) [Some (packed z c1 cs o)])
      with (packed a (set_next (to_index z) c) [] (Some (packed z c1 cs o))).
    rewrite packed_abs. cbn [fmap option_fmap option_map]. rewrite packed_abs. done.
Qed.

(** Insertion of the rest of a rule into a next layer that has no key
    overlapping the key of the rule: it returns and the stored trie is that of
    the abstract insertion. *)
Lemma insert_to_root_ok p fl H o fuel :
  heap_ok p fl → (H + req + 9 ≤ length fl)%nat → (1 ≤ H)%nat →
  (∀ g, o = Some g → g_rep p H order b g) → NoDup (o_addrs o) → o_shaped o → apart_root k o →
  (fuel_bound H order + 5 ≤ fuel)%nat →
  ∃ p' r, insert_to_root fuel (g_addr <$> o) (ck b) p = (Ok r, p')
    ∧ inserted p p' fl (H + req + 3) H o r.
Proof using Hok Hrp HPC Hb Hk Hd.
  intros Hp Hfl HH Hg Hnd Hne Hap Hfuel. pose proof req_order. destruct o as [[t nexts|a c cs o]|].
  - specialize (Hg _ eq_refl). unfold fuel_bound in Hfuel.
    destruct (insert_to_root_layer_ok order rule_ ks req Hrp HPC b k d Hb Hk Hd p fl H t nexts fuel)
      as (p' & r & Hrun & Hins & _); [done|lia|done|done|done|done|lia|].
    exists p', r. split; [exact Hrun|]. eapply o_inserted_mono; [|exact Hins]. lia.
  - specialize (Hg _ eq_refl).
    destruct (insert_to_root_chain_ok p fl H a c cs o fuel) as (p' & Hrun & Hins); [done..|].
    by exists p', a.
  - unfold fuel_bound in Hfuel.
    destruct (new_node_ok order rule_ ks req Hrp p fl b fuel) as
      (p' & r & Hrun & n & g & Hn & Hp' & Hg' & Ha & Hnd' & Hne' & Habs & Hmod); [done|done|done|lia|lia|].
    exists p', r. split; [exact Hrun|]. exists n, g.
    split; [split; [lia|done]|split; [split_and!; [apply Hg'; lia|done|done|done]|split; [|exact Hmod]]].
    rewrite Habs. unfold rest. cbn [fmap option_fmap option_map]. by destruct (drop b ks).
Qed.

Lemma insert_next_ok p fl H o fuel :
  heap_ok p fl → (H + req + 9 ≤ length fl)%nat → (1 ≤ H)%nat →
  (∀ g, o = Some g → g_rep p H order b g) → NoDup (o_addrs o) → o_shaped o → apart_root k o →
  (fuel_bound H order + 6 ≤ fuel)%nat →
  ∃ p' r, insert fuel (g_addr <$> o) (ck b) p = (Ok (Some r), p')
    ∧ inserted p p' fl (H + req + 3) H o r.
Proof using Hok Hrp HPC Hb Hk Hd.
  intros Hp Hfl HH Hg Hnd Hne Hap Hfuel. destruct fuel as [|fuel]; [lia|].
  destruct (search_path_run p fl H order rule_ ks Hp (rp_keys _ _ _ _ Hrp) b o fuel)
    as (path & Hsp & Hw); [done|done|done|unfold fuel_bound in Hfuel; lia|].
  apply (apart_walk o) in Hw as ->; [|done].
  unfold found_path in Hsp. rewrite overreads_nil in Hsp.
  destruct (insert_to_root_ok p fl H o fuel) as (p' & r & Hrun & Hins); [done..|lia|].
  exists p', r. split; [|done].
  rewrite insert_S. cbn [cookie_at dimension_order rule level]. run_ok by (exact Hsp).
  cbn [last]. run_ok by (exact Hrun). done.
Qed.
End rule.
End InsertNext.
