(* ===== verification/KeyUpdate.v ===== *)
(** * One key of a layer changed in place

    The value or the next layer of a key is overwritten: the layer is
    represented again, and exactly one key of its key sequence has changed. *)
From S2P Require Import Prelude Range RuleValue Mempool Node NodeLemmas Search Layer LayerSearch Trie Footprint Slots Insert Split Chain InsertLayer Decompress.
Local Open Scope Z_scope.

Section KeyUpdate.
Context `{cfg : !BTreeCfg, Hok : !CfgOk} {V : Type} `{!RuleValue V}.
Implicit Types (p : Heap V) (nd : Node V) (t : btree V) (its : list (KeyInfo V)).

(** ** The tree with a key changed *)

Fixpoint t_alter (b : ptr) (i : nat) (f : KeyInfo V → KeyInfo V) t : btree V :=
  match t with
  | BNode a its ks => BNode a (if decide (a = b) then alter f i its else its) (t_alter b i f <$> ks)
  end.

Lemma t_alter_id b i f t : b ∉ addrs t → t_alter b i f t = t.
Proof.
  induction t as [a its ks IH] using btree_ind'. rewrite addrs_unfold. intros Hb. cbn.
  apply not_elem_of_cons in Hb as [Hne Hb]. rewrite decide_False by congruence. f_equal.
  rewrite Forall_forall in IH. apply list_eq. intros j. rewrite list_lookup_fmap.
  destruct (ks !! j) as [k|] eqn:Hj; [|done]. cbn. f_equal.
  apply IH; [by eapply list_elem_of_lookup_2|]. intros Hin. apply Hb, elem_of_concat.
  exists (addrs k). split; [done|]. by eapply list_elem_of_fmap_2, list_elem_of_lookup_2.
Qed.

Lemma t_alter_addr b i f t : addr (t_alter b i f t) = addr t.
Proof. by destruct t. Qed.

Lemma t_alter_addrs b i f t : addrs (t_alter b i f t) = addrs t.
Proof.
  induction t as [a its ks IH] using btree_ind'. cbn [t_alter]. rewrite !addrs_unfold. do 2 f_equal.
  rewrite <- list_fmap_compose. apply list_fmap_ext. intros j k Hj. cbn.
  rewrite Forall_lookup in IH. by eapply IH.
Qed.

Lemma t_alter_height b i f t : height (t_alter b i f t) = height t.
Proof.
  induction t as [a its ks IH] using btree_ind'. cbn. do 2 f_equal.
  rewrite <- list_fmap_compose. apply list_fmap_ext. intros j k Hj. cbn.
  rewrite Forall_lookup in IH. by eapply IH.
Qed.

Lemma t_alter_nonempty b i f t : t_nonempty t → t_nonempty (t_alter b i f t).
Proof.
  induction t as [a its ks IH] using btree_ind'. cbn [t_alter]. rewrite !t_nonempty_unfold.
  intros [Hi Hk]. split.
  - case_decide; [|done]. intros He%(f_equal length). rewrite length_alter in He. by destruct its.
  - rewrite Forall_fmap. rewrite !Forall_forall in *. intros k Hin. cbn. auto.
Qed.

Lemma balanced_alter b i f h t : balanced h (t_alter b i f t) = balanced h t.
Proof.
  revert h. induction t as [a its ks IH] using btree_ind'. intros [|h]; cbn [t_alter balanced].
  - by destruct ks.
  - f_equal; [by destruct ks|]. induction IH as [|c ks Hc _ IHk]; [done|]. cbn. rewrite IHk, Hc. do 2 f_equal.
    destruct c as [? its' ?]. cbn. case_decide; [|done]. by rewrite length_alter.
Qed.

Lemma t_alter_shaped b i f t : t_shaped t → t_shaped (t_alter b i f t).
Proof. intros [Hne [h Hb]]. split; [by apply t_alter_nonempty|]. exists h. by rewrite balanced_alter. Qed.

(** ** Its keys *)

Lemma weave_alter its (xss : list (list (KeyInfo V))) i x f :
  xss = [] ∨ length xss = S (length its) → its !! i = Some x →
  ∃ j, weave its xss !! j = Some x ∧ weave (alter f i its) xss = alter f j (weave its xss).
Proof.
  intros Hl Hx. pose proof (lookup_lt_Some _ _ _ Hx) as Hlt. destruct Hl as [->|Hl]; [by exists i|].
  destruct (lookup_lt_is_Some_2 xss i) as [xs Hxs]; [lia|].
  destruct (lookup_lt_is_Some_2 xss (S i)) as [ys Hys]; [lia|].
  rewrite (weave_split its _ i xs), (weave_split (alter f i its) _ i xs) by (by rewrite ?length_alter).
  assert (weave_pre (alter f i its) xss i = weave_pre its xss i) as ->
    by (unfold weave_pre; by rewrite take_alter_ge).
  rewrite (weave_post_S _ _ _ _ _ Hys Hx).
  rewrite (weave_post_S _ _ _ ys (f x) Hys) by (by rewrite list_lookup_alter_eq, Hx).
  assert (weave_post (alter f i its) xss (S i) = weave_post its xss (S i)) as ->
    by (unfold weave_post; by rewrite drop_alter_lt by lia).
  exists (length (weave_pre its xss i ++ xs) + 0)%nat. rewrite !app_assoc. split.
  - by rewrite lookup_app_r, Nat.add_0_r, Nat.sub_diag by lia.
  - by rewrite alter_app_r.
Qed.

Lemma t_alter_flat p d par t b i f x :
  rep p d par t → NoDup (addrs t) → key_at t b i x →
  ∃ j, flat t !! j = Some x ∧ flat (t_alter b i f t) = alter f j (flat t).
Proof.
  revert par. induction t as [a its ks IH] using btree_ind'. intros par Hr Hnd (its' & Hin & Hx).
  pose proof Hr as [(nd & Ha & Hn) Hks]%rep_unfold. pose proof (rep_arity _ _ _ _ _ Hn) as Hl.
  destruct (addrs_disjoint _ _ _ Hnd) as (Hk & Hij & _).
  cbn [nodes] in Hin. apply elem_of_cons in Hin as [[= -> ->]|Hin].
  - cbn [t_alter flat]. rewrite decide_True by done.
    assert (t_alter a i f <$> ks = ks) as ->.
    { apply list_eq. intros j. rewrite list_lookup_fmap. destruct (ks !! j) as [k|] eqn:Hj; [|done].
      cbn. f_equal. apply t_alter_id. by apply Hk, (list_elem_of_lookup_2 _ j). }
    apply weave_alter; [|done]. destruct Hl as [->|Hl]; [by left|right; by rewrite length_fmap].
  - apply elem_of_concat in Hin as (l & Hl' & (k & -> & Hkin)%list_elem_of_fmap).
    apply list_elem_of_lookup in Hkin as Hm. destruct Hm as [m Hm].
    assert (b ∈ addrs k) as Hbk by (unfold addrs; by apply (list_elem_of_fmap_2 fst) in Hl').
    rewrite Forall_forall in IH, Hks.
    destruct (IH k Hkin (Some a)) as (j & Hj & Hf); [by apply Hks|by apply Hk|by exists its'|].
    assert (a ≠ b) as Hab by (intros ->; by destruct (Hk k Hkin)).
    destruct Hl as [->|Hl]; [done|]. cbn [t_alter]. rewrite decide_False by done.
    assert (t_alter b i f <$> ks = <[m := t_alter b i f k]> ks) as ->.
    { apply list_eq. intros n. rewrite list_lookup_fmap. destruct (decide (n = m)) as [->|Hne].
      - rewrite list_lookup_insert_eq by (by eapply lookup_lt_Some). by rewrite Hm.
      - rewrite list_lookup_insert_ne by done. destruct (ks !! n) as [k'|] eqn:Hn'; [|done].
        cbn. f_equal. apply t_alter_id. intros Hb'. apply Hne. by eapply Hij. }
    destruct (insert_kid_flat a its ks m k (t_alter b i f k) Hl Hm) as [-> ->].
    set (pre := weave_pre _ _ _). set (post := weave_post _ _ _).
    pose proof (lookup_lt_Some _ _ _ Hj). exists (length pre + j)%nat. split.
    + rewrite lookup_app_r by lia. replace (length pre + j - length pre)%nat with j by lia.
      by rewrite lookup_app_l.
    + by rewrite alter_app_r, alter_app_l, Hf.
Qed.

(** ** Its memory *)

Lemma t_alter_rep p d par t b i f (F : Node V → Node V) nb :
  (∀ par its cs nd, node_rep d par its cs nd → (i < length its)%nat →
     node_rep d par (alter f i its) cs (F nd)) →
  rep p d par t → NoDup (addrs t) → (∀ its, (b, its) ∈ nodes t → (i < length its)%nat) →
  node_at p b = Some nb → rep (put b (F nb) p) d par (t_alter b i f t).
Proof.
  intros HF. revert par. induction t as [a its ks IH] using btree_ind'.
  intros par [(nd & Ha & Hn) Hks]%rep_unfold Hnd Hi Hb.
  destruct (addrs_disjoint _ _ _ Hnd) as (Hk & _ & _). cbn [t_alter]. apply rep_unfold. split.
  - assert (addr <$> (t_alter b i f <$> ks) = addr <$> ks) as ->.
    { rewrite <- list_fmap_compose. apply list_fmap_ext. intros j k _. apply t_alter_addr. }
    case_decide as Hab.
    + subst b. simplify_eq. eexists. split; [apply node_at_put_eq|]. apply HF; [done|].
      apply Hi. left.
    + exists nd. by rewrite node_at_put_ne by congruence.
  - rewrite Forall_fmap. rewrite Forall_forall in IH, Hks |- *. intros k Hin. cbn.
    apply IH; [done|by apply Hks|by apply Hk| |done].
    intros its' Hin'. apply Hi. cbn. right. apply elem_of_concat. exists (nodes k).
    split; [done|]. by apply list_elem_of_fmap_2.
Qed.

(** The changes the code makes: the value of a key, its next layer. *)
Definition set_val (v : V) (x : KeyInfo V) : KeyInfo V := mkKeyInfo (key x) v (knext_level x).

Lemma node_wf_set_value nd j v : node_wf nd → node_wf (node_set_value j v nd).
Proof. intros []. split; cbn; by rewrite ?length_insert. Qed.

Lemma node_key_set_value nd j v i :
  node_wf nd → (j < MAX_DEGREE)%nat →
  node_key (node_set_value j v nd) i =
    if decide (i = j) then set_val v <$> node_key nd j else node_key nd i.
Proof.
  intros Hw Hj. destruct (node_key_total nd j Hw Hj) as [x Hx]. case_decide as He.
  - subst i. rewrite Hx. cbn. apply node_key_inv in Hx as (Hk & _ & Hn). apply node_key_inv.
    cbn. split_and!; [done| |done]. apply list_lookup_insert_eq. rewrite (wf_values _ Hw). done.
  - unfold node_key. cbn. by rewrite list_lookup_insert_ne by done.
Qed.

Lemma node_rep_set_val d par its cs nd j v :
  node_rep d par its cs nd → (j < length its)%nat →
  node_rep d par (alter (set_val v) j its) cs (node_set_value j v nd).
Proof.
  intros Hn Hj. pose proof (nr_max _ _ _ _ _ Hn).
  apply node_rep_intro; [by apply node_wf_set_value, (nr_wf _ _ _ _ _ Hn)
    |apply (nr_compressed _ _ _ _ _ Hn)|rewrite length_alter; apply (nr_cnt _ _ _ _ _ Hn)
    |by rewrite length_alter| |apply (nr_leaf _ _ _ _ _ Hn)
    |rewrite length_alter; apply (nr_arity _ _ _ _ _ Hn)|apply (nr_kids _ _ _ _ _ Hn)
    |apply (nr_no_kids _ _ _ _ _ Hn)|apply (nr_parent _ _ _ _ _ Hn)].
  intros i x (y & Hy & ->)%list_alter_inv. apply slot_Some. split.
  - rewrite node_key_set_value by (apply (nr_wf _ _ _ _ _ Hn) || lia).
    case_decide as He; [subst i|]; by rewrite (nr_keys _ _ _ _ _ Hn _ _ Hy).
  - apply (nr_dims _ _ _ _ _ Hn). by eapply lookup_lt_Some.
Qed.

Lemma seg_rep_set_val order level its nd j v :
  seg_rep order level its nd → (j < length its)%nat →
  seg_rep order level (alter (set_val v) j its) (node_set_value j v nd).
Proof.
  intros Hs Hj. pose proof (sr_max _ _ _ _ Hs).
  split; [apply node_wf_set_value, (sr_wf _ _ _ _ Hs)|apply (sr_leaf _ _ _ _ Hs)
    |rewrite length_alter; apply (sr_cnt _ _ _ _ Hs)|by rewrite length_alter| |apply (sr_parent _ _ _ _ Hs)
    |apply (sr_no_kids _ _ _ _ Hs)].
  intros i x (y & Hy & ->)%list_alter_inv.
  destruct (sr_slots _ _ _ _ Hs i y Hy) as (d & Hd & [Hk Hnd]%slot_Some). exists d. split; [done|].
  apply slot_Some. split; [|exact Hnd].
  rewrite node_key_set_value by (apply (sr_wf _ _ _ _ Hs) || lia).
  case_decide as He; [subst i|]; by rewrite Hk.
Qed.
End KeyUpdate.
