(* ===== verification/InsertWalk.v ===== *)
(** * Insertion behind the longest stored prefix

    The part of [insert] behind [search_path]: what it does at the last
    position of the path of the rule, and that the tree around this position
    stores the trie of the abstract insertion afterwards. *)
From S2P Require Import Prelude Range RuleValue Mempool Node NodeLemmas Search Layer LayerSearch Trie Footprint Slots Insert Split Chain InsertLayer InsertRoot Decompress Integrity SearchPath InsertNext KeyUpdate.
Local Open Scope Z_scope.

(** ** The abstract insertion along a path *)

Section trie.
Context {V : Type} `{!RuleValue V}.
Implicit Types (x : KeyInfo V) (xs : list (KeyInfo V)) (os : list (option (trie V))).

(** Every key of the layers the rule passes through is equal to the key of the
    rule or disjoint from it. *)
Fixpoint no_overlap (ks : list Range1d) (tr : option (trie V)) : Prop :=
  match ks, tr with
  | k :: ks', Some (Entries es) =>
      Forall (λ e, e.1.1 = k ∨ high e.1.1 < low k ∨ high k < low e.1.1) es
      ∧ ∀ e, e ∈ es → e.1.1 = k → no_overlap ks' e.2
  | _, _ => True
  end.

Lemma find_key_layer xs os j x o :
  sorted_keys xs → xs !! j = Some x → os !! j = Some o →
  find_key (key x) (layer_entries xs os) = Some (j, (key x, kvalue x, o)).
Proof.
  intros Hs Hx Ho. apply list_find_Some. unfold layer_entries. split_and!; [|done|].
  - by rewrite lookup_zip_with, Hx; cbn; rewrite Ho.
  - intros i e He Hi Hk. rewrite lookup_zip_with in He.
    apply bind_Some in He as (y & Hy & (o' & Ho' & [= <-])%bind_Some). cbn in Hk.
    assert (low (key x) ≤ high (key x)) as Hv.
    { destruct Hs as [Hv _]. rewrite Forall_lookup in Hv. by eapply Hv. }
    assert (i = j) as ->; [|lia].
    eapply (sorted_unique xs i j y x (low (key x))); [done..| |]; rewrite ?Hk; apply in_range_spec; lia.
Qed.

(** The step of the abstract insertion through a key of a layer. *)
Lemma t_insert_hit xs os j x o n ks v :
  sorted_keys xs → xs !! j = Some x → os !! j = Some o →
  t_insert n (key x :: ks) v (Some (Entries (layer_entries xs os))) =
  Some (Entries (<[j := if (1 <? n)%nat || has_key ks o
                        then (key x, kvalue x, t_insert (n - 1) ks v o)
                        else (key x, v, o)]> (layer_entries xs os))).
Proof. intros Hs Hx Ho. cbn [t_insert]. by rewrite (find_key_layer _ _ _ _ _ Hs Hx Ho). Qed.

(** Order and disjointness depend only on the ranges. *)
Lemma sorted_keys_ext xs (ys : list (KeyInfo V)) :
  sorted_keys xs → (key <$> ys) = (key <$> xs) → sorted_keys ys.
Proof.
  revert xs. induction ys as [|y ys IH]; intros [|x xs] Hs Hk; try done.
  cbn in Hk. injection Hk as Hy Hys. destruct Hs as [[Hx Hv]%Forall_cons [Hs Hf]%StronglySorted_inv].
  destruct (IH xs) as [Hv' Hs']; [by split|done|]. split; [constructor; [by rewrite Hy|done]|].
  constructor; [done|]. apply Forall_forall. intros z Hz. unfold key_before. rewrite Hy.
  apply (list_elem_of_fmap_2 key) in Hz. rewrite Hys in Hz.
  apply list_elem_of_fmap in Hz as (z' & -> & Hz'). rewrite Forall_forall in Hf. by apply Hf.
Qed.

Lemma key_alter xs j x f : xs !! j = Some x → key (f x) = key x → (key <$> alter f j xs) = (key <$> xs).
Proof.
  intros Hx Hk. apply list_eq. intros i. rewrite !list_lookup_fmap. destruct (decide (i = j)) as [->|].
  - rewrite list_lookup_alter_eq, Hx. cbn. by rewrite Hk.
  - by rewrite list_lookup_alter_ne.
Qed.

Lemma find_key_single (k : Range1d) v (o : option (trie V)) :
  find_key k [(k, v, o)] = Some (0%nat, (k, v, o)).
Proof. unfold find_key. cbn. by rewrite decide_True. Qed.

(** The abstract insertion through a chain all of whose keys match. *)
Lemma t_insert_chain xs n ks v (T : option (trie V)) :
  xs ≠ [] →
  t_insert n ((key <$> xs) ++ ks) v (chain_trie xs T) =
    if (length xs <? n)%nat || has_key ks T
    then chain_trie xs (t_insert (n - length xs) ks v T)
    else chain_trie (alter (set_val v) (length xs - 1)%nat xs) T.
Proof.
  revert n. induction xs as [|x [|y xs] IH]; intros n Hne; [done| |].
  - cbn [fmap list_fmap app chain_trie t_insert length]. rewrite find_key_single.
    by destruct ((1 <? n)%nat || has_key ks T).
  - specialize (IH (n - 1)%nat ltac:(done)).
    change ((key <$> x :: y :: xs) ++ ks) with (key x :: (key <$> y :: xs) ++ ks).
    change (chain_trie (x :: y :: xs) ?T) with (Some (Entries [(key x, kvalue x, chain_trie (y :: xs) T)])).
    cbn [t_insert]. rewrite find_key_single, IH.
    assert (has_key ((key <$> y :: xs) ++ ks) (chain_trie (y :: xs) T) = true) as ->.
    { cbn [fmap list_fmap app chain_trie has_key entries]. by rewrite find_key_single. }
    rewrite orb_true_r. cbn [list_insert].
    assert ((length (y :: xs) <? n - 1)%nat = (length (x :: y :: xs) <? n)%nat) as ->.
    { cbn [length]. destruct (Nat.ltb_spec (S (length xs)) (n - 1)), (Nat.ltb_spec (S (S (length xs))) n); done || lia. }
    cbn [length]. rewrite !Nat.sub_succ, !Nat.sub_0_r.
    replace (n - 1 - S (length xs))%nat with (n - S (S (length xs)))%nat by lia.
    by destruct ((S (S (length xs)) <? n)%nat || has_key ks T).
Qed.

Lemma chain_trie_app xs ys (T : option (trie V)) :
  chain_trie (xs ++ ys) T = chain_trie xs (chain_trie ys T).
Proof. induction xs as [|x xs IH]; [done|]. cbn. by rewrite IH. Qed.

Lemma layer_entries_update xs os j x y o :
  xs !! j = Some x → os !! j = Some o → key y = key x →
  ∀ f o', f x = y →
  layer_entries (alter f j xs) (<[j := o']> os) = <[j := (key x, kvalue y, o')]> (layer_entries xs os).
Proof.
  intros Hx Ho Hk f o' Hf. apply list_eq. intros i. unfold layer_entries. rewrite lookup_zip_with.
  pose proof (lookup_lt_Some _ _ _ Hx). pose proof (lookup_lt_Some _ _ _ Ho).
  destruct (decide (i = j)) as [->|Hne].
  - rewrite list_lookup_alter_eq, Hx, !list_lookup_insert_eq by (done || rewrite length_zip_with; lia).
    cbn. by rewrite Hf, Hk.
  - rewrite list_lookup_alter_ne, !list_lookup_insert_ne, lookup_zip_with by done. done.
Qed.
End trie.

Section InsertWalk.
Context `{cfg : !BTreeCfg, Hok : !CfgOk} {V : Type} `{!RuleValue V}.
Implicit Types (p : Heap V) (nd : Node V) (t : btree V) (g : gtrie V) (o : option (gtrie V)).

Section rule.
Context (order : list nat) (rule_ : rule_spec_t V) (ks : list Range1d) (req : nat).
Hypothesis Hrp : rule_path order rule_ ks req.
Hypothesis HPC : PATH_COMPRESSION = true.

Local Notation ck := (cookie_at order rule_ req).
Local Notation inserted := (o_inserted order rule_ ks req).

(** ** A layer one of whose keys has changed *)

Lemma layer_update p p1 p2 fl n N H l t nexts j x o o2 t2 f :
  (n ≤ N)%nat → heap_ok p2 (drop n fl) →
  g_rep p H order l (GLayer t nexts) → NoDup (g_addrs (GLayer t nexts)) →
  g_shaped (GLayer t nexts) → flat t !! j = Some x → nexts !! j = Some o →
  modifies p p1 (o_addrs o) (o_addrs o2) → modifies p1 p2 (addrs t) (addrs t) →
  (∃ d, order !! l = Some d ∧ rep p2 d None t2) →
  addr t2 = addr t → addrs t2 = addrs t → height t2 = height t → t_shaped t2 →
  flat t2 = alter f j (flat t) → key (f x) = key x → next_rep p1 (S H) order (S l) (f x) o2 →
  NoDup (o_addrs o2) → o_shaped o2 → ks !! l = Some (key x) →
  (key x, kvalue (f x), abs <$> o2) =
    (if (1 <? req - l)%nat || has_key (drop (S l) ks) (abs <$> o)
     then (key x, kvalue x, t_insert (req - l - 1) (drop (S l) ks) (rvalue rule_) (abs <$> o))
     else (key x, rvalue rule_, abs <$> o)) →
  inserted l p p2 fl N H (Some (GLayer t nexts)) (addr t).
Proof.
  intros HnN Hp2 Hg Hnd Hne Hj Ho Hmod1 Hmod2 Hr2 Ha2 Has2 Hh2 Hne2 Hf2 Hkf Hnext Hndo Hneo Hk Habs.
  pose proof Hg as ((d & Hd & Hr) & Hs & Hh & Hn)%g_rep_layer.
  apply g_shaped_layer in Hne as [_ Hne].
  rewrite g_addrs_layer in Hnd. pose proof Hnd as (Hndt & Hdis & Hndn)%NoDup_app.
  pose proof (lookup_lt_Some _ _ _ Ho) as Hlt.
  assert (∀ b, b ∈ addrs t → b ∉ o_addrs o) as Hto.
  { intros b Hb Hbo. apply (Hdis b Hb), elem_of_concat. exists (o_addrs o). split; [done|].
    by eapply list_elem_of_fmap_2, list_elem_of_lookup_2. }
  assert (∀ b, b ∈ o_addrs o2 → b ∉ addrs t) as Ho2t.
  { intros b Hb Hbt. destruct (mod_fresh _ _ _ _ Hmod1 b Hb) as [Hin|Hnone]; [by apply (Hto b)|].
    destruct (rep_addrs_live _ _ _ _ _ Hr Hbt). congruence. }
  set (R := concat (take j (o_addrs <$> nexts) ++ drop (S j) (o_addrs <$> nexts))).
  assert (concat (o_addrs <$> nexts) ≡ₚ o_addrs o ++ R) as HR
    by (apply concat_lookup_perm; by rewrite list_lookup_fmap, Ho).
  assert (concat (o_addrs <$> <[j := o2]> nexts) ≡ₚ o_addrs o2 ++ R) as HR2.
  { rewrite list_fmap_insert, (concat_lookup_perm _ j (o_addrs o2)).
    - by rewrite take_insert_ge, drop_insert_lt by lia.
    - apply list_lookup_insert_eq. by rewrite length_fmap. }
  assert (modifies p p2 (addrs t ++ o_addrs o) (addrs t ++ o_addrs o2)) as Hmod.
  { rewrite !(Permutation_app_comm (addrs t)).
    eapply modifies_trans; [apply modifies_app, Hmod1|].
    rewrite !(Permutation_app_comm (o_addrs o2)). by apply modifies_app. }
  exists n, (GLayer t2 (<[j := o2]> nexts)). split; [done|split; [split_and!|split]].
  - apply g_rep_layer. split_and!; [done| |lia|].
    + rewrite Hf2. eapply sorted_keys_ext; [exact Hs|]. by eapply key_alter.
    + rewrite Hf2. apply Forall2_same_length_lookup.
      apply Forall2_same_length_lookup in Hn as [Hl Hn].
      split; [by rewrite length_alter, length_insert|].
      intros i y oi (y' & Hy' & ->)%list_alter_inv Hoi. case_decide as Hij.
      * subst i. rewrite list_lookup_insert_eq in Hoi by done. simplify_eq.
        eapply next_rep_modifies; [exact Hnext|exact Hmod2|done|done].
      * rewrite list_lookup_insert_ne in Hoi by done.
        eapply next_rep_modifies; [by eapply Hn|exact Hmod| |lia].
        intros b Hb [Hbt|Hbo]%elem_of_app.
        -- apply (Hdis b Hbt), elem_of_concat. exists (o_addrs oi). split; [done|].
           by eapply list_elem_of_fmap_2, list_elem_of_lookup_2.
        -- apply Hij. eapply (NoDup_concat_inj (o_addrs <$> nexts)); [done| | |exact Hb|exact Hbo];
             by rewrite list_lookup_fmap, ?Hoi, ?Ho.
  - exact Ha2.
  - rewrite g_addrs_layer, Has2, HR2, app_assoc.
    eapply modifies_NoDup; [exact Hmod|by rewrite <- app_assoc, <- HR| |].
    + apply NoDup_app. split_and!; [done| |done]. intros b Hb Hbo. by apply (Ho2t b).
    + intros b Hb. eapply g_rep_addrs_live; [exact Hg|]. rewrite g_addrs_layer, HR, !elem_of_app. auto.
  - apply g_shaped_layer. split; [done|]. by apply Forall_insert.
  - cbn [fmap option_fmap option_map]. rewrite !abs_layer, Hf2, list_fmap_insert.
    rewrite (layer_entries_update _ _ _ x (f x) (abs <$> o)); [|done|by rewrite list_lookup_fmap, Ho|done|done].
    rewrite (drop_S _ _ _ Hk), (t_insert_hit _ _ j x (abs <$> o)); [|done|done|by rewrite list_lookup_fmap, Ho].
    by rewrite Habs.
  - cbn [o_addrs]. rewrite !g_addrs_layer, Has2, HR, HR2, !app_assoc. by apply modifies_app.
Qed.

(** A layer the path does not enter has no key that overlaps the rule. *)
Lemma apart_of_walk p H l k o :
  walk ks l o [] → (∀ g, o = Some g → g_rep p H order l g) → ks !! l = Some k →
  no_overlap (drop l ks) (abs <$> o) → apart_root k o.
Proof.
  intros Hw Hg Hk Hno. rewrite (drop_S _ _ _ Hk) in Hno. destruct o as [[t nexts|a c cs nl]|]; [| |done].
  - specialize (Hg _ eq_refl). apply g_rep_layer in Hg as (_ & _ & _ & Hn).
    assert (∀ x, x ∈ flat t → key x ≠ k) as Hne by (inversion Hw; by simplify_eq).
    cbn [fmap option_fmap option_map] in Hno. rewrite abs_layer in Hno. destruct Hno as [Hno _].
    cbn [apart_root]. apply Forall_forall. intros x Hx. specialize (Hne x Hx).
    apply list_elem_of_lookup in Hx as [j Hj].
    destruct (Forall2_lookup_l _ _ _ _ _ Hn Hj) as (o & Ho & _).
    assert (layer_entries (flat t) (fmap (M := option) abs <$> nexts) !! j
            = Some (key x, kvalue x, abs <$> o)) as He.
    { unfold layer_entries. rewrite lookup_zip_with, Hj. cbn. by rewrite list_lookup_fmap, Ho. }
    rewrite Forall_lookup in Hno. specialize (Hno _ _ He). cbn in Hno.
    destruct Hno as [?|[?|?]]; [done|by left|by right].
  - assert (key c ≠ k) as Hne.
    { inversion Hw; simplify_eq; [done|].
      match goal with Hl : (1 ≤ ?m)%nat, He : chain_items _ _ ?m = [] |- _ =>
        destruct m; [lia|done] end. }
    destruct Hno as [[Hno _]%Forall_cons _]. cbn in Hno.
    destruct Hno as [?|[?|?]]; [done|by left|by right].
Qed.

(** The value of a key is overwritten. *)
Definition set_value (n : ptr) (i : nat) (v : V) : HM V unit :=
  nd ← load n;
  _ ← or_ub (nvalue nd !! i);
  upd n (node_set_value i v).

Lemma set_value_bind {A} (n : ptr) (i : nat) (v : V) (m : HM V A) p :
  (nd ← load n; _ ← or_ub (nvalue nd !! i); upd n (node_set_value i v);; m) p = (set_value n i v;; m) p.
Proof.
  unfold set_value. rewrite bind_assoc. unfold mbind, M_bind. destruct (load n p) as [[nd|e] p1]; [|done].
  by destruct (or_ub _ p1) as [[x|e] p2].
Qed.

(** What [insert] does at the last position of the path. *)
Definition act (fuel : nat) (n : ptr) (i : nat) (cookie : InsertCookie V) : HM V unit :=
  if required_more_levels cookie then
    let cookie := add_level 1 cookie in
    nd ← load n;
    if is_compressed nd then _insert_in_to_compressed fuel n cookie (i + 1)
    else
      ins_root ← get_next_layer n i;
      ins_root ← insert_to_root fuel ins_root cookie;
      set_next_layer n i (Some ins_root)
  else set_value n i (rvalue (rule cookie)).

Lemma has_key_walk p H l o path :
  walk ks l o path → (∀ g, o = Some g → g_rep p H order l g) →
  has_key (drop l ks) (abs <$> o) = bool_decide (path ≠ []).
Proof.
  intros Hw Hg. destruct Hw as [l|l t nexts k Hk Hne|l t nexts b i j x o rest Hk Hx Hj Ho _|l a c cs nl k Hk Hc
    |l a c cs nl m x k Hmatch Hm Hx Hk Hxk|l a c cs nl rest Hmatch _].
  - done.
  - rewrite bool_decide_false by (intros Hn; by apply Hn). rewrite (drop_S _ _ _ Hk). cbn [fmap option_fmap option_map].
    rewrite abs_layer. cbn [has_key entries]. replace (find_key k _) with (@None (nat * (Range1d * V * option (trie V)))); [done|].
    symmetry. apply list_find_None, Forall_forall. intros e (j & Hj)%list_elem_of_lookup He.
    unfold layer_entries in Hj. rewrite lookup_zip_with in Hj.
    apply bind_Some in Hj as (x & Hx & (o & _ & [= <-])%bind_Some). cbn in He.
    eapply Hne; [by eapply list_elem_of_lookup_2|done].
  - rewrite bool_decide_true by done. specialize (Hg _ eq_refl).
    apply g_rep_layer in Hg as (_ & Hs & _ & _). rewrite (drop_S _ _ _ Hk). cbn [fmap option_fmap option_map].
    rewrite abs_layer. cbn [has_key entries].
    by rewrite (find_key_layer _ _ j x (abs <$> o) Hs Hj) by (by rewrite list_lookup_fmap, Ho).
  - rewrite bool_decide_false by (intros Hn; by apply Hn). rewrite (drop_S _ _ _ Hk).
    cbn [fmap option_fmap option_map abs has_key entries find_key]. unfold find_key. cbn.
    by rewrite decide_False.
  - rewrite bool_decide_true by (destruct m; [lia|done]).
    specialize (Hmatch 0%nat c ltac:(lia) eq_refl). rewrite Nat.add_0_r in Hmatch.
    rewrite (drop_S _ _ _ Hmatch). cbn [fmap option_fmap option_map abs has_key entries].
    by rewrite find_key_single.
  - rewrite bool_decide_true by done.
    specialize (Hmatch 0%nat c eq_refl). rewrite Nat.add_0_r in Hmatch.
    rewrite (drop_S _ _ _ Hmatch). cbn [fmap option_fmap option_map abs has_key entries].
    by rewrite find_key_single.
Qed.
End rule.
End InsertWalk.
