(* ===== verification/InsertAct.v ===== *)
(** * Insertion at the last position of the path

    What [insert] does at the key the path of the rule ends at: the value of
    the key is overwritten, or the rest of the rule goes into its next layer.
    The key is in a B-tree or in a compressed node. *)
From S2P Require Import Prelude Range RuleValue Mempool Node NodeLemmas Search Layer LayerSearch Trie Footprint Slots Insert Split Chain InsertLayer InsertRoot Decompress Integrity SearchPath InsertNext KeyUpdate InsertWalk.
Local Open Scope Z_scope.

Section InsertAct.
Context `{cfg : !BTreeCfg, Hok : !CfgOk} {V : Type} `{!RuleValue V}.
Implicit Types (p : Heap V) (nd : Node V) (t : btree V) (g : gtrie V) (o : option (gtrie V)).

(** A change of one key of a node. *)
Definition key_change (i : nat) (f : KeyInfo V → KeyInfo V) (F : Node V → Node V) : Prop :=
  ∀ d par its cs nd, node_rep d par its cs nd → (i < length its)%nat →
    node_rep d par (alter f i its) cs (F nd).

Section rule.
Context (order : list nat) (rule_ : rule_spec_t V) (ks : list Range1d) (req : nat).
Hypothesis Hrp : rule_path order rule_ ks req.
Hypothesis HPC : PATH_COMPRESSION = true.

Local Notation ck := (cookie_at order rule_ req).
Local Notation inserted := (o_inserted order rule_ ks req).

Lemma rep_node_wf p d par t b nb : rep p d par t → b ∈ addrs t → node_at p b = Some nb → node_wf nb.
Proof.
  revert par. induction t as [a its kids IH] using btree_ind'.
  intros par [(nd & Ha & Hn) Hks]%rep_unfold Hb Hnb. rewrite addrs_unfold in Hb.
  apply elem_of_cons in Hb as [->|(l & Hbl & (k & -> & Hk)%list_elem_of_fmap)%elem_of_concat].
  - simplify_eq. apply (nr_wf _ _ _ _ _ Hn).
  - rewrite Forall_forall in IH, Hks. by eapply (IH k Hk); [by apply Hks| |].
Qed.

(** The place of a key of a layer. *)
Lemma key_place d p t b i j x :
  rep p d None t → NoDup (addrs t) → sorted_keys (flat t) → key_at t b i x → flat t !! j = Some x →
  b ∈ addrs t ∧ ∀ f, flat (t_alter b i f t) = alter f j (flat t).
Proof.
  intros Hr Hnd Hs Hx Hj. split.
  - destruct Hx as (its & Hin & _). by apply (list_elem_of_fmap_2 fst) in Hin.
  - intros f. destruct (t_alter_flat p d None t b i f x Hr Hnd Hx) as (j' & Hj' & ->).
    assert (low (key x) ≤ high (key x)) as Hv.
    { destruct Hs as [Hv _]. rewrite Forall_lookup in Hv. by eapply Hv. }
    by rewrite (sorted_unique (flat t) j' j x x (low (key x))) by (done || apply in_range_spec; lia).
Qed.

(** A layer one of whose keys has been changed in place. *)
Lemma layer_alter p p1 fl n N H l t nexts b i j x o o2 f F nb :
  key_change i f F → (n ≤ N)%nat → heap_ok p1 (drop n fl) →
  g_rep p H order l (GLayer t nexts) → NoDup (g_addrs (GLayer t nexts)) →
  g_shaped (GLayer t nexts) → key_at t b i x → flat t !! j = Some x → nexts !! j = Some o →
  modifies p p1 (o_addrs o) (o_addrs o2) → node_at p b = Some nb →
  key (f x) = key x → next_rep p1 (S H) order (S l) (f x) o2 →
  NoDup (o_addrs o2) → o_shaped o2 → ks !! l = Some (key x) →
  (key x, kvalue (f x), abs <$> o2) =
    (if (1 <? req - l)%nat || has_key (drop (S l) ks) (abs <$> o)
     then (key x, kvalue x, t_insert (req - l - 1) (drop (S l) ks) (rvalue rule_) (abs <$> o))
     else (key x, rvalue rule_, abs <$> o)) →
  inserted l p (put b (F nb) p1) fl N H (Some (GLayer t nexts)) (addr t).
Proof using Hok Hrp.
  intros HF Hn Hp1 Hg Hnd Hne Hx Hj Ho Hmod Hb Hkf Hnext Hndo Hneo Hk Habs.
  pose proof Hg as ((d & Hd & Hr) & Hs & Hh & Hnx)%g_rep_layer.
  pose proof Hne as [Htsh _]%g_shaped_layer.
  rewrite g_addrs_layer in Hnd. pose proof Hnd as (Hndt & Hdis & _)%NoDup_app.
  destruct (key_place d p t b i j x) as [Hbt Hflat]; [done..|].
  assert (∀ a, a ∈ addrs t → a ∉ o_addrs o) as Hto.
  { intros a Ha Hao. apply (Hdis a Ha), elem_of_concat. exists (o_addrs o). split; [done|].
    by eapply list_elem_of_fmap_2, list_elem_of_lookup_2. }
  pose proof (mod_frame _ _ _ _ Hmod b nb (Hto b Hbt) Hb) as Hb1.
  eapply (layer_update order rule_ ks req p p1 _ fl n N H l t nexts j x o o2 (t_alter b i f t) f);
    [done|by eapply heap_ok_put|done|by rewrite g_addrs_layer|done|done|done|done|by apply modifies_put_in
    | |apply t_alter_addr|apply t_alter_addrs|apply t_alter_height|by apply t_alter_shaped|done|done|done..].
  exists d. split; [done|]. eapply t_alter_rep; [apply HF|by eapply rep_modifies|done| |done].
  intros its Hin. destruct Hx as (its' & Hin' & Hx).
  assert (its = its') as ->; [|by eapply lookup_lt_Some].
  unfold addrs in Hndt. apply list_elem_of_lookup in Hin as [m Hm], Hin' as [m' Hm'].
  assert (m = m') as ->; [|by simplify_eq].
  eapply NoDup_lookup; [exact Hndt| |]; by rewrite list_lookup_fmap, ?Hm, ?Hm'.
Qed.

Lemma no_overlap_layer l t nexts j x o :
  no_overlap (drop l ks) (abs <$> Some (GLayer t nexts)) → ks !! l = Some (key x) →
  flat t !! j = Some x → nexts !! j = Some o → no_overlap (drop (S l) ks) (abs <$> o).
Proof.
  intros Hno Hk Hj Ho. rewrite (drop_S _ _ _ Hk) in Hno. cbn [fmap option_fmap option_map] in Hno.
  rewrite abs_layer in Hno. destruct Hno as [_ Hno].
  assert ((key x, kvalue x, abs <$> o) ∈ layer_entries (flat t) (fmap (M := option) abs <$> nexts)) as Hin.
  { apply (list_elem_of_lookup_2 _ j). unfold layer_entries. rewrite lookup_zip_with, Hj. cbn.
    by rewrite list_lookup_fmap, Ho. }
  exact (Hno _ Hin eq_refl).
Qed.

(** The next layer of a key of a layer. *)
Lemma layer_next p H l t nexts j g :
  g_rep p H order l (GLayer t nexts) → NoDup (g_addrs (GLayer t nexts)) →
  g_shaped (GLayer t nexts) → nexts !! j = Some (Some g) →
  g_rep p H order (S l) g ∧ NoDup (g_addrs g) ∧ g_shaped g.
Proof.
  intros (_ & _ & _ & Hn)%g_rep_layer Hnd [_ Hne]%g_shaped_layer Ho.
  destruct (Forall2_lookup_r _ _ _ _ _ Hn Ho) as (x & _ & _ & Hg). split_and!; [done| |].
  - rewrite g_addrs_layer in Hnd. apply NoDup_app in Hnd as (_ & _ & Hnd).
    apply (NoDup_concat_part _ (o_addrs (Some g)) Hnd).
    by eapply list_elem_of_fmap_2, list_elem_of_lookup_2.
  - rewrite Forall_lookup in Hne. exact (Hne _ _ Ho).
Qed.

Lemma ck_next l n : add_level n (ck l) = ck (l + n).
Proof. done. Qed.

(** The value of a rule that ends at a key of a B-tree. *)
Lemma layer_set_ok p fl N H l t nexts b i j x o :
  heap_ok p fl → g_rep p H order l (GLayer t nexts) → NoDup (g_addrs (GLayer t nexts)) →
  g_shaped (GLayer t nexts) → ks !! l = Some (key x) → key_at t b i x →
  flat t !! j = Some x → nexts !! j = Some o → walk ks (S l) o [] → (req ≤ l + 1)%nat →
  ∃ p', set_value b i (rvalue rule_) p = (Ok tt, p')
    ∧ inserted l p p' fl N H (Some (GLayer t nexts)) (addr t).
Proof using Hok Hrp.
  intros Hp Hg Hnd Hne Hk Hx Hj Ho Hw Hreq.
  pose proof Hg as ((d & Hd & Hr) & Hs & Hh & Hn)%g_rep_layer.
  pose proof Hne as [_ Hneo]%g_shaped_layer. rewrite Forall_lookup in Hneo. specialize (Hneo _ _ Ho).
  pose proof Hnd as Hndn. rewrite g_addrs_layer in Hndn. apply NoDup_app in Hndn as (_ & _ & Hndn).
  assert (NoDup (o_addrs o)) as Hndo.
  { eapply NoDup_concat_part; [exact Hndn|].
    by eapply list_elem_of_fmap_2, list_elem_of_lookup_2. }
  apply Forall2_same_length_lookup in Hn as [_ Hn]. specialize (Hn _ _ _ Hj Ho).
  assert (∀ g, o = Some g → g_rep p H order (S l) g) as Hgo by (intros g ->; apply Hn).
  destruct (rep_key_at _ _ _ _ _ _ _ Hr Hx) as (nb & Hb & Hkey & _).
  unfold set_value. rewrite (bind_load _ _ _ _ Hb). apply node_key_inv in Hkey as (_ & Hv & _). rewrite Hv.
  cbn [or_ub]. rewrite bind_ret, (upd_ok _ _ _ _ Hb).
  eexists. split; [done|].
  eapply (layer_alter p p fl 0 _ H l t nexts b i j x o o (set_val (rvalue rule_)) (node_set_value i (rvalue rule_)));
    [by intros d0 par its cs nd; apply node_rep_set_val|lia|done|done|done|done|done|done|done
    |apply modifies_refl|done|done| |done|done|done|].
  - eapply (next_rep_modifies p p H _ order (S l) (set_val (rvalue rule_) x) o []);
      [|apply modifies_refl|intros; apply not_elem_of_nil|lia]. destruct o; exact Hn.
  - rewrite (proj2 (Nat.ltb_ge 1 (req - l))) by lia.
    by rewrite (has_key_walk order ks p H (S l) o [] Hw Hgo), bool_decide_false by (intros He; by apply He).
Qed.

(** The key is in a B-tree. *)
Lemma layer_act_ok p fl H l t nexts b i j x o fuel :
  heap_ok p fl → (H + req + 9 ≤ length fl)%nat → (1 ≤ H)%nat →
  g_rep p H order l (GLayer t nexts) → NoDup (g_addrs (GLayer t nexts)) →
  g_shaped (GLayer t nexts) → ks !! l = Some (key x) → key_at t b i x →
  flat t !! j = Some x → nexts !! j = Some o → walk ks (S l) o [] →
  no_overlap (drop l ks) (abs <$> Some (GLayer t nexts)) → (fuel_bound H order + 5 ≤ fuel)%nat →
  ∃ p', act fuel b i (ck l) p = (Ok tt, p')
    ∧ inserted l p p' fl (H + req + 3) H (Some (GLayer t nexts)) (addr t).
Proof using Hok Hrp HPC.
  intros Hp Hfl HH Hg Hnd Hne Hk Hx Hj Ho Hw Hno Hfuel.
  pose proof Hg as ((d & Hd & Hr) & Hs & Hh & Hn)%g_rep_layer.
  pose proof Hne as [_ Hneo]%g_shaped_layer. rewrite Forall_lookup in Hneo. specialize (Hneo _ _ Ho).
  pose proof Hnd as Hndn. rewrite g_addrs_layer in Hndn. apply NoDup_app in Hndn as (_ & Hdis & Hndn).
  assert (NoDup (o_addrs o)) as Hndo.
  { eapply NoDup_concat_part; [exact Hndn|].
    by eapply list_elem_of_fmap_2, list_elem_of_lookup_2. }
  apply Forall2_same_length_lookup in Hn as [_ Hn]. specialize (Hn _ _ _ Hj Ho).
  assert (∀ g, o = Some g → g_rep p H order (S l) g) as Hgo by (intros g ->; apply Hn).
  destruct (rep_key_at _ _ _ _ _ _ _ Hr Hx) as (nb & Hb & Hkey & Hnc & Hlt & Hmax & Hnd').
  unfold act, required_more_levels. cbn [cookie_at level requires_levels].
  destruct (Nat.ltb_spec (l + 1) req) as [Hmore|Hmore].
  - rewrite ck_next, Nat.add_1_r, (bind_load _ _ _ _ Hb), Hnc.
    run_ok by (by eapply next_layer_at).
    destruct (lookup_lt_is_Some_2 ks (S l)) as [k' Hk']; [pose proof (rp_req _ _ _ _ Hrp); lia|].
    destruct (Forall2_lookup_r _ _ _ _ _ (rp_keys _ _ _ _ Hrp) Hk') as (d' & Hd' & _).
    assert (apart_root k' o) as Hap.
    { eapply (apart_of_walk order ks p H (S l)); [done..|]. by eapply no_overlap_layer. }
    destruct (insert_to_root_ok order rule_ ks req Hrp HPC (S l) k' d' ltac:(lia) Hk' Hd' p fl H o fuel)
      as (p1 & r & Hrun & n & g' & [Hn' Hp1] & (Hg' & Ha' & Hnd1 & Hne1) & Habs & Hmod);
      [done|lia|done|done|done|done|done|lia|].
    run_ok by (exact Hrun).
    assert (b ∈ addrs t) as Hbt.
    { destruct Hx as (its & Hin & _). by apply (list_elem_of_fmap_2 fst) in Hin. }
    assert (node_at p1 b = Some nb) as Hb1.
    { eapply mod_frame; [exact Hmod| |exact Hb]. intros Hbo.
      apply (Hdis b Hbt), elem_of_concat.
      exists (o_addrs o). split; [done|]. by eapply list_elem_of_fmap_2, list_elem_of_lookup_2. }
    destruct (g_rep_live _ _ _ _ _ Hg') as [gd Hgd]. rewrite Ha' in Hgd.
    pose proof (rep_node_wf p d None t b nb Hr Hbt Hb) as Hw'.
    rewrite (set_next_layer_ok p1 _ b nb i r gd Hp1 Hb1 Hw' Hmax Hgd).
    eexists. split; [done|].
    eapply (layer_alter p p1 fl n _ H l t nexts b i j x o (Some g') (set_next (to_index r)));
      [by intros d0 par its cs nd; apply node_rep_set_next|done..| |done|done|done|].
    + cbn. by rewrite Ha'.
    + cbn [fmap option_fmap option_map set_next kvalue]. rewrite Habs.
      rewrite (proj2 (Nat.ltb_lt 1 (req - l))) by lia. cbn [orb].
      by replace (req - l - 1)%nat with (req - S l)%nat by lia.
  - by apply (layer_set_ok p fl _ H l t nexts b i j x o).
Qed.

(** ** Compressed nodes *)

Lemma chain_last_rep p H l a c cs g :
  g_rep p H order l (GChain a c cs (Some g)) → g_rep p H order (l + length (c :: cs)) g.
Proof.
  intros (nd & _ & _ & _ & [_ Hlast] & _)%chain_parts.
  destruct (lookup_lt_is_Some_2 (c :: cs) (length (c :: cs) - 1)) as [x Hx]; [cbn; lia|].
  by destruct (Hlast x Hx).
Qed.

(** The keys of the node are the next keys of the rule. *)
Definition matches (l : nat) (xs : list (KeyInfo V)) : Prop :=
  ∀ i y, xs !! i = Some y → ks !! (l + i)%nat = Some (key y).

Lemma matches_drop l xs : matches l xs → drop l ks = (key <$> xs) ++ drop (l + length xs) ks.
Proof.
  revert l. induction xs as [|x xs IH]; intros l Hm; [by rewrite Nat.add_0_r|].
  pose proof (Hm 0%nat x eq_refl) as Hx. rewrite Nat.add_0_r in Hx.
  rewrite (drop_S _ _ _ Hx), (IH (S l)).
  - cbn [fmap list_fmap app length]. by rewrite Nat.add_succ_r.
  - intros i y Hy. specialize (Hm (S i) y Hy). by rewrite Nat.add_succ_r in Hm.
Qed.

Lemma no_overlap_chain xs ks' (T : option (trie V)) :
  no_overlap ((key <$> xs) ++ ks') (chain_trie xs T) → no_overlap ks' T.
Proof.
  induction xs as [|x xs IH]; [done|]. cbn. intros [_ Hno]. apply IH.
  by apply (Hno (key x, kvalue x, chain_trie xs T)); [left|].
Qed.

Lemma no_overlap_chain_at l xs m (T : option (trie V)) :
  (m ≤ length xs)%nat → matches l (take m xs) → no_overlap (drop l ks) (chain_trie xs T) →
  no_overlap (drop (l + m) ks) (chain_trie (drop m xs) T).
Proof.
  intros Hm Hmatch Hno. apply (no_overlap_chain (take m xs)). rewrite <- chain_trie_app, take_drop.
  by rewrite (matches_drop _ _ Hmatch), length_take, Nat.min_l in Hno.
Qed.

Lemma alter_take_drop (xs : list (KeyInfo V)) f m :
  (1 ≤ m ≤ length xs)%nat → alter f (m - 1)%nat (take m xs) ++ drop m xs = alter f (m - 1)%nat xs.
Proof.
  intros Hm. rewrite <- (take_drop m xs) at 3. rewrite alter_app_l; [done|].
  rewrite length_take. lia.
Qed.

(** The abstract insertion at the [m]-th key of a compressed node, when the
    trie behind it has no matching key. *)
Lemma t_insert_chain_at l xs m v (T : option (trie V)) :
  (1 ≤ m ≤ length xs)%nat → matches l (take m xs) →
  has_key (drop (l + m) ks) (chain_trie (drop m xs) T) = false →
  t_insert (req - l) (drop l ks) v (chain_trie xs T) =
    if (l + m <? req)%nat
    then chain_trie (take m xs) (t_insert (req - (l + m)) (drop (l + m) ks) v (chain_trie (drop m xs) T))
    else chain_trie (alter (set_val v) (m - 1)%nat xs) T.
Proof.
  intros Hm Hmatch Hkey. assert (length (take m xs) = m) as Hl by (rewrite length_take; lia).
  rewrite (matches_drop _ _ Hmatch), Hl. rewrite <- (take_drop m xs) at 2.
  rewrite chain_trie_app, t_insert_chain, Hl, Hkey, orb_false_r by (intros He; rewrite He in Hl; cbn in Hl; lia).
  rewrite <- chain_trie_app, alter_take_drop by done.
  replace (req - l - m)%nat with (req - (l + m))%nat by lia.
  destruct (Nat.ltb_spec m (req - l)), (Nat.ltb_spec (l + m) req); done || lia.
Qed.

(** A compressed node whose keys or next layer have been replaced. *)
Lemma chain_replaced p p' fl n N H l a c cs nl y ys o2 nd' :
  (n ≤ N)%nat ∧ heap_ok p' (drop n fl) → (1 ≤ H)%nat →
  node_at p' a = Some nd' → seg_rep order l (y :: ys) nd' →
  is_compressed nd' = (1 <? length (y :: ys))%nat →
  Forall (λ x, low (key x) ≤ high (key x)) (y :: ys) → next_last p' (S H) order l (y :: ys) o2 →
  NoDup (a :: o_addrs o2) → o_shaped o2 →
  chain_trie (y :: ys) (abs <$> o2) =
    t_insert (req - l) (drop l ks) (rvalue rule_) (chain_trie (c :: cs) (abs <$> nl)) →
  modifies p p' (a :: o_addrs nl) (a :: o_addrs o2) →
  inserted l p p' fl N H (Some (GChain a c cs nl)) a.
Proof.
  intros Hn HH Ha Hs Hc Hv Hnext Hnd Hne Habs Hmod. exists n, (packed a y ys o2).
  split; [done|split; [split_and!|split]].
  - eapply packed_rep; [done..|lia|done|done].
  - apply packed_addr.
  - by rewrite packed_addrs.
  - by apply packed_shaped.
  - rewrite packed_abs, Habs. cbn [fmap option_fmap option_map]. by rewrite abs_chain.
  - by rewrite packed_addrs.
Qed.

(** One key of a compressed node changed in place. *)
Definition seg_change (i : nat) (f : KeyInfo V → KeyInfo V) (F : Node V → Node V) : Prop :=
  (∀ level its nd, seg_rep order level its nd → (i < length its)%nat →
     seg_rep order level (alter f i its) (F nd))
  ∧ (∀ nd, is_compressed (F nd) = is_compressed nd) ∧ ∀ x, key (f x) = key x.

Lemma chain_alter p p1 fl n N H l a c cs nl i o2 f F nd :
  seg_change i f F → (n ≤ N)%nat ∧ heap_ok p1 (drop n fl) → (1 ≤ H)%nat →
  g_rep p H order l (GChain a c cs nl) → a ∉ o_addrs nl → (i < length (c :: cs))%nat →
  node_at p a = Some nd → modifies p p1 (o_addrs nl) (o_addrs o2) →
  (∀ j x, (c :: cs) !! j = Some x → (S j < length (c :: cs))%nat →
     knext_level (f x) = knext_level x ∨ j ≠ i) →
  (∀ x, (c :: cs) !! (length (c :: cs) - 1)%nat = Some x →
     next_rep p1 (S H) order (l + length (c :: cs)) (if decide (length (c :: cs) - 1 = i)%nat then f x else x) o2) →
  NoDup (o_addrs o2) → o_shaped o2 →
  chain_trie (alter f i (c :: cs)) (abs <$> o2) =
    t_insert (req - l) (drop l ks) (rvalue rule_) (chain_trie (c :: cs) (abs <$> nl)) →
  inserted l p (put a (F nd) p1) fl N H (Some (GChain a c cs nl)) a.
Proof.
  intros (Hseg & HFc & Hfk) [Hn Hp1] HH Hg Hanl Hi Ha Hmod Hinner Hlast Hndo Hneo Habs.
  apply chain_parts in Hg as (nd' & Ha' & Hc & Hv & [Hnone _] & Hcs).
  rewrite Ha in Ha'. injection Ha' as <-. pose proof (chain_seg _ _ _ _ Hc) as Hs.
  pose proof (mod_frame _ _ _ _ Hmod a nd Hanl Ha) as Ha1.
  assert (a ∉ o_addrs o2) as Hao2.
  { intros Hin. destruct (mod_fresh _ _ _ _ Hmod a Hin) as [?|?]; congruence. }
  remember (c :: cs) as its eqn:Hits.
  assert (length (alter f i its) = length its) as Hl by apply length_alter.
  destruct (alter f i its) as [|y ys] eqn:Hal; [by subst its|].
  rewrite Hits in Habs. eapply (chain_replaced _ _ _ n _ _ _ _ _ _ _ y ys o2 (F nd)).
  - split; [done|by eapply heap_ok_put].
  - done.
  - apply node_at_put_eq.
  - rewrite <- Hal. by apply Hseg.
  - rewrite HFc, (cr_compressed _ _ _ _ Hc), Hl, Hits. destruct cs; [done|]. done.
  - rewrite <- Hal. apply Forall_forall. intros x (j & (x' & Hx & ->)%list_alter_inv)%list_elem_of_lookup.
    rewrite Forall_lookup in Hv. specialize (Hv _ _ Hx). cbn in Hv |- *.
    destruct (decide (j = i)); [by rewrite Hfk|done].
  - rewrite <- Hal. split.
    + intros j x (x' & Hx & ->)%list_alter_inv. rewrite length_alter. intros Hj.
      rewrite <- (Hnone _ _ Hx Hj). destruct (decide (j = i)); [|done]. by destruct (Hinner _ _ Hx Hj).
    + intros x. rewrite length_alter. intros (x' & Hx & ->)%list_alter_inv.
      eapply next_rep_modifies; [by apply Hlast|apply modifies_put| |done].
      by intros b Hb ->%list_elem_of_singleton.
  - by apply NoDup_cons.
  - done.
  - exact Habs.
  - eapply modifies_trans; [apply (modifies_app _ _ _ _ [a]) in Hmod; rewrite !(Permutation_app_comm _ [a]) in Hmod; exact Hmod|].
    apply modifies_put_in. left.
Qed.

(** The position the path of the rule ends at in a compressed node: [m] keys
    match, and the next one does not. *)
Definition chain_stop (l : nat) its (m : nat) o : Prop :=
  (1 ≤ m ≤ length its)%nat ∧ matches l (take m its)
  ∧ (m = length its ∧ walk ks (l + m) o []
     ∨ ∃ x k, its !! m = Some x ∧ ks !! (l + m)%nat = Some k ∧ key x ≠ k).

Lemma chain_stop_key p H l a c cs nl m :
  g_rep p H order l (GChain a c cs nl) → chain_stop l (c :: cs) m nl →
  has_key (drop (l + m) ks) (chain_trie (drop m (c :: cs)) (abs <$> nl)) = false.
Proof.
  intros Hg (Hm & _ & [[-> Hw]|(x & k & Hx & Hk & Hne)]).
  - rewrite drop_all. cbn [chain_trie].
    rewrite (has_key_walk order ks p H _ nl [] Hw); [by rewrite bool_decide_false by (intros He; by apply He)|].
    intros g ->. by apply chain_last_rep in Hg.
  - rewrite (drop_S _ _ _ Hk), (drop_S _ _ _ Hx). cbn [chain_trie has_key entries]. unfold find_key. cbn.
    by rewrite decide_False.
Qed.

(** The value of the key is overwritten. *)
Lemma chain_set_ok p fl N H l a c cs nl m :
  heap_ok p fl → (1 ≤ H)%nat → g_rep p H order l (GChain a c cs nl) →
  NoDup (g_addrs (GChain a c cs nl)) → o_shaped nl → chain_stop l (c :: cs) m nl →
  (req ≤ l + m)%nat →
  ∃ p', set_value a (m - 1) (rvalue rule_) p = (Ok tt, p')
    ∧ inserted l p p' fl N H (Some (GChain a c cs nl)) a.
Proof using Hok.
  intros Hp HH Hg Hnd Hne Hst Hreq. pose proof (chain_stop_key _ _ _ _ _ _ _ _ Hg Hst) as Hkey.
  destruct Hst as (Hm & Hmatch & _). destruct (chain_parts _ _ _ _ _ _ _ _ Hg) as (nd & Ha & Hc & _ & [_ Hlast] & _).
  cbn [g_addrs] in Hnd. apply NoDup_cons in Hnd as [Hao Hndo].
  destruct (lookup_lt_is_Some_2 (c :: cs) (m - 1)) as [x Hx]; [lia|].
  pose proof (cr_keys _ _ _ _ Hc _ _ Hx) as (_ & Hval & _)%node_key_inv.
  unfold set_value. rewrite (bind_load _ _ _ _ Ha), Hval. cbn [or_ub]. rewrite bind_ret, (upd_ok _ _ _ _ Ha).
  eexists. split; [done|].
  eapply (chain_alter p p fl 0 N H l a c cs nl (m - 1) nl (set_val (rvalue rule_))
            (node_set_value (m - 1) (rvalue rule_)) nd);
    [|split; [lia|done]|done|done|done|lia|done|apply modifies_refl|by left| |done|done|].
  - split_and!; [|done|done]. intros. by apply seg_rep_set_val.
  - intros y Hy. eapply (next_rep_modifies p p H _ order _ _ _ []);
      [|apply modifies_refl|intros; apply not_elem_of_nil|lia].
    specialize (Hlast y Hy). by case_decide; destruct nl.
  - rewrite (t_insert_chain_at l (c :: cs) m) by done. by rewrite (proj2 (Nat.ltb_ge _ _)).
Qed.

(** The rest of the rule goes behind the node. *)
Lemma chain_next_ok p fl H l a c cs nl fuel :
  let m := length (c :: cs) in
  heap_ok p fl → (H + req + 9 ≤ length fl)%nat → (1 ≤ H)%nat → g_rep p H order l (GChain a c cs nl) →
  NoDup (g_addrs (GChain a c cs nl)) → o_shaped nl → matches l (c :: cs) →
  walk ks (l + m) nl [] → no_overlap (drop l ks) (abs <$> Some (GChain a c cs nl)) →
  (l + m < req)%nat → (fuel_bound H order + 7 ≤ fuel)%nat →
  ∃ p', _insert_in_to_compressed fuel a (ck (l + m)) m p = (Ok tt, p')
    ∧ inserted l p p' fl (H + req + 3) H (Some (GChain a c cs nl)) a.
Proof using Hok Hrp HPC.
  intros m Hp Hfl HH Hg Hnd Hne Hmatch Hw Hno Hreq Hfuel. destruct fuel as [|fuel]; [lia|].
  assert (chain_stop l (c :: cs) m nl) as Hst.
  { split_and!; [cbn; lia|done|unfold m; by rewrite firstn_all|by left]. }
  pose proof (chain_stop_key _ _ _ _ _ _ _ _ Hg Hst) as Hkey.
  destruct (chain_parts _ _ _ _ _ _ _ _ Hg) as (nd & Ha & Hc & _ & [_ Hlast] & Hcs).
  cbn [g_addrs] in Hnd. apply NoDup_cons in Hnd as [Hao Hndo].
  destruct (lookup_lt_is_Some_2 (c :: cs) (m - 1)) as [x Hx]; [subst m; cbn; lia|].
  specialize (Hlast x Hx). pose proof (cr_keys _ _ _ _ Hc _ _ Hx) as Hkx.
  assert (1 ≤ m ∧ m ≤ MAX_DEGREE)%nat as [Hm1 Hmax] by (split; [cbn; lia|exact (cr_max _ _ _ _ Hc)]).
  destruct (lookup_lt_is_Some_2 ks (l + m)) as [k Hk]; [pose proof (rp_req _ _ _ _ Hrp); lia|].
  destruct (Forall2_lookup_r _ _ _ _ _ (rp_keys _ _ _ _ Hrp) Hk) as (d & Hd & _).
  assert (∀ g, nl = Some g → g_rep p H order (l + m) g) as Hgo by (intros g ->; apply Hlast).
  assert (apart_root k nl) as Hap.
  { eapply (apart_of_walk order ks p H (l + m)); [done..|].
    rewrite (matches_drop l (c :: cs) Hmatch) in Hno. cbn [fmap option_fmap option_map] in Hno.
    rewrite abs_chain in Hno. exact (no_overlap_chain (c :: cs) _ _ Hno). }
  destruct (insert_next_ok order rule_ ks req Hrp HPC (l + m) k d Hreq Hk Hd p fl H nl fuel)
    as (p1 & r & Hrun & n & g' & [Hn Hp1] & (Hg' & Ha' & Hnd1 & Hne1) & Habs & Hmod); [done..|lia|].
  destruct (g_rep_live _ _ _ _ _ Hg') as [gd Hgd]. rewrite Ha' in Hgd.
  pose proof (mod_frame _ _ _ _ Hmod a nd Hao Ha) as Ha1.
  rewrite _insert_in_to_compressed_S, (bind_load _ _ _ _ Ha).
  rewrite !bind_assert by (first [apply (cr_compressed _ _ _ _ Hc)|apply (cr_leaf _ _ _ _ Hc)
    |rewrite (cr_cnt _ _ _ _ Hc); by apply Nat.leb_le]).
  rewrite (cr_cnt _ _ _ _ Hc). fold m. rewrite Nat.eqb_refl. cbn [cookie_at level requires_levels].
  rewrite (proj2 (Nat.ltb_lt _ _) Hreq). run_ok by (by eapply next_layer_at). fold (ck (l + m)).
  run_ok by (exact Hrun).
  rewrite (set_next_layer_ok p1 _ a nd (m - 1) r gd Hp1 Ha1 (cr_wf _ _ _ _ Hc) ltac:(lia) Hgd).
  eexists. split; [done|].
  eapply (chain_alter p p1 fl n _ H l a c cs nl (m - 1) (Some g') (set_next (to_index r)));
    [|done|done|done|done|subst m; cbn; lia|done|exact Hmod| | |done|done|].
  - split_and!; [|done|done]. intros. by apply seg_rep_set_next.
  - fold m. right. lia.
  - intros y _. fold m. rewrite decide_True by done. cbn. by rewrite Ha'.
  - rewrite chain_trie_set_next, (t_insert_chain_at l (c :: cs) m) by (done || apply Hst).
    rewrite (proj2 (Nat.ltb_lt _ _) Hreq). subst m.
    rewrite firstn_all, drop_all. by apply (f_equal (chain_trie (c :: cs))).
Qed.

(** The node keeps the first [m] keys; the rest is behind a node [z] the rule
    has been added to. *)
Lemma chain_split_inserted p p1 p2 fl n1 n N H l a c cs nl m z o' g' nd' :
  heap_ok p2 (drop (n1 + n) fl) → (n1 + n ≤ N)%nat → (1 ≤ H)%nat → g_rep p H order l (GChain a c cs nl) →
  (1 ≤ m < length (c :: cs))%nat → chain_stop l (c :: cs) m nl →
  node_at p1 a = Some nd' →
  seg_rep order l (alter (set_next (to_index z)) (m - 1)%nat (take m (c :: cs))) nd' →
  is_compressed nd' = (1 <? m)%nat → a ∉ z :: o_addrs o' →
  modifies p p1 (g_addrs (GChain a c cs nl)) (a :: z :: o_addrs o') →
  g_rep p2 (S H) order (l + m) g' → g_addr g' = z → NoDup (g_addrs g') → g_shaped g' →
  modifies p1 p2 (z :: o_addrs o') (g_addrs g') → (l + m < req)%nat →
  Some (abs g') = t_insert (req - (l + m)) (drop (l + m) ks) (rvalue rule_)
                    (chain_trie (drop m (c :: cs)) (abs <$> nl)) →
  inserted l p p2 fl N H (Some (GChain a c cs nl)) a.
Proof.
  intros Hp2 Hn HH Hg Hm Hst Ha1 Hseg Hcomp Haz Hmod1 Hg' Ha' Hnd2 Hne2 Hmod2 Hreq Habs.
  pose proof (chain_stop_key _ _ _ _ _ _ _ _ Hg Hst) as Hkey.
  destruct (chain_parts _ _ _ _ _ _ _ _ Hg) as (nd & Ha & Hc & Hv & [Hnone _] & Hcs).
  assert (length (alter (set_next (to_index z)) (m - 1)%nat (take m (c :: cs))) = m) as Hl
    by (rewrite length_alter, length_take; lia).
  remember (alter (set_next (to_index z)) (m - 1)%nat (take m (c :: cs))) as its eqn:Hits.
  assert (∀ i x, its !! i = Some x → ∃ y, (c :: cs) !! i = Some y ∧ (i < m)%nat
    ∧ x = if decide (i = m - 1)%nat then set_next (to_index z) y else y) as Hin.
  { intros i x. rewrite Hits. intros (y & [Hy Hi]%lookup_take_Some & ->)%list_alter_inv. by exists y. }
  assert (chain_trie its (abs <$> Some g') =
    t_insert (req - l) (drop l ks) (rvalue rule_) (chain_trie (c :: cs) (abs <$> nl))) as Htr.
  { rewrite Hits, chain_trie_set_next, (t_insert_chain_at l (c :: cs) m) by (apply Hst || done).
    rewrite (proj2 (Nat.ltb_lt _ _) Hreq). by rewrite <- Habs. }
  destruct its as [|y ys]; [cbn in Hl; lia|].
  eapply (chain_replaced _ _ _ (n1 + n) _ _ _ _ _ _ _ y ys (Some g') nd'); [done|done| |done| | | | |done|done|].
  - by eapply mod_frame.
  - by rewrite Hl.
  - apply Forall_lookup. intros i x (y' & Hy & _ & ->)%Hin. rewrite Forall_lookup in Hv.
    specialize (Hv _ _ Hy). by case_decide.
  - split; rewrite Hl.
    + intros i x (y' & Hy & _ & ->)%Hin Hi. rewrite decide_False by lia. by apply (Hnone i); [|lia].
    + intros x (y' & Hy & _ & ->)%Hin. rewrite decide_True by done. cbn. by rewrite Ha'.
  - apply NoDup_cons. split; [|done]. intros Hag.
    destruct (mod_fresh _ _ _ _ Hmod2 a Hag) as [?|?]; [done|congruence].
  - eapply modifies_trans; [exact Hmod1|]. apply (modifies_app _ _ _ _ [a]) in Hmod2.
    by rewrite !(Permutation_app_comm _ [a]) in Hmod2.
Qed.

(** The node is taken apart at the first key that differs. *)
Lemma chain_split_ok p fl H l a c cs nl m x k fuel :
  heap_ok p fl → (H + req + 10 ≤ length fl)%nat → (1 ≤ H)%nat → g_rep p H order l (GChain a c cs nl) →
  NoDup (g_addrs (GChain a c cs nl)) → o_shaped nl → (1 ≤ m < length (c :: cs))%nat →
  matches l (take m (c :: cs)) → (c :: cs) !! m = Some x → ks !! (l + m)%nat = Some k → key x ≠ k →
  no_overlap (drop l ks) (abs <$> Some (GChain a c cs nl)) →
  (l + m < req)%nat → (fuel_bound H order + 6 ≤ fuel)%nat →
  ∃ p', _insert_in_to_compressed fuel a (ck (l + m)) m p = (Ok tt, p')
    ∧ inserted l p p' fl (H + req + 4) H (Some (GChain a c cs nl)) a.
Proof using Hok Hrp HPC.
  intros Hp Hfl HH Hg Hnd Hne Hm Hmatch Hx Hk Hxk Hno Hreq Hfuel. destruct fuel as [|fuel]; [lia|].
  assert (chain_stop l (c :: cs) m nl) as Hst by (split_and!; [lia..|done|right; by exists x, k]).
  pose proof (chain_stop_key _ _ _ _ _ _ _ _ Hg Hst) as Hkey.
  destruct (chain_parts _ _ _ _ _ _ _ _ Hg) as (nd & Ha & Hc & Hv & [Hnone _] & Hcs).
  pose proof (cr_max _ _ _ _ Hc) as Hmax.
  destruct (decompress_mid_ok p fl H order l a c cs nl m x) as
    (p1 & n1 & z & x' & o' & nd' & (Hdec & Hn1 & Hp1) & (Hgz & Hkx' & Hneo & Habsz) & (Ha1 & Hseg & Hcomp)
     & Hnd1 & Hmod1); [done|lia|done|done|done|done|lia|done|].
  destruct (Forall2_lookup_r _ _ _ _ _ (rp_keys _ _ _ _ Hrp) Hk) as (d & Hd & _).
  assert (apart k x') as Hap.
  { cbn [fmap option_fmap option_map] in Hno. rewrite abs_chain in Hno.
    apply (no_overlap_chain_at l (c :: cs) m) in Hno; [|lia|done].
    rewrite (drop_S _ _ _ Hk), (drop_S _ _ _ Hx) in Hno. destruct Hno as [[Hno _]%Forall_cons _].
    cbn in Hno. unfold apart, below, above. rewrite Hkx'. destruct Hno as [?|[?|?]]; [done|by left|by right]. }
  apply NoDup_cons in Hnd1 as [Haz Hndz].
  assert (g_shaped (packed z x' [] o')) as Hnez by by apply packed_shaped.
  assert (integrity_check fuel z order (l + m) p1 = (Ok tt, p1)) as Hcheck.
  { apply (integrity_check_ok p1 _ H order Hp1 _ (l + m) fuel Hgz Hnez).
    assert (S H * (length order - (l + m)) ≤ S H * length order)%nat by (apply Nat.mul_le_mono_l; lia).
    unfold fuel_bound in Hfuel. lia. }
  destruct max_degree as [HM HM1].
  pose proof (packed_addrs z x' [] o' : g_addrs (GLayer (BNode z [x'] []) [o']) = _) as Hpa.
  destruct (insert_miss_ok order rule_ ks req Hrp HPC (l + m) k d Hreq Hk Hd p1 (drop n1 fl) H
              (BNode z [x'] []) [o'] fuel) as
    (p2 & r & Hrun & (n & g' & [Hn Hp2] & (Hg' & Ha' & Hnd2 & Hne2) & Habs & Hmod2) & Hr);
    [done|rewrite length_drop; lia|exact Hgz|by rewrite Hpa|done|by constructor|lia|].
  specialize (Hr ltac:(change (1 < MAX_DEGREE)%nat; lia)). cbn [addr] in Hr. subst r. rewrite Hr in Hrun.
  exists p2. split.
  - rewrite _insert_in_to_compressed_S, (bind_load _ _ _ _ Ha).
    rewrite !bind_assert by (first [apply (cr_compressed _ _ _ _ Hc)|apply (cr_leaf _ _ _ _ Hc)
      |rewrite (cr_cnt _ _ _ _ Hc); apply Nat.leb_le; lia]).
    rewrite (cr_cnt _ _ _ _ Hc), (proj2 (Nat.eqb_neq m _)) by lia.
    run_ok by (exact Hdec). cbn [cookie_at dimension_order level]. run_ok by (exact Hcheck).
    fold (ck (l + m)). run_ok by (exact Hrun). done.
  - cbn [o_addrs] in Hmod2. rewrite Hpa in Hmod2.
    eapply (chain_split_inserted p p1 p2 fl n1 n); try done.
    + by rewrite <- drop_drop in Hp2 || rewrite drop_drop in Hp2.
    + lia.
    + by rewrite Habs, <- Habsz.
Qed.

Lemma chain_act_ok p fl H l a c cs nl m fuel :
  heap_ok p fl → (H + req + 10 ≤ length fl)%nat → (1 ≤ H)%nat → g_rep p H order l (GChain a c cs nl) →
  NoDup (g_addrs (GChain a c cs nl)) → o_shaped nl → chain_stop l (c :: cs) m nl →
  no_overlap (drop l ks) (abs <$> Some (GChain a c cs nl)) → (fuel_bound H order + 7 ≤ fuel)%nat →
  ∃ p', act fuel a (m - 1) (ck (l + (m - 1))) p = (Ok tt, p')
    ∧ inserted l p p' fl (H + req + 4) H (Some (GChain a c cs nl)) a.
Proof using Hok Hrp HPC.
  intros Hp Hfl HH Hg Hnd Hne Hst Hno Hfuel. pose proof Hst as (Hm & Hmatch & Hstop).
  destruct (chain_parts _ _ _ _ _ _ _ _ Hg) as (nd & Ha & Hc & _).
  unfold act, required_more_levels. cbn [cookie_at level requires_levels].
  replace (l + (m - 1) + 1)%nat with (l + m)%nat by lia.
  destruct (Nat.ltb_spec (l + m) req) as [Hmore|Hmore].
  - rewrite ck_next. replace (l + (m - 1) + 1)%nat with (l + m)%nat by lia.
    replace (m - 1 + 1)%nat with m by lia.
    rewrite (bind_load _ _ _ _ Ha), (cr_compressed _ _ _ _ Hc).
    destruct Hstop as [[-> Hw]|(x & k & Hx & Hk & Hxk)].
    + rewrite firstn_all in Hmatch. destruct (chain_next_ok p fl H l a c cs nl fuel) as (p' & Hrun & Hins);
        [done|lia|done..|]. exists p'. split; [exact Hrun|].
      eapply o_inserted_mono; [|exact Hins]. lia.
    + pose proof (lookup_lt_Some _ _ _ Hx).
      apply (chain_split_ok p fl H l a c cs nl m x k fuel); done || lia.
  - by apply (chain_set_ok p fl (H + req + 4) H l a c cs nl m).
Qed.

(** ** The whole path *)

Lemma last_chain_items a m : (1 ≤ m)%nat → last (chain_items a 0 m) = Some (a, a, m - 1)%nat.
Proof.
  intros Hm. unfold chain_items. rewrite last_lookup, length_fmap, length_seq, list_lookup_fmap.
  rewrite lookup_seq_lt by lia. cbn. by replace (Init.Nat.pred m) with (m - 1)%nat by lia.
Qed.

(** The layers before the last position are as before but for the layer the
    path continues in. *)
Lemma layer_pass p p' fl N H l t nexts b i j x g :
  g_rep p H order l (GLayer t nexts) → NoDup (g_addrs (GLayer t nexts)) →
  g_shaped (GLayer t nexts) → ks !! l = Some (key x) → flat t !! j = Some x →
  nexts !! j = Some (Some g) → key_at t b i x → has_key (drop (S l) ks) (abs <$> Some g) = true →
  inserted (S l) p p' fl N H (Some g) (g_addr g) →
  inserted l p p' fl N H (Some (GLayer t nexts)) (addr t).
Proof using Hok.
  intros Hg Hnd Hne Hk Hj Ho Hx Hkey (n & g' & [Hn Hp'] & (Hg' & Ha' & Hnd' & Hne') & Habs & Hmod).
  pose proof Hg as ((d & Hd & Hr) & Hs & Hh & Hnx)%g_rep_layer.
  pose proof Hne as [Htsh _]%g_shaped_layer.
  apply Forall2_same_length_lookup in Hnx as [_ Hnx]. specialize (Hnx _ _ _ Hj Ho) as [Hxn _].
  pose proof Hnd as Hnd0. rewrite g_addrs_layer in Hnd0. apply NoDup_app in Hnd0 as (_ & Hdis & _).
  eapply (layer_update order rule_ ks req p p' p' fl n N H l t nexts j x (Some g) (Some g') t id);
    [done|done|done|done|done|done|done|exact Hmod|apply modifies_refl| |done|done|done|done
    | |done| |done|done|done|].
  - exists d. split; [done|]. eapply rep_modifies; [exact Hr|exact Hmod|]. intros a Ha Hag.
    apply (Hdis a Ha), elem_of_concat. exists (o_addrs (Some g)). split; [done|].
    by eapply list_elem_of_fmap_2, list_elem_of_lookup_2.
  - symmetry. by apply list_alter_id.
  - cbn. by rewrite Ha'.
  - cbn in Hkey |- *. rewrite Hkey, orb_true_r, Habs. by replace (req - S l)%nat with (req - l - 1)%nat by lia.
Qed.

Lemma chain_pass p p' fl N H l a c cs g :
  g_rep p H order l (GChain a c cs (Some g)) → NoDup (g_addrs (GChain a c cs (Some g))) → (1 ≤ H)%nat →
  matches l (c :: cs) →
  has_key (drop (l + length (c :: cs)) ks) (abs <$> Some g) = true →
  inserted (l + length (c :: cs)) p p' fl N H (Some g) (g_addr g) →
  inserted l p p' fl N H (Some (GChain a c cs (Some g))) a.
Proof.
  intros Hg Hnd HH Hmatch Hkey (n & g' & [Hn Hp'] & (Hg' & Ha' & Hnd' & Hne') & Habs & Hmod).
  destruct (chain_parts _ _ _ _ _ _ _ _ Hg) as (nd & Ha & Hc & Hv & [Hnone Hlast] & Hcs).
  cbn [g_addrs] in Hnd. apply NoDup_cons in Hnd as [Hao _].
  pose proof (mod_frame _ _ _ _ Hmod a nd Hao Ha) as Ha1.
  eapply (chain_replaced _ _ _ n _ _ _ _ _ _ _ c cs (Some g') nd); [done|done|done|by apply chain_seg| |done| | |done| |].
  - rewrite (cr_compressed _ _ _ _ Hc). by destruct cs.
  - split; [done|]. intros x Hx. destruct (Hlast x Hx) as [Hxn _]. cbn. by rewrite Ha'.
  - apply NoDup_cons. split; [|done]. intros Hag.
    destruct (mod_fresh _ _ _ _ Hmod a Hag) as [?|?]; [done|congruence].
  - rewrite (matches_drop _ _ Hmatch), t_insert_chain by done. rewrite Hkey, orb_true_r.
    apply (f_equal (chain_trie (c :: cs))). replace (req - l - length (c :: cs))%nat with (req - (l + length (c :: cs)))%nat by lia.
    exact Habs.
  - apply (modifies_app _ _ _ _ [a]) in Hmod. by rewrite !(Permutation_app_comm _ [a]) in Hmod.
Qed.

(** What happens at the last position of a path is a change of the tree, when it
    is a change of the layer or the compressed node that holds the position:
    [C] is what is known of the subtrees on the path, [E] of the level of the
    position, and [X] is what happens there. *)
Section last.
Context (p : Heap V) (fl : list nat) (N H : nat).
Context (C : nat → option (gtrie V) → Prop) (E : nat → Prop) (X : nat → ptr → nat → Heap V → Prop).
Hypothesis HH : (1 ≤ H)%nat.
Hypothesis HClayer : ∀ l t nexts j x o,
  C l (Some (GLayer t nexts)) → ks !! l = Some (key x) → flat t !! j = Some x → nexts !! j = Some o → C (S l) o.
Hypothesis HCchain : ∀ l a c cs nl,
  C l (Some (GChain a c cs nl)) → matches l (c :: cs) → C (l + length (c :: cs))%nat nl.
Hypothesis Hlayer : ∀ l t nexts b i j x o,
  g_rep p H order l (GLayer t nexts) → NoDup (g_addrs (GLayer t nexts)) →
  g_shaped (GLayer t nexts) → ks !! l = Some (key x) → key_at t b i x →
  flat t !! j = Some x → nexts !! j = Some o → walk ks (S l) o [] →
  C l (Some (GLayer t nexts)) → E l →
  ∃ p', X l b i p' ∧ inserted l p p' fl N H (Some (GLayer t nexts)) (addr t).
Hypothesis Hchain : ∀ l a c cs nl m,
  g_rep p H order l (GChain a c cs nl) → NoDup (g_addrs (GChain a c cs nl)) → o_shaped nl →
  chain_stop l (c :: cs) m nl → C l (Some (GChain a c cs nl)) → E (l + (m - 1))%nat →
  ∃ p', X (l + (m - 1))%nat a (m - 1)%nat p' ∧ inserted l p p' fl N H (Some (GChain a c cs nl)) a.

Lemma at_last_ok l g path :
  walk ks l (Some g) path → path ≠ [] → g_rep p H order l g → NoDup (g_addrs g) → g_shaped g →
  C l (Some g) → E (l + (length path - 1))%nat →
  ∃ r b i p', last path = Some (r, b, i) ∧ X (l + (length path - 1))%nat b i p'
    ∧ inserted l p p' fl N H (Some g) (g_addr g).
Proof using Hok Hrp HH HClayer HCchain Hlayer Hchain.
  intros Hw Hpath Hg Hnd Hne HC HE. remember (Some g) as o eqn:Ho. revert g Ho Hg Hnd Hne HC HE.
  induction Hw as [l|l t nexts k Hk Hmiss|l t nexts b i j x o rest Hk Hx Hj Ho Hw IH|l a c cs nl k Hk Hc
    |l a c cs nl m x k Hmatch Hm Hx Hk Hxk|l a c cs nl rest Hmatch Hw IH]; intros g [= <-] Hg Hnd Hne HC HE;
    [done| |done| |].
  - destruct (decide (rest = [])) as [->|Hrest].
    + cbn [length] in HE |- *. rewrite Nat.sub_diag, Nat.add_0_r in HE |- *.
      destruct (Hlayer l t nexts b i j x o) as (p' & Hrun & Hins); [done..|].
      by exists (addr t), b, i, p'.
    + destruct o as [g|]; [|by inversion Hw; subst].
      destruct (layer_next p H l t nexts j g) as (Hg' & Hnd' & Hne'); [done..|].
      destruct rest as [|y rest]; [done|].
      cbn [length] in HE, IH |- *.
      replace (l + (S (S (length rest)) - 1))%nat with (S l + (S (length rest) - 1))%nat in HE |- * by lia.
      destruct (IH Hrest g eq_refl Hg' Hnd' Hne') as (r' & b' & i' & p' & Hlast & Hrun & Hins); [by eapply HClayer|done|].
      exists r', b', i', p'. split; [exact Hlast|]. split; [exact Hrun|].
      eapply layer_pass; [done..| |done]. rewrite (has_key_walk order ks p H _ _ _ Hw) by (by intros ? [= <-]).
      by apply bool_decide_true.
  - exists a, a, (m - 1)%nat. pose proof (lookup_lt_Some _ _ _ Hx). unfold chain_items at 1 in HE. unfold chain_items at 2.
    rewrite length_fmap, length_seq in HE |- *.
    destruct (Hchain l a c cs nl m) as (p' & Hrun & Hins); [done..| |done|done|].
    { split_and!; [lia|lia| |right; by exists x, k].
      intros i y [Hy Hi]%lookup_take_Some. by apply Hmatch. }
    exists p'. split; [by apply last_chain_items|done].
  - destruct (decide (rest = [])) as [->|Hrest].
    + exists a, a, (length (c :: cs) - 1)%nat. rewrite app_nil_r in HE |- *. unfold chain_items at 1 in HE.
      unfold chain_items at 2. rewrite length_fmap, length_seq in HE |- *.
      destruct (Hchain l a c cs nl (length (c :: cs))) as (p' & Hrun & Hins); [done..| |done|done|].
      { split_and!; [cbn; lia|lia|rewrite firstn_all; exact Hmatch|by left]. }
      exists p'. split; [apply last_chain_items; cbn; lia|done].
    + destruct nl as [g|]; [|by inversion Hw; subst].
      assert (NoDup (g_addrs g)) as Hnd' by (cbn [g_addrs] in Hnd; by apply NoDup_cons in Hnd as [_ ?]).
      pose proof (chain_last_rep _ _ _ _ _ _ _ Hg) as Hg'. destruct rest as [|y rest]; [done|].
      assert (l + (length (chain_items a 0 (length (c :: cs)) ++ y :: rest) - 1)
              = l + length (c :: cs) + (length (y :: rest) - 1))%nat as Hlen.
      { rewrite length_app. unfold chain_items. rewrite length_fmap, length_seq. cbn. lia. }
      rewrite Hlen in HE |- *.
      destruct (IH Hrest g eq_refl Hg' Hnd' Hne) as (r' & b' & i' & p' & Hlast & Hrun & Hins); [by eapply HCchain|done|].
      exists r', b', i', p'. split; [by rewrite last_app, Hlast|]. split; [exact Hrun|].
      eapply chain_pass; [done..| |done]. rewrite (has_key_walk order ks p H _ _ _ Hw) by (by intros ? [= <-]).
      by apply bool_decide_true.
Qed.
End last.

(** [insert] behind [search_path], on a path that is not empty. *)
Theorem act_ok p fl H l g path fuel :
  walk ks l (Some g) path → path ≠ [] → heap_ok p fl → (H + req + 10 ≤ length fl)%nat → (1 ≤ H)%nat →
  g_rep p H order l g → NoDup (g_addrs g) → g_shaped g → no_overlap (drop l ks) (abs <$> Some g) →
  (fuel_bound H order + 7 ≤ fuel)%nat →
  ∃ r b i p', last path = Some (r, b, i) ∧ act fuel b i (ck (l + (length path - 1))) p = (Ok tt, p')
    ∧ inserted l p p' fl (H + req + 4) H (Some g) (g_addr g).
Proof using Hok Hrp HPC.
  intros Hw Hpath Hp Hfl HH Hg Hnd Hne Hno Hfuel.
  apply (at_last_ok p fl (H + req + 4) H (λ l o, no_overlap (drop l ks) (abs <$> o)) (λ _, True)
    (λ l b i p', act fuel b i (ck l) p = (Ok tt, p'))); try done.
  - intros l' t nexts j x o Hno' Hk Hj Ho. by eapply no_overlap_layer.
  - intros l' a c cs nl Hno' Hmatch. cbn [fmap option_fmap option_map] in Hno'. rewrite abs_chain in Hno'.
    apply (no_overlap_chain_at l' (c :: cs) (length (c :: cs))) in Hno'; [by rewrite drop_all in Hno'|done|].
    by rewrite firstn_all.
  - intros l' t nexts b i j x o Hg' Hnd' Hne' Hk Hx Hj Ho Hw' Hno' _.
    destruct (layer_act_ok p fl H l' t nexts b i j x o fuel) as (p' & Hrun & Hins); [done|lia|done..|lia|].
    exists p'. split; [exact Hrun|]. eapply o_inserted_mono; [|exact Hins]. lia.
  - intros l' a c cs nl m Hg' Hnd' Hne' Hst Hno' _. by apply (chain_act_ok p fl H l' a c cs nl m fuel).
Qed.

(** The value of the key at the end of a path is overwritten; no node is
    needed. *)
Lemma set_value_ok p fl H l g path :
  walk ks l (Some g) path → path ≠ [] → heap_ok p fl → (1 ≤ H)%nat →
  g_rep p H order l g → NoDup (g_addrs g) → g_shaped g → req = (l + length path)%nat →
  ∃ r b i p', last path = Some (r, b, i) ∧ set_value b i (rvalue rule_) p = (Ok tt, p')
    ∧ inserted l p p' fl 0 H (Some g) (g_addr g).
Proof using Hok Hrp.
  intros Hw Hpath Hp HH Hg Hnd Hne Hreq.
  apply (at_last_ok p fl 0 H (λ _ _, True) (λ l, req ≤ l + 1)%nat
    (λ l b i p', set_value b i (rvalue rule_) p = (Ok tt, p'))); try done.
  - intros l' t nexts b i j x o Hg' Hnd' Hne' Hk Hx Hj Ho Hw' _ Hle. by eapply layer_set_ok.
  - intros l' a c cs nl m Hg' Hnd' Hne' Hst _ Hle. pose proof Hst as (? & _).
    apply (chain_set_ok p fl 0 H l' a c cs nl m); try done. lia.
  - destruct path; [done|cbn [length] in *; lia].
Qed.
End rule.
End InsertAct.
