(* ===== verification/TrieInsert.v ===== *)
(** * The paths stored after an insertion

    Facts about the abstract insertion [t_insert]: which paths with a valid
    value a trie stores afterwards. *)
From S2P Require Import Prelude Range RuleValue Mempool Node NodeLemmas Search Layer LayerSearch Trie Insert Split Chain InsertLayer InsertRoot InsertWalk.
Local Open Scope Z_scope.

Section TrieInsert.
Context {V : Type} `{!RuleValue V}.
Local Notation entry := (Range1d * V * option (trie V))%type.
Implicit Types (tr : option (trie V)) (es : list entry) (ks : list Range1d).

(** No layer has two equal keys. *)
Inductive unique_keys : option (trie V) → Prop :=
| unique_None : unique_keys None
| unique_Some es :
    NoDup ((λ e, e.1.1) <$> es) → (∀ k v nl, (k, v, nl) ∈ es → unique_keys nl) →
    unique_keys (Some (Entries es)).

(** The number of ranges that lead from key to equal key. *)
Fixpoint matched ks tr : nat :=
  match ks, tr with
  | k :: ks', Some (Entries es) =>
      match find_key k es with
      | Some (_, (_, _, nl)) => S (matched ks' nl)
      | None => 0
      end
  | _, _ => 0
  end.

(** Where the value of a rule with [n] relevant ranges is stored. *)
Definition endpoint (n : nat) ks tr : list Range1d := take (Nat.max n (matched ks tr)) ks.

Lemma find_key_Some k es j e : find_key k es = Some (j, e) → es !! j = Some e ∧ e.1.1 = k.
Proof. by intros (Hj & He & _)%list_find_Some. Qed.

Lemma find_key_None k es e : find_key k es = None → e ∈ es → e.1.1 ≠ k.
Proof. intros Hn%list_find_None He. rewrite Forall_forall in Hn. by apply Hn. Qed.

Lemma has_key_matched ks tr : has_key ks tr = (0 <? matched ks tr)%nat.
Proof.
  destruct ks as [|k ks], tr as [[es]|]; 
    cbn [has_key matched entries]; try reflexivity.
  destruct (find_key k es) as [[j [[v0 k0] nl]]|]; reflexivity.
Qed.

Lemma matched_le ks tr : (matched ks tr ≤ length ks)%nat.
Proof.
  revert tr. induction ks as [|k ks IH]; intros [[es]|]; cbn [matched length]; try lia.
  destruct (find_key k es) as [[j [[k' v] nl]]|]; [|lia]. specialize (IH nl). lia.
Qed.

Lemma insert_entry_elem (e e' : entry) es : e' ∈ insert_entry e es ↔ e' = e ∨ e' ∈ es.
Proof.
  induction es as [|x es IH]; cbn; [set_solver|]. case_match; [set_solver|].
  rewrite !elem_of_cons, IH. tauto.
Qed.

Lemma unique_entry es i j (e1 e2 : entry) :
  NoDup ((λ e, e.1.1) <$> es) → es !! i = Some e1 → es !! j = Some e2 → e1.1.1 = e2.1.1 → i = j.
Proof.
  intros Hnd H1 H2 He. eapply NoDup_lookup; [exact Hnd| |]; rewrite list_lookup_fmap, ?H1, ?H2; cbn; by rewrite ?He.
Qed.

Lemma update_entry_elem es j k v0 nl (e' e : entry) :
  NoDup ((λ e, e.1.1) <$> es) → es !! j = Some (k, v0, nl) →
  e ∈ <[j := e']> es ↔ e = e' ∨ (e ∈ es ∧ e.1.1 ≠ k).
Proof.
  intros Hnd Hj. pose proof (lookup_lt_Some _ _ _ Hj). split.
  - intros (i & Hi)%list_elem_of_lookup. destruct (decide (i = j)) as [->|Hij].
    + rewrite list_lookup_insert_eq in Hi by done. left. by injection Hi.
    + rewrite list_lookup_insert_ne in Hi by done. right. split; [by eapply list_elem_of_lookup_2|].
      intros He. apply Hij. by eapply unique_entry.
  - intros [->|[(i & Hi)%list_elem_of_lookup Hne]].
    + apply (list_elem_of_lookup_2 _ j). by apply list_lookup_insert_eq.
    + apply (list_elem_of_lookup_2 _ i). rewrite list_lookup_insert_ne; [done|].
      intros <-. by simplify_eq.
Qed.

(** The paths that start with an entry. *)
Definition stored_in (e : entry) ks w : Prop :=
  ∃ ks', ks = e.1.1 :: ks' ∧ ((ks' = [] ∧ w = e.1.2) ∨ stored e.2 ks' w).

Lemma stored_entries es ks w :
  stored (Some (Entries es)) ks w ↔ ∃ e, e ∈ es ∧ stored_in e ks w.
Proof.
  split.
  - intros (k & v & nl & ks' & -> & Hin & Hs)%stored_inv. exists (k, v, nl). split; [done|]. by exists ks'.
  - intros ([[k v] nl] & Hin & ks' & -> & [[-> ->]|Hs]); [by eapply stored_here|by eapply stored_next].
Qed.

Lemma stored_None ks w : ¬ stored (V := V) None ks w.
Proof. by inversion 1. Qed.

Lemma stored_cons tr ks w : stored tr ks w → ∃ k ks', ks = k :: ks'.
Proof. inversion 1; eauto. Qed.

Lemma new_trie_stored xs v ks w :
  is_valid (rv_default : V) = false → is_valid w = true →
  stored (new_trie xs v) ks w ↔ ks = xs ∧ xs ≠ [] ∧ w = v.
Proof.
  intros Hdef Hw. revert ks. induction xs as [|x xs IH]; intros ks.
  { split; [by intros ?%stored_None|naive_solver]. }
  cbn [new_trie]. rewrite stored_entries. setoid_rewrite list_elem_of_singleton. split.
  - intros (e & -> & ks' & -> & [[-> Hv]|Hs]); cbn in *.
    + destruct xs; [naive_solver|congruence].
    + apply IH in Hs as (-> & ? & ->). done.
  - intros (-> & _ & ->). eexists. split; [done|]. exists xs. split; [done|]. cbn.
    destruct xs as [|y xs]; [by left|]. right. by apply IH.
Qed.

(** After an insertion the trie stores the value of the rule at its end point
    and, at the other paths, the values it stored before. *)
Lemma stored_in_cons k v nl ks w :
  stored_in (k, v, nl) (k :: ks) w ↔ (ks = [] ∧ w = v) ∨ stored nl ks w.
Proof.
  split; [by intros (ks' & [= <-] & ?)|]. intros Hs. by exists ks.
Qed.

Lemma stored_in_key e ks w : stored_in e ks w → ∃ ks', ks = e.1.1 :: ks'.
Proof. intros (ks' & -> & _). by exists ks'. Qed.

(** What is stored once one entry is replaced, and once one is added: enough
    to know what changes behind its key. *)
Lemma stored_update es j k v0 nl v1 nl1 e v ks w :
  NoDup ((λ e, e.1.1) <$> es) → es !! j = Some (k, v0, nl) →
  (∀ ks', stored_in (k, v1, nl1) (k :: ks') w ↔
     (ks' = e ∧ w = v) ∨ (ks' ≠ e ∧ stored_in (k, v0, nl) (k :: ks') w)) →
  stored (Some (Entries (<[j := (k, v1, nl1)]> es))) ks w ↔
    (ks = k :: e ∧ w = v) ∨ (ks ≠ k :: e ∧ stored (Some (Entries es)) ks w).
Proof.
  intros Hnd Hj Hs. pose proof (list_elem_of_lookup_2 _ _ _ Hj) as Hin.
  rewrite !stored_entries. setoid_rewrite (update_entry_elem es j k v0 nl _ _ Hnd Hj). split.
  - intros (e' & [->|[He' Hne]] & Hst); destruct (stored_in_key _ _ _ Hst) as [ks' ->]; cbn in *.
    + apply Hs in Hst as [[-> ->]|[Hk Hst]]; [by left|right]. split; [congruence|eauto].
    + right. split; [congruence|eauto].
  - intros [[-> ->]|[Hne (e' & He' & Hst)]].
    { exists (k, v1, nl1). split; [by left|]. apply Hs. by left. }
    destruct (decide (e'.1.1 = k)) as [Hk|Hk]; [|exists e'; eauto].
    assert (e' = (k, v0, nl)) as ->.
    { apply list_elem_of_lookup in He' as [i Hi]. rewrite (unique_entry es i j e' (k, v0, nl)) in Hi by done.
      congruence. }
    destruct (stored_in_key _ _ _ Hst) as [ks' ->]. exists (k, v1, nl1). split; [by left|].
    apply Hs. right. split; [by intros ->|done].
Qed.

Lemma stored_insert es k v1 nl1 e v ks w :
  find_key k es = None →
  (∀ ks', stored_in (k, v1, nl1) (k :: ks') w ↔ ks' = e ∧ w = v) →
  stored (Some (Entries (insert_entry (k, v1, nl1) es))) ks w ↔
    (ks = k :: e ∧ w = v) ∨ (ks ≠ k :: e ∧ stored (Some (Entries es)) ks w).
Proof.
  intros Hno Hs. assert (∀ e, e ∈ es → e.1.1 ≠ k) as Hno' by (intros e'; by apply find_key_None).
  rewrite !stored_entries. setoid_rewrite insert_entry_elem. split.
  - intros (e' & [->|He'] & Hst); destruct (stored_in_key _ _ _ Hst) as [ks' ->]; cbn in *.
    + left. apply Hs in Hst as [-> ->]. done.
    + right. split; [|eauto]. intros [= He _]. by eapply Hno'.
  - intros [[-> ->]|[Hne (e' & He' & Hst)]]; [|exists e'; eauto].
    exists (k, v1, nl1). split; [by left|]. by apply Hs.
Qed.

Lemma t_insert_stored n ks v tr ks' w :
  unique_keys tr → (n ≤ length ks)%nat → (1 ≤ Nat.max n (matched ks tr))%nat →
  is_valid (rv_default : V) = false → is_valid w = true →
  stored (t_insert n ks v tr) ks' w ↔
    (ks' = endpoint n ks tr ∧ w = v) ∨ (ks' ≠ endpoint n ks tr ∧ stored tr ks' w).
Proof.
  intros Hu Hn Hm Hdef Hw. unfold endpoint. revert n tr ks' Hu Hn Hm.
  induction ks as [|k ks IH]; intros n tr ks' Hu Hn Hm.
  { destruct tr as [[es]|]; cbn in Hm, Hn; lia. }
  destruct tr as [[es]|].
  2: { cbn [matched t_insert] in *. rewrite Nat.max_l by lia. rewrite new_trie_stored by done.
       destruct n as [|n]; [lia|]. cbn [take]. pose proof (stored_None ks' w). naive_solver. }
  inversion_clear Hu as [|? Hnd Hu']. cbn [matched t_insert length] in *.
  destruct (find_key k es) as [[j [[k' v0] nl]]|] eqn:Hf.
  - apply find_key_Some in Hf as [Hj Hk]. cbn in Hk. subst k'.
    pose proof (Hu' _ _ _ (list_elem_of_lookup_2 _ _ _ Hj)) as Hnl.
    rewrite has_key_matched.
    destruct (Nat.max n (S (matched ks nl))) as [|m] eqn:Em; [lia|]. cbn [take].
    destruct ((1 <? n)%nat || (0 <? matched ks nl)%nat) eqn:Hb; eapply stored_update; try done; intros ks''.
    all: rewrite !stored_in_cons.
    + assert (1 ≤ Nat.max (n - 1) (matched ks nl))%nat as Hm'.
      { apply orb_true_iff in Hb as [?%Nat.ltb_lt|?%Nat.ltb_lt]; lia. }
      assert (m = Nat.max (n - 1) (matched ks nl)) as -> by lia.
      rewrite IH by (done || lia). pose proof (matched_le ks nl). set (e := take _ ks).
      assert (e ≠ []) as He; [|clear -He; destruct (decide (ks'' = [])); naive_solver].
      subst e. intros He%(f_equal length). rewrite length_take in He. cbn in He. lia.
    + apply orb_false_iff in Hb as [Hb1%Nat.ltb_ge Hb2%Nat.ltb_ge].
      assert (m = 0%nat) as -> by lia. cbn [take].
      assert (stored nl ks'' w → ks'' ≠ []) by (by intros (? & ? & ->)%stored_cons). naive_solver.
  - rewrite Nat.max_l by lia. destruct n as [|n]; [lia|]. cbn [take]. rewrite Nat.sub_succ, Nat.sub_0_r.
    apply stored_insert; [done|]. intros ks''. rewrite stored_in_cons, new_trie_stored by done.
    destruct n as [|n]; cbn.
    + rewrite take_0. split; [|naive_solver]. intros [[-> Hv]|(_ & ? & _)]; naive_solver.
    + destruct ks; [cbn in Hn; lia|]. cbn. naive_solver congruence.
Qed.

Lemma insert_entry_perm (e : entry) es : insert_entry e es ≡ₚ e :: es.
Proof. induction es as [|x es IH]; cbn; [done|]. case_match; [done|]. rewrite IH. apply Permutation_swap. Qed.

Lemma new_trie_unique xs v : unique_keys (new_trie xs v).
Proof.
  induction xs as [|x xs IH]; cbn; constructor; [apply NoDup_singleton|].
  by intros k w nl [= -> -> ->]%list_elem_of_singleton.
Qed.

Lemma t_insert_unique n ks v tr : unique_keys tr → unique_keys (t_insert n ks v tr).
Proof.
  revert n tr. induction ks as [|k ks IH]; intros n tr Hu;
    (destruct tr as [[es]|]; cbn [t_insert]; [|apply new_trie_unique]); [done|].
  inversion_clear Hu as [|? Hnd Hu'].
  destruct (find_key k es) as [[j [[k' v0] nl]]|] eqn:Hf.
  - apply find_key_Some in Hf as [Hj Hk]. cbn in Hk. subst k'.
    pose proof (list_elem_of_lookup_2 _ _ _ Hj) as Hin.
    constructor.
    + rewrite list_fmap_insert. rewrite list_insert_id; [done|].
      rewrite list_lookup_fmap, Hj. by destruct ((1 <? n)%nat || has_key ks nl).
    + intros k' w nl' [He|[He _]]%(update_entry_elem es j k v0 nl _ _ Hnd Hj); [|by eapply Hu'].
      destruct ((1 <? n)%nat || has_key ks nl); injection He as -> -> ->; [|by eapply Hu'].
      apply IH. by eapply Hu'.
  - constructor.
    + rewrite insert_entry_perm. cbn. apply NoDup_cons. split; [|done].
      intros (e & He & Hin)%list_elem_of_fmap. by apply (find_key_None _ _ _ Hf Hin).
    + intros k' w nl [[= -> -> ->]|Hin]%insert_entry_elem; [apply new_trie_unique|by eapply Hu'].
Qed.
End TrieInsert.
