(* ===== verification/InsertSpec.v ===== *)
(** * What an insertion does

    [insert_rule] on a tree that is stored in the memory: it returns, the tree
    it leaves is stored again, and the trie it represents is that of the
    abstract insertion [t_insert]. *)
From S2P Require Import Prelude Range RuleValue Mempool Node NodeLemmas Search Layer LayerSearch Trie TrieCheck TrieSearch Footprint Slots Insert LookupSpec Split Chain InsertLayer InsertRoot Decompress Integrity SearchPath InsertNext KeyUpdate InsertWalk InsertAct TrieInsert.
Local Open Scope Z_scope.

Section InsertSpec.
Context `{cfg : !BTreeCfg, Hok : !CfgOk} {V : Type} `{!RuleValue V}.
Implicit Types (p : Heap V) (g : gtrie V) (o : option (gtrie V)) (order : list nat).

(** The tree [o] is stored in the memory [p], whose free slots are [fl]; its
    layers are at most [H] high. *)
Record stores p (fl : list nat) (H : nat) order o : Prop := {
  st_heap : heap_ok p fl;
  st_rep : ∀ g, o = Some g → g_rep p H order 0 g;
  st_NoDup : NoDup (o_addrs o);
  st_nonempty : o_shaped o;
}.

Lemma insert_act fuel p (c : InsertCookie V) (r : option ptr) n i :
  ((let cookie := c in
   if required_more_levels cookie then
     let cookie := add_level 1 cookie in
     nd ← load n;
     (if is_compressed nd then _insert_in_to_compressed fuel n cookie (i + 1)
      else
        ins_root ← get_next_layer n i;
        ins_root ← insert_to_root fuel ins_root cookie;
        set_next_layer n i (Some ins_root));;
     mret r
   else
     nd ← load n;
     _ ← or_ub (nvalue nd !! i);
     upd n (node_set_value i (rvalue (rule cookie)));;
     mret r) : HM V (option ptr)) p = (act fuel n i c;; mret r) p.
Proof.
  unfold act. cbn beta zeta. destruct (required_more_levels c); [by rewrite bind_assoc|apply set_value_bind].
Qed.

Lemma total_levels_bound order (rule_ : rule_spec_t V) n :
  total_levels_required_cnt order rule_ = Some n → (1 ≤ n ≤ Nat.max 1 (length order))%nat.
Proof.
  unfold total_levels_required_cnt. generalize (le_n (length order)).
  generalize (length order) at 1 3. intros i. revert n. induction i as [|i IH]; intros n Hi; cbn.
  - intros [= <-]. lia.
  - destruct (order !! i); [|done]. cbn. destruct (fields rule_ !! _); [|done]. cbn.
    case_match; [intros [= <-]; lia|]. intros Hn%IH; lia.
Qed.

Lemma total_levels_total order (rule_ : rule_spec_t V) ks :
  Forall2 (λ d k, fields rule_ !! d = Some k) order ks → is_Some (total_levels_required_cnt order rule_).
Proof.
  intros Hks. unfold total_levels_required_cnt. generalize (le_n (length order)).
  generalize (length order) at 1 3. intros i. induction i as [|i IH]; intros Hi; cbn; [by eexists|].
  destruct (lookup_lt_is_Some_2 order i) as [d Hd]; [lia|].
  destruct (Forall2_lookup_l _ _ _ _ _ Hks Hd) as (k & _ & Hk). rewrite Hd. cbn. rewrite Hk. cbn.
  case_match; [by eexists|]. apply IH. lia.
Qed.

(** The path of a rule has one position for every range that is followed. *)
Lemma matched_chain (xs : list (KeyInfo V)) ks (T : option (trie V)) :
  matched ((key <$> xs) ++ ks) (chain_trie xs T) = (length xs + matched ks T)%nat.
Proof.
  induction xs as [|x xs IH]; [done|]. cbn [fmap list_fmap app chain_trie matched length].
  rewrite find_key_single. by rewrite IH.
Qed.

Lemma walk_matched p H order (ks : list Range1d) l o path :
  walk ks l o path → (∀ g, o = Some g → g_rep p H order l g) →
  length path = matched (drop l ks) (abs <$> o).
Proof.
  intros Hw. induction Hw as [l|l t nexts k Hk Hne|l t nexts b i j x o rest Hk Hx Hj Ho Hw IH
    |l a c cs nl k Hk Hc|l a c cs nl m x k Hmatch Hm Hx Hk Hxk|l a c cs nl rest Hmatch Hw IH]; intros Hg.
  - by destruct (drop l ks).
  - rewrite (drop_S _ _ _ Hk). cbn [fmap option_fmap option_map]. rewrite abs_layer. cbn [matched].
    replace (find_key k _) with (@None (nat * (Range1d * V * option (trie V)))); [done|].
    symmetry. apply list_find_None, Forall_forall. intros e (j & Hj)%list_elem_of_lookup He.
    unfold layer_entries in Hj. rewrite lookup_zip_with in Hj.
    apply bind_Some in Hj as (x & Hx & (o & _ & [= <-])%bind_Some). cbn in He.
    eapply Hne; [by eapply list_elem_of_lookup_2|done].
  - specialize (Hg _ eq_refl). apply g_rep_layer in Hg as (_ & Hs & _ & Hn).
    rewrite (drop_S _ _ _ Hk). cbn [fmap option_fmap option_map]. rewrite abs_layer. cbn [matched length].
    rewrite (find_key_layer _ _ j x (abs <$> o) Hs Hj) by (by rewrite list_lookup_fmap, Ho).
    rewrite IH; [done|]. intros g ->.
    by destruct (Forall2_lookup_r _ _ _ _ _ Hn Ho) as (y & _ & _ & Hg').
  - rewrite (drop_S _ _ _ Hk). cbn [fmap option_fmap option_map abs matched find_key]. unfold find_key. cbn.
    by rewrite decide_False.
  - pose proof (lookup_lt_Some _ _ _ Hx). unfold chain_items. rewrite length_fmap, length_seq.
    assert (length (take m (c :: cs)) = m) as Hl by (rewrite length_take; lia).
    assert (matches ks l (take m (c :: cs))) as Hmt.
    { intros i y [Hy Hi]%lookup_take_Some. by apply Hmatch. }
    cbn [fmap option_fmap option_map]. rewrite abs_chain, <- (take_drop m (c :: cs)), chain_trie_app.
    rewrite (matches_drop ks l _ Hmt), matched_chain, Hl, (drop_S _ _ _ Hk), (drop_S _ _ _ Hx).
    cbn [chain_trie matched]. unfold find_key. cbn. rewrite decide_False by done. lia.
  - rewrite length_app. unfold chain_items. rewrite length_fmap, length_seq.
    cbn [fmap option_fmap option_map]. rewrite abs_chain, (matches_drop ks l (c :: cs) Hmatch), matched_chain.
    rewrite IH; [done|]. intros g ->. by eapply chain_last_rep, Hg.
Qed.

(** The search for the path of a rule whose path ends before the last level. *)
Lemma search_path_found p fl H order (rule_ : rule_spec_t V) ks level o fuel :
  heap_ok p fl → Forall2 (λ d k, fields rule_ !! d = Some k) order ks →
  (∀ g, o = Some g → g_rep p H order level g) → o_shaped o → NoDup (o_addrs o) →
  (level + matched (drop level ks) (abs <$> o) < length order)%nat →
  (S H + (length order - level) ≤ fuel)%nat →
  ∃ path, search_path fuel (g_addr <$> o) order rule_ level p = (Ok path, p) ∧ walk ks level o path.
Proof using Hok.
  intros Hp Hks Hg Hne Hnd Hm Hf.
  destruct (search_path_run p fl H order rule_ ks Hp Hks level o fuel) as (path & Hrun & Hw); [done..|].
  exists path. split; [|done]. unfold found_path in Hrun.
  by rewrite overreads_short in Hrun by (by rewrite (walk_matched p H order ks level o path)).
Qed.

(** The insertion of one rule. *)
Section rule.
Context (order : list nat) (rule_ : rule_spec_t V) (ks : list Range1d) (req : nat).
Hypothesis Hrp : rule_path order rule_ ks req.
Hypothesis HPC : PATH_COMPRESSION = true.
Hypothesis Hreq : (1 ≤ req)%nat.

Lemma insert_ok p fl H o fuel :
  stores p fl H order o → (H + req + 10 ≤ length fl)%nat → (1 ≤ H)%nat →
  no_overlap ks (abs <$> o) → (matched ks (abs <$> o) < length order)%nat → (fuel_bound H order + 8 ≤ fuel)%nat →
  ∃ p' r, insert fuel (g_addr <$> o) (cookie_at order rule_ req 0) p = (Ok (Some r), p')
    ∧ o_inserted order rule_ ks req 0 p p' fl (H + req + 4) H o r.
Proof using Hok Hrp HPC Hreq.
  intros [Hp Hg Hnd Hne] Hfl HH Hno Hm Hfuel. destruct fuel as [|fuel]; [lia|].
  pose proof (rp_keys _ _ _ _ Hrp) as Hks. pose proof (rp_req _ _ _ _ Hrp) as Hreq'.
  destruct (search_path_found p fl H order rule_ ks 0 o fuel) as (path & Hsp & Hw);
    [done..|by rewrite drop_0|unfold fuel_bound in Hfuel; lia|].
  rewrite insert_S. cbn [cookie_at dimension_order rule level]. run_ok by (exact Hsp).
  destruct (decide (path = [])) as [->|Hpath].
  - destruct (lookup_lt_is_Some_2 ks 0) as [k Hk]; [lia|].
    destruct (Forall2_lookup_r _ _ _ _ _ Hks Hk) as (d & Hd & _).
    destruct (insert_to_root_ok order rule_ ks req Hrp HPC 0 k d Hreq Hk Hd p fl H o fuel)
      as (p' & r & Hrun & Hins); [done|lia|done|done|done|done| |lia|].
    { eapply (apart_of_walk order ks p H 0); [done..|]. by rewrite drop_0. }
    exists p', r. cbn [last]. fold (cookie_at order rule_ req 0). run_ok by (exact Hrun). split; [done|].
    eapply o_inserted_mono; [|exact Hins]. lia.
  - destruct o as [g|]; [|by inversion Hw; subst].
    destruct (act_ok order rule_ ks req Hrp HPC p fl H 0 g path fuel) as
      (r & b & i & p' & Hlast & Hrun & Hins); [done|done|done|done|done|by apply Hg|done|done|by rewrite drop_0|lia|].
    exists p', (g_addr g). split; [|done].
    match goal with |- context [@last ?A ?x] =>
      replace (@last A x) with (Some (r, b, i) : option A) by exact (eq_sym Hlast) end.
    etrans; [apply (insert_act fuel p (add_level (length path - 1) (cookie_at order rule_ req 0)) (Some (g_addr g)) b i)|].
    rewrite add_level_cookie. by run_ok by (exact Hrun).
Qed.
End rule.

(** The keys of a stored tree are pairwise different. *)
Lemma sorted_keys_NoDup (xs : list (KeyInfo V)) : sorted_keys xs → NoDup (key <$> xs).
Proof.
  induction xs as [|x xs IH]; [constructor|]. intros [[Hx Hv]%Forall_cons [Hs Hf]%StronglySorted_inv].
  cbn. apply NoDup_cons. split; [|by apply IH].
  intros (y & He & Hy)%list_elem_of_fmap. rewrite Forall_forall in Hf. specialize (Hf y Hy).
  unfold key_before in Hf. rewrite He in Hf, Hx. lia.
Qed.

Lemma abs_unique p H order level g : g_rep p H order level g → unique_keys (Some (abs g)).
Proof.
  revert level. induction g as [t nexts IH|a c cs nl IH] using gtrie_ind'; intros level.
  - intros (_ & Hs & _ & Hn)%g_rep_layer. rewrite abs_layer.
    apply sorted_keys_NoDup in Hs. constructor.
    + assert ((λ e : Range1d * V * option (trie V), e.1.1)
              <$> layer_entries (flat t) (fmap (M := option) abs <$> nexts) = (key <$> flat t)) as ->; [|done].
      apply Forall2_length in Hn. unfold layer_entries. revert nexts IH Hn. generalize (flat t) as xs. clear.
      induction xs as [|x xs IHxs]; intros [|o os] IH Hn; try done. cbn. f_equal.
      apply IHxs; [|by injection Hn]. intros g Hg. apply IH. by right.
    + intros k v nl (j & Hj)%list_elem_of_lookup. unfold layer_entries in Hj.
      rewrite lookup_zip_with in Hj. apply bind_Some in Hj as (x & Hx & (o & Ho & [= <- <- <-])%bind_Some).
      rewrite list_lookup_fmap in Ho. apply fmap_Some in Ho as (o' & Ho & ->).
      destruct o' as [g|]; [|constructor].
      apply (IH g (list_elem_of_lookup_2 _ _ _ Ho) (S level)).
      destruct (Forall2_lookup_r _ _ _ _ _ Hn Ho) as (y & _ & _ & Hg). exact Hg.
  - intros Hg. rewrite abs_chain. assert (unique_keys (abs <$> nl)) as Hnl.
    { destruct nl as [g|]; [|constructor]. eapply (IH g eq_refl). by eapply chain_last_rep. }
    generalize (c :: cs). clear - Hnl. intros xs. induction xs as [|x xs IHxs]; [done|].
    cbn [chain_trie]. constructor; [apply NoDup_singleton|].
    by intros k v o [= -> -> ->]%list_elem_of_singleton.
Qed.

(** The fuel that is enough for one insertion. *)
Definition insert_fuel (H : nat) order : nat := (fuel_bound (S H) order + 8)%nat.

Lemma insert_rule_ok p fl H order o (rule_ : rule_spec_t V) ks fuel :
  PATH_COMPRESSION = true → stores p fl H order o → (1 ≤ H)%nat → length order = D → (1 ≤ D)%nat →
  Forall2 (λ d k, fields rule_ !! d = Some k) order ks → Forall (λ k, low k ≤ high k) ks →
  no_overlap ks (abs <$> o) → (matched ks (abs <$> o) < D)%nat →
  (H + D + 10 ≤ length fl)%nat → (insert_fuel H order ≤ fuel)%nat →
  ∃ p' g req n, insert_rule fuel (g_addr <$> o) order rule_ p = (Ok (Some (g_addr g)), p')
    ∧ total_levels_required_cnt order rule_ = Some req
    ∧ (n ≤ H + D + 4)%nat ∧ stores p' (drop n fl) (S H) order (Some g)
    ∧ Some (abs g) = t_insert req ks (rvalue rule_) (abs <$> o)
    ∧ modifies p p' (o_addrs o) (g_addrs g).
Proof using Hok.
  intros HPC Hst HH Hlo HD Hks Hv Hno Hm Hfl Hfuel.
  destruct (total_levels_total _ _ _ Hks) as [req Hreq].
  pose proof (total_levels_bound _ _ _ Hreq) as [Hr1 Hr2]. pose proof (Forall2_length _ _ _ Hks) as Hlk.
  assert (rule_path order rule_ ks req) as Hrp by (split; [done|done|lia|lia]).
  unfold insert_fuel, fuel_bound in Hfuel.
  destruct (insert_ok order rule_ ks req Hrp HPC Hr1 p fl H o fuel) as
    (p' & r & Hrun & n & g & [Hn Hp'] & (Hg & Ha & Hnd & Hne) & Habs & Hmod);
    [done|lia|done|done|lia|unfold fuel_bound; lia|].
  exists p', g, req, n. split_and!; [|done|lia| | |exact Hmod].
  - unfold insert_rule, InsertCookie_ctor. rewrite Hreq. cbn [or_ub]. run_steps.
    subst r. cbn [dimension_order].
    run_ok by (apply (integrity_check_ok p' _ (S H) order Hp' g 0 fuel Hg Hne); rewrite Nat.sub_0_r; lia). done.
  - split; [done|by intros ? [= <-]|done|done].
  - by rewrite Nat.sub_0_r, drop_0 in Habs.
Qed.

(** ** Lookup after an insertion *)

(** The paths with a valid value after the insertion of a rule with [req]
    relevant ranges into a tree that stores [tr]. *)
Definition stored_after (req : nat) ks v (tr : option (trie V)) (ks' : list Range1d) (w : V) : Prop :=
  is_valid w = true
  ∧ ((ks' = endpoint req ks tr ∧ w = v) ∨ (ks' ≠ endpoint req ks tr ∧ stored tr ks' w)).

(** [v] is the value of the longest of the paths that match, the default value
    when none does. *)
Definition longest (P : list Range1d → V → Prop) (vals : list Z) (v : V) : Prop :=
  (v = rv_default ∧ ∀ ks w, P ks w → ¬ path_matches ks vals)
  ∨ ∃ ks, P ks v ∧ path_matches ks vals ∧ ∀ ks' w, P ks' w → path_matches ks' vals → ks' `prefix_of` ks.

(** C38. After the insertion of a rule whose ranges overlap no stored range
    they differ from, and whose path is not stored down to the last level yet,
    every packet finds the value of the longest matching
    path among the paths stored before and the path of the rule. *)
Theorem insert_then_search p fl H order o (rule_ : rule_spec_t V) ks fuel :
  PATH_COMPRESSION = true → KEY_SIZE = 2%nat → is_valid (rv_default : V) = false →
  stores p fl H order o → (1 ≤ H)%nat → length order = D → (1 ≤ D)%nat →
  Forall (λ d, (d < D)%nat) order → Forall2 (λ d k, fields rule_ !! d = Some k) order ks →
  Forall (λ k, low k ≤ high k) ks → no_overlap ks (abs <$> o) → (matched ks (abs <$> o) < D)%nat →
  (H + D + 10 ≤ length fl)%nat → (insert_fuel H order ≤ fuel)%nat →
  ∃ p' r req, insert_rule fuel (g_addr <$> o) order rule_ p = (Ok (Some r), p')
    ∧ total_levels_required_cnt order rule_ = Some req
    ∧ ∀ v, length v = D → Forall (λ x, 0 ≤ x < 65536) v →
      ∃ w, search_vec fuel default_in_packet_position order (Some r) v p' = (Ok w, p')
        ∧ longest (stored_after req ks (rvalue rule_) (abs <$> o)) ((λ d, v !!! d) <$> order) w.
Proof using Hok.
  intros HPC Hk Hdef Hst HH Hlo HD Ho Hks Hv Hno Hmt Hfl Hfuel.
  destruct (insert_rule_ok p fl H order o rule_ ks fuel) as (p' & g & req & n & Hrun & Hreq & Hn & Hst' & Habs & _);
    [done..|]. exists p', (g_addr g), req. split_and!; [done..|]. intros v Hl Hr.
  pose proof (total_levels_bound _ _ _ Hreq) as [Hr1 Hr2]. pose proof (Forall2_length _ _ _ Hks) as Hlk.
  assert (unique_keys (abs <$> o)) as Hu.
  { destruct o as [g0|]; [|constructor]. eapply abs_unique. by eapply (st_rep _ _ _ _ _ Hst). }
  assert (∀ ks' w, stored_after req ks (rvalue rule_) (abs <$> o) ks' w
            ↔ stored (Some (abs g)) ks' w ∧ is_valid w = true) as Hiff.
  { intros ks' w. unfold stored_after. rewrite Habs. split.
    - intros [Hw ?]. split; [|done]. apply t_insert_stored; done || lia.
    - intros [Hs Hw]. split; [done|]. apply t_insert_stored in Hs; done || lia. }
  unfold insert_fuel, fuel_bound in Hfuel.
  destruct (search_vec_run p' (drop n fl) (S H) order g v fuel) as (w & Hsearch & Hdeep);
    [done|apply Hst'|by apply Hst'|done|done|done|lia|].
  exists w. split; [exact Hsearch|]. destruct Hdeep as [[-> Hnone]|(ks0 & Hs & Hm & Hw & Hp)].
  - left. split; [done|]. intros ks' w [Hs Hw]%Hiff Hm. by rewrite (Hnone _ _ Hs Hm) in Hw.
  - right. exists ks0. split_and!; [by apply Hiff|done|]. intros ks' w' [Hs' Hw']%Hiff Hm'. by eapply Hp.
Qed.
End InsertSpec.

(** ** Deciding the hypotheses on a concrete tree *)

Section decide.
Context `{cfg : !BTreeCfg} {V : Type} `{!RuleValue V, !EqDecision V}.
Implicit Types (p : Heap V) (g : gtrie V).

Fixpoint g_shaped_check g : bool :=
  match g with
  | GLayer t nexts =>
      forallb (λ n, match n.2 with [] => false | _ => true end) (nodes t) && balanced (height t - 1) t
      && forallb (λ o, match o with Some g => g_shaped_check g | None => true end) nexts
  | GChain _ _ _ nl => match nl with Some g => g_shaped_check g | None => true end
  end.

Lemma g_shaped_check_sound g : g_shaped_check g = true → g_shaped g.
Proof.
  induction g as [t nexts IH|a c cs nl IH] using gtrie_ind'; cbn [g_shaped_check].
  - rewrite !andb_true_iff. intros [[Ht Hb] Hn]. apply g_shaped_layer. split; [split; [|by eexists]|].
    + eapply forallb_Forall; [|exact Ht]. by intros [? []].
    + rewrite forallb_forall in Hn. apply Forall_forall. intros [g|] Hin; [|done].
      apply IH; [done|]. by apply (Hn (Some g)), list_elem_of_In.
  - destruct nl as [g|]; [|done]. exact (IH g eq_refl).
Qed.

Definition stores_check p fl H order g : bool :=
  heap_check p fl && g_check p H order 0 g && bool_decide (NoDup (g_addrs g)) && g_shaped_check g.

Lemma stores_check_sound p fl H order g : stores_check p fl H order g = true → stores p fl H order (Some g).
Proof.
  unfold stores_check. rewrite !andb_true_iff, bool_decide_eq_true. intros [[[Hp Hg] Hnd] Hne].
  split; [by apply heap_check_sound|intros ? [= <-]; by apply g_check_sound|done|by apply g_shaped_check_sound].
Qed.

Fixpoint no_overlap_check (ks : list Range1d) (tr : option (trie V)) : bool :=
  match ks, tr with
  | k :: ks', Some (Entries es) =>
      forallb (λ e, if decide (e.1.1 = k) then no_overlap_check ks' e.2
                    else (high e.1.1 <? low k) || (high k <? low e.1.1)) es
  | _, _ => true
  end.

Lemma no_overlap_check_sound ks tr : no_overlap_check ks tr = true → no_overlap ks tr.
Proof.
  revert tr. induction ks as [|k ks IH]; intros [[es]|]; cbn; try done. rewrite forallb_forall. intros He. split.
  - apply Forall_forall. intros e Hin%list_elem_of_In. specialize (He e Hin). case_decide; [by left|].
    rewrite orb_true_iff, !Z.ltb_lt in He. by right.
  - intros e Hin%list_elem_of_In Hk. specialize (He e Hin). rewrite decide_True in He by done. by apply IH.
Qed.
End decide.

(** ** A rule inserted into the tree of the example *)

Module InsertExample.
Import LookupSpec.Example.
#[local] Existing Instance cfg3.

#[export] Instance cfg3_ok : CfgOk.
Proof. split; apply Nat.leb_le; reflexivity. Qed.

Definition keys10 : list Range1d := [exact16 1; exact16 2; exact16 5].
Definition new_rule : rule_spec_t RuleValueInt := rule3 (exact16 1) (exact16 2) (exact16 5) 3 10.

Lemma built_stores : stores built.2 (seq 8 22) 9 [0; 1; 2]%nat (Some built_tree).
Proof. apply stores_check_sound. vm_compute. reflexivity. Qed.

(** The rule shares its first two ranges with rules of the tree; the packet
    [1, 2, 5], which found the shorter rule 2 before, finds it. *)
Lemma insert_then_search_witness :
  stores built.2 (seq 8 22) 9 [0; 1; 2]%nat (Some built_tree)
  ∧ ∃ p' r req, insert_rule 100 (g_addr <$> Some built_tree) [0; 1; 2]%nat new_rule built.2 = (Ok (Some r), p')
    ∧ total_levels_required_cnt [0; 1; 2]%nat new_rule = Some req
    ∧ ∀ v, length v = D → Forall (λ x, 0 ≤ x < 65536) v →
      ∃ w, search_vec 100 default_in_packet_position [0; 1; 2]%nat (Some r) v p' = (Ok w, p')
        ∧ longest (stored_after req keys10 (rvalue new_rule) (abs <$> Some built_tree))
            ((λ d, v !!! d) <$> [0; 1; 2]%nat) w.
Proof.
  split; [exact built_stores|].
  apply (insert_then_search built.2 (seq 8 22) 9 [0; 1; 2]%nat (Some built_tree) new_rule keys10 100);
    [reflexivity..|exact built_stores|by apply Nat.leb_le|reflexivity|by apply Nat.leb_le| | | | | | |].
  - by repeat (constructor; [by apply Nat.ltb_lt|]).
  - repeat constructor.
  - repeat (constructor; [done|]). constructor.
  - apply no_overlap_check_sound. vm_compute. reflexivity.
  - apply Nat.ltb_lt. vm_compute. reflexivity.
  - apply Nat.leb_le. reflexivity.
  - apply Nat.leb_le. vm_compute. reflexivity.
Defined.
End InsertExample.
