(* ===== verification/Build.v ===== *)
(** * Building a tree

    A sequence of insertions: when the ranges in which two rules first differ
    are disjoint, every insertion of the sequence succeeds, and the lookup on
    the tree returns the value of the deepest stored path.  The state between
    two insertions is characterised by [stores]. *)
From S2P Require Import Prelude Range RuleValue Mempool Node NodeLemmas Search Layer LayerSearch Trie TrieCheck TrieSearch Footprint Slots Insert LookupSpec Split Chain InsertLayer InsertRoot Decompress Integrity SearchPath InsertNext KeyUpdate InsertWalk InsertAct TrieInsert InsertSpec.
Local Open Scope Z_scope.

Section compatible.
Context {V : Type} `{!RuleValue V}.
Implicit Types (ks : list Range1d) (tr : option (trie V)).

(** Where two rules first differ their ranges are disjoint. *)
Fixpoint compatible ks1 ks2 : Prop :=
  match ks1, ks2 with
  | k1 :: ks1', k2 :: ks2' =>
      (k1 = k2 ∧ compatible ks1' ks2') ∨ high k1 < low k2 ∨ high k2 < low k1
  | _, _ => True
  end.

#[export] Instance compatible_dec ks1 ks2 : Decision (compatible ks1 ks2).
Proof.
  revert ks2. induction ks1 as [|k1 ks1 IH]; intros [|k2 ks2]; cbn; try apply True_dec.
  apply or_dec; [apply and_dec; [apply decide, _|apply IH]|apply or_dec; apply Z.lt_dec].
Defined.

Lemma compatible_refl ks : compatible ks ks.
Proof. induction ks; cbn; auto. Qed.

Lemma compatible_prefix ks1 ks1' ks2 :
  ks1 `prefix_of` ks1' → compatible ks1' ks2 → compatible ks1 ks2.
Proof.
  intros [l ->]. revert ks2. induction ks1 as [|k ks1 IH]; intros [|k2 ks2]; cbn; try done.
  intros [[-> Hc]|Hd]; [left|by right]. split; [done|by apply IH].
Qed.

(** Every stored path, also of the keys without a value, is the beginning of
    one of the rules. *)
Definition paths_of (P : list (list Range1d)) tr : Prop :=
  ∀ ks w, stored tr ks w → ∃ ks', ks' ∈ P ∧ ks `prefix_of` ks'.

Lemma no_overlap_stored ks tr :
  Forall (λ k, low k ≤ high k) ks →
  (∀ ks' w, stored tr ks' w → compatible ks' ks) → no_overlap ks tr.
Proof.
  intros Hv. revert tr. induction Hv as [|k ks Hk _ IH]; intros [[es]|] Hc; cbn; try done. split.
  - apply Forall_forall. intros [[k' v] nl] Hin. cbn.
    destruct (Hc [k'] v (stored_here _ _ _ _ Hin)) as [[-> _]|Hd]; [by left|by right].
  - intros [[k' v] nl] Hin He. cbn in He |- *. subst k'. apply IH. intros ks' w Hs.
    destruct (Hc (k :: ks') w (stored_next _ _ _ _ _ _ Hin Hs)) as [[_ ?]|[?|?]]; [done|lia..].
Qed.

Lemma new_trie_paths xs v ks (w : V) : stored (new_trie xs v) ks w → ks `prefix_of` xs.
Proof.
  revert ks. induction xs as [|x xs IH]; intros ks Hs; [by apply stored_None in Hs|].
  apply stored_entries in Hs as (e & ->%list_elem_of_singleton & ks' & -> & [[-> _]|Hs]).
  - apply prefix_cons, prefix_nil.
  - apply prefix_cons. by apply IH.
Qed.

(** An insertion adds no path but beginnings of the path of the rule. *)
Lemma t_insert_paths n ks v tr ks' w :
  (1 ≤ Nat.max n (matched ks tr))%nat →
  stored (t_insert n ks v tr) ks' w → (∃ w', stored tr ks' w') ∨ ks' `prefix_of` endpoint n ks tr.
Proof.
  unfold endpoint. revert n tr ks'. induction ks as [|k ks IH]; intros n [[es]|] ks' Hm Hs; cbn [t_insert] in Hs;
    try (apply new_trie_paths in Hs; right; cbn [matched]; by rewrite Nat.max_0_r).
  - left. by exists w.
  - cbn [matched] in *. destruct (find_key k es) as [[j [[k' v0] nl]]|] eqn:Hf.
    + apply find_key_Some in Hf as [Hj Hk]. cbn in Hk. subst k'.
      apply stored_entries in Hs as (e & (i & Hi)%list_elem_of_lookup & ks'' & -> & He).
      destruct (decide (i = j)) as [->|Hij].
      2: { rewrite list_lookup_insert_ne in Hi by done. left. exists w. apply stored_entries.
           exists e. split; [by eapply list_elem_of_lookup_2|by exists ks'']. }
      rewrite list_lookup_insert_eq in Hi by (by eapply lookup_lt_Some). injection Hi as <-.
      pose proof (list_elem_of_lookup_2 _ _ _ Hj) as Hin.
      replace (Nat.max n (S (matched ks nl))) with (S (Nat.max (n - 1) (matched ks nl))) by lia. cbn [take].
      rewrite has_key_matched in He |- *.
      destruct ((1 <? n)%nat || (0 <? matched ks nl)%nat) eqn:Hb; cbn in He |- *;
        (destruct He as [[-> _]|Hs]; [right; apply prefix_cons, prefix_nil|]).
      * apply orb_true_iff in Hb as Hb'. rewrite !Nat.ltb_lt in Hb'.
        apply IH in Hs as [[w' Hs]|Hp]; [left; exists w'; by eapply stored_next|right; by apply prefix_cons|lia].
      * left. exists w. by eapply stored_next.
    + rewrite Nat.max_0_r in *. destruct n as [|n]; [lia|]. cbn [take]. rewrite Nat.sub_succ, Nat.sub_0_r in Hs.
      apply stored_entries in Hs as (e & [->|Hin]%insert_entry_elem & ks'' & -> & He).
      * cbn in He |- *. right. apply prefix_cons. destruct He as [[-> _]|Hs]; [apply prefix_nil|].
        by apply new_trie_paths in Hs.
      * left. exists w. apply stored_entries. exists e. split; [done|by exists ks''].
Qed.

Lemma t_insert_paths_of P n ks v tr :
  (1 ≤ n)%nat → paths_of P tr → paths_of (ks :: P) (t_insert n ks v tr).
Proof.
  intros Hn Hp ks' w [[w' Hs]|Hpre]%t_insert_paths; [| |lia].
  - destruct (Hp _ _ Hs) as (ks0 & Hin & ?). exists ks0. split; [by right|done].
  - exists ks. split; [by left|]. etrans; [exact Hpre|apply prefix_take].
Qed.
(** The prefix of a list that is followed is stored. *)
Lemma matched_stored ks tr :
  (0 < matched ks tr)%nat → ∃ w, stored tr (take (matched ks tr) ks) w.
Proof.
  revert tr. induction ks as [|k ks IH]; intros tr; [cbn; lia|]. destruct tr as [[es]|]; [|cbn; lia].
  cbn [matched]. destruct (find_key k es) as [[j [[k' v] nl]]|] eqn:Hf; [|lia]. intros _.
  apply find_key_Some in Hf as [Hj Hk]. cbn in Hk. subst k'. apply list_elem_of_lookup_2 in Hj.
  cbn [take]. destruct (matched ks nl) as [|m] eqn:Hm.
  - exists v. by eapply stored_here.
  - destruct (IH nl) as [w Hw]; [lia|]. rewrite Hm in Hw. exists w. by eapply stored_next.
Qed.

End compatible.

Section Build.
Context `{cfg : !BTreeCfg, Hok : !CfgOk} {V : Type} `{!RuleValue V}.
Implicit Types (p : Heap V) (g : gtrie V) (o : option (gtrie V)) (order : list nat) (r : rule_spec_t V).

(** The insertions of the rules, one after the other, into the tree with the
    root [root]. *)
Definition insert_rules (fuel : nat) (root : option ptr) order (rs : list (rule_spec_t V))
    : HM V (option ptr) :=
  fold_each rs root (λ root r, insert_rule fuel root order r).

(** The ranges of a rule in the order of the tree. *)
Definition rule_keys order r : list Range1d :=
  (λ d, default (mkRange 0 0) (fields r !! d)) <$> order.

Definition t_insert_rule order (tr : option (trie V)) r : option (trie V) :=
  t_insert (default 0%nat (total_levels_required_cnt order r)) (rule_keys order r) (rvalue r) tr.

(** A rule the tree can take: one valid range for every dimension. *)
Definition rule_ok r : Prop := length (fields r) = D ∧ Forall (λ k, low k ≤ high k) (fields r).

Lemma rule_keys_ok order r :
  rule_ok r → Forall (λ d, (d < D)%nat) order →
  Forall2 (λ d k, fields r !! d = Some k) order (rule_keys order r)
  ∧ Forall (λ k, low k ≤ high k) (rule_keys order r).
Proof.
  intros [Hl Hv] Ho. unfold rule_keys. rewrite Forall_forall in Ho. rewrite Forall_lookup in Hv.
  assert (∀ d, d ∈ order → ∃ k, fields r !! d = Some k ∧ low k ≤ high k) as Hd.
  { intros d Hd. destruct (lookup_lt_is_Some_2 (fields r) d) as [k Hk]; [rewrite Hl; by apply Ho|].
    exists k. split; [done|by eapply Hv]. }
  split.
  - apply Forall2_fmap_r, Forall_Forall2_diag, Forall_forall. intros d (k & Hk & _)%Hd. cbn.
    by rewrite Hk.
  - apply Forall_fmap, Forall_forall. intros d (k & Hk & Hv')%Hd. cbn. by rewrite Hk.
Qed.

(** The nodes [n] insertions need at most, when the layers are at most [H]
    high before them. *)
Fixpoint nodes_needed (H n : nat) : nat :=
  match n with
  | O => 0%nat
  | S n' => (H + D + 10 + nodes_needed (S H) n')%nat
  end.

(** Every rule is compatible with the rules before it. *)
Fixpoint all_compatible order (P : list (list Range1d)) (rs : list (rule_spec_t V)) : Prop :=
  match rs with
  | [] => True
  | r :: rs' =>
      Forall (λ ks, compatible ks (rule_keys order r)) P
      ∧ all_compatible order (rule_keys order r :: P) rs'
  end.

(** The rule is stored at the last level: its range of the last dimension of
    the order is not a wildcard. *)
Definition full_depth order r : bool := bool_decide (total_levels_required_cnt order r = Some D).

(** The paths of the full depth are in [F]. *)
Definition full_paths (F : list (list Range1d)) (tr : option (trie V)) : Prop :=
  ∀ ks w, stored tr ks w → length ks = D → ks ∈ F.

(** No rule has the ranges of one before it that is stored at the last level. *)
Fixpoint unrepeated order (F : list (list Range1d)) (rs : list (rule_spec_t V)) : Prop :=
  match rs with
  | [] => True
  | r :: rs' =>
      rule_keys order r ∉ F
      ∧ unrepeated order (if full_depth order r then rule_keys order r :: F else F) rs'
  end.

Lemma rule_keys_length order r : length (rule_keys order r) = length order.
Proof. apply length_fmap. Qed.

(** The path of a rule that is not in [F] ends before the last level. *)
Lemma full_paths_matched order F tr r :
  length order = D → (1 ≤ D)%nat → full_paths F tr → rule_keys order r ∉ F →
  (matched (rule_keys order r) tr < D)%nat.
Proof.
  intros Hl HD HF Hr. pose proof (matched_le (rule_keys order r) tr) as Hle.
  rewrite rule_keys_length in Hle. destruct (decide (matched (rule_keys order r) tr = D)) as [He|]; [|lia].
  destruct (matched_stored (rule_keys order r) tr) as [w Hw]; [lia|].
  rewrite take_ge in Hw by (rewrite rule_keys_length; lia). exfalso. apply Hr, (HF _ w); [done|].
  rewrite rule_keys_length. lia.
Qed.

Lemma full_paths_insert order F tr r :
  length order = D → (1 ≤ D)%nat → full_paths F tr → is_Some (total_levels_required_cnt order r) →
  rule_keys order r ∉ F →
  full_paths (if full_depth order r then rule_keys order r :: F else F) (t_insert_rule order tr r).
Proof.
  intros Hl HD HF [n Hn] Hr ks w Hs Hks.
  pose proof (full_paths_matched order F tr r Hl HD HF Hr) as Hm.
  unfold t_insert_rule in Hs. rewrite Hn in Hs. cbn [default id] in Hs.
  pose proof (total_levels_bound _ _ _ Hn) as [Hn1 Hn2].
  apply t_insert_paths in Hs as [[w' Hs]|Hp]; [| |lia].
  - specialize (HF _ _ Hs Hks). destruct (full_depth order r); [by right|done].
  - unfold endpoint in Hp. pose proof (prefix_length _ _ Hp) as Hle.
    rewrite length_take, rule_keys_length, Hks in Hle. assert (n = D) as -> by lia.
    unfold full_depth. rewrite bool_decide_true by done. rewrite take_ge in Hp by (rewrite rule_keys_length; lia).
    rewrite (prefix_length_eq ks (rule_keys order r)); [by left|done|]. by rewrite rule_keys_length, Hks, Hl.
Qed.

Lemma insert_rules_ok p fl H order o P F rs fuel :
  PATH_COMPRESSION = true → (1 ≤ D)%nat → length order = D → Forall (λ d, (d < D)%nat) order →
  (1 ≤ H)%nat → stores p fl H order o → paths_of P (abs <$> o) → full_paths F (abs <$> o) →
  Forall rule_ok rs → all_compatible order P rs → unrepeated order F rs → (nodes_needed H (length rs) ≤ length fl)%nat →
  (insert_fuel (H + length rs) order ≤ fuel)%nat →
  ∃ p' fl' o', insert_rules fuel (g_addr <$> o) order rs p = (Ok (g_addr <$> o'), p')
    ∧ stores p' fl' (H + length rs) order o' ∧ (length fl ≤ length fl' + nodes_needed H (length rs))%nat
    ∧ abs <$> o' = foldl (t_insert_rule order) (abs <$> o) rs.
Proof using Hok.
  intros HPC HD Hlo Ho. revert p fl H o P F. induction rs as [|r rs IH];
    intros p fl H o P F HH Hst Hpaths Hfull Hrs Hcomp Hunr Hfl Hfuel.
  { exists p, fl, o. cbn [length foldl]. rewrite Nat.add_0_r. split_and!; done || lia. }
  apply Forall_cons in Hrs as [Hr Hrs]. destruct Hcomp as [Hc Hcomp], Hunr as [Hu Hunr].
  destruct (rule_keys_ok order r Hr Ho) as [Hks Hv]. cbn [length nodes_needed] in Hfl, Hfuel |- *.
  assert (no_overlap (rule_keys order r) (abs <$> o)) as Hno.
  { apply no_overlap_stored; [done|]. intros ks w (ks' & Hin & Hp)%Hpaths.
    rewrite Forall_forall in Hc. by eapply compatible_prefix; [|apply Hc]. }
  assert (insert_fuel H order ≤ fuel)%nat as Hfuel'.
  { etrans; [|exact Hfuel]. unfold insert_fuel, fuel_bound.
    assert (S (S H) * length order ≤ S (S (H + S (length rs))) * length order)%nat
      by (apply Nat.mul_le_mono_r; lia). lia. }
  destruct (insert_rule_ok p fl H order o r (rule_keys order r) fuel) as
    (p1 & g & req & n & Hrun & Hreq & Hn & Hst1 & Habs & _);
    [done..|by eapply full_paths_matched|lia|done|].
  assert (abs <$> Some g = t_insert_rule order (abs <$> o) r) as Habs1.
  { unfold t_insert_rule. rewrite Hreq. exact Habs. }
  destruct (IH p1 (drop n fl) (S H) (Some g) (rule_keys order r :: P)
      (if full_depth order r then rule_keys order r :: F else F)) as (p2 & fl2 & o2 & Hrun2 & Hst2 & Hl2 & Habs2);
    [lia|done| |rewrite Habs1; by apply full_paths_insert|done|done|done
    |rewrite length_drop; lia|by rewrite Nat.add_succ_comm|].
  { rewrite Habs1. unfold t_insert_rule. rewrite Hreq. apply t_insert_paths_of; [|done].
    by apply total_levels_bound in Hreq as [? _]. }
  exists p2, fl2, o2. split_and!.
  - unfold insert_rules. cbn [fold_each]. by run_ok by (exact Hrun).
  - by rewrite <- Nat.add_succ_comm.
  - rewrite length_drop in Hl2. lia.
  - cbn [foldl]. by rewrite <- Habs1.
Qed.

(** ** The refinement

    The tree with the root [root] stores [tr], at most [H] levels of nodes per
    layer; [n] more nodes can be allocated. *)
Definition tree_at p order (root : option ptr) (tr : option (trie V)) (H n : nat) : Prop :=
  ∃ fl o, stores p fl H order o ∧ g_addr <$> o = root ∧ abs <$> o = tr ∧ length fl = n.

(** C5. An insertion of the code is an insertion into the trie the memory
    represents: it returns, no check of the debug build fails, and the memory
    represents the new trie.  The path of the rule is not stored down to the
    last level yet. *)
Theorem insert_rule_refines p order root tr H n r fuel :
  PATH_COMPRESSION = true → (1 ≤ D)%nat → length order = D → Forall (λ d, (d < D)%nat) order →
  tree_at p order root tr H n → (1 ≤ H)%nat → rule_ok r → no_overlap (rule_keys order r) tr →
  (matched (rule_keys order r) tr < D)%nat → (H + D + 10 ≤ n)%nat → (insert_fuel H order ≤ fuel)%nat →
  ∃ p' root' n', insert_rule fuel root order r p = (Ok root', p')
    ∧ tree_at p' order root' (t_insert_rule order tr r) (S H) n' ∧ (n ≤ n' + (H + D + 4))%nat.
Proof using Hok.
  intros HPC HD Hlo Ho (fl & o & Hst & <- & <- & <-) HH Hr Hno Hm Hfl Hfuel.
  destruct (rule_keys_ok order r Hr Ho) as [Hks Hv].
  destruct (insert_rule_ok p fl H order o r (rule_keys order r) fuel) as
    (p' & g & req & n & Hrun & Hreq & Hn & Hst' & Habs & _); [done..|].
  exists p', (Some (g_addr g)), (length (drop n fl)). split_and!; [done| |rewrite length_drop; lia].
  exists (drop n fl), (Some g). split_and!; [done..| |done].
  unfold t_insert_rule. rewrite Hreq. exact Habs.
Qed.

(** C6. A sequence of insertions of pairwise compatible rules, none of which
    repeats a rule stored at the last level, never fails: the memory represents
    the trie of all the rules at the end. *)
Theorem insert_rules_refines p order root tr H n P F rs fuel :
  PATH_COMPRESSION = true → (1 ≤ D)%nat → length order = D → Forall (λ d, (d < D)%nat) order →
  tree_at p order root tr H n → (1 ≤ H)%nat → paths_of P tr → full_paths F tr → Forall rule_ok rs →
  all_compatible order P rs → unrepeated order F rs → (nodes_needed H (length rs) ≤ n)%nat →
  (insert_fuel (H + length rs) order ≤ fuel)%nat →
  ∃ p' root' n', insert_rules fuel root order rs p = (Ok root', p')
    ∧ tree_at p' order root' (foldl (t_insert_rule order) tr rs) (H + length rs) n'
    ∧ (n ≤ n' + nodes_needed H (length rs))%nat.
Proof using Hok.
  intros HPC HD Hlo Ho (fl & o & Hst & <- & <- & <-) HH Hpaths Hfull Hrs Hcomp Hunr Hfl Hfuel.
  destruct (insert_rules_ok p fl H order o P F rs fuel) as (p' & fl' & o' & Hrun & Hst' & Hl & Habs); [done..|].
  exists p', (g_addr <$> o'), (length fl'). split; [done|]. split; [by exists fl', o'|done].
Qed.

(** The positions of a path hold the keys it follows. *)
Lemma walk_keys p H order (ks : list Range1d) l o path :
  walk ks l o path → (∀ g, o = Some g → g_rep p H order l g) →
  ∀ i a b j, path !! i = Some (a, b, j) →
    ∃ x, get_key b j p = (Ok x, p) ∧ ks !! (l + i)%nat = Some (key x).
Proof.
  intros Hw. induction Hw as [l|l t nexts k Hk Hne|l t nexts b i j x o rest Hk Hx Hj Ho Hw IH
    |l a c cs nl k Hk Hc|l a c cs nl m x k Hmatch Hm Hx Hk Hxk|l a c cs nl rest Hmatch Hw IH];
    intros Hg n a' b' j' Hn; [done|done| |done| |].
  - specialize (Hg _ eq_refl). pose proof Hg as ((d & Hd & Hr) & Hs & _ & Hnn)%g_rep_layer.
    destruct n as [|n]; cbn in Hn.
    + injection Hn as <- <- <-. destruct (rep_key_at _ _ _ _ _ _ _ Hr Hx) as (nb & Hb & Hkey & _ & _ & Hmax & _).
      exists x. rewrite Nat.add_0_r. split; [by eapply get_key_ok|done].
    + rewrite Nat.add_succ_r. apply (IH ltac:(intros g ->; by destruct (Forall2_lookup_lr _ _ _ _ _ _ Hnn Hj Ho)) n a').
      exact Hn.
  - specialize (Hg _ eq_refl). pose proof Hg as ((nd & Ha & Hc) & _)%g_rep_chain.
    apply list_lookup_fmap_Some in Hn as (? & [= -> -> ->] & Hn).
    apply lookup_seq in Hn as [-> Hn]. cbn in *. apply lookup_lt_Some in Hx.
    destruct (lookup_lt_is_Some_2 (c :: cs) n) as [y Hy]; [cbn in *; lia|].
    exists y. split; [|by apply Hmatch]. eapply get_key_ok; [exact Ha|by apply (cr_keys _ _ _ _ Hc)|].
    pose proof (cr_max _ _ _ _ Hc). cbn in *. lia.
  - specialize (Hg _ eq_refl). pose proof Hg as ((nd & Ha & Hc) & _)%g_rep_chain.
    apply lookup_app_Some in Hn as [Hn|[Hle Hn]].
    + apply list_lookup_fmap_Some in Hn as (? & [= -> -> ->] & Hn). apply lookup_seq in Hn as [-> Hn].
      destruct (lookup_lt_is_Some_2 (c :: cs) n) as [y Hy]; [done|].
      exists y. split; [|by apply Hmatch]. eapply get_key_ok; [exact Ha|by apply (cr_keys _ _ _ _ Hc)|].
      pose proof (cr_max _ _ _ _ Hc). lia.
    + unfold chain_items in Hle, Hn. rewrite length_fmap, length_seq in Hle, Hn.
      destruct (IH ltac:(intros g ->; by eapply chain_last_rep) _ _ _ _ Hn) as (x & Hx & Hk).
      exists x. split; [done|]. rewrite <- Hk. f_equal. lia.
Qed.

(** C12. The search for the path of a rule follows the ranges of the rule as
    far as the stored trie does, and returns the positions of those keys.  The
    check of the path it ends with succeeds.  Only where the path ends at the
    last level in a node that is not compressed, the block of the debug build
    reads behind the end of the dimension order. *)
Theorem search_path_longest p order root tr H n r fuel :
  Forall (λ d, (d < D)%nat) order → tree_at p order root tr H n → rule_ok r →
  (S H + length order ≤ fuel)%nat →
  ∃ path, length path = matched (rule_keys order r) tr
    ∧ (∀ i l b j, path !! i = Some (l, b, j) →
         ∃ x, get_key b j p = (Ok x, p) ∧ rule_keys order r !! i = Some (key x))
    ∧ search_path fuel root order r 0 p =
        (if (length path =? length order)%nat
            && match last path with
               | Some (_, b, _) =>
                   match node_at p b with Some nd => negb (is_compressed nd) | None => false end
               | None => false
               end
         then Err undefined_behaviour else Ok path, p).
Proof.
  intros Ho (fl & o & [Hp Hg Hnd Hne] & <- & <- & <-) Hr Hf.
  destruct (rule_keys_ok order r Hr Ho) as [Hks _].
  destruct (search_path_run p fl H order r (rule_keys order r) Hp Hks 0 o fuel) as (path & Hrun & Hw);
    [done..|lia|]. exists path. split_and!.
  - etrans; [exact (walk_matched p H order _ _ _ _ Hw Hg)|by rewrite drop_0].
  - exact (walk_keys p H order _ _ _ _ Hw Hg).
  - exact Hrun.
Qed.

(** C13. Every check the debug build makes after an operation succeeds on a
    stored tree. *)
Theorem integrity_check_passes p order root tr H n fuel :
  tree_at p order root tr H n → (S H * length order ≤ fuel)%nat →
  match root with Some a => integrity_check fuel a order 0 p = (Ok tt, p) | None => tr = None end.
Proof using Hok.
  intros (fl & [g|] & [Hp Hg Hnd Hne] & <- & <- & <-) Hf; [|done]. cbn.
  apply (integrity_check_ok p fl H order Hp g 0 fuel); [by apply Hg|done|by rewrite Nat.sub_0_r].
Qed.
End Build.
