(* ===== verification/BuildSpec.v ===== *)
(** * The tree as a classifier

    A tree built by insertions of pairwise compatible rules answers every
    packet like the linear search through the rules: with the value of the
    last inserted rule that matches, and with the default value when none
    does. *)
From S2P Require Import Prelude Range RuleValue Mempool Node NodeLemmas Search Layer LayerSearch Trie TrieCheck TrieSearch Footprint Slots Insert LookupSpec Split Chain InsertLayer InsertRoot Decompress Integrity SearchPath InsertNext KeyUpdate InsertWalk InsertAct TrieInsert InsertSpec Build.
Local Open Scope Z_scope.

Lemma compatible_sym ks1 ks2 : compatible ks1 ks2 → compatible ks2 ks1.
Proof.
  revert ks2. induction ks1 as [|k ks1 IH]; intros [|k2 ks2]; cbn; try done.
  intros [[-> Hc]|[?|?]]; [left; split; [done|by apply IH]|right; by right|right; by left].
Qed.

(** Compatible paths of the same length that match the same packet are equal. *)
Lemma compatible_matches ks1 ks2 vals :
  compatible ks1 ks2 → length ks1 = length ks2 → path_matches ks1 vals → path_matches ks2 vals →
  ks1 = ks2.
Proof.
  revert ks2 vals. induction ks1 as [|k ks1 IH]; intros [|k2 ks2] vals Hc Hl H1 H2; try done.
  destruct vals as [|val vals]; [by apply path_matches_nil in H1|].
  apply path_matches_cons in H1 as [Hk1%in_range_spec H1], H2 as [Hk2%in_range_spec H2].
  destruct Hc as [[-> Hc]|Hd]; [|lia]. f_equal. by apply (IH _ vals); [|injection Hl| |].
Qed.

Definition in16 (k : Range1d) : Prop := low k ≤ high k ∧ 0 ≤ low k ∧ high k ≤ 65535.

Lemma is_wildcard_16 k : is_wildcard 2 k = true → k = mkRange 0 65535.
Proof.
  unfold is_wildcard. intros [Hl%Z.eqb_eq Hh%Z.eqb_eq]%andb_true_iff. destruct k. cbn in *. by subst.
Qed.

Lemma wild_tail_eq n ks1 ks2 :
  compatible ks1 ks2 → length ks1 = length ks2 → Forall in16 ks2 →
  (∀ l k, (n ≤ l)%nat → ks1 !! l = Some k → k = mkRange 0 65535) → take n ks1 `prefix_of` ks2 → ks1 = ks2.
Proof.
  revert n ks2. induction ks1 as [|k ks1 IH]; intros n [|k2 ks2] Hc Hl Hin Hw Hp; try done.
  apply Forall_cons in Hin as [(Hv & H0 & H1) Hin]. injection Hl as Hl.
  assert (k = k2 ∧ take (n - 1) ks1 `prefix_of` ks2) as [-> Hp'].
  { destruct n as [|n]; cbn in Hp |- *.
    - split; [|apply prefix_nil]. pose proof (Hw 0%nat k ltac:(lia) eq_refl) as ->.
      destruct Hc as [[? _]|[Hd|Hd]]; [done|cbn in Hd; lia..].
    - rewrite Nat.sub_0_r. split; [by eapply prefix_cons_inv_1|by eapply prefix_cons_inv_2]. }
  f_equal. destruct Hc as [[_ Hc]|Hd]; [|lia]. apply (IH (n - 1)%nat); [done..| |done].
  intros l k Hl'. by apply (Hw (S l)); lia.
Qed.

Section BuildSpec.
Context `{cfg : !BTreeCfg, Hok : !CfgOk} {V : Type} `{!RuleValue V}.
Implicit Types (p : Heap V) (order : list nat) (r : rule_spec_t V) (rs : list (rule_spec_t V)).
Implicit Types (tr : option (trie V)) (vals : list Z).
Hypothesis HK : KEY_SIZE = 2%nat.
Context (order : list nat).
Hypothesis Hlo : length order = D.
Hypothesis HD : (1 ≤ D)%nat.
Hypothesis Hod : Forall (λ d, (d < D)%nat) order.

(** A rule with one range of 16-bit values for every dimension. *)
Definition rule_ok16 r : Prop :=
  rule_ok r ∧ Forall (λ k, 0 ≤ low k ∧ high k ≤ 65535) (fields r).

(** All fields of the packet are in the ranges of the rule. *)
Definition rule_matches r (v : list Z) : bool :=
  forallb (λ kx, in_range kx.1 kx.2) (zip (fields r) v).

(** The linear search: the value of the last rule that matches. *)
Definition linear_search rs (v : list Z) : V :=
  foldl (λ acc r, if rule_matches r v then rvalue r else acc) rv_default rs.

(** The fields of a packet in the order of the dimensions. *)
Definition packet_fields (v : list Z) : list Z := (λ d, v !!! d) <$> order.

(** The ranges of a rule up to the last one that is not a wildcard. *)
Definition levels r : nat := default 0%nat (total_levels_required_cnt order r).
Definition trim r : list Range1d := take (levels r) (rule_keys order r).

(** The value of the last rule with the given ranges. *)
Definition last_value rs (ks : list Range1d) : option V :=
  foldl (λ acc r, if decide (trim r = ks) then Some (rvalue r) else acc) None rs.

Lemma rule_keys_lookup r l : rule_ok r → (l < length order)%nat →
  ∃ d k, order !! l = Some d ∧ fields r !! d = Some k ∧ rule_keys order r !! l = Some k.
Proof using HK Hlo HD Hod.
  intros Hr Hl. destruct (rule_keys_ok order r Hr Hod) as [Hks _].
  destruct (lookup_lt_is_Some_2 order l Hl) as [d Hd].
  destruct (Forall2_lookup_l _ _ _ _ _ Hks Hd) as (k & Hk & Hf). by exists d, k.
Qed.

(** The ranges behind the last relevant level are wildcards. *)
Lemma levels_loop r i n :
  total_levels_required_loop order r i = Some n →
  (1 ≤ n ≤ Nat.max 1 i)%nat
  ∧ ∀ l d k, (n ≤ l < i)%nat → order !! l = Some d → fields r !! d = Some k → is_wildcard KEY_SIZE k = true.
Proof.
  revert n. induction i as [|i IH]; intros n; cbn; [intros [= <-]; split; [lia|]; intros; lia|].
  destruct (order !! i) as [d|] eqn:Hd; [|done]. cbn. destruct (fields r !! d) as [k|] eqn:Hk; [|done]. cbn.
  destruct (is_wildcard KEY_SIZE k) eqn:Hw; cbn.
  - intros [Hn Hl]%IH. split; [lia|]. intros l d' k' Hl' Hd' Hk'.
    destruct (decide (l = i)) as [->|]; [by simplify_eq|]. apply (Hl l d'); [lia|done|done].
  - intros [= <-]. split; [lia|]. intros; lia.
Qed.

Lemma levels_spec r :
  rule_ok r → total_levels_required_cnt order r = Some (levels r) ∧ (1 ≤ levels r ≤ length order)%nat
  ∧ ∀ l k, (levels r ≤ l)%nat → rule_keys order r !! l = Some k → k = mkRange 0 65535.
Proof using HK Hlo HD Hod.
  intros Hr. destruct (rule_keys_ok order r Hr Hod) as [Hks _].
  destruct (total_levels_total _ _ _ Hks) as [n Hn]. unfold levels. rewrite Hn. cbn.
  pose proof Hn as [Hb Hw]%levels_loop. split_and!; [done|lia|lia|].
  intros l k Hl Hk. pose proof (lookup_lt_Some _ _ _ Hk) as Hlt. rewrite rule_keys_length in Hlt.
  destruct (rule_keys_lookup r l Hr Hlt) as (d & k' & Hd & Hf & Hk'). simplify_eq.
  specialize (Hw l d k ltac:(lia) Hd Hf). rewrite HK in Hw. by apply is_wildcard_16 in Hw.
Qed.

Lemma trim_length r : rule_ok r → length (trim r) = levels r.
Proof using HK Hlo HD Hod.
  intros Hr. destruct (levels_spec r Hr) as (_ & Hl & _). unfold trim.
  rewrite length_take, rule_keys_length. lia.
Qed.

Lemma rule_keys_16 r : rule_ok16 r → Forall in16 (rule_keys order r).
Proof using HK Hlo HD Hod.
  intros [Hr H16]. pose proof Hr as [_ Hv]. apply Forall_lookup. intros l k Hk.
  pose proof (lookup_lt_Some _ _ _ Hk) as Hl. rewrite rule_keys_length in Hl.
  destruct (rule_keys_lookup r l Hr Hl) as (d & k' & _ & Hf & Hk'). simplify_eq.
  rewrite Forall_lookup in H16, Hv. specialize (Hv _ _ Hf). destruct (H16 _ _ Hf). by split_and!.
Qed.

(** A rule is given by its relevant ranges, among compatible rules. *)
Lemma trim_determines r1 r2 :
  rule_ok16 r1 → rule_ok16 r2 → compatible (rule_keys order r1) (rule_keys order r2) →
  trim r1 `prefix_of` rule_keys order r2 → rule_keys order r1 = rule_keys order r2.
Proof using HK Hlo HD Hod.
  intros [Hr1 _] Hr2 Hc Hp. destruct (levels_spec r1 Hr1) as (_ & _ & Hw).
  eapply wild_tail_eq; [done|by rewrite !rule_keys_length|by apply rule_keys_16|exact Hw|exact Hp].
Qed.

Lemma levels_keys r1 r2 i :
  rule_ok r1 → rule_ok r2 → rule_keys order r1 = rule_keys order r2 → (i ≤ length order)%nat →
  total_levels_required_loop order r1 i = total_levels_required_loop order r2 i.
Proof using HK Hlo HD Hod.
  intros H1 H2 He. induction i as [|i IH]; intros Hi; [done|]. cbn.
  destruct (rule_keys_lookup r1 i H1 Hi) as (d & k & Hd & Hf & Hk).
  destruct (rule_keys_lookup r2 i H2 Hi) as (d' & k' & Hd' & Hf' & Hk'). simplify_eq.
  rewrite He in Hk. simplify_eq. rewrite Hd. cbn. rewrite Hf, Hf'. cbn. by rewrite IH by lia.
Qed.

(** The paths of the rules stored at the last level. *)
Definition full_keys rs : list (list Range1d) :=
  rule_keys order <$> filter (λ r, full_depth order r = true) rs.

Lemma full_depth_keys r1 r2 :
  rule_ok r1 → rule_ok r2 → rule_keys order r1 = rule_keys order r2 → full_depth order r1 = full_depth order r2.
Proof using HK Hlo HD Hod.
  intros H1 H2 He. unfold full_depth, total_levels_required_cnt. by rewrite (levels_keys r1 r2) by done.
Qed.

Lemma full_keys_unrepeated F rs :
  Forall rule_ok rs → (∀ r, r ∈ rs → rule_keys order r ∉ F) → NoDup (full_keys rs) → unrepeated order F rs.
Proof using HK Hlo HD Hod.
  unfold full_keys. revert F. induction rs as [|r rs IH]; intros F Hrs HF Hnd; [done|].
  apply Forall_cons in Hrs as [Hr Hrs]. split; [apply HF; by left|].
  rewrite filter_cons in Hnd. destruct (full_depth order r) eqn:Hfull.
  - rewrite decide_True in Hnd by done. cbn in Hnd. apply NoDup_cons in Hnd as [Hni Hnd].
    apply IH; [done| |done]. intros r' Hr' [He|Hin]%elem_of_cons; [|by eapply HF; [right|]].
    apply Hni. rewrite <- He. apply list_elem_of_fmap_2, list_elem_of_filter. split; [|done].
    rewrite Forall_forall in Hrs. rewrite <- Hfull. by apply full_depth_keys; [apply Hrs| |].
  - rewrite decide_False in Hnd by done. apply IH; [done| |done]. intros r' Hr'. apply HF. by right.
Qed.

Lemma trim_keys r1 r2 :
  rule_ok r1 → rule_ok r2 → rule_keys order r1 = rule_keys order r2 → trim r1 = trim r2.
Proof using HK Hlo HD Hod.
  intros H1 H2 He. unfold trim, levels, total_levels_required_cnt.
  rewrite (levels_keys r1 r2) by done. by rewrite He.
Qed.

(** The packets that match the relevant ranges match the rule. *)
Lemma path_matches_lookup ks vals :
  (length ks ≤ length vals)%nat →
  path_matches ks vals ↔ ∀ l k x, ks !! l = Some k → vals !! l = Some x → in_range k x = true.
Proof.
  intros Hl. unfold path_matches. rewrite Forall2_same_length_lookup, length_take. split.
  - intros [_ Hm] l k x Hk Hx. apply (Hm l); [done|]. rewrite lookup_take_lt; [done|by eapply lookup_lt_Some].
  - intros Hm. split; [lia|]. intros l k x Hk [Hx _]%lookup_take_Some. by eapply Hm.
Qed.

Lemma trim_matches r vals :
  rule_ok r → length vals = length order → Forall (λ x, 0 ≤ x < 65536) vals →
  path_matches (trim r) vals ↔ path_matches (rule_keys order r) vals.
Proof using HK Hlo HD Hod.
  intros Hr Hl Hv. destruct (levels_spec r Hr) as (_ & Hlev & Hw).
  rewrite !path_matches_lookup by (rewrite ?trim_length, ?rule_keys_length by done; lia).
  unfold trim. split; intros Hm l k x Hk Hx.
  - destruct (decide (l < levels r)%nat) as [Hlt|Hge].
    + eapply (Hm l); [by rewrite lookup_take_lt|done].
    + rewrite (Hw l k ltac:(lia) Hk). rewrite Forall_lookup in Hv. specialize (Hv _ _ Hx).
      apply in_range_spec. cbn. lia.
  - apply lookup_take_Some in Hk as [Hk _]. by eapply Hm.
Qed.

Hypothesis Hall : ∀ d, (d < D)%nat → d ∈ order.

Lemma rule_matches_spec r v :
  rule_ok r → length v = D → rule_matches r v = true ↔ path_matches (rule_keys order r) (packet_fields v).
Proof using HK Hlo HD Hod Hall.
  intros Hr Hv. rewrite path_matches_lookup by (unfold packet_fields; by rewrite rule_keys_length, length_fmap).
  unfold rule_matches, packet_fields. rewrite forallb_forall. split.
  - intros Hm l k x Hk Hx. pose proof (lookup_lt_Some _ _ _ Hk) as Hl. rewrite rule_keys_length in Hl.
    destruct (rule_keys_lookup r l Hr Hl) as (d & k' & Hd & Hf & Hk'). simplify_eq.
    rewrite list_lookup_fmap, Hd in Hx. cbn in Hx. injection Hx as <-. apply (Hm (k, v !!! d)).
    apply list_elem_of_In, (list_elem_of_lookup_2 _ d), lookup_zip_with_Some.
    exists k, (v !!! d). split_and!; [done|done|]. apply list_lookup_lookup_total_lt.
    rewrite Hv. rewrite Forall_lookup in Hod. by eapply Hod.
  - intros Hm [k x] Hin%list_elem_of_In. apply list_elem_of_lookup in Hin as [d Hd].
    apply lookup_zip_with_Some in Hd as (k' & x' & [= <- <-] & Hk & Hx). cbn.
    assert (d < D)%nat as (l & Hl)%Hall%list_elem_of_lookup.
    { destruct Hr as [<- _]. by eapply lookup_lt_Some. }
    apply (Hm l); [unfold rule_keys|]; rewrite list_lookup_fmap, Hl; cbn.
    + by rewrite Hk.
    + by rewrite (list_lookup_total_correct _ _ _ Hx).
Qed.

Lemma packet_fields_16 v :
  length v = D → Forall (λ x, 0 ≤ x < 65536) v → Forall (λ x, 0 ≤ x < 65536) (packet_fields v).
Proof using Hod.
  clear HK Hlo HD. intros Hl Hv. unfold packet_fields. apply Forall_fmap, Forall_forall. intros d Hd. cbn.
  rewrite Forall_forall in Hod. rewrite Forall_lookup in Hv.
  eapply Hv, list_lookup_lookup_total_lt. rewrite Hl. by apply Hod.
Qed.

(** ** The paths of the tree *)

(** The trie that stores the rules [rs]. *)
Record trie_of rs tr : Prop := {
  to_unique : unique_keys tr;
  to_paths : ∀ ks w, stored tr ks w → ∃ r, r ∈ rs ∧ ks `prefix_of` trim r;
  to_values : ∀ ks w, is_valid w = true → stored tr ks w ↔ last_value rs ks = Some w;
}.

(** The tree stores a rule exactly at its relevant ranges. *)
Lemma endpoint_trim rs tr r :
  trie_of rs tr → rule_ok16 r → Forall rule_ok16 rs →
  (∀ r', r' ∈ rs → compatible (rule_keys order r) (rule_keys order r')) →
  endpoint (levels r) (rule_keys order r) tr = trim r.
Proof using HK Hlo HD Hod.
  intros Ht Hr Hrs Hc. unfold endpoint, trim. f_equal. apply Nat.max_l.
  destruct (decide (matched (rule_keys order r) tr = 0%nat)) as [->|Hm]; [lia|].
  destruct (matched_stored (rule_keys order r) tr ltac:(lia)) as [w Hw].
  destruct (to_paths _ _ Ht _ _ Hw) as (r' & Hin & Hp).
  destruct (decide (matched (rule_keys order r) tr ≤ levels r)%nat) as [|Hgt]; [done|exfalso].
  rewrite Forall_forall in Hrs. specialize (Hrs r' Hin).
  assert (rule_keys order r = rule_keys order r') as He.
  { apply trim_determines; [done|done|by apply Hc|]. unfold trim at 1.
    etrans; [|etrans; [exact Hp|apply prefix_take]].
    replace (take (levels r) _) with (take (levels r) (take (matched (rule_keys order r) tr) (rule_keys order r)))
      by (rewrite take_take; f_equal; lia). apply prefix_take. }
  assert (trim r = trim r') as Htr by (apply trim_keys; [apply Hr|apply Hrs|done]).
  rewrite <- Htr in Hp. apply prefix_length in Hp. rewrite (trim_length r) in Hp by apply Hr.
  rewrite length_take, rule_keys_length in Hp.
  pose proof (matched_le (rule_keys order r) tr) as Hle. rewrite rule_keys_length in Hle. lia.
Qed.

Lemma last_value_app rs r ks :
  last_value (rs ++ [r]) ks = if decide (trim r = ks) then Some (rvalue r) else last_value rs ks.
Proof. unfold last_value. by rewrite foldl_app. Qed.

Lemma trie_of_step rs tr r :
  is_valid (rv_default : V) = false → trie_of rs tr → rule_ok16 r → Forall rule_ok16 rs →
  (∀ r', r' ∈ rs → compatible (rule_keys order r) (rule_keys order r')) →
  trie_of (rs ++ [r]) (t_insert_rule order tr r).
Proof using HK Hlo HD Hod.
  intros Hdef Ht Hr Hrs Hc. pose proof (endpoint_trim rs tr r Ht Hr Hrs Hc) as He.
  destruct (levels_spec r (proj1 Hr)) as (_ & Hlev & _). split.
  - by apply t_insert_unique, Ht.
  - intros ks w Hs. unfold t_insert_rule in Hs. fold (levels r) in Hs.
    apply t_insert_paths in Hs as [[w' Hs]|Hp]; [| |lia].
    + destruct (to_paths _ _ Ht _ _ Hs) as (r' & Hin & ?). exists r'. split; [|done].
      apply elem_of_app. by left.
    + exists r. split; [apply elem_of_app; right; by left|]. by rewrite He in Hp.
  - intros ks w Hw. rewrite last_value_app. unfold t_insert_rule. fold (levels r).
    rewrite t_insert_stored, He, (to_values _ _ Ht) by (apply Ht || done || (rewrite ?rule_keys_length; lia)).
    case_decide; naive_solver.
Qed.

Lemma trie_of_rules rs :
  is_valid (rv_default : V) = false → Forall rule_ok16 rs →
  (∀ r r', r ∈ rs → r' ∈ rs → compatible (rule_keys order r) (rule_keys order r')) →
  trie_of rs (foldl (t_insert_rule order) None rs).
Proof using HK Hlo HD Hod.
  intros Hdef. induction rs as [|r rs IH] using rev_ind; intros Hrs Hc.
  - split; [constructor|intros ks w Hs; by apply stored_None in Hs|].
    intros ks w _. cbn. split; [intros Hs; by apply stored_None in Hs|done].
  - apply Forall_app in Hrs as [Hrs [Hr _]%Forall_cons]. rewrite foldl_app. cbn [foldl].
    apply trie_of_step; [done| |done|done|].
    + apply IH; [done|]. intros r1 r2 H1 H2. apply Hc; apply elem_of_app; by left.
    + intros r' Hr'. apply Hc; apply elem_of_app; [right; by left|by left].
Qed.

(** ** The lookup and the linear search *)

Lemma last_value_in rs ks w : last_value rs ks = Some w → ∃ r, r ∈ rs ∧ trim r = ks ∧ rvalue r = w.
Proof.
  induction rs as [|r rs IH] using rev_ind; [done|]. rewrite last_value_app. case_decide as He.
  - intros [= <-]. exists r. split; [apply elem_of_app; right; by left|done].
  - intros (r' & Hin & ?)%IH. exists r'. split; [apply elem_of_app; by left|done].
Qed.

Lemma last_value_some rs r : r ∈ rs → is_Some (last_value rs (trim r)).
Proof.
  induction rs as [|r' rs IH] using rev_ind; [by intros ?%elem_of_nil|]. rewrite last_value_app.
  case_decide as He; [by eexists|]. intros [Hin| ->%list_elem_of_singleton]%elem_of_app; [by apply IH|done].
Qed.

Lemma linear_none rs v : (∀ r, r ∈ rs → rule_matches r v = false) → linear_search rs v = rv_default.
Proof.
  unfold linear_search. induction rs as [|r rs IH] using rev_ind; [done|]. intros Hn. rewrite foldl_app. cbn.
  rewrite Hn by (apply elem_of_app; right; by left). apply IH. intros r' Hr'. apply Hn, elem_of_app. by left.
Qed.

Lemma linear_some rs v T :
  (∀ r, r ∈ rs → rule_matches r v = true ↔ trim r = T) →
  linear_search rs v = default rv_default (last_value rs T).
Proof.
  unfold linear_search. induction rs as [|r rs IH] using rev_ind; [done|]. intros Hm.
  rewrite last_value_app, foldl_app. cbn.
  specialize (Hm r ltac:(apply elem_of_app; right; by left)) as Hr.
  destruct (rule_matches r v), (decide (trim r = T)) as [He|He]; [done|by destruct He; apply Hr|by apply Hr in He|].
  apply IH. intros r' Hr'. apply Hm, elem_of_app. by left.
Qed.

Lemma deepest_linear rs tr v w :
  trie_of rs tr → Forall rule_ok16 rs → Forall (λ r, is_valid (rvalue r) = true) rs →
  (∀ r r', r ∈ rs → r' ∈ rs → compatible (rule_keys order r) (rule_keys order r')) →
  length v = D → Forall (λ x, 0 ≤ x < 65536) v → deepest tr (packet_fields v) rv_default w →
  w = linear_search rs v.
Proof using HK Hlo HD Hod Hall.
  intros Ht Hrs Hval Hc Hl Hv Hdeep. rewrite Forall_forall in Hrs, Hval.
  assert (∀ r, r ∈ rs → path_matches (trim r) (packet_fields v) ↔ rule_matches r v = true) as Hm.
  { intros r Hin. rewrite rule_matches_spec by (done || apply Hrs, Hin).
    apply trim_matches; [apply Hrs, Hin|apply length_fmap|by apply packet_fields_16]. }
  assert (∀ ks w', stored tr ks w' → is_valid w' = true → path_matches ks (packet_fields v) →
            ∃ r, r ∈ rs ∧ rule_matches r v = true ∧ trim r = ks) as Hst.
  { intros ks w' Hs Hw' Hpm. apply (to_values _ _ Ht) in Hs; [|done].
    destruct (last_value_in _ _ _ Hs) as (r & Hin & <- & _). exists r. split_and!; [done|by apply Hm|done]. }
  destruct (decide (Exists (λ r, rule_matches r v = true) rs)) as [(r0 & Hin0 & Hr0)%Exists_exists|Hno].
  - assert (∀ r, r ∈ rs → rule_matches r v = true ↔ trim r = trim r0) as Heq.
    { intros r Hin. split; [|intros He; apply Hm; [done|]; rewrite He; by apply Hm].
      intros Hr. apply trim_keys; [apply Hrs, Hin|apply Hrs, Hin0|].
      apply (compatible_matches _ _ (packet_fields v)); [by apply Hc|by rewrite !rule_keys_length| |];
        apply rule_matches_spec; done || apply Hrs; done. }
    rewrite (linear_some rs v (trim r0) Heq). destruct (last_value_some rs r0 Hin0) as [u Hu]. rewrite Hu. cbn.
    assert (is_valid u = true) as Hvu by (destruct (last_value_in _ _ _ Hu) as (r & Hin & _ & <-); by apply Hval).
    destruct Hdeep as [[_ Hnone]|(ks & Hs & Hpm & Hw & _)].
    + specialize (Hnone (trim r0) u). rewrite Hnone in Hvu; [done|by apply (to_values _ _ Ht)|by apply Hm].
    + destruct (Hst _ _ Hs Hw Hpm) as (r & Hin & Hr & <-). apply (to_values _ _ Ht) in Hs; [|done].
      apply Heq in Hr; [|done]. rewrite Hr in Hs. congruence.
  - assert (∀ r, r ∈ rs → rule_matches r v = false) as Hf.
    { intros r Hin. apply not_true_is_false. intros Hr. apply Hno, Exists_exists. by exists r. }
    rewrite (linear_none rs v Hf). destruct Hdeep as [[-> _]|(ks & Hs & Hpm & Hw & _)]; [done|].
    destruct (Hst _ _ Hs Hw Hpm) as (r & Hin & Hr & _). by rewrite Hf in Hr.
Qed.
End BuildSpec.

Section Classify.
Context `{cfg : !BTreeCfg, Hok : !CfgOk} {V : Type} `{!RuleValue V}.
Implicit Types (p : Heap V) (order : list nat) (rs : list (rule_spec_t V)).

(** The memory of a new allocator is empty. *)
Lemma ctor_stores N order :
  (1 < N)%nat → Z.of_nat N ≤ INVALID_INDEX →
  ∃ p, Pool.DynamicMempool_ctor (T := Node V) N = Ok p ∧ stores p (seq 0 N) 1 order None.
Proof.
  intros HN Hfit. destruct (Pool.ctor_wf (T := Node V) N HN) as (p & Hp & Hwf & Hlock & Hcnt).
  exists p. split; [done|]. split; [split; [done|done|by rewrite Hcnt]|done|constructor|done].
Qed.

Lemma pairwise_all_compatible order P rs :
  (∀ ks r, ks ∈ P → r ∈ rs → compatible ks (rule_keys order r)) →
  (∀ r r', r ∈ rs → r' ∈ rs → compatible (rule_keys order r) (rule_keys order r')) →
  all_compatible order P rs.
Proof.
  revert P. induction rs as [|r rs IH]; intros P HP Hc; cbn; [done|]. split.
  - apply Forall_forall. intros ks Hin. apply HP; [done|by left].
  - apply IH.
    + intros ks r' [->|Hin]%elem_of_cons Hr'; [apply Hc; [by left|by right]|apply HP; [done|by right]].
    + intros r1 r2 H1 H2. apply Hc; by right.
Qed.

Lemma order_facts order :
  order ≡ₚ seq 0 D →
  length order = D ∧ Forall (λ d, (d < D)%nat) order ∧ ∀ d, (d < D)%nat → d ∈ order.
Proof.
  intros Hperm. split_and!; [by rewrite Hperm, length_seq| |].
  - apply Forall_forall. intros d. rewrite Hperm, elem_of_seq. lia.
  - intros d Hd. rewrite Hperm, elem_of_seq. lia.
Qed.

(** The memory after the insertions into a new allocator. *)
Lemma build_run N order rs fuel :
  PATH_COMPRESSION = true → KEY_SIZE = 2%nat → is_valid (rv_default : V) = false → (1 ≤ D)%nat →
  order ≡ₚ seq 0 D → Forall rule_ok16 rs →
  (∀ r r', r ∈ rs → r' ∈ rs → compatible (rule_keys order r) (rule_keys order r')) →
  NoDup (full_keys order rs) →
  (1 < N)%nat → Z.of_nat N ≤ INVALID_INDEX → (nodes_needed 1 (length rs) ≤ N)%nat →
  (insert_fuel (1 + length rs) order ≤ fuel)%nat →
  ∃ p p' fl' o, Pool.DynamicMempool_ctor N = Ok p ∧ insert_rules fuel None order rs p = (Ok (g_addr <$> o), p')
    ∧ stores p' fl' (1 + length rs) order o ∧ (N ≤ length fl' + nodes_needed 1 (length rs))%nat
    ∧ trie_of order rs (abs <$> o).
Proof using Hok.
  intros HPC HK Hdef HD Hperm Hrs Hc Hunr HN Hfit Hneed Hfuel.
  destruct (order_facts order Hperm) as (Hlo & Hod & _).
  destruct (ctor_stores N order HN Hfit) as (p & Hp & Hst).
  assert (Forall rule_ok rs) as Hrs' by (eapply Forall_impl; [exact Hrs|]; by intros r [? _]).
  destruct (insert_rules_ok p (seq 0 N) 1 order None [] [] rs fuel) as (p' & fl' & o & Hrun & Hst' & Hl & Habs);
    [done..|lia|done|by intros ks w ?%stored_None|by intros ks w ?%stored_None|done| | |by rewrite length_seq|done|].
  2: { apply (full_keys_unrepeated HK order Hlo HD Hod); [done| |done]. by intros r _ ?%elem_of_nil. }
  { apply pairwise_all_compatible; [by intros ? ? ?%elem_of_nil|done]. }
  pose proof (trie_of_rules HK order Hlo HD Hod rs Hdef Hrs Hc) as Ht.
  cbn [fmap option_fmap option_map] in Habs. rewrite <- Habs in Ht. rewrite length_seq in Hl. by exists p, p', fl', o.
Qed.

(** A tree that stores the rules answers like the linear search. *)
Lemma stored_lookup p fl H order o rs v fuel :
  KEY_SIZE = 2%nat → (1 ≤ D)%nat → order ≡ₚ seq 0 D → Forall rule_ok16 rs →
  Forall (λ r, is_valid (rvalue r) = true) rs →
  (∀ r r', r ∈ rs → r' ∈ rs → compatible (rule_keys order r) (rule_keys order r')) →
  stores p fl H order o → trie_of order rs (abs <$> o) → (insert_fuel H order ≤ fuel)%nat →
  length v = D → Forall (λ x, 0 ≤ x < 65536) v →
  search_vec fuel default_in_packet_position order (g_addr <$> o) v p = (Ok (linear_search rs v), p).
Proof.
  intros HK HD Hperm Hrs Hval Hc Hst Ht Hfuel Hl Hv. destruct (order_facts order Hperm) as (Hlo & Hod & Hall).
  assert (∃ w, search_vec fuel default_in_packet_position order (g_addr <$> o) v p = (Ok w, p)
            ∧ deepest (abs <$> o) (packet_fields order v) rv_default w) as (w & Hw & Hdeep).
  { destruct o as [g|].
    - apply (search_vec_run p fl H order g v fuel);
        [done|apply Hst|by apply Hst|done..|unfold insert_fuel, fuel_bound in Hfuel; lia].
    - exists rv_default. split; [by destruct fuel|]. left. split; [done|].
      by intros ks w ?%stored_None. }
  rewrite Hw. do 2 f_equal.
  by apply (deepest_linear HK order Hlo HD Hod Hall rs _ v w Ht).
Qed.

(** C1. A tree built by insertions into a new allocator answers every packet
    like the linear search through the rules.  The rules are pairwise compatible,
    and no two that are stored at the last level have the same ranges. *)
Theorem build_classifies N order rs fuel :
  PATH_COMPRESSION = true → KEY_SIZE = 2%nat → is_valid (rv_default : V) = false → (1 ≤ D)%nat →
  order ≡ₚ seq 0 D → Forall rule_ok16 rs → Forall (λ r, is_valid (rvalue r) = true) rs →
  (∀ r r', r ∈ rs → r' ∈ rs → compatible (rule_keys order r) (rule_keys order r')) →
  NoDup (full_keys order rs) →
  (1 < N)%nat → Z.of_nat N ≤ INVALID_INDEX → (nodes_needed 1 (length rs) ≤ N)%nat →
  (insert_fuel (1 + length rs) order ≤ fuel)%nat →
  ∃ p p' root, Pool.DynamicMempool_ctor N = Ok p ∧ insert_rules fuel None order rs p = (Ok root, p')
    ∧ ∀ v, length v = D → Forall (λ x, 0 ≤ x < 65536) v →
      search_vec fuel default_in_packet_position order root v p' = (Ok (linear_search rs v), p').
Proof using Hok.
  intros HPC HK Hdef HD Hperm Hrs Hval Hc Hunr HN Hfit Hneed Hfuel.
  destruct (build_run N order rs fuel) as (p & p' & fl' & o & Hp & Hrun & Hst' & _ & Ht); [done..|].
  exists p, p', (g_addr <$> o). split_and!; [done|exact Hrun|]. intros v Hl Hv. by eapply stored_lookup.
Qed.
End Classify.

(** ** Four rules inserted into a new allocator *)

Module BuildExample.
Import LookupSpec.Example InsertSpec.InsertExample.
#[local] Existing Instance cfg3.

Notation order3 := [0; 1; 2]%nat.

Definition rules4 : list (rule_spec_t RuleValueInt) :=
  [rule3 (exact16 1) (exact16 7) any16 1 1; rule3 (mkRange 16 31) any16 (exact16 9) 1 4;
   rule3 (exact16 1) (exact16 2) (exact16 3) 1 3; rule3 (exact16 1) (exact16 7) any16 2 5].

Lemma rules4_ok : Forall rule_ok16 rules4.
Proof. repeat (constructor; [repeat split; repeat constructor; done|]). constructor. Qed.

Lemma rules4_compatible r r' :
  r ∈ rules4 → r' ∈ rules4 → compatible (rule_keys order3 r) (rule_keys order3 r').
Proof.
  assert (Forall (λ r, Forall (λ r', compatible (rule_keys order3 r) (rule_keys order3 r')) rules4) rules4) as Hc
    by (refine (bool_decide_unpack _ _); vm_compute; exact I).
  intros Hr Hr'. rewrite Forall_forall in Hc. specialize (Hc r Hr). rewrite Forall_forall in Hc. by apply Hc.
Qed.

(** The repeated rule has a wildcard in the last dimension. *)
Lemma rules4_unrepeated : NoDup (full_keys order3 rules4).
Proof. refine (bool_decide_unpack _ _). vm_compute. exact I. Qed.

Lemma dims3 : Forall (λ d, (d < D)%nat) order3.
Proof. by repeat (constructor; [by apply Nat.ltb_lt|]). Qed.

(** The last of the two rules with the same ranges answers the packet. *)
Lemma build_classifies_witness :
  linear_search rules4 [1; 7; 3] = RuleValueInt_ctor 2 5
  ∧ ∃ p p' root, Pool.DynamicMempool_ctor 80 = Ok p ∧ insert_rules 60 None order3 rules4 p = (Ok root, p')
    ∧ ∀ v, length v = D → Forall (λ x, 0 ≤ x < 65536) v →
      search_vec 60 default_in_packet_position order3 root v p' = (Ok (linear_search rules4 v), p').
Proof.
  split; [vm_compute; reflexivity|].
  apply (build_classifies 80 order3 rules4 60); try reflexivity; [by apply Nat.leb_le|exact rules4_ok| | | | | | |].
  - by repeat constructor.
  - exact rules4_compatible.
  - exact rules4_unrepeated.
  - apply Nat.ltb_lt. reflexivity.
  - done.
  - apply Nat.leb_le. reflexivity.
  - apply Nat.leb_le. vm_compute. reflexivity.
Defined.

(** A rule stored at the last level, inserted again: the debug block of
    [search_path] reads behind the dimension order. *)
Example insert_twice_overreads :
  match Pool.DynamicMempool_ctor 80 with
  | Ok p => (insert_rules 60 None order3 (rules4 ++ drop 2 (take 3 rules4)) p).1 = Err undefined_behaviour
  | Err _ => False
  end.
Proof. vm_compute. reflexivity. Qed.

Lemma built_tree_at : tree_at built.2 order3 (Some (g_addr built_tree)) (Some (abs built_tree)) 9 22.
Proof. exists (seq 8 22), (Some built_tree). split_and!; [exact built_stores|done..]. Qed.

Lemma new_rule_ok : rule_ok new_rule.
Proof. split; [done|]. by repeat constructor. Qed.

Lemma insert_rule_refines_witness :
  tree_at built.2 order3 (Some (g_addr built_tree)) (Some (abs built_tree)) 9 22
  ∧ ∃ p' root' n', insert_rule 100 (Some (g_addr built_tree)) order3 new_rule built.2 = (Ok root', p')
    ∧ tree_at p' order3 root' (t_insert_rule order3 (Some (abs built_tree)) new_rule) 10 n'
    ∧ (22 ≤ n' + (9 + D + 4))%nat.
Proof.
  split; [exact built_tree_at|].
  apply (insert_rule_refines built.2 order3 (Some (g_addr built_tree)) (Some (abs built_tree)) 9 22 new_rule 100);
    [reflexivity|by apply Nat.leb_le|reflexivity|exact dims3|exact built_tree_at|by apply Nat.leb_le
    |exact new_rule_ok| | | |].
  - apply no_overlap_check_sound. vm_compute. reflexivity.
  - apply Nat.ltb_lt. vm_compute. reflexivity.
  - apply Nat.leb_le. reflexivity.
  - apply Nat.leb_le. vm_compute. reflexivity.
Defined.

(** Two ranges of the rule are found, in the tree and in a compressed node. *)
Lemma search_path_longest_witness :
  matched (rule_keys order3 new_rule) (Some (abs built_tree)) = 2%nat
  ∧ ∃ path, length path = matched (rule_keys order3 new_rule) (Some (abs built_tree))
    ∧ (∀ i l b j, path !! i = Some (l, b, j) →
         ∃ x, get_key b j built.2 = (Ok x, built.2) ∧ rule_keys order3 new_rule !! i = Some (key x))
    ∧ search_path 20 (Some (g_addr built_tree)) order3 new_rule 0 built.2 =
        (if (length path =? length order3)%nat
            && match last path with
               | Some (_, b, _) =>
                   match node_at built.2 b with Some nd => negb (is_compressed nd) | None => false end
               | None => false
               end
         then Err undefined_behaviour else Ok path, built.2).
Proof.
  split; [vm_compute; reflexivity|].
  apply (search_path_longest built.2 order3 (Some (g_addr built_tree)) (Some (abs built_tree)) 9 22 new_rule 20);
    [exact dims3|exact built_tree_at|exact new_rule_ok|by apply Nat.leb_le].
Defined.

Lemma integrity_check_passes_witness :
  tree_at built.2 order3 (Some (g_addr built_tree)) (Some (abs built_tree)) 9 22
  ∧ integrity_check 40 (g_addr built_tree) order3 0 built.2 = (Ok tt, built.2).
Proof.
  split; [exact built_tree_at|].
  apply (integrity_check_passes built.2 order3 (Some (g_addr built_tree)) (Some (abs built_tree)) 9 22 40);
    [exact built_tree_at|by apply Nat.leb_le].
Defined.

Lemma insert_rules_refines_witness :
  ∃ p, Pool.DynamicMempool_ctor 80 = Ok p ∧ tree_at p order3 None None 1 80
    ∧ ∃ p' root' n', insert_rules 60 None order3 rules4 p = (Ok root', p')
      ∧ tree_at p' order3 root' (foldl (t_insert_rule order3) None rules4) 5 n'
      ∧ (80 ≤ n' + nodes_needed 1 4)%nat.
Proof.
  destruct (ctor_stores (V := RuleValueInt) 80 order3 ltac:(apply Nat.ltb_lt; reflexivity) ltac:(done)) as (p & Hp & Hst).
  assert (tree_at p order3 None None 1 80) as Ht by (exists (seq 0 80), None; done).
  exists p. split; [exact Hp|]. split; [exact Ht|].
  apply (insert_rules_refines p order3 None None 1 80 [] [] rules4 60);
    [reflexivity|by apply Nat.leb_le|reflexivity|exact dims3|exact Ht|by apply Nat.leb_le
    |by intros ks w ?%stored_None|by intros ks w ?%stored_None| | | |by apply Nat.leb_le|by apply Nat.leb_le; vm_compute].
  - eapply Forall_impl; [exact rules4_ok|]. by intros r [? _].
  - apply pairwise_all_compatible; [by intros ks r ?%elem_of_nil|exact rules4_compatible].
  - apply full_keys_unrepeated; [done|reflexivity|by apply Nat.leb_le|exact dims3| |
      by intros ks _ ?%elem_of_nil|exact rules4_unrepeated].
    eapply Forall_impl; [exact rules4_ok|]. by intros r [? _].
Defined.
End BuildExample.
