(* ===== verification/Balance.v ===== *)
(** * The layers of a tree are balanced

    Every layer of a stored tree is a B-tree whose leaves have the same depth
    and whose nodes but the root have at least [MIN_DEGREE] keys, so its height
    is logarithmic in its number of keys.  In a tree built by insertions a
    layer has at most as many keys as there are rules. *)
From S2P Require Import Prelude Range RuleValue Mempool Node NodeLemmas Search Layer LayerSearch Trie TrieCheck TrieSearch Footprint Slots Insert LookupSpec Split Chain InsertLayer InsertRoot Decompress Integrity SearchPath InsertNext KeyUpdate InsertWalk InsertAct TrieInsert InsertSpec Build BuildSpec.
Local Open Scope nat_scope.

(** ** The number of keys of a balanced tree *)

Lemma weave_length {A} (its : list A) xss :
  length xss = S (length its) → S (length (weave its xss)) = sum_list_with (λ xs, S (length xs)) xss.
Proof.
  revert its. induction xss as [|xs xss IH]; intros its Hl; [done|]. cbn [weave sum_list_with].
  rewrite length_app. destruct its as [|x its]; cbn [length] in *.
  - destruct xss; [cbn; lia|done].
  - rewrite <- (IH its) by lia. lia.
Qed.

Lemma sum_list_with_ge {A} (f : A → nat) m (l : list A) :
  Forall (λ x, m ≤ f x) l → length l * m ≤ sum_list_with f l.
Proof. induction 1 as [|x l Hx _ IH]; cbn; lia. Qed.

Section Balance.
Context `{cfg : !BTreeCfg, Hok : !CfgOk} {V : Type} `{!RuleValue V}.
Implicit Types (p : Heap V) (t : btree V) (g : gtrie V) (order : list nat) (q : list Range1d).

Lemma balanced_keys h p d par t :
  rep p d par t → balanced h t = true → T ^ h * S (length (items t)) ≤ S (length (flat t)).
Proof using Hok.
  revert h par. induction t as [a its ks IH] using btree_ind'. intros [|h] par Hr Hb.
  - apply balanced_0 in Hb as ->. cbn. lia.
  - pose proof (rep_kids_length _ _ _ _ _ _ Hr) as Hl. apply rep_unfold in Hr as [_ Hr].
    apply balanced_S in Hb as [Hne Hg]. destruct Hl as [|Hl]; [done|]. cbn [flat items].
    rewrite weave_length by (by rewrite length_fmap). rewrite <- Hl, <- (length_fmap flat), Nat.mul_comm.
    apply sum_list_with_ge, Forall_fmap, Forall_forall. intros c Hc. rewrite Forall_forall in IH, Hr, Hg.
    destruct (Hg c Hc) as [Hm Hb]. pose proof (IH c Hc h _ (Hr c Hc) Hb) as Hle. cbn [compose].
    pose proof cfg_T. unfold MIN_DEGREE in Hm. rewrite Nat.pow_succ_r', (Nat.mul_comm T).
    etrans; [|exact Hle]. apply Nat.mul_le_mono_l. lia.
Qed.

(** ** The layers of a tree *)

(** The layer [t] is reached from the tree by the ranges [q]. *)
Inductive layer_below : gtrie V → list Range1d → btree V → Prop :=
| layer_here t nexts : layer_below (GLayer t nexts) [] t
| layer_next t nexts i x g q t' :
    flat t !! i = Some x → nexts !! i = Some (Some g) → layer_below g q t' →
    layer_below (GLayer t nexts) (key x :: q) t'
| layer_chain a c cs g q t' :
    layer_below g q t' → layer_below (GChain a c cs (Some g)) ((key <$> c :: cs) ++ q) t'.

Lemma layer_below_shaped g q t : layer_below g q t → g_shaped g → t_shaped t.
Proof.
  induction 1 as [t nexts|t nexts i x g q t' _ Hn _ IH|a c cs g q t' _ IH].
  - by intros [? _]%g_shaped_layer.
  - intros [_ Hne]%g_shaped_layer. rewrite Forall_lookup in Hne. exact (IH (Hne _ _ Hn)).
  - exact IH.
Qed.

Lemma layer_below_rep p H order level g q t :
  layer_below g q t → g_rep p H order level g →
  (∃ d, rep p d None t) ∧ sorted_keys (flat t) ∧ height t ≤ H.
Proof.
  intros Hl. revert level. induction Hl as [t nexts|t nexts i x g q t' Hx Hn _ IH|a c cs g q t' _ IH]; intros level.
  - intros ((d & _ & Hr) & ? & ? & _)%g_rep_layer. by split; [exists d|].
  - intros (_ & _ & _ & Hnx)%g_rep_layer. apply Forall2_same_length_lookup in Hnx as [_ Hnx].
    destruct (Hnx _ _ _ Hx Hn) as [_ Hg]. by eapply IH.
  - intros Hg%chain_last_rep. by eapply IH.
Qed.

Lemma stored_chain (cs : list (KeyInfo V)) o ks w :
  stored o ks w → stored (chain_trie cs o) ((key <$> cs) ++ ks) w.
Proof. intros Hs. induction cs as [|c cs IH]; [done|]. eapply stored_next; [by left|exact IH]. Qed.

(** The keys of a layer end paths of the trie. *)
Lemma layer_below_stored p H order level g q t x :
  layer_below g q t → g_rep p H order level g → x ∈ flat t →
  stored (Some (abs g)) (q ++ [key x]) (kvalue x).
Proof.
  intros Hl. revert level. induction Hl as [t nexts|t nexts i y g q t' Hy Hn _ IH|a c cs g q t' _ IH]; intros level Hg Hx.
  - apply g_rep_layer in Hg as (_ & _ & _ & Hnx). apply list_elem_of_lookup in Hx as [i Hx].
    destruct (Forall2_lookup_l _ _ _ _ _ Hnx Hx) as (o & Ho & _).
    rewrite abs_layer. apply stored_here with (abs <$> o). unfold layer_entries.
    apply (list_elem_of_lookup_2 _ i), lookup_zip_with_Some. exists x, (abs <$> o).
    by rewrite list_lookup_fmap, Ho.
  - apply g_rep_layer in Hg as (_ & _ & _ & Hnx). apply Forall2_same_length_lookup in Hnx as [_ Hnx].
    destruct (Hnx _ _ _ Hy Hn) as [_ Hg]. rewrite abs_layer.
    apply (stored_next _ _ (kvalue y) (Some (abs g))); [|by eapply IH].
    apply (list_elem_of_lookup_2 _ i), lookup_zip_with_Some. exists y, (Some (abs g)).
    by rewrite list_lookup_fmap, Hn.
  - rewrite abs_chain, <- app_assoc. apply stored_chain. cbn. eapply IH; [by eapply chain_last_rep|done].
Qed.

(** ** The trees of the rules *)

Lemma prefix_snoc_inj q (k1 k2 : Range1d) ks : q ++ [k1] `prefix_of` ks → q ++ [k2] `prefix_of` ks → k1 = k2.
Proof. intros [l1 ->] [l2 Hl2]. rewrite <- !app_assoc in Hl2. by simplify_list_eq. Qed.

(** Every key of a layer needs a rule of its own. *)
Lemma layer_below_rules p H order g q t rs :
  layer_below g q t → g_rep p H order 0 g → trie_of order rs (Some (abs g)) →
  length (flat t) ≤ length rs.
Proof.
  intros Hl Hg Ht. destruct (layer_below_rep _ _ _ _ _ _ _ Hl Hg) as (_ & Hs & _).
  assert (∀ x, x ∈ flat t → ∃ i r, rs !! i = Some r ∧ q ++ [key x] `prefix_of` trim order r) as Hex.
  { intros x Hx. destruct (to_paths _ _ _ Ht _ _ (layer_below_stored _ _ _ _ _ _ _ x Hl Hg Hx)) as (r & [i Hi]%list_elem_of_lookup & Hp).
    by exists i, r. }
  assert (∀ l, (∀ x, x ∈ l → x ∈ flat t) → NoDup (key <$> l) →
    ∃ js, length js = length l ∧ NoDup js ∧ Forall (λ i, i < length rs) js
      ∧ ∀ i, i ∈ js → ∃ x r, x ∈ l ∧ rs !! i = Some r ∧ q ++ [key x] `prefix_of` trim order r) as Hpick.
  { induction l as [|x l IH]; intros Hin Hnd; cbn [fmap list_fmap] in *.
    - exists []. split_and!; [done|constructor|constructor|by intros i ?%elem_of_nil].
    - apply NoDup_cons in Hnd as [Hx Hnd]. destruct IH as (js & Hlen & Hnis & Hlt & His); [intros; apply Hin; by right|done|].
      destruct (Hex x ltac:(apply Hin; by left)) as (i & r & Hi & Hp). exists (i :: js). split_and!.
      + cbn. lia.
      + constructor; [|done]. intros Hii. destruct (His i Hii) as (y & r' & Hy & Hr' & Hp'). simplify_eq.
        rewrite (prefix_snoc_inj _ _ _ _ Hp Hp') in Hx. by apply Hx, list_elem_of_fmap_2.
      + constructor; [by eapply lookup_lt_Some|done].
      + intros j [->|Hj]%elem_of_cons; [exists x, r; split_and!; [by left|done|done]|].
        destruct (His j Hj) as (y & r' & ? & ? & ?). exists y, r'. split_and!; [by right|done|done]. }
  destruct (Hpick (flat t)) as (js & <- & Hnis & Hlt & _); [done|by apply sorted_keys_NoDup|].
  rewrite <- (length_seq (length rs) 0). apply NoDup_incl_length; [by apply NoDup_ListNoDup|].
  intros i Hi%list_elem_of_In. apply list_elem_of_In, elem_of_seq. rewrite Forall_forall in Hlt. specialize (Hlt i Hi). lia.
Qed.

(** C9. The layers of a tree built by insertions into a new allocator are balanced
    B-trees, of a height that is logarithmic in the number of rules. *)
Theorem build_balanced N order rs fuel :
  PATH_COMPRESSION = true → KEY_SIZE = 2 → is_valid (rv_default : V) = false → 1 ≤ D →
  order ≡ₚ seq 0 D → Forall rule_ok16 rs →
  (∀ r r', r ∈ rs → r' ∈ rs → compatible (rule_keys order r) (rule_keys order r')) →
  NoDup (full_keys order rs) → 1 < N → (Z.of_nat N ≤ INVALID_INDEX)%Z → nodes_needed 1 (length rs) ≤ N →
  insert_fuel (1 + length rs) order ≤ fuel →
  ∃ p p' fl o, Pool.DynamicMempool_ctor N = Ok p ∧ insert_rules fuel None order rs p = (Ok (g_addr <$> o), p')
    ∧ stores p' fl (1 + length rs) order o
    ∧ ∀ g q t, o = Some g → layer_below g q t →
        (∃ d, rep p' d None t) ∧ length (flat t) ≤ length rs
        ∧ ∃ h, height t = S h ∧ balanced h t = true ∧ 2 * T ^ h ≤ S (length (flat t)).
Proof using Hok.
  intros HPC HK Hdef HD Hperm Hrs Hc Hunr HN Hfit Hneed Hfuel.
  destruct (build_run N order rs fuel) as (p & p' & fl & o & Hp & Hrun & Hst & _ & Ht); [done..|].
  exists p, p', fl, o. split_and!; [done..|]. intros g q t -> Hl.
  destruct Hst as [_ Hg _ Hsh]. specialize (Hg g eq_refl).
  destruct (layer_below_rep _ _ _ _ _ _ _ Hl Hg) as ((d & Hr) & _ & _).
  destruct (layer_below_shaped _ _ _ Hl Hsh) as [Hne [h Hb]].
  split_and!; [by exists d|by eapply layer_below_rules|]. exists h. split_and!; [by apply balanced_height|done|].
  pose proof (balanced_keys h p' d None t Hr Hb) as Hle. etrans; [|exact Hle]. rewrite Nat.mul_comm.
  apply Nat.mul_le_mono_l. destruct t as [a its ks]. apply t_nonempty_unfold in Hne as [Hne _].
  destruct its; [done|cbn; lia].
Qed.
End Balance.

(** ** Ten rules that differ in their first field *)

Module BalanceExample.
Import LookupSpec.Example InsertSpec.InsertExample BuildSpec.BuildExample.
#[local] Existing Instance cfg3.

Definition rules10 : list (rule_spec_t RuleValueInt) :=
  (λ i, rule3 (exact16 (Z.of_nat i)) any16 any16 1 (Z.of_nat i)) <$> [7; 3; 9; 1; 5; 2; 8; 4; 10; 6].

Lemma rules10_ok : Forall rule_ok16 rules10.
Proof. repeat (constructor; [repeat split; repeat constructor; done|]). constructor. Qed.

Lemma rules10_compatible r r' :
  r ∈ rules10 → r' ∈ rules10 → compatible (rule_keys order3 r) (rule_keys order3 r').
Proof.
  assert (Forall (λ r, Forall (λ r', compatible (rule_keys order3 r) (rule_keys order3 r')) rules10) rules10) as Hc
    by (refine (bool_decide_unpack _ _); vm_compute; exact I).
  intros Hr Hr'. rewrite Forall_forall in Hc. specialize (Hc r Hr). rewrite Forall_forall in Hc. by apply Hc.
Qed.

Lemma build_balanced_witness :
  ∃ p p' fl o, Pool.DynamicMempool_ctor 300 = Ok p ∧ insert_rules 120 None order3 rules10 p = (Ok (g_addr <$> o), p')
    ∧ stores p' fl 11 order3 o
    ∧ ∀ g q t, o = Some g → layer_below g q t →
        (∃ d, rep p' d None t) ∧ length (flat t) ≤ 10
        ∧ ∃ h, height t = S h ∧ balanced h t = true ∧ 2 * T ^ h ≤ S (length (flat t)).
Proof.
  apply (build_balanced 300 order3 rules10 120); try reflexivity; [by apply Nat.leb_le|exact rules10_ok| | | | | |].
  - exact rules10_compatible.
  - refine (bool_decide_unpack _ _). vm_compute. exact I.
  - apply Nat.ltb_lt. reflexivity.
  - done.
  - apply Nat.leb_le. vm_compute. reflexivity.
  - apply Nat.leb_le. vm_compute. reflexivity.
Defined.
End BalanceExample.
