(* ===== verification/KeyIterator.v ===== *)
(** * Iteration over the keys of a layer ([b_tree_key_iterator.h])

    A position is a node and the index of a key in it; the null node is the
    end.  The successor and the predecessor walk through the [parent]
    pointers, so the iteration never leaves the layer it starts in. *)
From S2P Require Import Prelude Range RuleValue Mempool Node.

Section KeyIterator.
Context `{cfg : !BTreeCfg} {V : Type} `{!RuleValue V}.

(** ** Positions ([State]) *)

Record State : Type := mkState { actual : option ptr; index : nat }.

#[export] Instance State_eq_dec : EqDecision State.
Proof. solve_decision. Defined.

Definition State_eq (a other : State) : bool :=
  bool_decide (actual a = actual other) && (index a =? index other).

Definition State_ne (a other : State) : bool :=
  bool_decide (actual a ≠ actual other) || negb (index a =? index other).

Fixpoint left_most (fuel : nat) (n : ptr) : HM V ptr :=
  match fuel with
  | O => throw no_fuel
  | S fuel =>
      c ← child n 0;
      match c with Some c => left_most fuel c | None => mret n end
  end.

(** [get_most_left] *)
Fixpoint get_most_left (fuel : nat) (n : ptr) : HM V ptr :=
  match fuel with
  | O => throw no_fuel
  | S fuel =>
      nd ← load n;
      if is_leaf nd then mret n
      else c ← child n 0; c ← or_ub c; get_most_left fuel c
  end.

(** The rightmost leaf below a node. *)
Fixpoint get_most_right (fuel : nat) (n : ptr) : HM V ptr :=
  match fuel with
  | O => throw no_fuel
  | S fuel =>
      nd ← load n;
      if is_leaf nd then mret n
      else c ← child n (key_cnt nd); c ← or_ub c; get_most_right fuel c
  end.

(** The loop of [index_of_child] over [n] children from [i]. *)
Fixpoint index_of_child_loop (p : ptr) (ch : ptr) (n i : nat) : HM V nat :=
  match n with
  | O => mret i
  | S n =>
      c ← child p i;
      if bool_decide (c = Some ch) then mret i else index_of_child_loop p ch n (S i)
  end.

Definition index_of_child (p : option ptr) (ch : ptr) : HM V nat :=
  match p with
  | None => mret 0
  | Some p => nd ← load p; index_of_child_loop p ch (key_cnt nd + 1) 0
  end.

Fixpoint get_most_left_after (fuel : nat) (p : option ptr) (ch : ptr) : HM V State :=
  match p with
  | None => mret (mkState None 0)
  | Some a =>
      match fuel with
      | O => throw no_fuel
      | S fuel =>
          my_index ← index_of_child p ch;
          nd ← load a;
          if my_index + 1 <? key_cnt nd then
            c ← child a (my_index + 1);
            c ← or_ub c;
            l ← get_most_left fuel c;
            mret (mkState (Some l) 0)
          else get_most_left_after fuel (parent nd) a
      end
  end.

(** The walk of [getSucc_global] to the first ancestor whose key follows the
    subtree of [n]. *)
Fixpoint succ_ancestor (fuel : nat) (p : option ptr) (n : ptr) : HM V State :=
  match p with
  | None => mret (mkState None 0)
  | Some a =>
      match fuel with
      | O => throw no_fuel
      | S fuel =>
          i ← index_of_child p n;
          nd ← load a;
          if i =? key_cnt nd then succ_ancestor fuel (parent nd) a
          else mret (mkState p i)
      end
  end.

Definition getSucc_global (fuel : nat) (node : ptr) (idx : nat) : HM V State :=
  nd ← load node;
  if is_leaf nd then
    if idx + 1 <? key_cnt nd then mret (mkState (Some node) (idx + 1))
    else succ_ancestor fuel (parent nd) node
  else
    c ← child node (idx + 1);
    match c with
    | Some c => l ← get_most_left fuel c; mret (mkState (Some l) 0)
    | None => get_most_left_after fuel (parent nd) node
    end.

(** The walk of [getPred_global] to the first ancestor whose key precedes the
    subtree of [n]. *)
Fixpoint pred_ancestor (fuel : nat) (p : option ptr) (n : ptr) : HM V State :=
  match p with
  | None => mret (mkState None 0)
  | Some a =>
      match fuel with
      | O => throw no_fuel
      | S fuel =>
          i ← index_of_child p n;
          nd ← load a;
          if 0 <? i then mret (mkState p (i - 1))
          else pred_ancestor fuel (parent nd) a
      end
  end.

Definition getPred_global (fuel : nat) (node : ptr) (idx : nat) : HM V State :=
  nd ← load node;
  if is_leaf nd then
    if 0 <? idx then mret (mkState (Some node) (idx - 1))
    else pred_ancestor fuel (parent nd) node
  else
    ch ← child node idx;
    ch ← or_ub ch;
    r ← get_most_right fuel ch;
    rd ← load r;
    mret (mkState (Some r) (pred_w 32 (key_cnt rd))).

(** [operator++], [operator--] and [operator*]. *)
Definition state_next (fuel : nat) (s : State) : HM V State :=
  a ← or_ub (actual s);
  getSucc_global fuel a (index s).

Definition state_prev (fuel : nat) (s : State) : HM V State :=
  a ← or_ub (actual s);
  getPred_global fuel a (index s).

Definition state_deref (s : State) : HM V (KeyInfo V) :=
  a ← or_ub (actual s);
  get_key a (index s).

(** ** The iterator *)

Record BTreeKeyIterator : Type := mkKeyIterator { _begin : State; _end : State }.

(** The constructor from a position, and the one from the root of a layer,
    which starts in its leftmost node. *)
Definition BTreeKeyIterator_at (start_node : option ptr) (start_index : nat)
    : BTreeKeyIterator :=
  mkKeyIterator (mkState start_node start_index) (mkState None 0).

Definition BTreeKeyIterator_root (fuel : nat) (root : ptr) : HM V BTreeKeyIterator :=
  l ← left_most fuel root;
  mret (BTreeKeyIterator_at (Some l) 0).

(** The copy constructors keep the node and reset the index. *)
Definition BTreeKeyIterator_copy (src : BTreeKeyIterator) : BTreeKeyIterator :=
  BTreeKeyIterator_at (actual (_begin src)) 0.

(** [for (auto k : iter_keys())]: the keys from a position to the end. *)
Fixpoint iter_keys (fuel : nat) (s : State) : HM V (list (KeyInfo V)) :=
  match fuel with
  | O => throw no_fuel
  | S fuel =>
      if State_eq s (mkState None 0) then mret []
      else
        k ← state_deref s;
        s' ← state_next fuel s;
        ks ← iter_keys fuel s';
        mret (k :: ks)
  end.
End KeyIterator.
