(* ===== verification/IterSpec.v ===== *)
(** * The keys an iterator visits

    [BTreeKeyIterator] on a represented layer: from the root it visits every
    key of the layer once, in ascending order, and stops; it does not change
    the memory. *)
From S2P Require Import Prelude Range RuleValue Mempool Node NodeLemmas Search Layer LayerSearch Trie TrieCheck Footprint Slots Insert LookupSpec Split InsertSpec KeyIterator.
Local Open Scope Z_scope.
Local Open Scope pcv_scope.

Section IterSpec.
Context `{cfg : !BTreeCfg, Hok : !CfgOk} {V : Type} `{!RuleValue V}.
Implicit Types (p : Heap V) (nd : Node V) (t : btree V).
Context (p : Heap V) (fl : list nat) (d : nat).
Hypothesis Hp : heap_ok p fl.

(** The leftmost leaf. *)
Fixpoint first_leaf t : ptr :=
  match t with BNode a _ ks => match ks with [] => a | k :: _ => first_leaf k end end.

Lemma kid_ok a its ts par i c nd :
  rep p d par (BNode a its ts) → node_at p a = Some nd → node_rep d par its (addr <$> ts) nd → ts !! i = Some c →
  ⟪ child a i, p ⟫ ⇓ ⟪ Some (addr c), p ⟫.
Proof using Hp.
  intros Hr Ha Hn Hc. destruct (rep_kids_live _ _ _ _ _ _ Hr (addr c)) as (cd & Hcd & _).
  { by eapply list_elem_of_fmap_2, list_elem_of_lookup_2. }
  eapply child_some; [exact Hp|exact Ha| |exact Hcd]. apply (nr_kids _ _ _ _ _ Hn). by rewrite list_lookup_fmap, Hc.
Qed.

Lemma first_leaf_ok t par fuel :
  rep p d par t → (height t ≤ fuel)%nat →
  ⟪ left_most fuel (addr t), p ⟫ ⇓ ⟪ first_leaf t, p ⟫ ∧ ⟪ get_most_left fuel (addr t), p ⟫ ⇓ ⟪ first_leaf t, p ⟫.
Proof using Hp.
  revert par fuel. induction t as [a its ts IH] using btree_ind'. intros par fuel Hr Hf.
  destruct fuel as [|fuel]; [cbn in Hf; lia|]. pose proof Hr as [(nd & Ha & Hn) Hts]%rep_unfold.
  cbn [left_most get_most_left addr first_leaf]. destruct ts as [|c ts].
  - split.
    + run_ok by (eapply child_none; [exact Ha|]; rewrite (nr_no_kids _ _ _ _ _ Hn) by done; apply lookup_replicate_2; lia).
      done.
    + rewrite (bind_load _ _ _ _ Ha), (nr_leaf _ _ _ _ _ Hn). done.
  - apply Forall_cons in IH as [IH _], Hts as [Hc _].
    pose proof (height_kid a its (c :: ts) c ltac:(left)) as Hh.
    destruct (IH (Some a) fuel Hc ltac:(lia)) as [IH1 IH2].
    pose proof (kid_ok a its (c :: ts) par 0 c nd Hr Ha Hn eq_refl) as Hk. split.
    + run_ok by (exact Hk). exact IH1.
    + rewrite (bind_load _ _ _ _ Ha), (nr_leaf _ _ _ _ _ Hn). rewrite bool_decide_false by done.
      run_ok by (exact Hk). cbn [or_ub]. rewrite bind_ret. exact IH2.
Qed.

(** A child is found at its index. *)
Lemma index_of_child_ok a its ts par i c :
  rep p d par (BNode a its ts) → NoDup (addr <$> ts) → ts !! i = Some c →
  ⟪ index_of_child (Some a) (addr c), p ⟫ ⇓ ⟪ i, p ⟫.
Proof using Hp.
  intros Hr Hnd Hc. pose proof Hr as [(nd & Ha & Hn) _]%rep_unfold. pose proof (rep_arity _ _ _ _ _ Hn) as Hl.
  unfold index_of_child. rewrite (bind_load _ _ _ _ Ha), (nr_cnt _ _ _ _ _ Hn).
  assert (length its + 1 = length ts)%nat as -> by (destruct Hl as [->|Hl]; [done|lia]).
  pose proof (lookup_lt_Some _ _ _ Hc) as Hi.
  assert (∀ n j, (j + n = length ts)%nat → (j ≤ i)%nat → ⟪ index_of_child_loop a (addr c) n j, p ⟫ ⇓ ⟪ i, p ⟫) as Hloop;
    [|by apply Hloop; lia].
  induction n as [|n IHn]; intros j Hj Hji; [lia|]. cbn [index_of_child_loop].
  destruct (lookup_lt_is_Some_2 ts j) as [cj Hcj]; [lia|].
  run_ok by (eapply kid_ok; [exact Hr|exact Ha|exact Hn|exact Hcj]).
  case_bool_decide as He.
  - injection He as He. assert (j = i) as ->; [|done]. apply (NoDup_lookup _ _ _ (addr c) Hnd); rewrite list_lookup_fmap.
    + rewrite Hcj. cbn. by rewrite He.
    + by rewrite Hc.
  - apply IHn; [lia|]. destruct (decide (j = i)) as [->|]; [simplify_eq|lia].
Qed.

Lemma NoDup_kids (ts : list (btree V)) : NoDup (concat (addrs <$> ts)) → NoDup (addr <$> ts).
Proof.
  induction ts as [|t ts IH]; [constructor|]. cbn. intros (_ & Hd & Hnd)%NoDup_app. constructor; [|by apply IH].
  intros (t' & He & Ht')%list_elem_of_fmap. apply (Hd (addr t) (addrs_root t)). apply elem_of_concat.
  exists (addrs t'). split; [rewrite He; apply addrs_root|by apply list_elem_of_fmap_2].
Qed.

(** ** The rest of the iteration *)

(** From the end of the subtree at [a] the successor is [s]. *)
Definition after (B : nat) (par : option ptr) (a : ptr) (s : State) : Prop :=
  ∀ fuel, (B ≤ fuel)%nat → ⟪ succ_ancestor fuel par a, p ⟫ ⇓ ⟪ s, p ⟫.

(** From [s] on the keys [ks] are visited; [F] bounds the fuel of a step. *)
Inductive visits (F : nat) : State → list (KeyInfo V) → Prop :=
| visits_end : visits F (mkState None 0) []
| visits_step a i x s ks nd :
    node_at p a = Some nd → node_key nd i = Some x → (i < MAX_DEGREE)%nat →
    (∀ fuel, (F ≤ fuel)%nat → ⟪ getSucc_global fuel a i, p ⟫ ⇓ ⟪ s, p ⟫) → visits F s ks →
    visits F (mkState (Some a) i) (x :: ks).

Lemma visits_iter F s ks fuel :
  visits F s ks → (0 < F)%nat → (length ks + F ≤ fuel)%nat → ⟪ iter_keys fuel s, p ⟫ ⇓ ⟪ ks, p ⟫.
Proof.
  intros Hv HF. revert fuel. induction Hv as [|a i x s ks nd Ha Hx Hi Hs _ IH]; intros [|fuel] Hf; [lia|done|lia|].
  cbn [iter_keys length] in *. unfold State_eq. cbn [actual index]. rewrite bool_decide_false by done. cbn [andb].
  unfold state_deref, state_next. cbn [actual index or_ub]. run_pure. run_ok by (by eapply get_key_ok).
  run_ok by (apply Hs; lia). run_ok by (apply IH; lia). done.
Qed.

(** The keys of a leaf from the [i]-th on. *)
Lemma visits_leaf a its par s ks B F i :
  rep p d par (BNode a its []) → after B par a s → visits F s ks → (B ≤ F)%nat → (i < length its)%nat →
  visits F (mkState (Some a) i) (drop i its ++ ks).
Proof.
  intros [(nd & Ha & Hn) _]%rep_unfold Hafter Hv HB Hi. pose proof (nr_max _ _ _ _ _ Hn) as Hmax.
  remember (length its - i)%nat as n eqn:Hm. revert i Hi Hm. induction n as [|n IH]; intros i Hi Hm; [lia|].
  destruct (lookup_lt_is_Some_2 its i Hi) as [x Hx]. rewrite (drop_S _ _ _ Hx). cbn [app].
  assert (∀ fuel, getSucc_global fuel a i p
    = (if (i + 1 <? length its)%nat then mret (mkState (Some a) (i + 1)) else succ_ancestor fuel par a) p) as Hsucc.
  { intros fuel. unfold getSucc_global. rewrite (bind_load _ _ _ _ Ha), (nr_leaf _ _ _ _ _ Hn), (nr_cnt _ _ _ _ _ Hn).
    by rewrite (nr_parent _ _ _ _ _ Hn). }
  destruct (Nat.ltb_spec (i + 1) (length its)) as [Hlt|Hge].
  - eapply visits_step; [exact Ha|by apply (nr_keys _ _ _ _ _ Hn)|lia|intros fuel _; apply Hsucc|].
    rewrite Nat.add_1_r. apply IH; lia.
  - eapply visits_step; [exact Ha|by apply (nr_keys _ _ _ _ _ Hn)|lia|intros fuel Hf; rewrite Hsucc; apply Hafter; lia|].
    by rewrite drop_ge by lia.
Qed.

(** The successor of a key of an inner node. *)
Lemma succ_inner a its ts par i x c fuel :
  rep p d par (BNode a its ts) → its !! i = Some x → ts !! S i = Some c → (height c ≤ fuel)%nat →
  ⟪ getSucc_global fuel a i, p ⟫ ⇓ ⟪ mkState (Some (first_leaf c)) 0, p ⟫.
Proof using Hp.
  intros Hr Hx Hc Hf. pose proof Hr as [(nd & Ha & Hn) Hts]%rep_unfold. rewrite Forall_forall in Hts.
  unfold getSucc_global. rewrite (bind_load _ _ _ _ Ha), (nr_leaf _ _ _ _ _ Hn).
  rewrite bool_decide_false by (intros ->%fmap_nil_inv; done). rewrite Nat.add_1_r.
  run_ok by (eapply kid_ok; [exact Hr|exact Ha|exact Hn|exact Hc]).
  run_ok by (eapply first_leaf_ok; [apply Hts; by eapply list_elem_of_lookup_2|exact Hf]). done.
Qed.

(** What follows the [i]-th child of an inner node. *)
Lemma kid_after a its ts par s ks B F :
  rep p d par (BNode a its ts) → NoDup (addr <$> ts) → length ts = S (length its) →
  after B par a s → visits F s ks → (B + height (BNode a its ts) ≤ F)%nat →
  (∀ c s ks, c ∈ ts → after (S B) (Some a) (addr c) s → visits F s ks →
     visits F (mkState (Some (first_leaf c)) 0) (flat c ++ ks)) →
  ∀ n i c, (i + n = length its)%nat → ts !! i = Some c →
    let s' := if (i =? length its)%nat then s else mkState (Some a) i in
    after (S B) (Some a) (addr c) s' ∧ visits F s' (weave_post its (flat <$> ts) i ++ ks).
Proof using Hp.
  intros Hr Hnd Hl Hafter Hv HB IH n. pose proof Hr as [(nd & Ha & Hn) _]%rep_unfold.
  pose proof (nr_max _ _ _ _ _ Hn) as Hmax.
  assert (∀ i c fuel, ts !! i = Some c → succ_ancestor (S fuel) (Some a) (addr c) p
    = (if (i =? length its)%nat then succ_ancestor fuel par a else mret (mkState (Some a) i)) p) as Hanc.
  { intros i c fuel Hc. cbn [succ_ancestor]. run_ok by (by eapply index_of_child_ok).
    by rewrite (bind_load _ _ _ _ Ha), (nr_cnt _ _ _ _ _ Hn), (nr_parent _ _ _ _ _ Hn). }
  induction n as [|n IHn]; intros i c Hi Hc.
  - replace i with (length its) in * by lia. cbv zeta. rewrite Nat.eqb_refl. split.
    + intros [|fuel] Hf; [lia|]. rewrite (Hanc (length its) c) by done. rewrite Nat.eqb_refl. apply Hafter. lia.
    + unfold weave_post. by rewrite drop_ge by lia.
  - destruct (lookup_lt_is_Some_2 its i) as [x Hx]; [lia|]. destruct (lookup_lt_is_Some_2 ts (S i)) as [c' Hc']; [lia|].
    pose proof (list_elem_of_lookup_2 _ _ _ Hc') as Hcin. pose proof (height_kid a its ts c' Hcin) as Hh.
    cbv zeta. rewrite (proj2 (Nat.eqb_neq _ _)) by lia. split.
    + intros [|fuel] Hf; [lia|]. rewrite (Hanc i c) by done. by rewrite (proj2 (Nat.eqb_neq _ _)) by lia.
    + rewrite (weave_post_S its (flat <$> ts) i (flat c') x) by (done || by rewrite list_lookup_fmap, Hc').
      destruct (IHn (S i) c') as (Hs' & Hv'); [lia|done|]. cbn [app].
      eapply visits_step; [exact Ha|by apply (nr_keys _ _ _ _ _ Hn)|lia| |].
      * intros fuel Hf. eapply succ_inner; [done|done|done|lia].
      * rewrite <- app_assoc. by eapply (IH c').
Qed.

Lemma kids_NoDup a its (ts : list (btree V)) : NoDup (addrs (BNode a its ts)) → NoDup (addr <$> ts).
Proof. rewrite addrs_unfold. intros [_ Hnd]%NoDup_cons. by apply NoDup_kids. Qed.

Lemma kid_NoDup a its (ts : list (btree V)) c : NoDup (addrs (BNode a its ts)) → c ∈ ts → NoDup (addrs c).
Proof.
  rewrite addrs_unfold. intros [_ Hnd]%NoDup_cons Hc. apply (NoDup_concat_part _ _ Hnd). by apply list_elem_of_fmap_2.
Qed.

Lemma visits_tree t par s ks B F :
  rep p d par t → t_nonempty t → NoDup (addrs t) → after B par (addr t) s → visits F s ks → (B + height t ≤ F)%nat →
  visits F (mkState (Some (first_leaf t)) 0) (flat t ++ ks).
Proof using Hp.
  revert par s ks B. induction t as [a its ts IH] using btree_ind'.
  intros par s ks B Hr [Hne Hnek]%t_nonempty_unfold Hnd Hafter Hv HB.
  pose proof Hr as [(nd & Ha & Hn) Hts]%rep_unfold. destruct (rep_arity _ _ _ _ _ Hn) as [->|Hl].
  - cbn [flat first_leaf fmap list_fmap weave].
    apply (visits_leaf a its par s ks B F 0); [done..|cbn in HB; lia|destruct its; [done|cbn; lia]].
  - rewrite Forall_forall in IH, Hts, Hnek. destruct ts as [|c ts]; [done|]. cbn [first_leaf].
    assert (∀ c' s ks, c' ∈ c :: ts → after (S B) (Some a) (addr c') s → visits F s ks →
       visits F (mkState (Some (first_leaf c')) 0) (flat c' ++ ks)) as Hkids.
    { intros c' s' ks' Hin Hafter' Hv'. pose proof (height_kid a its (c :: ts) c' Hin).
      apply (IH c' Hin (Some a) s' ks' (S B)); [by apply Hts|by apply Hnek|by eapply kid_NoDup|done|done|lia]. }
    change (flat (BNode a its (c :: ts))) with (weave its (flat <$> c :: ts)).
    rewrite (weave_split its (flat <$> c :: ts) 0 (flat c)) by (by rewrite ?length_fmap).
    change (weave_pre its (flat <$> c :: ts) 0) with (@nil (KeyInfo V)). cbn [app]. rewrite <- app_assoc.
    destruct (kid_after a its (c :: ts) par s ks B F) with (n := length its) (i := 0%nat) (c := c)
      as (Hs' & Hv'); [done|by eapply kids_NoDup|done..|].
    eapply (Hkids c); [by left|done|done].
Qed.

(** The first layer-wide position. *)
Lemma visits_layer t H :
  rep p d None t → t_nonempty t → NoDup (addrs t) → (height t ≤ H)%nat →
  visits H (mkState (Some (first_leaf t)) 0) (flat t).
Proof using Hp.
  intros Hr Hne Hnd Hh. pose proof (visits_tree t None (mkState None 0) [] 0 H Hr Hne Hnd) as Hv.
  rewrite app_nil_r in Hv. apply Hv; [by intros []|constructor|lia].
Qed.
End IterSpec.

(** ** Properties *)

Section layer.
Context `{cfg : !BTreeCfg, Hok : !CfgOk} {V : Type} `{!RuleValue V}.
Implicit Types (p : Heap V).

(** C15. The iteration over the keys of a layer, from an iterator made of its
    root, returns the keys of the layer, each once and in ascending order of
    their ranges, and leaves the memory as it is. *)
Theorem iter_keys_layer p fl H order level t nexts fuel :
  heap_ok p fl → g_rep p H order level (GLayer t nexts) → g_shaped (GLayer t nexts) →
  NoDup (g_addrs (GLayer t nexts)) → (length (flat t) + H ≤ fuel)%nat →
  ⟪ it ← BTreeKeyIterator_root fuel (addr t); iter_keys fuel (_begin it), p ⟫ ⇓ ⟪ flat t, p ⟫
  ∧ sorted_keys (flat t) ∧ key <$> flat t = (λ e, e.1.1) <$> (let 'Entries es := abs (GLayer t nexts) in es).
Proof.
  intros Hp ((d & _ & Hr) & Hs & Hh & Hn)%g_rep_layer [[Hne _] _]%g_shaped_layer Hnd Hf.
  rewrite g_addrs_layer in Hnd. apply NoDup_app in Hnd as (Hnd & _ & _). split_and!; [|done|].
  - destruct (first_leaf_ok p fl d Hp t None fuel Hr ltac:(lia)) as [Hl _]. unfold BTreeKeyIterator_root.
    run_ok by (exact Hl). cbn [_begin BTreeKeyIterator_at].
    assert (0 < height t)%nat by (destruct t; cbn; lia).
    by eapply (visits_iter p H); [eapply visits_layer|lia|].
  - rewrite abs_layer. apply list_eq. intros i. unfold layer_entries. rewrite !list_lookup_fmap, lookup_zip_with, list_lookup_fmap.
    destruct (flat t !! i) as [x|] eqn:Hx; [|done]. destruct (Forall2_lookup_l _ _ _ _ _ Hn Hx) as (o & -> & _). done.
Qed.
End layer.

Module IterExample.
Import LookupSpec.Example InsertSpec.InsertExample.
#[local] Existing Instance cfg3.

Definition layer0 : btree RuleValueInt := match built_tree with GLayer t _ => t | GChain a _ _ _ => BNode a [] [] end.

Definition nexts0 : list (option (gtrie RuleValueInt)) := match built_tree with GLayer _ nexts => nexts | _ => [] end.

Lemma built_layer : built_tree = GLayer layer0 nexts0.
Proof. unfold layer0, nexts0. assert (match built_tree with GLayer _ _ => true | _ => false end = true) as H
  by (vm_compute; reflexivity). by destruct built_tree. Qed.

Lemma layer0_stored :
  heap_ok built.2 (seq 8 22) ∧ g_rep built.2 9 [0; 1; 2]%nat 0 (GLayer layer0 nexts0)
  ∧ g_shaped (GLayer layer0 nexts0) ∧ NoDup (g_addrs (GLayer layer0 nexts0)).
Proof.
  pose proof built_stores as Hst. rewrite built_layer in Hst.
  generalize dependent (GLayer layer0 nexts0). intros g [Hp Hr Hnd Hne]. by split_and!; [|apply Hr| |].
Qed.

(** The first layer of the example tree has six keys. *)
Lemma iter_keys_layer_witness :
  length (flat layer0) = 6%nat
  ∧ ⟪ it ← BTreeKeyIterator_root 20 (addr layer0); iter_keys 20 (_begin it), built.2 ⟫ ⇓ ⟪ flat layer0, built.2 ⟫.
Proof.
  split; [vm_compute; reflexivity|]. destruct layer0_stored as (Hp & Hr & Hne & Hnd).
  refine (proj1 (iter_keys_layer built.2 (seq 8 22) 9 [0; 1; 2]%nat 0 layer0 nexts0 20 Hp Hr Hne Hnd _)).
  apply Nat.leb_le. vm_compute. reflexivity.
Defined.
End IterExample.
