(* ===== verification/Collision.v ===== *)
(** * The collision test ([b_tree_collision_check.h])

    [does_rule_colide]: whether some range of the rule overlaps a key of the
    tree it is not equal to, level by level along the path of equal keys. *)
From S2P Require Import Prelude Range RuleValue Mempool Node Search KeyIterator.
Local Open Scope Z_scope.

Section Collision.
Context `{cfg : !BTreeCfg} {V : Type} `{!RuleValue V}.

(** The loop of [search_closest_lower_or_equal_seq]: [n] iterations from
    [i]. *)
Fixpoint search_closest_lower_or_equal_seq (node : ptr) (val : Z) (n i : nat)
    : HM V SearchResult :=
  match n with
  | O => mret (mkSearchResult i false)
  | S n =>
      cur ← get_key node i;
      if val <? low (key cur) then mret (mkSearchResult i false)
      else if in_range (key cur) val then mret (mkSearchResult i true)
      else search_closest_lower_or_equal_seq node val n (S i)
  end.

Fixpoint search_closest_lower_or_equal_key (fuel : nat) (n : option ptr) (val : Z)
    : HM V State :=
  match n with
  | None => mret (mkState None 0)
  | Some a =>
      match fuel with
      | O => throw no_fuel
      | S fuel =>
          nd ← load a;
          s ← search_closest_lower_or_equal_seq a val (key_cnt nd) 0;
          if found s then mret (mkState (Some a) (val_index s))
          else if is_leaf nd then state_prev fuel (_begin (BTreeKeyIterator_at (Some a) 0))
          else c ← child a (val_index s); search_closest_lower_or_equal_key fuel c val
      end
  end.

(** The scan of the keys from the closest lower key on. *)
Fixpoint collision_scan (fuel : nat) (k_it : State) (d_val : Range1d) : HM V bool :=
  match fuel with
  | O => throw no_fuel
  | S fuel =>
      if State_eq k_it (mkState None 0) then mret false
      else
        ki ← state_deref k_it;
        let k := key ki in
        if overlaps k d_val then mret true
        else if low k >? high d_val then mret false
        else k_it ← state_next fuel k_it; collision_scan fuel k_it d_val
  end.

(** The levels [level], ..., [level + todo - 1]. *)
Fixpoint does_rule_colide_loop (fuel : nat) (order : list nat) (rule : rule_spec_t V)
    (n : option ptr) (start_of_this_node level todo : nat) : HM V bool :=
  match todo with
  | O => mret false
  | S todo =>
      match n with
      | None => mret false
      | Some a =>
          d ← or_ub (order !! level);
          d_val ← or_ub (fields rule !! d);
          nd ← load a;
          if is_compressed nd then
            let in_node_key_i := (level - start_of_this_node)%nat in
            k ← get_key a in_node_key_i;
            if range_eq (key k) d_val then
              n ← (if (in_node_key_i + 1 =? key_cnt nd)%nat
                   then get_next_layer a in_node_key_i else mret (Some a));
              does_rule_colide_loop fuel order rule n start_of_this_node (S level) todo
            else if overlaps (key k) d_val then mret true
            else mret false
          else
            p_low ← search_closest_lower_or_equal_key fuel (Some a) (low d_val);
            lk ← (match actual p_low with
                  | Some _ => k ← state_deref p_low; mret (Some (key k))
                  | None => mret None
                  end);
            if (match lk with Some lk => range_eq lk d_val | None => false end) then
              if (todo =? 0)%nat then mret false
              else
                b ← or_ub (actual p_low);
                nl ← get_next_layer b (index p_low);
                does_rule_colide_loop fuel order rule nl level (S level) todo
            else
              k_it ← (match actual p_low with
                      | Some _ => mret p_low
                      | None => m ← get_most_left fuel a; mret (mkState (Some m) 0)
                      end);
              collision_scan fuel k_it d_val
      end
  end.

Definition does_rule_colide (fuel : nat) (root : option ptr) (order : list nat)
    (rule : rule_spec_t V) : HM V bool :=
  does_rule_colide_loop fuel order rule root 0 0 D.
End Collision.
