(* ===== verification/ToRules.v ===== *)
(** * Enumeration of the stored rules ([b_tree_to_rules.h])

    A preorder walk that keeps the ranges of the current path in
    [actual_path] and appends a rule for every item with a valid value. *)
From S2P Require Import Prelude Range RuleValue Mempool Node.

Section ToRules.
Context `{cfg : !BTreeCfg} {V : Type} `{!RuleValue V}.

(** The state of the walk: the rules found so far and the current path. *)
Record to_rules_state : Type := mkToRules {
  res : list (rule_spec_t V);
  actual_path : list Range1d;
}.

Definition any : Range1d := set_wildcard KEY_SIZE.

Definition save_actual_path (s : to_rules_state) (prio_and_id : V) : to_rules_state :=
  mkToRules (res s ++ [mkRule (actual_path s) prio_and_id]) (actual_path s).

Definition set_path (s : to_rules_state) (d : nat) (k : Range1d) : to_rules_state :=
  mkToRules (res s) (<[d := k]> (actual_path s)).

(** The item [i] of the node: save the path if the value is valid. *)
Definition visit_key (s : to_rules_state) (d : nat) (k : KeyInfo V) : HM V to_rules_state :=
  _ ← or_ub (actual_path s !! d);
  let s := set_path s d (key k) in
  mret (if is_valid (kvalue k) then save_actual_path s (kvalue k) else s).

Fixpoint to_rules_node (fuel : nat) (order : list nat) (n : option ptr) (level : nat)
    (s : to_rules_state) : HM V to_rules_state :=
  match n with
  | None => mret s
  | Some a =>
      match fuel with
      | O => throw no_fuel
      | S fuel =>
          nd ← load a;
          if is_compressed nd then
            s ← fold_each (range_up 0 (key_cnt nd)) s (λ s i,
              d ← or_ub (order !! (level + i));
              p ← or_ub (actual_path s !! d);
              assert_ (range_eq p any);;
              k ← get_key a i;
              actual_d ← get_dim a i;
              assert_ (actual_d =? d);;
              s ← visit_key s d k;
              nl ← get_next_layer a i;
              to_rules_node fuel order nl (level + i + 1) s);
            s ← fold_each (range_up 0 (key_cnt nd)) s (λ s i,
              d ← or_ub (order !! (level + i));
              mret (set_path s d any));
            for_each (range_up 0 (key_cnt nd + 1)) (λ i,
              c ← child a i;
              assert_ (bool_decide (c = None)));;
            mret s
          else
            d ← or_ub (order !! level);
            s ← fold_each (range_up 0 (key_cnt nd)) s (λ s i,
              k ← get_key a i;
              s ← visit_key s d k;
              nl ← get_next_layer a i;
              to_rules_node fuel order nl (level + 1) s);
            let s := set_path s d any in
            fold_each (range_up 0 (key_cnt nd + 1)) s (λ s i,
              c ← child a i;
              to_rules_node fuel order c level s)
      end
  end.

(** [to_rules()] of a fresh [_BTreeToRules] with an empty result vector. *)
Definition to_rules (fuel : nat) (root : option ptr) (order : list nat)
    : HM V (list (rule_spec_t V)) :=
  s ← to_rules_node fuel order root 0 (mkToRules [] (replicate D any));
  mret (res s).
End ToRules.
