(* ===== verification/Remove.v ===== *)
(** * Removal ([b_tree_remove.h])

    The removal of a rule along its path, from the last layer up, and the
    B-tree deletion in one layer with borrowing and merging. *)
From stdpp Require Import pretty.
From S2P Require Import Prelude Range RuleValue Mempool Node Search.
Local Open Scope Z_scope.

Section Remove.
Context `{cfg : !BTreeCfg} {V : Type} `{!RuleValue V}.

Definition removeFromLeaf (node : ptr) (idx : nat) : HM V unit :=
  nl ← get_next_layer node idx;
  assert_ (bool_decide (nl = None));;
  nd ← load node;
  for_each (range_up (idx + 1) (key_cnt nd)) (λ i, move_key node i node (i - 1));;
  set_key_cnt node (Z.of_nat (key_cnt nd) - 1).

(** The child at an index, which the source dereferences. *)
Definition child_at (node : ptr) (idx : nat) : HM V ptr :=
  c ← child node idx;
  or_ub c.

Definition child_key_cnt (node : ptr) (idx : nat) : HM V nat :=
  c ← child_at node idx;
  cd ← load c;
  mret (key_cnt cd).

Definition borrowFromPrev (node : ptr) (idx : nat) : HM V unit :=
  ch ← child_at node idx;
  sib ← child_at node (pred_w (8 * Z.of_nat INDEX_SIZE) idx);
  chd ← load ch;
  sibd ← load sib;
  for_each (range_down 0 (key_cnt chd)) (λ i, move_key ch i ch (i + 1));;
  (if is_leaf chd then mret tt
   else for_each (range_down 0 (S (key_cnt chd)))
          (λ i, c ← get_child_index ch i; set_child_index ch (i + 1) c));;
  move_key node (pred_w 8 idx) ch 0;;
  (if is_leaf chd then mret tt
   else _ch ← child sib (key_cnt sibd); set_child ch 0 _ch);;
  move_key sib (pred_w 8 (key_cnt sibd)) node (pred_w 8 idx);;
  set_key_cnt ch (Z.of_nat (key_cnt chd) + 1);;
  set_key_cnt sib (Z.of_nat (key_cnt sibd) - 1).

Definition borrowFromNext (node : ptr) (idx : nat) : HM V unit :=
  ch ← child_at node idx;
  sib ← child_at node (idx + 1);
  chd ← load ch;
  sibd ← load sib;
  move_key node idx ch (key_cnt chd);;
  (if is_leaf chd then mret tt
   else _ch ← child sib 0; set_child ch (key_cnt chd + 1) _ch);;
  move_key sib 0 node idx;;
  for_each (range_up 1 (key_cnt sibd)) (λ i, move_key sib i sib (i - 1));;
  (if is_leaf sibd then mret tt
   else for_each (range_up 1 (S (key_cnt sibd)))
          (λ i, c ← get_child_index sib i; set_child_index sib (i - 1) c));;
  set_key_cnt ch (Z.of_nat (key_cnt chd) + 1);;
  set_key_cnt sib (Z.of_nat (key_cnt sibd) - 1).

Definition merge (node : ptr) (idx : nat) : HM V unit :=
  ch ← child_at node idx;
  sib ← child_at node (idx + 1);
  nd ← load node;
  assert_ (idx <=? key_cnt nd)%nat;;
  move_key node idx ch MIN_DEGREE;;
  sibd ← load sib;
  transfer_items sib 0 ch (MIN_DEGREE + 1) (key_cnt sibd);;
  shift_items_on_right_to_left node idx;;
  chd ← load ch;
  set_key_cnt ch (Z.of_nat (key_cnt chd) + Z.of_nat (key_cnt sibd) + 1);;
  set_key_cnt node (Z.of_nat (key_cnt nd) - 1);;
  upd sib clean_children;;
  node_allocator_release sib.

Definition fill (node : ptr) (idx : nat) : HM V unit :=
  nd ← load node;
  prev ← (if (idx =? 0)%nat then mret false
          else c ← child_key_cnt node (idx - 1); mret (MIN_DEGREE + 1 <=? c)%nat);
  if prev : bool then borrowFromPrev node idx
  else
    next ← (if (idx =? key_cnt nd)%nat then mret false
            else c ← child_key_cnt node (idx + 1); mret (MIN_DEGREE + 1 <=? c)%nat);
    if next : bool then borrowFromNext node idx
    else if negb (idx =? key_cnt nd)%nat then merge node idx
    else assert_ (0 <? idx)%nat;; merge node (idx - 1).

(** [std::string(k)] *)
Definition range_to_string (k : Range1d) : string :=
  pretty (low k) +:+ ":" +:+ pretty (high k).

Definition no_such_key (k : Range1d) : string :=
  "The key " +:+ range_to_string k +:+ " does not exist in the tree".

(** [remove(node, k)], with [removeFromNonLeaf] below it. *)
Fixpoint remove_key (fuel : nat) (node : ptr) (k : Range1d) {struct fuel} : HM V unit :=
  match fuel with
  | O => throw no_fuel
  | S fuel =>
      idx ← findKey node k;
      nd ← load node;
      here ← (if (idx <? key_cnt nd)%nat
              then ki ← get_key node idx; mret (range_eq (key ki) k) else mret false);
      if here : bool then
        if is_leaf nd then removeFromLeaf node idx
        else removeFromNonLeaf fuel node idx
      else if is_leaf nd then throw (runtime_error (no_such_key k))
      else
        let flag := (idx =? key_cnt nd)%nat in
        c ← child_key_cnt node idx;
        (if (c <? MIN_DEGREE + 1)%nat then fill node idx else mret tt);;
        nd ← load node;
        c ← (if flag && (key_cnt nd <? idx)%nat then child_at node (idx - 1)
             else child_at node idx);
        remove_key fuel c k
  end
with removeFromNonLeaf (fuel : nat) (node : ptr) (idx : nat) {struct fuel} : HM V unit :=
  match fuel with
  | O => throw no_fuel
  | S fuel =>
      k ← get_key node idx;
      c ← child_key_cnt node idx;
      if (MIN_DEGREE + 1 <=? c)%nat then
        pred ← getPred fuel node idx;
        set_key node idx pred;;
        c ← child_at node idx;
        remove_key fuel c (key pred)
      else
        c ← child_key_cnt node (idx + 1);
        if (MIN_DEGREE + 1 <=? c)%nat then
          succ ← getSucc fuel node idx;
          set_key node idx succ;;
          c ← child_at node (idx + 1);
          remove_key fuel c (key succ)
        else
          merge node idx;;
          c ← child_at node idx;
          remove_key fuel c (key k)
  end.

Definition remove_1d (fuel : nat) (k : Range1d) (current_root : ptr) : HM V (option ptr) :=
  remove_key fuel current_root k;;
  nd ← load current_root;
  if (key_cnt nd =? 0)%nat then
    new_root ← (if is_leaf nd then mret None
                else c ← child_at current_root 0;
                     upd c (node_set_parent None);;
                     mret (Some c));
    upd current_root clean_children;;
    node_allocator_release current_root;;
    mret new_root
  else mret (Some current_root).

(** The loop of [remove], from the item [i - 1] of the path down; the result
    is the root of the tree. *)
Fixpoint remove_loop (fuel : nat) (order : list nat) (k : rule_spec_t V)
    (path : list path_item) (tree_root : option ptr) (i : nat) : HM V (option ptr) :=
  match i with
  | O => mret tree_root
  | S i' =>
      d ← or_ub (order !! i');
      key ← or_ub (fields k !! d);
      '(root, node, index) ← or_ub (path !! i');
      nl ← get_next_layer node index;
      match nl with
      | Some _ =>
          nd ← load node;
          _ ← or_ub (nvalue nd !! index);
          upd node (node_set_value index rv_default);;
          mret tree_root
      | None =>
          new_root ← remove_1d fuel key root;
          if bool_decide (Some root = tree_root) then mret new_root
          else
            match path !! (i' - 1)%nat with
            | Some (_, prev_node, prev_index) =>
                if (i' =? 0)%nat then throw out_of_range
                else
                  set_next_layer prev_node prev_index nl;;
                  remove_loop fuel order k path tree_root i'
            | None => throw out_of_range
            end
      end
  end.

(** [remove(rule)] on the tree with the given root and dimension order: the
    new root. *)
Definition remove_rule (fuel : nat) (root : option ptr) (order : list nat)
    (k : rule_spec_t V) : HM V (option ptr) :=
  path ← search_path fuel root order k 0;
  remove_loop fuel order k path root (length path).
End Remove.
