(* ===== verification/Schedule.v ===== *)
(** * Weighted interval scheduling
      ([weighted_interval_scheduling_solver.h])

    The score of a dimension is the value of a dynamic program over the
    intervals of the rules, sorted by their upper end.  [std::sort] leaves the
    order of equivalent elements open: it is any function that meets
    [StdSort], and the theorems hold for all of them. *)
From S2P Require Import Prelude Range.
Local Open Scope Z_scope.

(** ** [std::sort] *)

(** The elements come in no descent of the strict weak order [lt]. *)
Definition sorted_by {A} (lt : A → A → bool) (l : list A) : Prop :=
  StronglySorted (λ x y, lt y x = false) l.

Class StrictWeakOrder {A} (lt : A → A → bool) : Prop := {
  swo_asym : ∀ x y, lt x y = true → lt y x = false;
  swo_negtrans : ∀ x y z, lt y x = false → lt z y = false → lt z x = false;
}.

Class StdSort : Type := {
  std_sort : ∀ {A : Type}, (A → A → bool) → list A → list A;
  std_sort_permutation : ∀ A (lt : A → A → bool) l, std_sort lt l ≡ₚ l;
  std_sort_sorted : ∀ A (lt : A → A → bool) l,
    StrictWeakOrder lt → sorted_by lt (std_sort lt l);
}.

(** Insertion sort, an instance. *)
Section insertion_sort.
Context {A : Type} (lt : A → A → bool).

Fixpoint isort_insert (x : A) (l : list A) : list A :=
  match l with
  | [] => [x]
  | y :: l' => if lt y x then y :: isort_insert x l' else x :: l
  end.

Definition isort (l : list A) : list A := foldr isort_insert [] l.

Lemma isort_insert_permutation x l : isort_insert x l ≡ₚ x :: l.
Proof.
  induction l as [|y l IH]; [done|]. cbn. destruct (lt y x); [|done].
  rewrite IH. apply Permutation_swap.
Qed.

Lemma isort_permutation l : isort l ≡ₚ l.
Proof. induction l as [|x l IH]; [done|]. cbn. by rewrite isort_insert_permutation, IH. Qed.

Lemma isort_insert_sorted `{!StrictWeakOrder lt} x l :
  sorted_by lt l → sorted_by lt (isort_insert x l).
Proof.
  unfold sorted_by. induction 1 as [|y l Hl IH Hy]; cbn; [repeat constructor|].
  destruct (lt y x) eqn:Hyx.
  - constructor; [done|]. rewrite isort_insert_permutation. constructor; [|done].
    by apply swo_asym.
  - constructor; [by constructor|]. constructor; [done|].
    eapply Forall_impl; [exact Hy|]. cbn. intros z Hz. by eapply swo_negtrans.
Qed.

Lemma isort_sorted `{!StrictWeakOrder lt} l : sorted_by lt (isort l).
Proof.
  induction l as [|x l IH]; [constructor|]. by apply isort_insert_sorted.
Qed.
End insertion_sort.

Definition insertion_StdSort : StdSort := {|
  std_sort := @isort;
  std_sort_permutation := @isort_permutation;
  std_sort_sorted := λ A lt l H, isort_sorted lt l;
|}.

(** ** The solver *)

(** [intervalComparataor] *)
Definition intervalComparataor (s1 s2 : Range1d) : bool := high s1 <? high s2.

(** The loop of [latestNonConflict] over the indices below [j], downwards. *)
Fixpoint latestNonConflict_loop (intervals : list Range1d) (cur : Range1d) (j : nat)
    : option nat :=
  match j with
  | O => None
  | S j' =>
      match intervals !! j' with
      | Some ij =>
          if (high ij <=? low cur) || range_eq ij cur then Some j'
          else latestNonConflict_loop intervals cur j'
      | None => None
      end
  end.

(** [None] stands for [-1]. *)
Definition latestNonConflict (intervals : list Range1d) (i : nat) : option nat :=
  cur ← intervals !! i;
  latestNonConflict_loop intervals cur i.

Definition get_weight (intervals : list Range1d) (i : nat) : Z :=
  match i with
  | O => 1
  | S i' =>
      match intervals !! i', intervals !! i with
      | Some a, Some b => if range_eq a b then 2 else 1
      | _, _ => 1
      end
  end.

(** One iteration of the main loop: [table] holds the entries before [i]. *)
Definition table_step (intervals : list Range1d) (table : list Z) (i : nat) : list Z :=
  let inclProf :=
    get_weight intervals i
    + match latestNonConflict intervals i with Some l => nth l table 0 | None => 0 end in
  table ++ [Z.max inclProf (nth (i - 1) table 0)].

(** The entries of [table] after the loop, on the sorted intervals. *)
Definition fill_table (intervals : list Range1d) : list Z :=
  foldl (table_step intervals) [get_weight intervals 0] (seq 1 (length intervals - 1)).

(** On an empty vector the source writes [table[0]] of an array of no
    elements: [None]. *)
Definition findMaxWeightIntervalSequence `{!StdSort} (intervals : list Range1d) : option Z :=
  let intervals := std_sort intervalComparataor intervals in
  if (length intervals =? 0)%nat then None
  else Some (nth (length intervals - 1) (fill_table intervals) 0).

(** ** The value of the dynamic program *)

#[export] Instance intervalComparataor_swo : StrictWeakOrder intervalComparataor.
Proof.
  unfold intervalComparataor. split; intros *; rewrite ?Z.ltb_lt, ?Z.ltb_ge; lia.
Qed.

(** Every interval ends no later than each of those after it begins. *)
Definition chain_of : list Range1d → Prop := StronglySorted (λ a b, high a ≤ low b).

(** The same, with a gap between the intervals. *)
Definition disjoint_chain : list Range1d → Prop := StronglySorted (λ a b, high a < low b).

Section table.
Implicit Types (s c : list Range1d) (x : Range1d).

(** What the scan for the latest non-conflicting interval finds. *)
Lemma latestNonConflict_loop_Some s cur j l :
  latestNonConflict_loop s cur j = Some l →
  (l < j)%nat
  ∧ (∃ x, s !! l = Some x ∧ (high x ≤ low cur ∨ x = cur))
  ∧ ∀ k y, (l < k < j)%nat → s !! k = Some y → low cur < high y.
Proof.
  induction j as [|j IH]; cbn; [done|].
  destruct (s !! j) as [x|] eqn:Hj; [|done].
  destruct (_ || _) eqn:Hc; intros H.
  - simplify_eq. split; [lia|]. split; [|intros k y ?; lia].
    exists x. split; [done|]. apply orb_true_iff in Hc as [Hc|Hc]; [left; lia|].
    right. by apply range_eq_spec.
  - apply orb_false_iff in Hc as [Hc _]. apply IH in H as (Hl & Hx & Hk).
    split; [lia|]. split; [done|]. intros k y Hkj Hy.
    destruct (decide (k = j)) as [->|]; [simplify_eq; lia|]. apply (Hk k y); [lia|done].
Qed.

Lemma latestNonConflict_loop_None s cur j :
  latestNonConflict_loop s cur j = None → (j ≤ length s)%nat →
  ∀ k y, (k < j)%nat → s !! k = Some y → low cur < high y.
Proof.
  induction j as [|j IH]; cbn; [intros; lia|].
  intros H Hj. destruct (lookup_lt_is_Some_2 s j ltac:(lia)) as [x Hx]. rewrite Hx in H.
  destruct (_ || _) eqn:Hc; [done|]. apply orb_false_iff in Hc as [Hc _].
  intros k y Hk Hy. destruct (decide (k = j)) as [->|]; [simplify_eq; lia|].
  apply (IH H ltac:(lia) k y); [lia|done].
Qed.

Lemma latestNonConflict_lt s i l : latestNonConflict s i = Some l → (l < i)%nat.
Proof.
  unfold latestNonConflict. destruct (s !! i) as [cur|]; [|done]. cbn.
  intros H. by apply latestNonConflict_loop_Some in H as [? _].
Qed.

Lemma table_step_length s t i : length (table_step s t i) = S (length t).
Proof. unfold table_step. rewrite length_app. cbn. lia. Qed.

(** The table before the [n]-th iteration. *)
Definition table_at s (n : nat) : list Z :=
  foldl (table_step s) [get_weight s 0] (seq 1 n).

Lemma table_at_S s n : table_at s (S n) = table_step s (table_at s n) (S n).
Proof. unfold table_at. by rewrite seq_S, foldl_app. Qed.

Lemma table_at_length s n : length (table_at s n) = S n.
Proof. induction n as [|n IH]; [done|]. by rewrite table_at_S, table_step_length, IH. Qed.

(** Later iterations keep the entries. *)
Lemma table_at_nth s n i d : (i ≤ n)%nat → nth i (table_at s n) d = nth i (table_at s i) d.
Proof.
  induction n as [|n IH]; intros Hi; [by replace i with 0%nat by lia|].
  destruct (decide (i = S n)) as [->|]; [done|].
  rewrite table_at_S. unfold table_step. rewrite app_nth1 by (rewrite table_at_length; lia).
  apply IH. lia.
Qed.

(** [table[i]] *)
Definition entry s (i : nat) : Z := nth i (table_at s i) 0.

Lemma entry_0 s : entry s 0 = 1.
Proof. done. Qed.

Lemma entry_S s i :
  entry s (S i) =
    Z.max (get_weight s (S i)
           + match latestNonConflict s (S i) with Some l => entry s l | None => 0 end)
          (entry s i).
Proof.
  unfold entry at 1. rewrite table_at_S. unfold table_step.
  rewrite app_nth2 by (rewrite table_at_length; lia).
  rewrite table_at_length, Nat.sub_diag. cbn [nth].
  replace (S i - 1)%nat with i by lia. f_equal. f_equal.
  destruct (latestNonConflict s (S i)) as [l|] eqn:Hl; [|done].
  apply table_at_nth. apply latestNonConflict_lt in Hl. lia.
Qed.

(** ** Optimality for distinct intervals *)

Lemma get_weight_distinct s i : NoDup s → get_weight s i = 1.
Proof.
  intros Hs. destruct i as [|i]; [done|]. cbn [get_weight].
  destruct (s !! i) as [a|] eqn:Ha; [|done]. destruct (s !! S i) as [b|] eqn:Hb; [|done].
  destruct (range_eq a b) eqn:E; [|done]. apply range_eq_spec in E as ->.
  pose proof (NoDup_lookup s i (S i) b Hs Ha Hb). lia.
Qed.

Lemma sublist_snoc_inv c s x :
  c `sublist_of` s ++ [x] → c `sublist_of` s ∨ ∃ c', c = c' ++ [x] ∧ c' `sublist_of` s.
Proof.
  intros H. apply sublist_app_r in H as (c1 & c2 & -> & H1 & H2).
  apply sublist_cons_r in H2 as [H2|(c' & -> & H2)]; apply sublist_nil_r in H2 as ->.
  - left. by rewrite app_nil_r.
  - right. by exists c1.
Qed.

Lemma chain_snoc c x : chain_of (c ++ [x]) ↔ chain_of c ∧ Forall (λ a, high a ≤ low x) c.
Proof.
  unfold chain_of. split.
  - intros H. apply StronglySorted_app in H as (Hx & H1 & _). split; [done|].
    apply Forall_forall. intros a Ha. apply Hx; [done|]. by apply list_elem_of_singleton.
  - intros [H1 Hx]. apply StronglySorted_app. split; [|split; [done|repeat constructor]].
    intros a b Ha Hb. apply list_elem_of_singleton in Hb as ->.
    rewrite Forall_forall in Hx. by apply Hx.
Qed.

(** The part of a sublist that meets a condition no element of [m] meets. *)
Lemma sublist_app_filter c s m x :
  c `sublist_of` s ++ m → Forall (λ a, high a ≤ low x) c →
  (∀ y, y ∈ m → low x < high y) → c `sublist_of` s.
Proof.
  intros H Hc Hm. apply sublist_app_r in H as (c1 & c2 & -> & H1 & H2).
  apply Forall_app in Hc as [_ Hc]. destruct c2 as [|y c2]; [by rewrite app_nil_r|].
  exfalso. apply Forall_cons in Hc as [Hy _].
  assert (y ∈ m) as Hym by (eapply sublist_subseteq; [exact H2|left]).
  specialize (Hm y Hym). lia.
Qed.

(** The entry [i] is the largest size of a chain among the first [i + 1]
    intervals. *)
Definition best s (n : nat) (v : Z) : Prop :=
  (∃ c, c `sublist_of` take n s ∧ chain_of c ∧ Z.of_nat (length c) = v)
  ∧ ∀ c, c `sublist_of` take n s → chain_of c → Z.of_nat (length c) ≤ v.

Lemma best_0 s : best s 0 0.
Proof.
  split; [exists []; repeat constructor|]. cbn. intros c Hc _.
  by apply sublist_nil_r in Hc as ->.
Qed.

(** One more interval [x], with [l] the number of the earlier intervals up to
    the latest one that does not conflict with it. *)
Lemma best_step s n l x v w :
  s !! n = Some x → (l ≤ n)%nat →
  (∀ y, y ∈ take l s → high y ≤ low x) →
  (∀ k y, (l ≤ k < n)%nat → s !! k = Some y → low x < high y) →
  best s n v → best s l w → best s (S n) (Z.max (1 + w) v).
Proof.
  intros Hx Hl Hlow Hhigh [[c [Hc1 [Hc2 Hc3]]] Hv] [[d [Hd1 [Hd2 Hd3]]] Hw].
  assert (take l (take n s) = take l s) as Htt by (rewrite take_take; f_equal; lia).
  unfold best. erewrite take_S_r by done. split.
  - destruct (Z.max_spec (1 + w) v) as [[? ->]|[? ->]].
    + exists c. split; [by apply sublist_inserts_r|]. done.
    + exists (d ++ [x]). split; [|split; [|rewrite length_app; cbn; lia]].
      * apply sublist_app; [|done]. rewrite Hd1, <- Htt. apply sublist_take.
      * apply chain_snoc. split; [done|]. apply Forall_forall. intros a Ha.
        apply Hlow. eapply sublist_subseteq; [exact Hd1|done].
  - intros e He Hch. apply sublist_snoc_inv in He as [He|(e' & -> & He)].
    { specialize (Hv e He Hch). lia. }
    apply chain_snoc in Hch as [Hch Hx'].
    assert (e' `sublist_of` take l s) as He'.
    { apply (sublist_app_filter _ _ (drop l (take n s)) x); [| done |].
      - by rewrite <- Htt, take_drop.
      - intros y (k & Hk)%list_elem_of_lookup. rewrite lookup_drop in Hk.
        apply lookup_take_Some in Hk as [Hk ?]. apply (Hhigh (l + k)%nat y); [lia|done]. }
    specialize (Hw e' He' Hch). rewrite length_app. cbn. lia.
Qed.
End table.

Section optimality.
Context {sort : StdSort}.
Implicit Types (s c : list Range1d).

Definition sorted_by_high : list Range1d → Prop := StronglySorted (λ a b, high a ≤ high b).

Lemma sort_sorted l : sorted_by_high (std_sort intervalComparataor l).
Proof.
  eapply StronglySorted_weaken; [|apply (std_sort_sorted _ intervalComparataor l _)].
  unfold intervalComparataor. cbn. intros x y Hy. by apply Z.ltb_ge.
Qed.

Lemma sorted_by_high_lookup s i j x y :
  sorted_by_high s → s !! i = Some x → s !! j = Some y → (i ≤ j)%nat → high x ≤ high y.
Proof.
  intros Hs Hx Hy Hij. destruct (decide (i = j)) as [->|]; [simplify_eq; lia|].
  apply (StronglySorted_lookup _ s i j x y Hs Hx Hy). lia.
Qed.

(** The table entry is the optimum of its prefix. *)
Lemma entry_best s i :
  NoDup s → sorted_by_high s → (i < length s)%nat → best s (S i) (entry s i).
Proof.
  intros Hnd Hs. induction i as [i IH] using lt_wf_ind. intros Hi.
  destruct (lookup_lt_is_Some_2 s i Hi) as [x Hx].
  destruct i as [|i].
  { rewrite entry_0. change 1 with (Z.max (1 + 0) 0).
    apply (best_step s 0 0 x); try done; try apply best_0; intros *; [|lia].
    rewrite take_0. by intros ?%not_elem_of_nil. }
  rewrite entry_S, get_weight_distinct by done. unfold latestNonConflict. rewrite Hx.
  cbn [mbind option_bind].
  destruct (latestNonConflict_loop s x (S i)) as [l|] eqn:Hl.
  - apply latestNonConflict_loop_Some in Hl as (Hli & (y & Hy & Hyx) & Hhigh).
    assert (high y ≤ low x) as Hyx'.
    { destruct Hyx as [|<-]; [done|]. pose proof (NoDup_lookup s l (S i) y Hnd Hy Hx). lia. }
    apply (best_step s (S i) (S l) x); [done|lia| | |apply IH; lia|apply IH; lia].
    + intros z (k & Hk)%list_elem_of_lookup. apply lookup_take_Some in Hk as [Hk ?].
      pose proof (sorted_by_high_lookup s k l z y Hs Hk Hy). lia.
    + intros k z Hk Hz. apply (Hhigh k z); [lia|done].
  - apply (best_step s (S i) 0 x); [done|lia| | |apply IH; lia|apply best_0].
    + rewrite take_0. by intros z ?%not_elem_of_nil.
    + intros k z Hk Hz.
      apply (latestNonConflict_loop_None s x (S i) Hl ltac:(lia) k z); [lia|done].
Qed.

(** A chain whose intervals end at different values is a sublist of the sorted
    list. *)
Lemma chain_sublist (R : relation Range1d) s c :
  sorted_by_high s → StronglySorted R c → c ⊆+ s →
  (∀ x y, x ∈ s → y ∈ s → x ≠ y → R x y → high x < high y) → c `sublist_of` s.
Proof.
  intros Hs. revert c. induction Hs as [|y s Hs IH Hy]; intros c Hc Hsub HR.
  { by apply submseteq_nil_r in Hsub as ->. }
  assert (∀ x y, x ∈ s → y ∈ s → x ≠ y → R x y → high x < high y) as HR'
    by (intros ????; apply HR; by right).
  destruct c as [|x c]; [apply sublist_nil_l|].
  destruct (decide (x = y)) as [->|Hxy].
  { apply StronglySorted_inv in Hc as [Hc _]. constructor. apply IH; [done| |done].
    by apply (submseteq_app_inv_l _ _ [y]) in Hsub. }
  constructor. apply IH; [done| |done].
  apply submseteq_cons_r in Hsub as [|(l & Hl & Hsub)]; [done|]. exfalso.
  assert (y ∈ x :: c) as Hyc by (rewrite Hl; left).
  assert (x ∈ y :: l) as Hxl by (rewrite <- Hl; left).
  apply elem_of_cons in Hyc as [|Hyc]; [done|].
  apply elem_of_cons in Hxl as [|Hxl]; [done|].
  pose proof (elem_of_submseteq _ _ _ Hxl Hsub) as Hxs.
  apply StronglySorted_inv in Hc as [_ Hcx]. rewrite Forall_forall in Hcx, Hy.
  specialize (Hy x Hxs).
  assert (high x < high y); [|lia]. apply HR; [by right|left|done|by apply Hcx].
Qed.

(** No interval of one value stands where another interval ends. *)
Definition no_point_at_end (l : list Range1d) : Prop :=
  ∀ x y, x ∈ l → y ∈ l → high x = low y → low y = high y → x = y.

(** C21. The score of pairwise distinct intervals is the size of a sequence of
    them in which no interval begins before the one in front of it ends.  It is
    the greatest size among the sequences in the order [std::sort] leaves, and
    at least the size of every set of intervals without common values.  Where
    no interval of one value stands at the end of another one, it is the
    greatest size of all such sequences, whatever the order. *)
Theorem findMaxWeightIntervalSequence_optimal (l : list Range1d) :
  NoDup l → l ≠ [] → Forall range_ok l →
  ∃ r, findMaxWeightIntervalSequence l = Some r
    ∧ (∃ c, c `sublist_of` std_sort intervalComparataor l ∧ c ⊆+ l ∧ chain_of c
            ∧ Z.of_nat (length c) = r)
    ∧ (∀ c, c `sublist_of` std_sort intervalComparataor l → chain_of c →
            Z.of_nat (length c) ≤ r)
    ∧ (∀ c, c ⊆+ l → disjoint_chain c → Z.of_nat (length c) ≤ r)
    ∧ (no_point_at_end l → ∀ c, c ⊆+ l → chain_of c → Z.of_nat (length c) ≤ r).
Proof.
  intros Hnd Hne Hok. pose proof (std_sort_permutation _ intervalComparataor l) as Hp.
  unfold findMaxWeightIntervalSequence. set (s := std_sort intervalComparataor l) in *.
  destruct (Nat.eqb_spec (length s) 0) as [Hz|Hz].
  { destruct Hne. apply nil_length_inv. by rewrite <- Hp. }
  change (nth _ (fill_table s) 0) with (entry s (length s - 1)).
  assert (NoDup s) as Hnd' by (by rewrite Hp).
  destruct (entry_best s (length s - 1) Hnd' (sort_sorted l)) as [(c0 & Hc0 & Hch & Hlen) Hmax]; [lia|].
  replace (S (length s - 1)) with (length s) in Hc0, Hmax by lia.
  rewrite firstn_all in Hc0, Hmax. eexists. split; [done|].
  rewrite Forall_forall in Hok. unfold range_ok in Hok. split_and!.
  - exists c0. split_and!; [done| |done..]. rewrite <- Hp. by apply sublist_submseteq.
  - done.
  - intros c Hc Hd. apply Hmax; [|eapply StronglySorted_weaken; [|exact Hd]; cbn; lia].
    eapply chain_sublist; [apply sort_sorted|exact Hd|by rewrite Hp|].
    cbn. intros x y _ Hy _ Hxy. rewrite Hp in Hy. specialize (Hok y Hy). lia.
  - intros Hpt c Hc Hd. apply Hmax; [|done].
    eapply chain_sublist; [apply sort_sorted|exact Hd|by rewrite Hp|].
    cbn. intros x y Hx Hy Hne' Hxy. rewrite Hp in Hx, Hy. specialize (Hok y Hy).
    destruct (decide (high x = high y)) as [He|]; [|lia].
    destruct Hne'. apply Hpt; [done|done|lia..].
Qed.
End optimality.

(** ** Equal intervals *)

Section equal.
Context {sort : StdSort}.

Lemma entry_replicate (x : Range1d) k i :
  (i < k)%nat → entry (replicate k x) i = 2 * Z.of_nat i + 1.
Proof.
  induction i as [|i IH]; intros Hi; [done|].
  rewrite entry_S, IH by lia.
  assert (get_weight (replicate k x) (S i) = 2) as ->.
  { cbn [get_weight]. rewrite !lookup_replicate_2 by lia.
    by rewrite (proj2 (range_eq_spec x x) eq_refl). }
  assert (latestNonConflict (replicate k x) (S i) = Some i) as ->.
  { unfold latestNonConflict. rewrite lookup_replicate_2 by lia. cbn.
    rewrite lookup_replicate_2 by lia.
    by rewrite (proj2 (range_eq_spec x x) eq_refl), orb_true_r. }
  rewrite IH by lia. lia.
Qed.

(** Equal intervals do not simply add their weights: [k] copies of one
    interval have the score [2 k - 1]. *)
Theorem findMaxWeightIntervalSequence_equal (x : Range1d) (k : nat) :
  (0 < k)%nat →
  findMaxWeightIntervalSequence (replicate k x) = Some (2 * Z.of_nat k - 1).
Proof.
  intros Hk. unfold findMaxWeightIntervalSequence.
  pose proof (std_sort_permutation _ intervalComparataor (replicate k x)) as Hp.
  symmetry in Hp. apply replicate_Permutation in Hp. rewrite <- Hp.
  rewrite length_replicate. destruct (Nat.eqb_spec k 0); [lia|].
  unfold fill_table. rewrite length_replicate. f_equal.
  change (entry (replicate k x) (k - 1) = 2 * Z.of_nat k - 1).
  rewrite entry_replicate by lia. lia.
Qed.

(** An interval that repeats one the optimum left out is counted on top
    of that optimum: of the four intervals below, a set without conflicts has
    at most weight 3, counting the repeated one twice for its second copy, and
    the score is 4. *)
Theorem findMaxWeightIntervalSequence_overcount :
  findMaxWeightIntervalSequence
    [mkRange 0 3; mkRange 3 5; mkRange 0 9; mkRange 0 9] = Some 4.
Proof.
  set (l := [_; _; _; _]). unfold findMaxWeightIntervalSequence.
  assert (std_sort intervalComparataor l = l) as ->; [|by vm_compute].
  apply (StronglySorted_unique_strong (λ a b, high a ≤ high b)).
  - intros a b Ha Hb. rewrite std_sort_permutation in Ha.
    repeat (apply elem_of_cons in Ha as [->|Ha]);
      repeat (apply elem_of_cons in Hb as [->|Hb]); cbn; try done; try lia;
      by apply not_elem_of_nil in Ha || by apply not_elem_of_nil in Hb.
  - apply sort_sorted.
  - repeat constructor; cbn; lia.
  - apply std_sort_permutation.
Qed.
End equal.

(** With an interval of one value at the end of another one, the score depends
    on the order of intervals that the comparison does not distinguish. *)
Example order_dependent :
  Forall (λ s, bool_decide (sorted_by_high s) = true) [[mkRange 3 5; mkRange 5 5]; [mkRange 5 5; mkRange 3 5]]
  ∧ nth 1 (fill_table [mkRange 3 5; mkRange 5 5]) 0 = 2
  ∧ nth 1 (fill_table [mkRange 5 5; mkRange 3 5]) 0 = 1.
Proof. vm_compute. by repeat constructor. Qed.

(** Three intervals, two of which touch. *)
Lemma findMaxWeightIntervalSequence_optimal_witness :
  ∃ r, @findMaxWeightIntervalSequence insertion_StdSort [mkRange 0 10; mkRange 0 5; mkRange 5 9]
         = Some r ∧ 2 ≤ r
       ∧ ∃ c, c ⊆+ [mkRange 0 10; mkRange 0 5; mkRange 5 9] ∧ chain_of c ∧ Z.of_nat (length c) = r.
Proof.
  destruct (@findMaxWeightIntervalSequence_optimal insertion_StdSort
              [mkRange 0 10; mkRange 0 5; mkRange 5 9]) as (r & Hr & (c & _ & Hc & Hch & Hl) & _ & _ & Hmax).
  - repeat constructor; set_solver.
  - done.
  - repeat constructor; unfold range_ok; cbn; lia.
  - exists r. split; [exact Hr|]. split; [|by exists c].
    apply (Hmax ltac:(intros x y Hx Hy; repeat (apply elem_of_cons in Hx as [->|Hx]);
        repeat (apply elem_of_cons in Hy as [->|Hy]); cbn; intros; try lia;
        by apply not_elem_of_nil in Hx || by apply not_elem_of_nil in Hy) [mkRange 0 5; mkRange 5 9]).
    + repeat constructor.
    + repeat constructor. cbn. lia.
Defined.

Lemma findMaxWeightIntervalSequence_equal_witness :
  @findMaxWeightIntervalSequence insertion_StdSort (replicate 3 (mkRange 1 2)) = Some 5.
Proof. apply (@findMaxWeightIntervalSequence_equal insertion_StdSort (mkRange 1 2) 3). lia. Defined.
