(* ===== verification/DimOrder.v ===== *)
(** * The order of the dimensions of a tree ([dimension_order_resolver.h])

    [GreedyDimensionOrderResolver]: the dimensions some rule restricts come
    first, by descending score, the others keep their previous order. *)
From S2P Require Import Prelude Range RuleValue Schedule.
Local Open Scope Z_scope.

Section Resolver.
Context {sort : StdSort} {St V : Type} (sz DIM_CNT : nat).
Implicit Types (rules : list (rule_spec_t V)) (original_order : list nat).

Definition get_dimension_sel_score rules (d : nat) : M St Z :=
  values ← or_ub (mapM (λ r, fields r !! d) rules);
  or_ub (findMaxWeightIntervalSequence values).

(** [dim_mask[i]]: some rule restricts the dimension. *)
Definition dim_mask rules (i : nat) : bool :=
  existsb (λ r, match fields r !! i with
                | Some k => negb (is_wildcard sz k)
                | None => false
                end) rules.

(** [std::find(oo.begin(), oo.end(), d)], as a position. *)
Fixpoint find_pos (oo : list nat) (d : nat) : nat :=
  match oo with
  | [] => 0%nat
  | x :: oo => if (x =? d)%nat then 0%nat else S (find_pos oo d)
  end.

(** The comparison of two scored dimensions. *)
Definition score_lt original_order (a b : nat * Z) : bool :=
  if negb (a.2 =? b.2) then a.2 >? b.2
  else (find_pos original_order a.1 <? find_pos original_order b.1)%nat.

Definition score_dims rules (pending_dims : list nat) : M St (list (nat * Z)) :=
  fold_each pending_dims [] (λ scores d,
    score ← get_dimension_sel_score rules d;
    mret (scores ++ [(d, score)])).

Definition resolve rules original_order : M St (list nat * nat) :=
  let pending_dims := filter (λ i, dim_mask rules i = true) (seq 0 DIM_CNT) in
  scores ← score_dims rules pending_dims;
  let used := (std_sort (score_lt original_order) scores).*1 in
  let used_dim_cnt := length used in
  unused ← fold_each (range_up 0 DIM_CNT) [] (λ unused i,
    orig_d ← or_ub (original_order !! i);
    assert_ (orig_d <? DIM_CNT)%nat;;
    mret (if dim_mask rules orig_d then unused else unused ++ [orig_d]));
  let res_dim_order := used ++ unused in
  (* a write behind the end of the array *)
  or_ub (if (length res_dim_order <=? DIM_CNT)%nat then Some tt else None);;
  for_each (range_up 0 DIM_CNT) (λ i, assert_ (bool_decide (i ∈ res_dim_order)));;
  assert_ (length res_dim_order =? DIM_CNT)%nat;;
  mret (res_dim_order, used_dim_cnt).

(** ** What the resolver computes *)

#[export] Instance score_lt_swo oo : StrictWeakOrder (score_lt oo).
Proof.
  unfold score_lt. split.
  - intros [a x] [b y]. cbn [fst snd].
    destruct (Z.eqb_spec x y), (Z.eqb_spec y x); cbn [negb]; try lia.
    rewrite Nat.ltb_lt, Nat.ltb_ge. lia.
  - intros [a x] [b y] [c z]. cbn [fst snd].
    destruct (Z.eqb_spec x y), (Z.eqb_spec y x), (Z.eqb_spec z y), (Z.eqb_spec z x);
      cbn [negb]; try lia.
    rewrite !Nat.ltb_ge. lia.
Qed.

(** Every rule has a range for every dimension. *)
Definition rules_ok rules : Prop := Forall (λ r, length (fields r) = DIM_CNT) rules.

Lemma mapM_field rules d :
  rules_ok rules → (d < DIM_CNT)%nat →
  ∃ vs, mapM (λ r, fields r !! d) rules = Some vs ∧ length vs = length rules.
Proof.
  intros Hr Hd. assert (is_Some (mapM (λ r, fields r !! d) rules)) as [vs Hvs].
  { apply mapM_is_Some_2. eapply Forall_impl; [exact Hr|]. cbn. intros r Hl.
    apply lookup_lt_is_Some. lia. }
  exists vs. split; [done|]. by apply length_mapM in Hvs.
Qed.

Lemma dim_mask_nonempty rules d : dim_mask rules d = true → rules ≠ [].
Proof. by intros ? ->. Qed.

(** A restricted dimension has a score. *)
Lemma get_dimension_sel_score_ok rules d (st : St) :
  rules_ok rules → (d < DIM_CNT)%nat → dim_mask rules d = true →
  ∃ s, get_dimension_sel_score rules d st = (Ok s, st).
Proof.
  intros Hr Hd Hm. destruct (mapM_field rules d Hr Hd) as (vs & Hvs & Hlen).
  unfold get_dimension_sel_score. erewrite bind_some by exact Hvs.
  unfold findMaxWeightIntervalSequence. cbv zeta. apply dim_mask_nonempty in Hm.
  assert (length (std_sort intervalComparataor vs) ≠ 0%nat) as Hnz.
  { rewrite std_sort_permutation, Hlen. by destruct rules. }
  apply Nat.eqb_neq in Hnz. rewrite Hnz. by eexists.
Qed.

Definition score_of rules (st : St) (d : nat) : Z :=
  match get_dimension_sel_score rules d st with (Ok s, _) => s | _ => 0 end.

Lemma score_dims_ok rules ds acc st :
  rules_ok rules → Forall (λ d, (d < DIM_CNT)%nat ∧ dim_mask rules d = true) ds →
  fold_each ds acc (λ scores d,
    score ← get_dimension_sel_score rules d;
    mret (scores ++ [(d, score)])) st
  = (Ok (acc ++ ((λ d, (d, score_of rules st d)) <$> ds)), st).
Proof.
  intros Hr. revert acc. induction ds as [|d ds IH]; intros acc Hds; cbn [fold_each].
  { by rewrite app_nil_r. }
  apply Forall_cons in Hds as [[Hd Hm] Hds].
  destruct (get_dimension_sel_score_ok rules d st Hr Hd Hm) as [s Hs].
  rewrite bind_assoc. erewrite bind_ok by exact Hs. rewrite bind_ret, IH by done.
  assert (score_of rules st d = s) as Hsc by (unfold score_of; by rewrite Hs).
  by rewrite fmap_cons, Hsc, <- app_assoc.
Qed.

Lemma unused_dims_ok rules oo n acc (st : St) i :
  (∀ j, (i ≤ j < i + n)%nat → ∃ d, oo !! j = Some d ∧ (d < DIM_CNT)%nat) →
  fold_each (seq i n) acc (λ unused i,
    orig_d ← or_ub (oo !! i);
    assert_ (orig_d <? DIM_CNT)%nat;;
    mret (if dim_mask rules orig_d then unused else unused ++ [orig_d])) st
  = (Ok (acc ++ filter (λ d, dim_mask rules d = false) (take n (drop i oo))), st).
Proof.
  revert acc i. induction n as [|n IH]; intros acc i H; cbn [seq fold_each].
  { by rewrite take_0, app_nil_r. }
  destruct (H i ltac:(lia)) as (d & Hd & Hlt).
  rewrite !bind_assoc. erewrite bind_some by exact Hd.
  rewrite bind_assoc, bind_assert by by apply Nat.ltb_lt. rewrite bind_ret.
  rewrite IH by (intros; apply H; lia).
  rewrite (drop_S oo d i Hd). cbn [take]. rewrite filter_cons.
  destruct (dim_mask rules d) eqn:Hm; [by rewrite decide_False|].
  rewrite decide_True by done. by rewrite <- app_assoc.
Qed.

Lemma filter_split {A} (f : A → bool) (l : list A) :
  l ≡ₚ filter (λ x, f x = true) l ++ filter (λ x, f x = false) l.
Proof.
  induction l as [|x l IH]; [done|]. rewrite !filter_cons.
  destruct (f x) eqn:E.
  - rewrite decide_True, decide_False by done. cbn. by rewrite <- IH.
  - rewrite decide_False, decide_True by done. rewrite IH at 1. apply Permutation_middle.
Qed.

Lemma for_each_assert (l : list nat) (f : nat → bool) (st : St) :
  Forall (λ i, f i = true) l → for_each l (λ i, assert_ (f i)) st = (Ok tt, st).
Proof.
  induction 1 as [|i l Hi _ IH]; [done|]. cbn [for_each]. by rewrite bind_assert.
Qed.

(** The dimensions of sorted scores. *)
Lemma sorted_scores oo (f : nat → Z) l :
  sorted_by (score_lt oo) l → Forall (λ p, p.2 = f p.1) l →
  StronglySorted (λ a b, f b < f a ∨ f b = f a ∧ (find_pos oo a ≤ find_pos oo b)%nat) l.*1.
Proof.
  induction 1 as [|p l _ IH Hp]; intros Hf; cbn; [constructor|].
  apply Forall_cons in Hf as [Hf1 Hf2]. constructor; [by apply IH|].
  apply Forall_fmap. rewrite Forall_forall in Hp, Hf2. apply Forall_forall.
  intros q Hq. specialize (Hp q Hq). unfold score_lt in Hp. cbn.
  rewrite <- (Hf2 q Hq), <- Hf1.
  destruct (Z.eqb_spec q.2 p.2); cbn [negb] in Hp; [right|left; lia].
  apply Nat.ltb_ge in Hp. lia.
Qed.

Lemma resolve_ok rules oo (st : St) :
  rules_ok rules → oo ≡ₚ seq 0 DIM_CNT →
  ∃ used unused,
    resolve rules oo st = (Ok (used ++ unused, length used), st)
    ∧ used ++ unused ≡ₚ seq 0 DIM_CNT
    ∧ used ≡ₚ filter (λ d, dim_mask rules d = true) (seq 0 DIM_CNT)
    ∧ unused = filter (λ d, dim_mask rules d = false) oo
    ∧ StronglySorted (λ a b, score_of rules st b < score_of rules st a
        ∨ score_of rules st b = score_of rules st a
          ∧ (find_pos oo a ≤ find_pos oo b)%nat) used.
Proof.
  intros Hr Hoo. assert (length oo = DIM_CNT) as Hlen by (by rewrite Hoo, length_seq).
  set (pending := filter (λ i, dim_mask rules i = true) (seq 0 DIM_CNT)).
  set (scores := (λ d, (d, score_of rules st d)) <$> pending).
  set (used := (std_sort (score_lt oo) scores).*1).
  assert (used ≡ₚ pending) as Hused.
  { unfold used. rewrite std_sort_permutation. unfold scores.
    rewrite <- list_fmap_compose. change (id <$> pending ≡ₚ pending).
    by rewrite list_fmap_id. }
  assert (used ++ filter (λ d, dim_mask rules d = false) oo ≡ₚ seq 0 DIM_CNT) as Hperm.
  { rewrite Hused, Hoo. symmetry. apply filter_split. }
  exists used, (filter (λ d, dim_mask rules d = false) oo).
  split; [|split; [done|split; [done|split; [done|]]]].
  - unfold resolve, score_dims. erewrite bind_ok.
    2: { apply score_dims_ok; [done|]. apply Forall_forall. intros d Hd.
         apply list_elem_of_filter in Hd as [? Hd]. apply elem_of_seq in Hd.
         split; [lia|done]. }
    cbn [app]. fold scores. fold used. unfold range_up. rewrite Nat.sub_0_r.
    erewrite bind_ok.
    2: { apply unused_dims_ok. intros j Hj.
         destruct (lookup_lt_is_Some_2 oo j ltac:(lia)) as [d Hd]. exists d. split; [done|].
         apply list_elem_of_lookup_2 in Hd. rewrite Hoo in Hd. apply elem_of_seq in Hd. lia. }
    cbn [app]. rewrite drop_0, take_ge by lia.
    assert (length (used ++ filter (λ d, dim_mask rules d = false) oo) = DIM_CNT) as Hl
      by (by rewrite Hperm, length_seq).
    cbv zeta. fold pending. fold scores. fold used.
    rewrite Hl, Nat.leb_refl. cbn [or_ub]. rewrite bind_ret.
    erewrite bind_ok.
    2: { apply (for_each_assert _ (λ i, bool_decide (i ∈ _))). apply Forall_forall.
         intros i Hi. apply bool_decide_true. by rewrite Hperm. }
    rewrite bind_assert; [done|]. by apply Nat.eqb_refl.
  - assert (sorted_by (score_lt oo) (std_sort (score_lt oo) scores)) as Hs
      by (apply std_sort_sorted; apply _).
    assert (Forall (λ p, p.2 = score_of rules st p.1) (std_sort (score_lt oo) scores)) as Hf.
    { rewrite std_sort_permutation. unfold scores. apply Forall_fmap, Forall_true. done. }
    by apply sorted_scores.
Qed.

(** C20. From a permutation of the dimensions the resolver always returns, with
    a permutation of the dimensions: first the ones some rule restricts, by
    descending score and, among equal scores, by their previous position; then
    the others in their previous order. *)
Theorem resolve_spec rules oo (st : St) :
  rules_ok rules → oo ≡ₚ seq 0 DIM_CNT →
  ∃ used unused,
    resolve rules oo st = (Ok (used ++ unused, length used), st)
    ∧ used ++ unused ≡ₚ seq 0 DIM_CNT
    ∧ used ≡ₚ filter (λ d, dim_mask rules d = true) (seq 0 DIM_CNT)
    ∧ unused = filter (λ d, dim_mask rules d = false) oo
    ∧ StronglySorted (λ a b, score_of rules st b < score_of rules st a
        ∨ score_of rules st b = score_of rules st a
          ∧ (find_pos oo a ≤ find_pos oo b)%nat) used.
Proof. apply resolve_ok. Qed.
End Resolver.

(** ** A concrete resolution *)

Definition resolve_rules : list (rule_spec_t RuleValueInt) :=
  (λ i, mkRule [mkRange 0 65535; mkRange 0 0; mkRange i i; mkRange 0 65535]
               (RuleValueInt_ctor 0 i)) <$> [0; 1; 2; 3; 4].

Lemma resolve_spec_witness :
  ∃ used unused,
    @resolve insertion_StdSort unit _ 2 4 resolve_rules [3; 2; 1; 0]%nat tt
      = (Ok (used ++ unused, length used), tt)
    ∧ used ++ unused = [1; 2; 3; 0]%nat.
Proof.
  destruct (@resolve_spec insertion_StdSort unit _ 2 4 resolve_rules [3; 2; 1; 0]%nat tt)
    as (used & unused & Hres & _).
  - repeat constructor.
  - by apply (Permutation_rev [3; 2; 1; 0]%nat).
  - exists used, unused. split; [exact Hres|].
    assert (@resolve insertion_StdSort unit _ 2 4 resolve_rules [3; 2; 1; 0]%nat tt
            = (Ok ([1; 2; 3; 0]%nat, 2%nat), tt)) as Hc by (vm_compute; reflexivity).
    rewrite Hc in Hres. injection Hres as Hres _. by rewrite <- Hres.
Defined.
