(* ===== verification/Common.v ===== *)
(** * Containers helpers ([common/array_resorter.h], [array_hasher.h],
      [rulespec_hasher.h])

    The repositioning of one item of a sorted array, and the comparison and
    hashing of the keys of the hash maps. *)
From S2P Require Import Prelude Range RuleValue.
Local Open Scope Z_scope.

(** ** [array_resort] *)

Section resort.
Context {St A : Type} `{!EqDecision A} (key : A → Z).
Implicit Types (arr l : list A) (x : A) (i c : nat) (p : Z).

Definition assert_all_items_unique arr : M St unit := assert_ (bool_decide (NoDup arr)).

(** [while (i >= 1 and key(arr[i - 1]) < p) i--;] *)
Fixpoint scan_left arr p i : option nat :=
  match i with
  | O => Some 0%nat
  | S i' => x ← arr !! i'; if key x <? p then scan_left arr p i' else Some i
  end.

(** [while (i < last and key(arr[i + 1]) > p) i++;], at most [n] times. *)
Fixpoint scan_right arr p (last : Z) (n i : nat) : option nat :=
  match n with
  | O => None
  | S n =>
      if Z.of_nat i <? last then
        x ← arr !! S i; if key x >? p then scan_right arr p last n (S i) else Some i
      else Some i
  end.

(** [for (i2 = c; i2 > i; i2--) arr[i2] = arr[i2 - 1];] *)
Definition shift_right arr i c : list A :=
  foldl (λ a i2, match a !! (i2 - 1)%nat with Some x => <[i2 := x]> a | None => a end)
        arr (range_down (S i) (S c)).

(** [for (i2 = c; i2 < i; i2++) arr[i2] = arr[i2 + 1];] *)
Definition shift_left arr c i : list A :=
  foldl (λ a i2, match a !! S i2 with Some x => <[i2 := x]> a | None => a end)
        arr (range_up c i).

(** [actual_size - 1] is computed on [size_t]. *)
Definition array_resort arr (actual_size changed_item_index : nat) : M St (list A) :=
  let c := changed_item_index in
  if (actual_size =? 1)%nat then mret arr
  else
    tmp ← or_ub (arr !! c);
    let p := key tmp in
    i ← (if (0 <? c)%nat then or_ub (scan_left arr p c) else mret c);
    if negb (i =? c)%nat then
      let arr := <[i := tmp]> (shift_right arr i c) in
      assert_all_items_unique arr;;
      mret arr
    else
      let last := to_T 8 (Z.of_nat actual_size - 1) in
      i ← (if Z.of_nat c <? last then or_ub (scan_right arr p last (S (length arr)) c)
           else mret c);
      if negb (i =? c)%nat then
        let arr := <[i := tmp]> (shift_left arr c i) in
        assert_all_items_unique arr;;
        mret arr
      else mret arr.

(** *** The loops *)

(** [l] with [x] put at the index [i]. *)
Definition insert_at i (x : A) (l : list A) : list A := take i l ++ x :: drop i l.

Lemma lookup_insert_at i x l k :
  (i ≤ length l)%nat →
  insert_at i x l !! k =
    if (k <? i)%nat then l !! k else if (k =? i)%nat then Some x else l !! (k - 1)%nat.
Proof.
  intros Hi. unfold insert_at. destruct (Nat.ltb_spec k i).
  { rewrite lookup_app_l by (rewrite length_take; lia). by apply lookup_take_lt. }
  rewrite lookup_app_r by (rewrite length_take; lia). rewrite length_take, Nat.min_l by lia.
  destruct (Nat.eqb_spec k i) as [->|]; [by rewrite Nat.sub_diag|].
  rewrite lookup_cons_ne_0, lookup_drop by lia. f_equal. lia.
Qed.

Lemma lookup_delete_at c l k :
  (c < length l)%nat →
  (take c l ++ drop (S c) l) !! k = if (k <? c)%nat then l !! k else l !! S k.
Proof.
  intros Hc. destruct (Nat.ltb_spec k c).
  { rewrite lookup_app_l by (rewrite length_take; lia). by apply lookup_take_lt. }
  rewrite lookup_app_r by (rewrite length_take; lia). rewrite length_take, Nat.min_l by lia.
  rewrite lookup_drop. f_equal. lia.
Qed.

Lemma range_down_S a b : (a ≤ b)%nat → range_down a (S b) = b :: range_down a b.
Proof.
  intros H. unfold range_down. rewrite Nat.sub_succ_l, seq_S, reverse_snoc by done.
  f_equal. lia.
Qed.

Lemma lookup_shift_right arr i c k :
  (i ≤ c < length arr)%nat →
  shift_right arr i c !! k =
    if ((i <? k) && (k <=? c))%nat then arr !! (k - 1)%nat else arr !! k.
Proof.
  revert arr. induction c as [|c IH]; intros arr Hc.
  { unfold shift_right, range_down. replace (1 - S i)%nat with 0%nat by lia.
    cbn [seq reverse rev_append foldl].
    destruct (Nat.ltb_spec i k), (Nat.leb_spec k 0); try done; lia. }
  destruct (decide (i = S c)) as [->|Hic].
  { unfold shift_right, range_down. rewrite Nat.sub_diag. cbn [seq reverse rev_append foldl].
    destruct (Nat.ltb_spec (S c) k), (Nat.leb_spec k (S c)); try done; lia. }
  unfold shift_right. rewrite range_down_S by lia. cbn [foldl].
  destruct (lookup_lt_is_Some_2 arr c ltac:(lia)) as [x Hx].
  replace (S c - 1)%nat with c by lia. rewrite Hx.
  fold (shift_right (<[S c:=x]> arr) i c). rewrite IH by (rewrite length_insert; lia).
  destruct (Nat.ltb_spec i k), (Nat.leb_spec k c), (Nat.leb_spec k (S c)); cbn [andb];
    try lia; try (by rewrite list_lookup_insert_ne by lia).
  replace k with (S c) by lia. rewrite list_lookup_insert_eq by lia.
  by replace (S c - 1)%nat with c by lia.
Qed.

Lemma lookup_shift_left arr c i k :
  (c ≤ i < length arr)%nat →
  shift_left arr c i !! k =
    if ((c <=? k) && (k <? i))%nat then arr !! S k else arr !! k.
Proof.
  unfold shift_left, range_up. remember (i - c)%nat as n eqn:Hn. revert arr c Hn.
  induction n as [|n IH]; intros arr c Hn Hi; cbn [seq foldl].
  { destruct (Nat.leb_spec c k), (Nat.ltb_spec k i); try done; lia. }
  destruct (lookup_lt_is_Some_2 arr (S c) ltac:(lia)) as [x Hx]. rewrite Hx.
  rewrite IH by (rewrite ?length_insert; lia).
  destruct (Nat.leb_spec (S c) k), (Nat.leb_spec c k), (Nat.ltb_spec k i); cbn [andb];
    try lia; try (by rewrite list_lookup_insert_ne by lia).
  replace k with c by lia. by rewrite list_lookup_insert_eq by lia.
Qed.

Lemma shift_right_length arr i c : length (shift_right arr i c) = length arr.
Proof.
  unfold shift_right. generalize (range_down (S i) (S c)). intros l. revert arr.
  induction l as [|k l IH]; intros arr; [done|]. cbn. rewrite IH.
  destruct (arr !! (k - 1)%nat); by rewrite ?length_insert.
Qed.

Lemma shift_left_length arr c i : length (shift_left arr c i) = length arr.
Proof.
  unfold shift_left. generalize (range_up c i). intros l. revert arr.
  induction l as [|k l IH]; intros arr; [done|]. cbn. rewrite IH.
  destruct (arr !! S k); by rewrite ?length_insert.
Qed.

(** Both shifts move the item [x] at [c] to the index [i]. *)
Lemma shift_right_insert_at arr x i c :
  arr !! c = Some x → (i ≤ c)%nat →
  <[i := x]> (shift_right arr i c) = insert_at i x (take c arr ++ drop (S c) arr).
Proof.
  intros Hx Hi. assert (c < length arr)%nat as Hc by by eapply lookup_lt_Some.
  apply list_eq. intros k.
  rewrite lookup_insert_at, !lookup_delete_at
    by (rewrite ?length_app, ?length_take, ?length_drop; lia).
  destruct (decide (k = i)) as [->|Hk].
  { rewrite list_lookup_insert_eq by (rewrite shift_right_length; lia).
    by rewrite Nat.ltb_irrefl, Nat.eqb_refl. }
  rewrite list_lookup_insert_ne, lookup_shift_right by lia.
  destruct (Nat.ltb_spec i k), (Nat.leb_spec k c), (Nat.ltb_spec k i), (Nat.eqb_spec k i),
    (Nat.ltb_spec k c), (Nat.ltb_spec (k - 1) c); cbn [andb]; try lia; try done; f_equal; lia.
Qed.

Lemma shift_left_insert_at arr x i c :
  arr !! c = Some x → (c ≤ i < length arr)%nat →
  <[i := x]> (shift_left arr c i) = insert_at i x (take c arr ++ drop (S c) arr).
Proof.
  intros Hx Hi. apply list_eq. intros k.
  rewrite lookup_insert_at, !lookup_delete_at
    by (rewrite ?length_app, ?length_take, ?length_drop; lia).
  destruct (decide (k = i)) as [->|Hk].
  { rewrite list_lookup_insert_eq by (rewrite shift_left_length; lia).
    by rewrite Nat.ltb_irrefl, Nat.eqb_refl. }
  rewrite list_lookup_insert_ne, lookup_shift_left by lia.
  destruct (Nat.leb_spec c k), (Nat.ltb_spec k i), (Nat.eqb_spec k i),
    (Nat.ltb_spec k c), (Nat.ltb_spec (k - 1) c); cbn [andb]; try lia; try done; f_equal; lia.
Qed.

(** *** Sortedness *)

(** By descending key. *)
Definition descending : list A → Prop := StronglySorted (λ a b, key b ≤ key a).

Lemma scan_left_spec arr p c :
  (c ≤ length arr)%nat →
  ∃ i, scan_left arr p c = Some i ∧ (i ≤ c)%nat
    ∧ (∀ x, (i < c)%nat → arr !! i = Some x → key x < p)
    ∧ (∀ x, (0 < i)%nat → arr !! (i - 1)%nat = Some x → p ≤ key x).
Proof.
  induction c as [|c IH]; intros Hc; cbn [scan_left].
  { exists 0%nat. split; [done|]. split; [lia|]. split; intros; lia. }
  destruct (lookup_lt_is_Some_2 arr c ltac:(lia)) as [x Hx]. rewrite Hx.
  cbn [mbind option_bind]. destruct (Z.ltb_spec (key x) p) as [Hlt|Hge].
  - destruct (IH ltac:(lia)) as (i & Hi & Hic & Hr & Hl).
    exists i. split; [done|]. split; [lia|]. split; [|done].
    intros y _ Hy. destruct (decide (i = c)) as [->|]; [by simplify_eq|].
    apply Hr; [lia|done].
  - exists (S c). split; [done|]. split; [lia|]. split; [intros; lia|].
    intros y _. rewrite Nat.sub_succ, Nat.sub_0_r. intros Hy. simplify_eq. lia.
Qed.

Lemma scan_right_spec arr p n m c :
  (c < n ≤ length arr)%nat → (n - c ≤ m)%nat →
  ∃ i, scan_right arr p (Z.of_nat n - 1) m c = Some i ∧ (c ≤ i < n)%nat
    ∧ (∀ x, (c < i)%nat → arr !! i = Some x → p < key x)
    ∧ (∀ x, (S i < n)%nat → arr !! S i = Some x → key x ≤ p).
Proof.
  revert c. induction m as [|m IH]; intros c Hc Hm; [lia|]. cbn [scan_right].
  destruct (Z.ltb_spec (Z.of_nat c) (Z.of_nat n - 1)) as [Hlt|Hge].
  2: { exists c. split; [done|]. split; [lia|]. split; intros; lia. }
  destruct (lookup_lt_is_Some_2 arr (S c) ltac:(lia)) as [x Hx]. rewrite Hx.
  cbn [mbind option_bind]. destruct (Z.gtb_spec (key x) p) as [Hgt|Hle].
  - destruct (IH (S c) ltac:(lia) ltac:(lia)) as (i & Hi & Hic & Hr & Hl).
    exists i. split; [done|]. split; [lia|]. split; [|done].
    intros y _ Hy. destruct (decide (i = S c)) as [->|]; [simplify_eq; lia|].
    apply Hr; [lia|done].
  - exists c. split; [done|]. split; [lia|]. split; [intros; lia|].
    intros y _ Hy. simplify_eq. lia.
Qed.

(** Putting an item between its neighbours keeps a sorted list sorted. *)
Lemma insert_at_descending i x l :
  descending l → (i ≤ length l)%nat →
  (∀ y, (0 < i)%nat → l !! (i - 1)%nat = Some y → key x ≤ key y) →
  (∀ y, l !! i = Some y → key y ≤ key x) →
  descending (insert_at i x l).
Proof.
  unfold descending, insert_at. intros Hs Hi Hbefore Hafter.
  rewrite <- (take_drop i l) in Hs. apply StronglySorted_app in Hs as (Hab & Ha & Hb).
  assert (∀ y, y ∈ take i l → key x ≤ key y) as H1.
  { intros y (k & Hk)%list_elem_of_lookup.
    pose proof (lookup_lt_Some _ _ _ Hk) as Hki. rewrite length_take in Hki.
    destruct (lookup_lt_is_Some_2 l (i - 1)%nat ltac:(lia)) as [z Hz].
    specialize (Hbefore z ltac:(lia) Hz).
    destruct (decide (k = (i - 1)%nat)) as [->|].
    - apply lookup_take_Some in Hk as [Hk _]. by simplify_eq.
    - assert (take i l !! (i - 1)%nat = Some z) as Hz'
        by (rewrite lookup_take_lt by lia; done).
      pose proof (StronglySorted_lookup _ _ _ _ _ _ Ha Hk Hz' ltac:(lia)). cbn in *. lia. }
  assert (∀ y, y ∈ drop i l → key y ≤ key x) as H2.
  { intros y (k & Hk)%list_elem_of_lookup.
    destruct (drop i l) as [|z d] eqn:Hd; [done|].
    assert (l !! i = Some z) as Hz.
    { rewrite <- (Nat.add_0_r i), <- lookup_drop, Hd. done. }
    specialize (Hafter z Hz). destruct k as [|k]; [by simplify_eq/=|].
    pose proof (StronglySorted_lookup _ _ 0 (S k) z y Hb eq_refl Hk ltac:(lia)).
    cbn in *. lia. }
  apply StronglySorted_app. split; [|split; [done|]].
  - intros a b Ha' Hb'. apply elem_of_cons in Hb' as [->|Hb']; [by apply H1|by apply Hab].
  - constructor; [done|]. apply Forall_forall. done.
Qed.

Lemma insert_at_permutation i x l : insert_at i x l ≡ₚ x :: l.
Proof. unfold insert_at. by rewrite <- Permutation_middle, take_drop. Qed.

Lemma delete_at_permutation c x l :
  l !! c = Some x → x :: take c l ++ drop (S c) l ≡ₚ l.
Proof. intros H. by rewrite Permutation_middle, (take_drop_middle l c x H). Qed.

Lemma take_insert_at i n x l :
  (i < n)%nat → (i ≤ length l)%nat →
  take n (insert_at i x l) = insert_at i x (take (n - 1) l).
Proof.
  intros Hi Hl. unfold insert_at. rewrite take_take, Nat.min_l by lia.
  rewrite take_app, length_take, take_take, (Nat.min_l i), (Nat.min_r n i) by lia.
  f_equal. replace (n - i)%nat with (S (n - 1 - i))%nat by lia. cbn [take].
  rewrite skipn_firstn_comm. do 2 f_equal.
Qed.

Lemma drop_insert_at i c n x l :
  l !! c = Some x → (i < n)%nat → (c < n ≤ length l)%nat →
  drop n (insert_at i x (take c l ++ drop (S c) l)) = drop n l.
Proof.
  intros Hx Hi Hc. apply list_eq. intros k. rewrite !lookup_drop.
  rewrite lookup_insert_at, !lookup_delete_at
    by (rewrite ?length_app, ?length_take, ?length_drop; lia).
  destruct (Nat.ltb_spec (n + k) i), (Nat.eqb_spec (n + k) i), (Nat.ltb_spec (n + k - 1) c);
    try lia. f_equal. lia.
Qed.

(** The index [i] is a place for the item at [c]: [rest] is the array without
    the item. *)
Definition placed arr (n c : nat) x i : Prop :=
  let rest := take c arr ++ drop (S c) arr in
  (i < n)%nat
  ∧ descending (take n (insert_at i x rest))
  ∧ insert_at i x rest ≡ₚ arr
  ∧ drop n (insert_at i x rest) = drop n arr.

(** What a call leaves behind when it puts the item at [i]: an item that moves
    is followed by the check of the debug build. *)
Definition resort_outcome arr c x i : result (list A) :=
  if bool_decide (i = c ∨ NoDup arr) then Ok (insert_at i x (take c arr ++ drop (S c) arr))
  else Err assert_failed.

(** A position between the neighbours of the item is a correct one. *)
Lemma resorted_at arr n c x i :
  arr !! c = Some x → (c < n ≤ length arr)%nat → (i < n)%nat →
  let rest := take c arr ++ drop (S c) arr in
  descending (take (n - 1) rest) →
  (∀ y, (0 < i)%nat → rest !! (i - 1)%nat = Some y → key x ≤ key y) →
  (∀ y, (S i < n)%nat → rest !! i = Some y → key y ≤ key x) →
  placed arr n c x i.
Proof.
  intros Hx Hc Hi rest Hs Hb Ha.
  assert (length rest = length arr - 1)%nat as Hl
    by (unfold rest; rewrite length_app, length_take, length_drop; lia).
  split; [done|]. split; [|split].
  - fold rest. rewrite take_insert_at by lia.
    apply insert_at_descending; [done|rewrite length_take; lia| |].
    + intros y Hpos Hy. apply lookup_take_Some in Hy as [Hy _]. by apply Hb.
    + intros y Hy. apply lookup_take_Some in Hy as [Hy ?]. apply Ha; [lia|done].
  - rewrite insert_at_permutation. by apply delete_at_permutation.
  - by apply drop_insert_at.
Qed.

Lemma moved_outcome arr n c x i (st : St) :
  i ≠ c → placed arr n c x i →
  (assert_all_items_unique (insert_at i x (take c arr ++ drop (S c) arr));;
   mret (insert_at i x (take c arr ++ drop (S c) arr))) st = (resort_outcome arr c x i, st).
Proof.
  intros Hne (_ & _ & Hp & _). unfold assert_all_items_unique, resort_outcome.
  assert (bool_decide (i = c ∨ NoDup arr)
          = bool_decide (NoDup (insert_at i x (take c arr ++ drop (S c) arr)))) as ->.
  { apply bool_decide_ext. rewrite Hp. naive_solver. }
  by case_bool_decide.
Qed.

Lemma insert_at_delete arr c x :
  arr !! c = Some x → insert_at c x (take c arr ++ drop (S c) arr) = arr.
Proof.
  intros Hx. pose proof (lookup_lt_Some _ _ _ Hx). apply list_eq. intros k.
  rewrite lookup_insert_at, !lookup_delete_at
    by (rewrite ?length_app, ?length_take, ?length_drop; lia).
  destruct (Nat.ltb_spec k c), (Nat.eqb_spec k c), (Nat.ltb_spec (k - 1) c); try lia;
    try done; try (by subst); f_equal; lia.
Qed.

(** The two searches, with their guards. *)
Lemma left_search arr p c (st : St) :
  (c < length arr)%nat →
  ∃ i, (if (0 <? c)%nat then or_ub (scan_left arr p c) else mret c) st = (Ok i, st)
    ∧ (i ≤ c)%nat
    ∧ (∀ x, (i < c)%nat → arr !! i = Some x → key x < p)
    ∧ (∀ x, (0 < i)%nat → arr !! (i - 1)%nat = Some x → p ≤ key x).
Proof.
  intros Hc. destruct (scan_left_spec arr p c ltac:(lia)) as (i & Hi & Hr).
  destruct (Nat.ltb_spec 0 c); [exists i; rewrite Hi; done|].
  exists c. split; [done|]. split; [lia|]. split; intros; lia.
Qed.

Lemma right_search arr p n c (st : St) :
  (c < n ≤ length arr)%nat →
  ∃ i, (if Z.of_nat c <? Z.of_nat n - 1
        then or_ub (scan_right arr p (Z.of_nat n - 1) (S (length arr)) c) else mret c) st
       = (Ok i, st)
    ∧ (c ≤ i < n)%nat
    ∧ (∀ x, (c < i)%nat → arr !! i = Some x → p < key x)
    ∧ (∀ x, (S i < n)%nat → arr !! S i = Some x → key x ≤ p).
Proof.
  intros Hc. destruct (scan_right_spec arr p n (S (length arr)) c) as (i & Hi & Hr); [lia..|].
  destruct (Z.ltb_spec (Z.of_nat c) (Z.of_nat n - 1)); [exists i; rewrite Hi; done|].
  exists c. split; [done|]. split; [lia|]. split; intros; lia.
Qed.

Lemma array_resort_ok arr (n c : nat) x (st : St) :
  arr !! c = Some x → (c < n ≤ length arr)%nat → Z.of_nat n < 2 ^ 64 →
  descending (take (n - 1) (take c arr ++ drop (S c) arr)) →
  ∃ i, placed arr n c x i ∧ array_resort arr n c st = (resort_outcome arr c x i, st).
Proof.
  intros Hx Hc Hn Hs. pose proof (λ k, lookup_delete_at c arr k ltac:(lia)) as Hrest.
  pose proof (insert_at_delete arr c x Hx) as Hid.
  assert (resort_outcome arr c x c = Ok arr) as Hstay.
  { unfold resort_outcome. rewrite bool_decide_true by (by left). by rewrite Hid. }
  unfold array_resort. cbv zeta. destruct (Nat.eqb_spec n 1) as [->|Hn1].
  { exists c. rewrite Hstay. split; [|done]. apply resorted_at; [done|lia|lia|done| |]; intros; lia. }
  erewrite bind_some by exact Hx.
  destruct (left_search arr (key x) c st) as (i & Hi & Hic & Hir & Hil); [lia|].
  run_ok by exact Hi. destruct (Nat.eqb_spec i c) as [->|Hne]; cbn [negb].
  2: { rewrite shift_right_insert_at by (done || lia). exists i.
       assert (placed arr n c x i) as Hr.
       { apply resorted_at; [done|lia|lia|done| |]; intros y Hy; rewrite Hrest;
           (destruct (Nat.ltb_spec (i - 1) c), (Nat.ltb_spec i c); try lia); intros Hy'.
         - by apply Hil.
         - specialize (Hir y ltac:(lia) Hy'). lia. }
       split; [done|]. by apply moved_outcome with n. }
  unfold to_T. rewrite Z.mod_small by lia.
  clear Hi.
  destruct (right_search arr (key x) n c st) as (i & Hi & Hci & Hi2 & Hi3); [lia|].
  run_ok by exact Hi. exists i.
  assert (placed arr n c x i) as Hr.
  { apply resorted_at; [done|lia|lia|done| |]; intros y Hy; rewrite Hrest;
      (destruct (Nat.ltb_spec (i - 1) c), (Nat.ltb_spec i c); try lia); intros Hy'.
    - apply Hil; [lia|]. by replace (c - 1)%nat with (i - 1)%nat by lia.
    - replace (S (i - 1))%nat with i in Hy' by lia. specialize (Hi2 y ltac:(lia) Hy'). lia.
    - by apply Hi3.
    - by apply Hi3. }
  split; [done|]. destruct (Nat.eqb_spec i c) as [->|Hne]; cbn [negb]; [by rewrite Hstay|].
  rewrite shift_left_insert_at by (done || lia). by apply moved_outcome with n.
Qed.

(** C19. When only the item at [c] is out of place among the first [n] items,
    the call puts it in its place: the first [n] items are sorted by
    descending key, the other items keep their order, and nothing behind the
    first [n] items changes.  An item that stays is the end of the call; after
    one that moves the debug build asserts that no item occurs twice, and the
    assertion fails exactly when one does. *)
Theorem array_resort_spec arr (n c : nat) x (st : St) :
  arr !! c = Some x → (c < n ≤ length arr)%nat → Z.of_nat n < 2 ^ 64 →
  descending (take (n - 1) (take c arr ++ drop (S c) arr)) →
  ∃ i, placed arr n c x i ∧ array_resort arr n c st = (resort_outcome arr c x i, st).
Proof. apply array_resort_ok. Qed.
End resort.

(** An item that moves to the right, and one that moves in an array with an
    item twice. *)
Lemma array_resort_spec_witness :
  array_resort (St := unit) (λ x, x) [9; 4; 7; 5; 1] 4 1 tt = (Ok [9; 7; 5; 4; 1], tt)
  ∧ array_resort (St := unit) (λ x, x) [9; 4; 7; 9] 3 1 tt = (Err assert_failed, tt)
  ∧ ∃ i, placed (λ x, x) [9; 4; 7; 5; 1] 4 1 4 i
      ∧ array_resort (St := unit) (λ x, x) [9; 4; 7; 5; 1] 4 1 tt = (resort_outcome [9; 4; 7; 5; 1] 1 4 i, tt).
Proof.
  split; [vm_compute; reflexivity|]. split; [vm_compute; reflexivity|].
  apply (array_resort_spec (λ x, x) [9; 4; 7; 5; 1] 4 1 4 tt).
  - done.
  - cbn. lia.
  - lia.
  - repeat constructor; cbn; lia.
Defined.

(** ** Comparison and hashing of the keys of the hash maps *)

(** [array_eq]; the two arrays have the same length. *)
Fixpoint array_eq (a0 a1 : list Z) : bool :=
  match a0, a1 with
  | v0 :: a0, v1 :: a1 => if negb (v0 =? v1) then false else array_eq a0 a1
  | _, _ => true
  end.

Fixpoint fields_eq (a b : list Range1d) : bool :=
  match a, b with
  | v :: a, _b :: b => if range_ne v _b then false else fields_eq a b
  | _, _ => true
  end.

(** [rule_spec_t_eq]: the comparison of [rule_id] and [priority] is the one of
    the value type. *)
Definition rule_spec_t_eq {V} `{!RuleValue V} (a b : rule_spec_t V) : bool :=
  if negb (rv_eqb (rvalue a) (rvalue b)) then false else fields_eq (fields a) (fields b).

Section hash.
(** [boost::hash_value] and [boost::hash_combine]. *)
Variables (hash_value : Z → Z) (hash_combine : Z → Z → Z).

Definition array_hasher (arr : list Z) : Z :=
  foldl (λ seed v, hash_combine seed (hash_value v)) 0 arr.

Definition rule_spec_t_hasher (k : rule_spec_t RuleValueInt) : Z :=
  let seed :=
    foldl (λ seed v, hash_combine (hash_combine seed (hash_value (low v))) (hash_value (high v)))
          0 (fields k) in
  hash_combine (hash_combine seed (hash_value (rvi_priority (rvalue k))))
               (hash_value (rvi_rule_id (rvalue k))).
End hash.

Lemma array_eq_spec (a b : list Z) : length a = length b → array_eq a b = true ↔ a = b.
Proof.
  revert b. induction a as [|x a IH]; intros [|y b] Hl; try done. cbn in *.
  destruct (Z.eqb_spec x y) as [->|Hn]; cbn; [rewrite IH by lia|]; naive_solver.
Qed.

Lemma fields_eq_spec (a b : list Range1d) :
  length a = length b → fields_eq a b = true ↔ a = b.
Proof.
  revert b. induction a as [|x a IH]; intros [|y b] Hl; try done. cbn in *.
  rewrite range_ne_spec. destruct (range_eq x y) eqn:E; cbn.
  - apply range_eq_spec in E as ->. rewrite IH by lia. naive_solver.
  - split; [done|]. intros [= -> _]. by rewrite (proj2 (range_eq_spec y y) eq_refl) in E.
Qed.

Lemma rule_spec_t_eq_spec {V} `{!RuleValue V, !RuleValueLaws V} (a b : rule_spec_t V) :
  length (fields a) = length (fields b) → rule_spec_t_eq a b = true ↔ a = b.
Proof.
  intros Hl. unfold rule_spec_t_eq. destruct a as [fa va], b as [fb vb]. cbn in *.
  pose proof (rv_eqb_spec va vb) as Hv. destruct (rv_eqb va vb); cbn.
  - rewrite fields_eq_spec by done. naive_solver.
  - naive_solver.
Qed.

(** C36. The keys of the two hash maps are compared by equality, so equal keys
    have equal hashes for every pair of the hash primitives: what the
    containers require of a hasher and a comparator. *)
Theorem hash_maps_keys_ok (hash_value : Z → Z) (hash_combine : Z → Z → Z)
    (m m' : list Z) (a b : rule_spec_t RuleValueInt) :
  length m = length m' → length (fields a) = length (fields b) →
  (array_eq m m' = true ↔ m = m')
  ∧ (rule_spec_t_eq a b = true ↔ a = b)
  ∧ (array_eq m m' = true →
     array_hasher hash_value hash_combine m = array_hasher hash_value hash_combine m')
  ∧ (rule_spec_t_eq a b = true →
     rule_spec_t_hasher hash_value hash_combine a
     = rule_spec_t_hasher hash_value hash_combine b).
Proof.
  intros Hm Hab. rewrite array_eq_spec, rule_spec_t_eq_spec by done. naive_solver.
Qed.

(** Two rules that differ in the identifier only. *)
Definition rule_id1 : rule_spec_t RuleValueInt := mkRule [mkRange 1 2] (RuleValueInt_ctor 5 1).
Definition rule_id2 : rule_spec_t RuleValueInt := mkRule [mkRange 1 2] (RuleValueInt_ctor 5 2).

Lemma hash_maps_keys_ok_witness :
  (array_eq [1; 2] [1; 2] = true ∧ array_eq [1; 2] [1; 3] = false
   ∧ rule_spec_t_eq rule_id1 rule_id2 = false ∧ rule_spec_t_eq rule_id1 (mkRule [mkRange 1 2] (RuleValueInt_ctor 5 1)) = true)
  ∧ (array_eq [1; 2] [1; 2] = true ↔ [1; 2] = [1; 2])
  ∧ (rule_spec_t_eq rule_id1 rule_id2 = true ↔ rule_id1 = rule_id2)
  ∧ (array_eq [1; 2] [1; 2] = true →
     array_hasher (λ x, x) (λ s x, s * 31 + x) [1; 2] = array_hasher (λ x, x) (λ s x, s * 31 + x) [1; 2])
  ∧ (rule_spec_t_eq rule_id1 rule_id2 = true →
     rule_spec_t_hasher (λ x, x) (λ s x, s * 31 + x) rule_id1
     = rule_spec_t_hasher (λ x, x) (λ s x, s * 31 + x) rule_id2).
Proof.
  split; [repeat split; vm_compute; reflexivity|].
  exact (hash_maps_keys_ok (λ x, x) (λ s x, s * 31 + x) [1; 2] [1; 2] rule_id1 rule_id2 eq_refl eq_refl).
Defined.
