(* ===== verification/BTreeImpl.v ===== *)
(** * The tree as one object ([b_tree.h], [b_tree_impl.h])

    [BTreeImp] joins the data of a tree with the algorithms.  Its clients see
    it through [TREE_T], the operations the classifier requires of its
    template argument; the state of the memory the trees share is the state
    of the computations. *)
From S2P Require Import Prelude Range RuleValue Mempool Node Search Insert Collision Remove ToRules.

(** ** The interface *)

(** [A] is the state of the allocator, [Tr] a tree, [V] the value type. *)
Class TREE_T (A Tr V : Type) : Type := {
  tree_new : Tr;
  tree_insert : Tr → rule_spec_t V → M A Tr;
  tree_remove : Tr → rule_spec_t V → M A Tr;
  tree_does_rule_colide : Tr → rule_spec_t V → M A bool;
  tree_search : Tr → list Z → M A V;
  tree_clear : Tr → M A Tr;
  tree_dimension_order : Tr → list nat;
  tree_set_dimension_order : list nat → Tr → Tr;
}.

(** ** The B-tree *)

Record BTree : Type := mkBTree {
  root : option ptr;
  bt_dimension_order : list nat;
  bt_in_packet_position : list in_packet_position_t;
}.

Section BTreeImp.
Context `{cfg : !BTreeCfg} {V : Type} `{!RuleValue V} (fuel : nat).
Implicit Types (t : BTree).

Definition bt_set_root (r : option ptr) t : BTree :=
  mkBTree r (bt_dimension_order t) (bt_in_packet_position t).

Definition bt_set_dimension_order (o : list nat) t : BTree :=
  mkBTree (root t) o (bt_in_packet_position t).

(** The constructors: an empty tree with the dimensions in their order. *)
Definition BTreeImp_ctor : BTree := mkBTree None (seq 0 D) default_in_packet_position.

Definition BTreeImp_ctor_pos (in_packet_pos : list in_packet_position_t) : BTree :=
  mkBTree None (seq 0 D) in_packet_pos.

Definition btree_insert t (r : rule_spec_t V) : HM V BTree :=
  root ← insert_rule fuel (root t) (bt_dimension_order t) r;
  mret (bt_set_root root t).

Definition btree_does_rule_colide t (r : rule_spec_t V) : HM V bool :=
  does_rule_colide fuel (root t) (bt_dimension_order t) r.

Definition btree_search t (v : list Z) : HM V V :=
  search_vec fuel (bt_in_packet_position t) (bt_dimension_order t) (root t) v.

Definition btree_search_packet t (v : list Z) : HM V V :=
  search fuel (bt_in_packet_position t) (bt_dimension_order t) (root t) v.

Definition btree_remove t (r : rule_spec_t V) : HM V BTree :=
  root ← remove_rule fuel (root t) (bt_dimension_order t) r;
  mret (bt_set_root root t).

Definition btree_size t : HM V nat :=
  match root t with Some r => Node.size fuel r | None => mret 0 end.

Definition btree_to_rules t : HM V (list (rule_spec_t V)) :=
  to_rules fuel (root t) (bt_dimension_order t).

(** [destroy_node(root); root = nullptr;], the body of the destructor. *)
Definition btree_clear t : HM V BTree :=
  destroy_node fuel (root t);;
  mret (bt_set_root None t).
End BTreeImp.

(** The B-tree as the tree of the classifier. *)
Definition BTree_TREE_T `{cfg : !BTreeCfg} {V : Type} `{!RuleValue V} (fuel : nat)
    : TREE_T (Heap V) BTree V := {|
  tree_new := BTreeImp_ctor;
  tree_insert := btree_insert fuel;
  tree_remove := btree_remove fuel;
  tree_does_rule_colide := btree_does_rule_colide fuel;
  tree_search := btree_search fuel;
  tree_clear := btree_clear fuel;
  tree_dimension_order := bt_dimension_order;
  tree_set_dimension_order := bt_set_dimension_order;
|}.
