(* ===== verification/Destroy.v ===== *)
(** * The whole tree: its size and its destruction

    [size] counts the entries of the stored trie; [destroy_node] returns every
    node of the tree to the pool, and no other. *)
From S2P Require Import Prelude Range RuleValue Mempool Node NodeLemmas Search Layer LayerSearch Trie Footprint Slots Insert Split Chain InsertLayer InsertRoot Decompress Integrity.
Local Open Scope Z_scope.

Section frees.
Context `{cfg : !BTreeCfg} {V : Type} `{!RuleValue V}.
Implicit Types (p q : Heap V) (fl : list nat) (F : list ptr).

(** The nodes of [F] have been returned to the pool, nothing else has changed. *)
Record frees p fl p' fl' F : Prop := {
  fr_heap : heap_ok p' fl';
  fr_list : fl' ≡ₚ F ++ fl;
  fr_frame : ∀ b, b ∉ F → node_at p' b = node_at p b;
}.

Lemma frees_refl p fl : heap_ok p fl → frees p fl p fl [].
Proof. by split. Qed.

Lemma frees_trans p fl p1 fl1 p2 fl2 F1 F2 :
  frees p fl p1 fl1 F1 → frees p1 fl1 p2 fl2 F2 → frees p fl p2 fl2 (F1 ++ F2).
Proof.
  intros [_ Hl1 Hf1] [Hp2 Hl2 Hf2]. split; [done| |].
  - by rewrite Hl2, Hl1, app_assoc, (Permutation_app_comm F2).
  - intros b Hb. rewrite not_elem_of_app in Hb. destruct Hb. by rewrite Hf2, Hf1.
Qed.

Lemma frees_perm p fl p' fl' F F' : F ≡ₚ F' → frees p fl p' fl' F → frees p fl p' fl' F'.
Proof. intros HF [Hp Hl Hf]. split; [done|by rewrite <- HF|]. intros b Hb. apply Hf. by rewrite HF. Qed.

Lemma frees_modifies p fl p' fl' F : frees p fl p' fl' F → modifies p p' F [].
Proof.
  intros [_ _ Hf]. split; [|by intros b ?%elem_of_nil]. intros b nd Hb Hn. by rewrite Hf.
Qed.

Lemma frees_nonempty p fl p' fl' F : frees p fl p' fl' F → fl ≠ [] → fl' ≠ [].
Proof. intros [_ Hl _] Hne ->. symmetry in Hl. apply Permutation_nil_r, app_eq_nil in Hl as [_ ?]. done. Qed.

Lemma release_node_ok p fl a nd :
  heap_ok p fl → fl ≠ [] → node_at p a = Some nd →
  ∃ p' fl', node_allocator_release a p = (Ok tt, p') ∧ frees p fl p' fl' [a].
Proof.
  intros Hp Hne Ha. pose proof Hp as [Hw Hl Hf]. destruct fl as [|f fl]; [done|].
  assert (Pool.allocated p a) as Hal by (unfold Pool.allocated, node_at in *; by rewrite Ha).
  eexists _, (a :: f :: fl). split; [by apply (Pool.release_ok false _ _ _ _ Hw Hl Hal)|].
  split; [split; [by apply (Pool.pool_wf_put p a (f :: fl))|done|done]|done|].
  intros b Hb. unfold node_at. cbn. apply lookup_delete_ne. intros ->. apply Hb. by left.
Qed.

(** A loop that frees the nodes of [F i] in step [i]. *)
Lemma frees_loop n (F : nat → list ptr) (body : nat → HM V unit) p fl :
  heap_ok p fl →
  (∀ i q fq, (i < n)%nat → frees p fl q fq (concat (F <$> seq 0 i)) →
     ∃ q' fq', body i q = (Ok tt, q') ∧ frees q fq q' fq' (F i)) →
  ∃ p' fl', for_each (range_up 0 n) body p = (Ok tt, p') ∧ frees p fl p' fl' (concat (F <$> seq 0 n)).
Proof.
  intros Hp Hbody.
  destruct (for_each_up body (λ i q, ∃ fq, frees p fl q fq (concat (F <$> seq 0 i))) 0 n p)
    as (p' & Hrun & fl' & Hfr); [lia|exists fl; by apply frees_refl| |by exists p', fl'].
  intros i q [_ Hi] (fq & Hq). destruct (Hbody i q fq Hi Hq) as (q' & fq' & Hb & Hfr).
  exists q'. split; [done|]. exists fq'. rewrite seq_S, fmap_app, concat_app. cbn. rewrite app_nil_r.
  by eapply frees_trans.
Qed.
End frees.

(** The parts of a list, by index. *)
Lemma parts_by_index {A B} (f : A → list B) (l : list A) :
  (λ i, from_option f [] (l !! i)) <$> seq 0 (length l) = f <$> l.
Proof.
  apply list_eq. intros i. rewrite !list_lookup_fmap. destruct (l !! i) as [x|] eqn:Hi.
  - rewrite lookup_seq_lt by (by eapply lookup_lt_Some). cbn. by rewrite Hi.
  - by rewrite lookup_seq_ge by (by apply lookup_ge_None).
Qed.

(** Parts that are empty but for the last. *)
Lemma concat_last {B} (f : nat → list B) n :
  (∀ i, (i < n)%nat → f i = []) → concat (f <$> seq 0 (S n)) = f n.
Proof.
  intros Hf. rewrite seq_S, fmap_app, concat_app. cbn. rewrite app_nil_r.
  assert (∀ m, (m ≤ n)%nat → concat (f <$> seq 0 m) = []) as ->; [|done..].
  intros m. induction m as [|m IHm]; intros Hm; [done|].
  rewrite seq_S, fmap_app, concat_app, IHm by lia. cbn. by rewrite Hf by lia.
Qed.

Lemma weave_perm {A} (its : list A) xss :
  xss = [] ∨ length xss = S (length its) → weave its xss ≡ₚ its ++ concat xss.
Proof.
  intros [->|Hl]; [cbn; by rewrite app_nil_r|].
  revert its Hl. induction xss as [|xs xss IH]; intros [|x its] Hl; cbn in *; try lia.
  - destruct xss; [done|cbn in *; lia].
  - rewrite IH by lia. solve_Permutation.
Qed.

Section destroy.
Context `{cfg : !BTreeCfg, Hok : !CfgOk} {V : Type} `{!RuleValue V}.
Implicit Types (p q : Heap V) (nd : Node V) (t : btree V) (g : gtrie V) (o : option (gtrie V)).
Context (H : nat) (order : list nat).

(** [destroy_node] with [F] fuel frees the layer [g] in every memory. *)
Definition freeable (level F : nat) g : Prop :=
  ∀ q fq fuel, heap_ok q fq → fq ≠ [] → g_rep q H order level g → NoDup (g_addrs g) → (F ≤ fuel)%nat →
    ∃ q' fq', destroy_node fuel (Some (g_addr g)) q = (Ok tt, q') ∧ frees q fq q' fq' (g_addrs g).

Lemma destroy_None fuel p : destroy_node fuel None p = (Ok tt, p).
Proof. by destruct fuel. Qed.

(** The parts freed before are disjoint from the [i]-th. *)
Lemma part_disjoint (F : nat → list ptr) n i a :
  NoDup (concat (F <$> seq 0 n)) → (i < n)%nat → a ∈ F i → a ∉ concat (F <$> seq 0 i).
Proof.
  intros Hnd Hi Ha (l & Hal & (j & -> & Hj%elem_of_seq)%list_elem_of_fmap)%elem_of_concat.
  assert (j = i); [|lia].
  eapply (NoDup_concat_inj _ j i (F j) (F i) a Hnd); [| |done|done];
    rewrite list_lookup_fmap, lookup_seq_lt by lia; done.
Qed.

Lemma part_NoDup (F : nat → list ptr) n i :
  NoDup (concat (F <$> seq 0 n)) → (i < n)%nat → NoDup (F i).
Proof.
  intros Hnd Hi. apply (NoDup_concat_part _ _ Hnd). apply list_elem_of_fmap. exists i. split; [done|].
  apply elem_of_seq. lia.
Qed.

(** The next layers of the keys of one node. *)
Lemma destroy_nexts p fl a nd n level F (on : nat → option (gtrie V)) fuel :
  let Fo := λ i, o_addrs (on i) in
  heap_ok p fl → fl ≠ [] → node_at p a = Some nd → a ∉ concat (Fo <$> seq 0 n) →
  NoDup (concat (Fo <$> seq 0 n)) → (F ≤ fuel)%nat →
  (∀ i, (i < n)%nat → ∃ x, node_key nd i = Some x ∧ next_rep p H order level x (on i)) →
  (∀ i g, (i < n)%nat → on i = Some g → freeable level F g) →
  ∃ p' fl', for_each (range_up 0 n) (λ i, l ← get_next_layer a i; destroy_node fuel l) p = (Ok tt, p')
    ∧ frees p fl p' fl' (concat (Fo <$> seq 0 n)).
Proof.
  intros Fo Hp Hne Ha Hani Hnd HF Hkeys Hfree. apply frees_loop; [done|]. intros i q fq Hi Hq.
  pose proof (frees_modifies _ _ _ _ _ Hq) as Hmod.
  assert (node_at q a = Some nd) as Haq.
  { eapply mod_frame; [exact Hmod| |exact Ha]. intros Hin. apply Hani.
    apply elem_of_concat in Hin as (l & Hal & (j & -> & Hj%elem_of_seq)%list_elem_of_fmap).
    apply elem_of_concat. exists (Fo j). split; [done|]. apply list_elem_of_fmap. exists j. split; [done|].
    apply elem_of_seq. lia. }
  destruct (Hkeys i Hi) as (x & Hx & Ho).
  assert (next_rep q H order level x (on i)) as Hoq.
  { eapply next_rep_modifies; [exact Ho|exact Hmod| |done]. intros b Hb. by eapply part_disjoint. }
  run_ok by (eapply next_layer_at; [apply (fr_heap _ _ _ _ _ Hq)|exact Haq|exact Hx|exact Hoq]).
  unfold Fo. pose proof (part_NoDup _ _ _ Hnd Hi) as Hndi. unfold Fo in Hndi.
  destruct (on i) as [g|] eqn:Hg; cbn.
  - apply (Hfree i g Hi Hg q fq fuel); [apply (fr_heap _ _ _ _ _ Hq)|by eapply frees_nonempty|apply Hoq|done|done].
  - exists q, fq. split; [apply destroy_None|]. apply frees_refl, (fr_heap _ _ _ _ _ Hq).
Qed.

(** ** A B-tree *)

Context (nx : KeyInfo V → option (gtrie V)).

Definition tree_addrs t : list ptr := addrs t ++ concat ((λ x, o_addrs (nx x)) <$> flat t).

Lemma tree_addrs_unfold a its ts :
  ts = [] ∨ length ts = S (length its) →
  tree_addrs (BNode a its ts) ≡ₚ
    concat (tree_addrs <$> ts) ++ concat ((λ x, o_addrs (nx x)) <$> its) ++ [a].
Proof.
  intros Hl. unfold tree_addrs. rewrite addrs_unfold. cbn [flat].
  rewrite (weave_perm its (flat <$> ts)) by (destruct Hl as [->|?]; [by left|right; by rewrite length_fmap]).
  rewrite fmap_app, concat_app.
  assert (concat ((λ t, addrs t ++ concat ((λ x, o_addrs (nx x)) <$> flat t)) <$> ts)
          ≡ₚ concat (addrs <$> ts) ++ concat ((λ x, o_addrs (nx x)) <$> concat (flat <$> ts))) as ->.
  { clear. induction ts as [|t ts IH]; [done|]. cbn. rewrite IH, fmap_app, concat_app. solve_Permutation. }
  solve_Permutation.
Qed.

(** The subtree is intact as long as nothing of it has been freed. *)
Definition intact p d par level F t : Prop :=
  rep p d par t ∧ (∀ x, x ∈ flat t → next_rep p H order level x (nx x))
  ∧ ∀ x g, x ∈ flat t → nx x = Some g → freeable level F g.

Lemma intact_modifies p q d par level F t A B :
  intact p d par level F t → modifies p q A B → (∀ a, a ∈ tree_addrs t → a ∉ A) → intact q d par level F t.
Proof.
  intros (Hr & Hn & Hf) Hmod Hdis. unfold tree_addrs in Hdis. split_and!; [| |done].
  - eapply rep_modifies; [exact Hr|exact Hmod|]. intros a Ha. apply Hdis, elem_of_app. by left.
  - intros x Hx. eapply next_rep_modifies; [by apply Hn|exact Hmod| |done].
    intros a Ha. apply Hdis, elem_of_app. right. apply elem_of_concat. exists (o_addrs (nx x)).
    split; [done|]. by apply (list_elem_of_fmap_2 (λ x, o_addrs (nx x))).
Qed.

(** The children of a node, when each of them is destroyed as it should. *)
Lemma destroy_kids p fl d level F a nd its ts par fuel :
  intact p d par level F (BNode a its ts) → node_at p a = Some nd → heap_ok p fl → fl ≠ [] →
  NoDup (concat (tree_addrs <$> ts)) → a ∉ concat (tree_addrs <$> ts) →
  (∀ c q fq, c ∈ ts → intact q d (Some a) level F c → heap_ok q fq → fq ≠ [] → NoDup (tree_addrs c) →
     ∃ p' fl', destroy_node fuel (Some (addr c)) q = (Ok tt, p') ∧ frees q fq p' fl' (tree_addrs c)) →
  ∃ p' fl', (if bool_decide (addr <$> ts = []) then mret tt
      else for_each (range_up 0 (length its + 1)) (λ i, c ← child a i; destroy_node fuel c)) p = (Ok tt, p')
    ∧ frees p fl p' fl' (concat (tree_addrs <$> ts)).
Proof.
  intros (Hr & Hnx & Hfree) Ha Hp Hne Hndk Hak IH. pose proof Hr as [(nd' & Ha' & Hn) Hts]%rep_unfold.
  rewrite Ha in Ha'. injection Ha' as <-. rewrite Forall_forall in Hts.
  destruct (rep_arity _ _ _ _ _ Hn) as [->|Hl]; [exists p, fl; split; [done|by apply frees_refl]|].
  set (Ft := λ i, from_option tree_addrs [] (ts !! i)).
  assert (concat (Ft <$> seq 0 (length ts)) = concat (tree_addrs <$> ts)) as HFt
    by (unfold Ft; by rewrite parts_by_index).
  rewrite bool_decide_false by (intros ->%fmap_nil_inv; done). rewrite Nat.add_1_r, <- Hl, <- HFt in *.
  apply frees_loop; [done|]. intros i q fq Hi Hq. destruct (lookup_lt_is_Some_2 ts i Hi) as [c Hc].
  pose proof (list_elem_of_lookup_2 _ _ _ Hc) as Hcin. pose proof (frees_modifies _ _ _ _ _ Hq) as Hmod.
  assert (Ft i = tree_addrs c) as HFi by (unfold Ft; by rewrite Hc).
  assert (∀ b, b ∈ concat (Ft <$> seq 0 i) → b ∈ concat (Ft <$> seq 0 (length ts))) as Hsub.
  { intros b. rewrite !elem_of_concat. setoid_rewrite list_elem_of_fmap. setoid_rewrite elem_of_seq.
    intros (l & Hb & j & -> & Hj). exists (Ft j). split; [done|]. exists j. split; [done|lia]. }
  assert (node_at q a = Some nd) as Haq.
  { eapply mod_frame; [exact Hmod| |exact Ha]. by intros Hin%Hsub. }
  assert (intact q d (Some a) level F c) as Hintc.
  { eapply (intact_modifies p q); [|exact Hmod|].
    - split_and!; [by apply Hts| |].
      + intros x Hx. apply Hnx. by eapply flat_kids.
      + intros x g Hx. apply Hfree. by eapply flat_kids.
    - intros b Hb. rewrite <- HFi in Hb. by eapply part_disjoint. }
  pose proof Hintc as (Hrc & _). destruct (rep_live _ _ _ _ Hrc) as [cd Hcd].
  run_ok by (eapply child_some; [apply (fr_heap _ _ _ _ _ Hq)|exact Haq| |exact Hcd];
    apply (nr_kids _ _ _ _ _ Hn); by rewrite list_lookup_fmap, Hc).
  rewrite HFi. apply IH; [done|done|apply (fr_heap _ _ _ _ _ Hq)|by eapply frees_nonempty|].
  rewrite <- HFi. by eapply part_NoDup.
Qed.

(** The layers behind the keys of a node. *)
Lemma destroy_keys p fl d level F a nd its cs par fuel :
  node_at p a = Some nd → node_rep d par its cs nd → heap_ok p fl → fl ≠ [] → (F ≤ fuel)%nat →
  NoDup (concat ((λ x, o_addrs (nx x)) <$> its)) → a ∉ concat ((λ x, o_addrs (nx x)) <$> its) →
  (∀ x, x ∈ its → next_rep p H order level x (nx x)) →
  (∀ x g, x ∈ its → nx x = Some g → freeable level F g) →
  ∃ p' fl', for_each (range_up 0 (length its)) (λ i, l ← get_next_layer a i; destroy_node fuel l) p = (Ok tt, p')
    ∧ frees p fl p' fl' (concat ((λ x, o_addrs (nx x)) <$> its)).
Proof.
  intros Ha Hn Hp Hne HF Hnd Hai Hnx Hfree.
  set (on := λ i, match its !! i with Some x => nx x | None => None end).
  assert (concat ((λ i, o_addrs (on i)) <$> seq 0 (length its)) = concat ((λ x, o_addrs (nx x)) <$> its)) as Hon.
  { rewrite <- (parts_by_index (λ x, o_addrs (nx x)) its). f_equal. apply list_fmap_ext. intros i j _.
    unfold on. by destruct (its !! j). }
  rewrite <- Hon in *. apply (destroy_nexts p fl a nd (length its) level F on fuel); try done.
  - intros i Hi. destruct (lookup_lt_is_Some_2 its i Hi) as [x Hx]. exists x.
    split; [by apply (nr_keys _ _ _ _ _ Hn)|]. unfold on. rewrite Hx.
    by eapply Hnx, list_elem_of_lookup_2.
  - intros i g Hi. unfold on. destruct (its !! i) as [x|] eqn:Hx; [|done].
    by eapply Hfree, list_elem_of_lookup_2.
Qed.

Lemma destroy_btree_ok p fl d level F t par fuel :
  intact p d par level F t → heap_ok p fl → fl ≠ [] → NoDup (tree_addrs t) → (height t + F ≤ fuel)%nat →
  ∃ p' fl', destroy_node fuel (Some (addr t)) p = (Ok tt, p') ∧ frees p fl p' fl' (tree_addrs t).
Proof.
  revert p fl par fuel. induction t as [a its ts IH] using btree_ind'. rewrite Forall_forall in IH.
  intros p fl par fuel Hint Hp Hne Hnd Hf. destruct fuel as [|fuel]; [cbn in Hf; lia|].
  pose proof Hint as (Hr & Hnx & Hfree). pose proof Hr as [(nd & Ha & Hn) _]%rep_unfold.
  pose proof (rep_arity _ _ _ _ _ Hn) as Hl.
  rewrite (tree_addrs_unfold _ _ _ Hl) in Hnd.
  pose proof Hnd as (Hndk & Hdk & (Hndi & Hdi & _)%NoDup_app)%NoDup_app.
  assert (a ∉ concat (tree_addrs <$> ts)) as Hak.
  { intros Hin. apply (Hdk a Hin), elem_of_app. right. by left. }
  assert (a ∉ concat ((λ x, o_addrs (nx x)) <$> its)) as Hai by (intros Hin; apply (Hdi a Hin); by left).
  assert (∀ x, x ∈ its → x ∈ flat (BNode a its ts)) as Hitf by (intros x; by apply flat_items).
  cbn [destroy_node addr]. rewrite (bind_load _ _ _ _ Ha), (nr_leaf _ _ _ _ _ Hn), (nr_cnt _ _ _ _ _ Hn).
  destruct (destroy_kids p fl d level F a nd its ts par fuel) as (p1 & fl1 & Hrun1 & Hfr1); [done..| |].
  { intros c q fq Hc ????. apply (IH c Hc q fq (Some a)); [done..|].
    pose proof (height_kid a its ts c Hc). lia. }
  run_ok by (exact Hrun1). pose proof (frees_modifies _ _ _ _ _ Hfr1) as Hmod1.
  assert (node_at p1 a = Some nd) as Ha1 by (by eapply mod_frame).
  destruct (destroy_keys p1 fl1 d level F a nd its (addr <$> ts) par fuel) as (p2 & fl2 & Hrun2 & Hfr2);
    [done|done|apply (fr_heap _ _ _ _ _ Hfr1)|by eapply frees_nonempty|cbn in Hf; lia|done|done| | |].
  { intros x Hx. eapply next_rep_modifies; [by apply Hnx, Hitf|exact Hmod1| |done].
    intros b Hb Hbk. apply (Hdk b Hbk), elem_of_app. left. apply elem_of_concat. exists (o_addrs (nx x)).
    split; [done|]. by apply (list_elem_of_fmap_2 (λ x, o_addrs (nx x))). }
  { intros x g Hx. by apply Hfree, Hitf. }
  run_ok by (exact Hrun2).
  assert (node_at p2 a = Some nd) as Ha2 by (eapply mod_frame; [by eapply frees_modifies|done|done]).
  destruct (release_node_ok p2 fl2 a nd) as (p3 & fl3 & Hrun3 & Hfr3);
    [apply (fr_heap _ _ _ _ _ Hfr2)|by eapply frees_nonempty, frees_nonempty|done|].
  exists p3, fl3. split; [exact Hrun3|]. eapply frees_perm; [symmetry; by apply tree_addrs_unfold|].
  eapply frees_trans; [exact Hfr1|]. by eapply frees_trans.
Qed.
End destroy.

(** ** A tree *)

Section tree.
Context `{cfg : !BTreeCfg, Hok : !CfgOk} {V : Type} `{!RuleValue V}.
Implicit Types (p q : Heap V) (nd : Node V) (t : btree V) (g : gtrie V) (o : option (gtrie V)).
Context (H : nat) (order : list nat).

(** The next layer of a key, by its range. *)
Definition next_of (xs : list (KeyInfo V)) (nexts : list (option (gtrie V))) (x : KeyInfo V) : option (gtrie V) :=
  match list_find (λ y, key y = key x) xs with
  | Some (j, _) => default None (nexts !! j)
  | None => None
  end.

Lemma next_of_lookup xs nexts j x o :
  sorted_keys xs → xs !! j = Some x → nexts !! j = Some o → next_of xs nexts x = o.
Proof.
  intros Hs Hx Ho. unfold next_of.
  replace (list_find (λ y, key y = key x) xs) with (Some (j, x)); [by rewrite Ho|].
  symmetry. apply list_find_Some. split_and!; [done|done|]. intros i y Hy Hi He.
  assert (low (key x) ≤ high (key x)) as Hv.
  { destruct Hs as [Hv _]. rewrite Forall_lookup in Hv. by eapply Hv. }
  assert (i = j); [|lia].
  eapply (sorted_unique xs i j y x (low (key x))); [done..| |]; rewrite ?He; apply in_range_spec; lia.
Qed.

Lemma next_of_map p level xs nexts :
  sorted_keys xs → Forall2 (next_rep p H order level) xs nexts → next_of xs nexts <$> xs = nexts.
Proof.
  intros Hs Hn. apply list_eq. intros j. rewrite list_lookup_fmap. destruct (xs !! j) as [x|] eqn:Hx; cbn.
  - destruct (Forall2_lookup_l _ _ _ _ _ Hn Hx) as (o & Ho & _). rewrite Ho. f_equal. by eapply next_of_lookup.
  - symmetry. apply lookup_ge_None. rewrite <- (Forall2_length _ _ _ Hn). by apply lookup_ge_None.
Qed.

Lemma destroy_ok level g : freeable H order level (S H * (length order - level)) g.
Proof using Hok.
  revert level. induction g as [t nexts IH|a c cs nl IH] using gtrie_ind';
    intros level p fl fuel Hp Hne Hg Hnd Hf; pose proof (g_rep_level _ _ _ _ _ Hg) as Hlev.
  - apply g_rep_layer in Hg as ((d & Hd & Hr) & Hs & Hh & Hn).
    pose proof (next_of_map _ _ _ _ Hs Hn) as Hmap.
    assert (tree_addrs (next_of (flat t) nexts) t = g_addrs (GLayer t nexts)) as Haddrs.
    { unfold tree_addrs. rewrite g_addrs_layer. do 2 f_equal.
      trans (o_addrs <$> (next_of (flat t) nexts <$> flat t)); [by rewrite <- list_fmap_compose|by rewrite Hmap]. }
    rewrite <- Haddrs in Hnd |- *.
    apply (destroy_btree_ok H order (next_of (flat t) nexts) p fl d (S level) (S H * (length order - S level)) t None);
      [|done|done|done|].
    + split_and!; [done| |].
      * intros x (j & Hx)%list_elem_of_lookup. destruct (Forall2_lookup_l _ _ _ _ _ Hn Hx) as (o & Ho & Hxo).
        rewrite (next_of_lookup _ _ _ _ _ Hs Hx Ho).
        done.
      * intros x g (j & Hx)%list_elem_of_lookup. destruct (Forall2_lookup_l _ _ _ _ _ Hn Hx) as (o & Ho & Hxo).
        rewrite (next_of_lookup _ _ _ _ _ Hs Hx Ho). intros ->. apply IH. by eapply list_elem_of_lookup_2.
    + replace (length order - level)%nat with (S (length order - S level)) in Hf by lia. lia.
  - destruct (chain_parts _ _ _ _ _ _ _ _ Hg) as (nd & Ha & Hc & _ & [Hnone Hlast] & Hcs).
    cbn [g_addrs] in Hnd. apply NoDup_cons in Hnd as [Hao Hndo]. destruct fuel as [|fuel]; [lia|].
    cbn [destroy_node g_addr]. rewrite (bind_load _ _ _ _ Ha), (cr_leaf _ _ _ _ Hc), (cr_cnt _ _ _ _ Hc), bind_ret.
    set (n := length (c :: cs)) in *. set (on := λ i, if decide (i = n - 1)%nat then nl else None).
    assert (concat ((λ i, o_addrs (on i)) <$> seq 0 n) = o_addrs nl) as Hon.
    { assert (n = S (length cs)) as Hn by done.
      assert (on (length cs) = nl) as Hlcs by (unfold on; by rewrite decide_True by lia).
      rewrite Hn, concat_last; [by rewrite Hlcs|]. intros i Hi. unfold on. by rewrite decide_False by lia. }
    assert (S H * (length order - (level + n)) ≤ fuel)%nat as Hfn.
    { assert (length order - (level + n) + 1 ≤ length order - level)%nat as Hlt by (subst n; cbn; lia).
      apply (Nat.mul_le_mono_l _ _ (S H)) in Hlt. lia. }
    destruct (destroy_nexts H order p fl a nd n (level + n) (S H * (length order - (level + n))) on fuel)
      as (p1 & fl1 & Hrun & Hfr); [done|done|done|by rewrite Hon|by rewrite Hon|done| | |].
    + intros i Hi. destruct (lookup_lt_is_Some_2 (c :: cs) i Hi) as [x Hx]. exists x.
      split; [by apply (cr_keys _ _ _ _ Hc)|]. unfold on. case_decide as He; [subst i; by apply Hlast|].
      apply (Hnone i x Hx). fold n. lia.
    + intros i g Hi. unfold on. case_decide; [|done]. intros ->. by apply IH.
    + rewrite Hon in Hfr. run_ok by (exact Hrun).
      assert (node_at p1 a = Some nd) as Ha1 by (eapply mod_frame; [by eapply frees_modifies|done|done]).
      destruct (release_node_ok p1 fl1 a nd) as (p2 & fl2 & Hrun2 & Hfr2);
        [apply (fr_heap _ _ _ _ _ Hfr)|by eapply frees_nonempty|done|].
      exists p2, fl2. split; [exact Hrun2|]. eapply frees_perm; [|by eapply frees_trans].
      cbn. by rewrite Permutation_app_comm.
Qed.
End tree.

(** ** The number of keys *)

Section size.
Context `{cfg : !BTreeCfg, Hok : !CfgOk} {V : Type} `{!RuleValue V}.
Implicit Types (p : Heap V) (nd : Node V) (t : btree V) (g : gtrie V) (o : option (gtrie V)).

(** The number of entries of a trie. *)
Fixpoint t_size (tr : trie V) : nat :=
  match tr with
  | Entries es => foldr (λ e n, (1 + match e.2 with Some nl => t_size nl | None => 0 end + n)%nat) 0%nat es
  end.

Definition o_size (tr : option (trie V)) : nat := match tr with Some tr => t_size tr | None => 0%nat end.

Lemma t_size_entries es : t_size (Entries es) = sum_list_with (λ e, 1 + o_size e.2)%nat es.
Proof. induction es as [|e es IH]; [done|]. cbn in *. by rewrite IH. Qed.

Lemma chain_size (xs : list (KeyInfo V)) T : o_size (chain_trie xs T) = (length xs + o_size T)%nat.
Proof.
  induction xs as [|x xs IH]; [done|]. cbn [chain_trie length]. unfold o_size at 1.
  rewrite t_size_entries. cbn [sum_list_with snd]. rewrite IH. lia.
Qed.

Context (p : Heap V) (fl : list nat) (H : nat) (order : list nat).
Hypothesis Hp : heap_ok p fl.

(** A loop that adds up numbers. *)

Lemma fold_sum (f : nat → nat) (body : nat → nat → HM V nat) (l : list nat) s :
  (∀ i s, i ∈ l → body s i p = (Ok (s + f i)%nat, p)) →
  fold_each l s body p = (Ok (s + sum_list_with f l)%nat, p).
Proof.
  revert s. induction l as [|i l IH]; intros s Hb; cbn; [by rewrite Nat.add_0_r|].
  run_ok by (apply Hb; by left). rewrite IH by (intros; apply Hb; by right). do 2 f_equal. lia.
Qed.

Lemma sum_by_index {A} (f : A → nat) (l : list A) :
  sum_list_with (λ i, from_option f 0%nat (l !! i)) (seq 0 (length l)) = sum_list_with f l.
Proof.
  induction l as [|x l IH] using rev_ind; [done|].
  rewrite length_app, Nat.add_1_r, seq_S, !sum_list_with_app. cbn. rewrite list_lookup_middle by done. cbn.
  f_equal. rewrite <- IH. clear. generalize (le_n (length l)). generalize (length l) at 1 3 4.
  intros n Hn. induction n as [|n IH]; [done|]. rewrite seq_S, !sum_list_with_app, IH by lia. cbn.
  by rewrite lookup_app_l by lia.
Qed.

Definition sized (level F : nat) o : Prop :=
  ∀ g fuel, o = Some g → (F ≤ fuel)%nat → Node.size fuel (g_addr g) p = (Ok (t_size (abs g)), p).

(** The next layers of the keys of one node. *)
Lemma size_nexts a nd n s level F (on : nat → option (gtrie V)) fuel :
  node_at p a = Some nd → (F ≤ fuel)%nat →
  (∀ i, (i < n)%nat → ∃ x, node_key nd i = Some x ∧ next_rep p H order level x (on i) ∧ sized level F (on i)) →
  fold_each (range_up 0 n) s (λ s i,
    nl ← get_next_layer a i;
    match nl with Some l => z ← Node.size fuel l; mret (s + z)%nat | None => mret s end) p
  = (Ok (s + sum_list_with (λ i, o_size (abs <$> on i)) (seq 0 n))%nat, p).
Proof using Hp.
  intros Ha HF Hkeys. unfold range_up. rewrite Nat.sub_0_r. apply fold_sum.
  intros i s' [_ Hi]%elem_of_seq. destruct (Hkeys i Hi) as (x & Hx & Ho & Hsz).
  run_ok by (by eapply next_layer_at). destruct (on i) as [g|]; cbn.
  - by run_ok by (by apply Hsz).
  - by rewrite Nat.add_0_r.
Qed.

Context (nx : KeyInfo V → option (gtrie V)).

Definition key_size (x : KeyInfo V) : nat := (1 + o_size (abs <$> nx x))%nat.

Lemma sum_key_size (its : list (KeyInfo V)) :
  sum_list_with key_size its = (length its + sum_list_with (λ x, o_size (abs <$> nx x)) its)%nat.
Proof. induction its as [|x its IH]; [done|]. cbn in *. rewrite IH. lia. Qed.

Lemma sum_flat a its ts :
  ts = [] ∨ length ts = S (length its) →
  sum_list_with key_size (flat (BNode a its ts))
  = (sum_list_with key_size its + sum_list_with (λ t, sum_list_with key_size (flat t)) ts)%nat.
Proof.
  intros Hl. cbn [flat]. rewrite (weave_perm its (flat <$> ts)) by (destruct Hl as [->|?]; [by left|right; by rewrite length_fmap]).
  rewrite sum_list_with_app. f_equal. clear. induction ts as [|t ts IH]; [done|]. cbn.
  by rewrite sum_list_with_app, IH.
Qed.

Lemma size_btree_ok d level F t par fuel :
  rep p d par t → (∀ x, x ∈ flat t → next_rep p H order level x (nx x) ∧ sized level F (nx x)) →
  (height t + F ≤ fuel)%nat →
  Node.size fuel (addr t) p = (Ok (sum_list_with key_size (flat t)), p).
Proof using Hp.
  revert par fuel. induction t as [a its ts IH] using btree_ind'. intros par fuel Hr Hx Hf.
  destruct fuel as [|fuel]; [cbn in Hf; lia|].
  pose proof Hr as [(nd & Ha & Hn) Hts]%rep_unfold. pose proof (rep_arity _ _ _ _ _ Hn) as Hl.
  pose proof (nr_max _ _ _ _ _ Hn) as Hmax.
  cbn [Node.size addr]. rewrite (bind_load _ _ _ _ Ha), (nr_cnt _ _ _ _ _ Hn).
  set (fk := λ t : btree V, sum_list_with key_size (flat t)).
  assert (fold_each (range_up 0 (length its + 1)) (length its) (λ s i,
     ch ← child a i;
     match ch with Some c => z ← Node.size fuel c; mret (s + z)%nat | None => mret s end) p
    = (Ok (length its + sum_list_with fk ts)%nat, p)) as Hkids.
  { rewrite <- (sum_by_index fk ts). unfold range_up. rewrite Nat.sub_0_r, Nat.add_1_r.
    destruct Hl as [->|Hl].
    - assert (∀ l : list nat, sum_list_with (λ _, 0%nat) l = 0%nat) as Hzero by (intros l; by induction l).
      rewrite (fold_sum (λ _, 0%nat)); [by rewrite Hzero|].
      intros i s [_ Hi]%elem_of_seq. rewrite Nat.add_0_r.
      run_ok by (eapply child_none; [exact Ha|]; rewrite (nr_no_kids _ _ _ _ _ Hn) by done;
        apply lookup_replicate_2; lia). done.
    - rewrite <- Hl. apply fold_sum. intros i s [_ Hi]%elem_of_seq.
      destruct (lookup_lt_is_Some_2 ts i Hi) as [c Hc]. pose proof (list_elem_of_lookup_2 _ _ _ Hc) as Hcin.
      destruct (rep_kids_live _ _ _ _ _ _ Hr (addr c)) as (cd & Hcd & _); [by apply list_elem_of_fmap_2|].
      run_ok by (eapply child_some; [exact Hp|exact Ha| |exact Hcd];
        apply (nr_kids _ _ _ _ _ Hn); by rewrite list_lookup_fmap, Hc).
      rewrite Hc. cbn [from_option]. rewrite Forall_forall in IH, Hts.
      run_ok by (apply (IH c Hcin (Some a)); [by apply Hts|intros x Hxc; apply Hx; by eapply flat_kids|];
        pose proof (height_kid a its ts c Hcin); lia). done. }
  run_ok by (exact Hkids).
  set (on := λ i, match its !! i with Some x => nx x | None => None end).
  rewrite (size_nexts a nd (length its) _ level F on fuel Ha); [|cbn in Hf; lia|].
  - rewrite sum_flat, sum_key_size by done. fold fk. do 2 f_equal.
    rewrite <- (sum_by_index (λ x, o_size (abs <$> nx x)) its).
    assert (sum_list_with (λ i, o_size (abs <$> on i)) (seq 0 (length its)) =
      sum_list_with (λ i, from_option (λ x, o_size (abs <$> nx x)) 0%nat (its !! i)) (seq 0 (length its))) as ->; [|lia].
    induction (seq 0 (length its)) as [|i l IHl]; [done|]. cbn. rewrite IHl. f_equal.
    unfold on. by destruct (its !! i).
  - intros i Hi. destruct (lookup_lt_is_Some_2 its i Hi) as [x Hxi]. exists x.
    split; [by apply (nr_keys _ _ _ _ _ Hn)|]. unfold on. rewrite Hxi. apply Hx.
    apply flat_items; [done|by eapply list_elem_of_lookup_2].
Qed.
End size.

Section tree_size.
Context `{cfg : !BTreeCfg, Hok : !CfgOk} {V : Type} `{!RuleValue V}.
Implicit Types (p : Heap V) (g : gtrie V).

Lemma layer_size (xs : list (KeyInfo V)) nexts :
  length xs = length nexts →
  t_size (Entries (layer_entries xs (fmap (M := option) abs <$> nexts)))
  = (length xs + sum_list_with (λ o, o_size (abs <$> o)) nexts)%nat.
Proof.
  rewrite t_size_entries. revert nexts. induction xs as [|x xs IH]; intros [|o nexts] Hl; try done.
  unfold layer_entries in *. injection Hl as Hl. cbn [fmap list_fmap zip_with sum_list_with snd length].
  rewrite IH by done. set (A := sum_list_with _ nexts). cbn. destruct o; cbn; lia.
Qed.

Lemma size_ok p fl H order level g :
  heap_ok p fl → g_rep p H order level g → sized p level (S H * (length order - level)) (Some g).
Proof using Hok.
  intros Hp Hg. enough (∀ fuel, (S H * (length order - level) ≤ fuel)%nat →
    Node.size fuel (g_addr g) p = (Ok (t_size (abs g)), p)) as Hs by (intros g' fuel [= <-]; apply Hs).
  revert level Hg. induction g as [t nexts IH|a c cs nl IH] using gtrie_ind';
    intros level Hg fuel Hf; pose proof (g_rep_level _ _ _ _ _ Hg) as Hlev.
  - apply g_rep_layer in Hg as ((d & Hd & Hr) & Hs & Hh & Hn). cbn [g_addr].
    rewrite (size_btree_ok p fl H order Hp (next_of (flat t) nexts) d (S level) (S H * (length order - S level)) t None);
      [|done| |].
    + rewrite abs_layer, layer_size by (by eapply Forall2_length). rewrite sum_key_size. do 3 f_equal.
      pose proof (next_of_map H order p (S level) (flat t) nexts Hs Hn) as Hmap.
      trans (sum_list_with (λ o, o_size (abs <$> o)) (next_of (flat t) nexts <$> flat t)); [|by rewrite Hmap].
      generalize (flat t) at 2 4. clear. intros xs. induction xs as [|x xs IHx]; [done|]. cbn. by rewrite IHx.
    + intros x (j & Hx)%list_elem_of_lookup. destruct (Forall2_lookup_l _ _ _ _ _ Hn Hx) as (o & Ho & Hxo).
      rewrite (next_of_lookup _ _ _ _ _ Hs Hx Ho). split; [done|]. intros g fuel' -> Hf'.
      apply (IH g (list_elem_of_lookup_2 _ _ _ Ho) (S level)); [apply Hxo|done].
    + replace (length order - level)%nat with (S (length order - S level)) in Hf by lia. lia.
  - destruct (chain_parts _ _ _ _ _ _ _ _ Hg) as (nd & Ha & Hc & _ & [Hnone Hlast] & Hcs).
    destruct fuel as [|fuel]; [lia|]. pose proof (cr_max _ _ _ _ Hc) as Hmax.
    cbn [Node.size g_addr]. rewrite (bind_load _ _ _ _ Ha), (cr_cnt _ _ _ _ Hc).
    set (n := length (c :: cs)) in *. assert (n = S (length cs)) as Hnl by done.
    assert (fold_each (range_up 0 (n + 1)) n (λ s i,
       ch ← child a i;
       match ch with Some c => z ← Node.size fuel c; mret (s + z)%nat | None => mret s end) p = (Ok n, p)) as Hkids.
    { assert (∀ l, Forall (λ i, (i < n + 1)%nat) l → fold_each l n (λ s i,
         ch ← child a i;
         match ch with Some c => z ← Node.size fuel c; mret (s + z)%nat | None => mret s end) p = (Ok n, p)) as Hl.
      { induction 1 as [|i l Hi _ IHl]; [done|]. cbn. rewrite bind_assoc.
        run_ok by (eapply child_none; [exact Ha|]; rewrite (cr_no_kids _ _ _ _ Hc); apply lookup_replicate_2; lia).
        by rewrite bind_ret. }
      apply Hl, Forall_forall. intros i Hi%elem_of_seq. lia. }
    run_ok by (exact Hkids). set (on := λ i, if decide (i = n - 1)%nat then nl else None).
    rewrite (size_nexts p fl H order Hp a nd n n (level + n) (S H * (length order - (level + n))) on fuel Ha).
    + do 2 f_equal. pose proof (f_equal o_size (abs_chain a c cs nl)) as He. rewrite chain_size in He.
      cbn [o_size] in He. rewrite He. fold n. f_equal. rewrite Hnl, seq_S, sum_list_with_app. cbn.
      assert (on (length cs) = nl) as -> by (unfold on; by rewrite decide_True by lia).
      assert (∀ m, (m ≤ length cs)%nat → sum_list_with (λ i, o_size (abs <$> on i)) (seq 0 m) = 0%nat) as ->; [|lia|lia].
      intros m. induction m as [|m IHm]; intros Hm; [done|].
      rewrite seq_S, sum_list_with_app, IHm by lia. cbn. unfold on. by rewrite decide_False by lia.
    + assert (length order - (level + n) + 1 ≤ length order - level)%nat as Hlt by lia.
      apply (Nat.mul_le_mono_l _ _ (S H)) in Hlt. lia.
    + intros i Hi. destruct (lookup_lt_is_Some_2 (c :: cs) i Hi) as [x Hx]. exists x.
      split; [by apply (cr_keys _ _ _ _ Hc)|]. unfold on. case_decide as He.
      * subst i. specialize (Hlast x Hx). split; [exact Hlast|]. intros g fuel' -> Hf'.
        by apply (IH g eq_refl (level + n)%nat); [apply Hlast|].
      * split; [apply (Hnone i x Hx); fold n; lia|done].
Qed.
End tree_size.
