(* ===== verification/CollisionSpec.v ===== *)
(** * The collision test on a stored tree

    [does_rule_colide] on trees whose layers are B-trees: in every layer the
    search for the closest key and the scan from it find whether the overlap
    test holds for some key of the layer, so the whole test is one on the
    stored trie.  It decides whether the rule can be inserted whenever the
    overlap test is exact on the keys it meets. *)
From S2P Require Import Prelude Range RuleValue Mempool Node NodeLemmas Search Layer LayerSearch Trie TrieCheck TrieSearch Footprint Slots Insert LookupSpec Split Chain InsertLayer InsertRoot Decompress Integrity InsertNext InsertWalk InsertSpec Build KeyIterator IterSpec Collision Destroy.
Local Open Scope Z_scope.
Local Open Scope pcv_scope.

Section closest.
Context `{cfg : !BTreeCfg, Hok : !CfgOk} {V : Type} `{!RuleValue V}.
Implicit Types (p : Heap V) (nd : Node V) (t : btree V) (x y : KeyInfo V) (l : list (KeyInfo V)).
Context (p : Heap V) (fl : list nat) (d : nat).
Hypothesis Hp : heap_ok p fl.

(** The scan of one node. *)
Lemma closest_seq_ok a nd its val :
  node_at p a = Some nd → (∀ i x, its !! i = Some x → node_key nd i = Some x) → (length its ≤ MAX_DEGREE)%nat →
  Forall (λ x, low (key x) ≤ high (key x)) its →
  ∃ s, ⟪ search_closest_lower_or_equal_seq a val (length its) 0, p ⟫ ⇓ ⟪ s, p ⟫ ∧ scan_result (by_value val) its s.
Proof.
  intros Ha Hks Hmax Hv.
  destruct (search_seq_ok (key <$> its) its (by_value val) (length its) 0) as (s & Hs & Hr); [done| |done|lia|].
  { intros j x Hx. by rewrite list_lookup_fmap, Hx. }
  exists s. split; [|done].
  assert (∀ n i, (i + n = length its)%nat → ∀ s, search_seq (key <$> its) i n (by_value val) = Some s →
    ⟪ search_closest_lower_or_equal_seq a val n i, p ⟫ ⇓ ⟪ s, p ⟫) as Hloop; [|by eapply Hloop].
  clear - Ha Hks Hmax. induction n as [|n IH]; intros i Hi s Hs; cbn [search_seq search_closest_lower_or_equal_seq] in *.
  - by injection Hs as <-.
  - destruct (lookup_lt_is_Some_2 its i) as [x Hx]; [lia|]. run_ok by (eapply get_key_ok; [done|by apply Hks|lia]).
    rewrite list_lookup_fmap, Hx in Hs. cbn in Hs.
    destruct (val <? low (key x)); [by injection Hs as <-|].
    destruct (in_range (key x) val); [by injection Hs as <-|]. apply IH; [lia|done].
Qed.

(** In front of the subtree at [a] is the position [s]. *)
Definition before (B : nat) (par : option ptr) (a : ptr) (s : State) : Prop :=
  ∀ fuel, (B ≤ fuel)%nat → ⟪ pred_ancestor fuel par a, p ⟫ ⇓ ⟪ s, p ⟫.

(** The position the search ends at: a key that contains the value, or else
    a key below it; behind it no key below the value is skipped. *)
Definition closest (F : nat) l (val : Z) (s : State) : Prop :=
  (s = mkState None 0 ∧ ∀ x, x ∈ l → in_range (key x) val = false)
  ∨ ∃ l1 x l2, l = l1 ++ x :: l2 ∧ visits p F s (x :: l2) ∧ (∀ y, y ∈ l1 → high (key y) < val)
      ∧ (in_range (key x) val = true ∨ ∀ y, y ∈ l → in_range (key y) val = false).

(** What is in front of a subtree in the layer: nothing, or a key whose
    position is [sp]. *)
Definition preceded (F : nat) l sp (ks : list (KeyInfo V)) : Prop :=
  (l = [] ∧ sp = mkState None 0) ∨ ∃ l' y, l = l' ++ [y] ∧ visits p F sp (y :: ks).

Lemma not_in_range_past val x : high (key x) < val → in_range (key x) val = false.
Proof. intros Hx. apply not_true_is_false. rewrite in_range_spec. lia. Qed.

Lemma not_in_range_ahead val x : val < low (key x) → in_range (key x) val = false.
Proof. intros Hx. apply not_true_is_false. rewrite in_range_spec. lia. Qed.

(** The search in a leaf. *)
Lemma closest_leaf a its par pre s post sp B F fuel val :
  rep p d par (BNode a its []) → its ≠ [] → after p B par a s → visits p F s post → (B ≤ F)%nat →
  before B par a sp → preceded F pre sp (its ++ post) → sorted_keys its →
  (∀ x, x ∈ pre → high (key x) < val) → (∀ x, x ∈ post → val < low (key x)) → (B < fuel)%nat →
  ∃ st, ⟪ search_closest_lower_or_equal_key fuel (Some a) val, p ⟫ ⇓ ⟪ st, p ⟫ ∧ closest F (pre ++ its ++ post) val st.
Proof using Hp.
  intros Hr Hne Hafter Hv HB Hbefore Hpre Hs Hprev Hpost Hf. pose proof Hr as [(nd & Ha & Hn) _]%rep_unfold.
  pose proof Hs as [Hval _]. pose proof (nr_max _ _ _ _ _ Hn) as Hmax. destruct fuel as [|fuel]; [lia|].
  destruct (closest_seq_ok a nd its val Ha (nr_keys _ _ _ _ _ Hn) Hmax Hval) as (r & Hseq & Hscan).
  cbn [search_closest_lower_or_equal_key]. rewrite (bind_load _ _ _ _ Ha), (nr_cnt _ _ _ _ _ Hn).
  run_ok by exact Hseq. rewrite (nr_leaf _ _ _ _ _ Hn). unfold scan_result in Hscan.
  destruct (found r) eqn:Hfound.
  - destruct Hscan as (x & Hx & Hin). eexists. split; [done|]. right.
    exists (pre ++ take (val_index r) its), x, (drop (S (val_index r)) its ++ post).
    pose proof (lookup_lt_Some _ _ _ Hx) as Hlt. split_and!.
    + rewrite <- (take_drop_middle its _ _ Hx) at 1. by rewrite <- !app_assoc.
    + change (x :: drop (S (val_index r)) its ++ post) with ((x :: drop (S (val_index r)) its) ++ post).
      rewrite <- (drop_S its x _ Hx). by eapply visits_leaf.
    + intros y [Hy|Hy]%elem_of_app; [by apply Hprev|]. rewrite <- (take_drop_middle its _ _ Hx) in Hs.
      apply sorted_app in Hs as (_ & _ & Hb). specialize (Hb y x Hy ltac:(left)). unfold key_before in Hb.
      cbn in Hin. apply in_range_spec in Hin. lia.
    + by left.
  - destruct Hscan as (Hle & Hpast & Hahead). rewrite bool_decide_true by done.
    assert (∀ x, x ∈ pre ++ its ++ post → in_range (key x) val = false) as Hnone.
    { intros x. rewrite !elem_of_app. intros [Hx|[Hx|Hx]].
      - by apply not_in_range_past, Hprev.
      - apply list_elem_of_lookup in Hx as [i Hi].
        destruct (Nat.lt_ge_cases i (val_index r)) as [Hlt|Hge].
        + apply not_in_range_past. destruct (lookup_lt_is_Some_2 its (val_index r - 1)) as [y Hy]; [lia|].
          assert (past (by_value val) (key y)) as Hpy by (apply Hpast; [done|lia]).
          apply (sorted_past (by_value val) (take (val_index r - 1) its) x y); [|done|].
          * rewrite <- (take_S_r _ _ _ Hy). rewrite <- (take_drop (S (val_index r - 1)) its) in Hs.
            by apply sorted_app in Hs as [Hs _].
          * rewrite <- (take_S_r _ _ _ Hy). apply list_elem_of_lookup. exists i. by rewrite lookup_take_lt by lia.
        + apply not_in_range_ahead. destruct (lookup_lt_is_Some_2 its (val_index r)) as [y Hy];
            [apply lookup_lt_Some in Hi; lia|].
          apply (sorted_ahead (by_value val) (drop (S (val_index r)) its) x y); [|by apply Hahead|].
          * rewrite <- (drop_S _ _ _ Hy). rewrite <- (take_drop (val_index r) its) in Hs.
            by apply sorted_app in Hs as (_ & Hs & _).
          * rewrite <- (drop_S _ _ _ Hy). apply list_elem_of_lookup. exists (i - val_index r)%nat.
            rewrite lookup_drop. by replace (val_index r + (i - val_index r))%nat with i by lia.
      - by apply not_in_range_ahead, Hpost. }
    unfold state_prev. cbn [actual index _begin BTreeKeyIterator_at or_ub]. run_pure.
    unfold getPred_global. rewrite (bind_load _ _ _ _ Ha), (nr_leaf _ _ _ _ _ Hn), (nr_parent _ _ _ _ _ Hn).
    rewrite bool_decide_true by done. cbn [Nat.ltb Nat.leb]. eexists. split; [apply Hbefore; lia|].
    destruct Hpre as [[-> ->]|(pre' & y & -> & Hvy)]; [by left|right].
    exists pre', y, (its ++ post). split_and!; [by rewrite <- app_assoc|done| |by right].
    intros x Hx. apply Hprev, elem_of_app. by left.
Qed.

(** What is in front of the [i]-th child of an inner node. *)
Lemma kid_before a its ts par pre post sp B F i c :
  rep p d par (BNode a its ts) → NoDup (addr <$> ts) → length ts = S (length its) → ts !! i = Some c →
  before B par a sp → preceded F pre sp (weave its (flat <$> ts) ++ post) → (height c ≤ F)%nat →
  visits p F (mkState (Some (first_leaf c)) 0) (flat c ++ weave_post its (flat <$> ts) i ++ post) →
  ∃ sp', before (S B) (Some a) (addr c) sp'
    ∧ preceded F (pre ++ weave_pre its (flat <$> ts) i) sp' (flat c ++ weave_post its (flat <$> ts) i ++ post).
Proof using Hp.
  intros Hr Hnd Hl Hc Hbefore Hpre Hh Hv. pose proof Hr as [(nd & Ha & Hn) _]%rep_unfold.
  pose proof (nr_max _ _ _ _ _ Hn) as Hmax.
  assert (∀ fuel, pred_ancestor (S fuel) (Some a) (addr c) p
    = (if (0 <? i)%nat then mret (mkState (Some a) (i - 1)) else pred_ancestor fuel par a) p) as Hanc.
  { intros fuel. cbn [pred_ancestor]. run_ok by (by eapply index_of_child_ok).
    by rewrite (bind_load _ _ _ _ Ha), (nr_parent _ _ _ _ _ Hn). }
  destruct i as [|j].
  - exists sp. split.
    + intros [|fuel] Hf; [lia|]. rewrite Hanc. apply Hbefore. lia.
    + rewrite (weave_split its (flat <$> ts) 0 (flat c)) in Hpre
        by (rewrite ?length_fmap, ?list_lookup_fmap, ?Hc; done).
      change (weave_pre its (flat <$> ts) 0) with (@nil (KeyInfo V)) in Hpre |- *.
      rewrite app_nil_r. cbn [app] in Hpre. by rewrite <- app_assoc in Hpre.
  - pose proof (lookup_lt_Some _ _ _ Hc) as Hlt.
    destruct (lookup_lt_is_Some_2 its j) as [x Hx]; [lia|]. destruct (lookup_lt_is_Some_2 ts j) as [c' Hc']; [lia|].
    exists (mkState (Some a) j). split.
    + intros [|fuel] Hf; [lia|]. rewrite Hanc. cbn [Nat.ltb Nat.leb]. by rewrite Nat.sub_succ, Nat.sub_0_r.
    + right. exists (pre ++ weave_pre its (flat <$> ts) j ++ flat c'), x. split.
      * rewrite (weave_pre_S its (flat <$> ts) j (flat c') x) by (done || by rewrite list_lookup_fmap, Hc').
        by rewrite <- !app_assoc.
      * eapply visits_step; [exact Ha|by apply (nr_keys _ _ _ _ _ Hn)|apply lookup_lt_Some in Hx; lia| |exact Hv].
        intros fuel Hf. eapply (succ_inner p fl d Hp); [exact Hr|exact Hx|exact Hc|lia].
Qed.

Lemma closest_ok t par pre s post sp B F fuel val :
  rep p d par t → t_nonempty t → NoDup (addrs t) → after p B par (addr t) s → visits p F s post →
  (B + height t ≤ F)%nat → before B par (addr t) sp → preceded F pre sp (flat t ++ post) → sorted_keys (flat t) →
  (∀ x, x ∈ pre → high (key x) < val) → (∀ x, x ∈ post → val < low (key x)) →
  (B + 2 * height t ≤ fuel)%nat →
  ∃ st, ⟪ search_closest_lower_or_equal_key fuel (Some (addr t)) val, p ⟫ ⇓ ⟪ st, p ⟫
    ∧ closest F (pre ++ flat t ++ post) val st.
Proof using Hp.
  revert par pre s post sp B fuel. induction t as [a its ts IH] using btree_ind'.
  intros par pre s post sp B fuel Hr [Hne Hnek]%t_nonempty_unfold Hnd Hafter Hv HB Hbefore Hpre Hs Hprev Hpost Hf.
  pose proof Hr as [(nd & Ha & Hn) Hts]%rep_unfold. destruct (rep_arity _ _ _ _ _ Hn) as [->|Hl].
  { cbn [flat fmap list_fmap weave] in *. cbn [height] in *. eapply closest_leaf; [done..|lia|done|done|done|done|done|]. cbn in Hf. lia. }
  change (flat (BNode a its ts)) with (weave its (flat <$> ts)) in *. set (xss := flat <$> ts) in *.
  pose proof (nr_max _ _ _ _ _ Hn) as Hmax. rewrite Forall_forall in IH, Hts, Hnek.
  assert (length xss = S (length its)) as Hlx by (unfold xss; by rewrite length_fmap).
  assert (∀ i c, ts !! i = Some c → xss !! i = Some (flat c)) as Hxss.
  { intros i c Hc. unfold xss. by rewrite list_lookup_fmap, Hc. }
  assert (∀ c s ks, c ∈ ts → after p (S B) (Some a) (addr c) s → visits p F s ks →
     visits p F (mkState (Some (first_leaf c)) 0) (flat c ++ ks)) as Hkids.
  { intros c s' ks' Hin Hafter' Hv'. pose proof (height_kid a its ts c Hin).
    eapply (visits_tree p fl d Hp c (Some a) s' ks' (S B)); [by apply Hts|by apply Hnek|by eapply kid_NoDup|done|done|lia]. }
  assert (Forall (λ x, low (key x) ≤ high (key x)) its) as Hval.
  { destruct Hs as [Hval _]. rewrite Forall_forall in Hval |- *. intros x Hx. apply Hval.
    apply elem_of_weave; [done|by left]. }
  destruct (closest_seq_ok a nd its val Ha (nr_keys _ _ _ _ _ Hn) Hmax Hval) as (r & Hseq & Hscan).
  destruct fuel as [|fuel]; [cbn in Hf; lia|]. cbn [search_closest_lower_or_equal_key addr].
  rewrite (bind_load _ _ _ _ Ha), (nr_cnt _ _ _ _ _ Hn). run_ok by exact Hseq. rewrite (nr_leaf _ _ _ _ _ Hn).
  set (j := val_index r) in *. assert (j ≤ length its)%nat as Hj.
  { unfold scan_result in Hscan. destruct (found r); [|by apply Hscan].
    destruct Hscan as (x & Hx%lookup_lt_Some & _). lia. }
  destruct (lookup_lt_is_Some_2 ts j) as [c Hc]; [lia|]. pose proof (list_elem_of_lookup_2 _ _ _ Hc) as Hcin.
  pose proof (height_kid a its ts c Hcin) as Hh. pose proof (weave_split its xss j (flat c) Hlx (Hxss j c Hc)) as Hsplit.
  destruct (kid_after p fl d Hp a its ts par s post B F) with (n := (length its - j)%nat) (i := j) (c := c)
    as (Ha' & Hv'); [done|by eapply kids_NoDup|done|done|done|done|done|lia|done|]. fold xss in Hv'.
  unfold scan_result in Hscan. fold j in Hscan. destruct (found r).
  - destruct Hscan as (x & Hx & Hin). destruct (lookup_lt_is_Some_2 ts (S j)) as [c' Hc']; [apply lookup_lt_Some in Hx; lia|].
    rewrite (proj2 (Nat.eqb_neq _ _)) in Hv' by (apply lookup_lt_Some in Hx; lia).
    rewrite (weave_post_S its xss j (flat c') x (Hxss _ _ Hc') Hx) in Hv', Hsplit.
    eexists. split; [done|]. right. exists (pre ++ weave_pre its xss j ++ flat c), x, ((flat c' ++ weave_post its xss (S j)) ++ post).
    split_and!; [rewrite Hsplit, <- !app_assoc; cbn [app]; by rewrite <- !app_assoc|exact Hv'| |by left].
    intros y [Hy|Hy]%elem_of_app; [by apply Hprev|]. rewrite Hsplit, app_assoc in Hs.
    apply sorted_app in Hs as (_ & _ & Hb). specialize (Hb y x Hy ltac:(left)). unfold key_before in Hb.
    cbn in Hin. apply in_range_spec in Hin. lia.
  - destruct Hscan as (_ & Hpast & Hahead). rewrite bool_decide_false by (intros ->%fmap_nil_inv; done).
    run_ok by (by eapply (kid_ok p fl d Hp)).
    destruct (kid_before a its ts par pre post sp B F j c) as (sp' & Hb' & Hp'); [done|by eapply kids_NoDup|done|done|done|done|lia| |].
    { by eapply Hkids. }
    set (s' := if (j =? length its)%nat then s else _) in *.
    destruct (IH c Hcin (Some a) (pre ++ weave_pre its xss j) s' (weave_post its xss j ++ post) sp' (S B) fuel)
      as (st & Hst & Hcl); [by apply Hts|by apply Hnek|by eapply kid_NoDup|exact Ha'|exact Hv'|lia|exact Hb'|exact Hp'| | | |lia|].
    + rewrite Hsplit in Hs. apply sorted_app in Hs as (_ & Hs & _). by apply sorted_app in Hs as (Hs & _ & _).
    + intros x [Hx|Hx]%elem_of_app; [by apply Hprev|].
      eapply (pre_past (by_value val) its xss j (flat c ++ weave_post its xss j)); [done|done|by rewrite <- Hsplit| |done].
      exact Hpast.
    + intros x [Hx|Hx]%elem_of_app; [|by apply Hpost].
      eapply (post_ahead (by_value val) its xss j (weave_pre its xss j ++ flat c)); [done|done|rewrite <- app_assoc; by rewrite <- Hsplit| |done].
      exact Hahead.
    + exists st. split; [done|]. rewrite Hsplit, <- !app_assoc. rewrite <- !app_assoc in Hcl. exact Hcl.
Qed.

(** The search in a whole layer. *)
Lemma closest_layer t H fuel val :
  rep p d None t → t_nonempty t → NoDup (addrs t) → sorted_keys (flat t) → (height t ≤ H)%nat → (2 * H ≤ fuel)%nat →
  ∃ st, ⟪ search_closest_lower_or_equal_key fuel (Some (addr t)) val, p ⟫ ⇓ ⟪ st, p ⟫ ∧ closest H (flat t) val st.
Proof using Hp.
  intros Hr Hne Hnd Hs Hh Hf.
  destruct (closest_ok t None [] (mkState None 0) [] (mkState None 0) 0 H fuel val) as (st & Hst & Hcl);
    [done|done|done|by intros []|constructor|lia|by intros []|by left|done|by intros x ?%elem_of_nil|by intros x ?%elem_of_nil|lia|].
  exists st. split; [done|]. by rewrite app_nil_r in Hcl.
Qed.
End closest.

(** ** One layer *)

Section layer.
Context `{cfg : !BTreeCfg, Hok : !CfgOk} {V : Type} `{!RuleValue V}.
Implicit Types (p : Heap V) (x y : KeyInfo V) (l : list (KeyInfo V)) (k : Range1d).

Definition hits k x : bool := overlaps (key x) k.

Lemma hits_past k x : low (key x) ≤ high (key x) → high (key x) < low k → hits k x = false.
Proof.
  intros Hv Hx. unfold hits, overlaps. rewrite !Z.geb_leb.
  destruct (Z.leb_spec (low (key x)) (low k)), (Z.leb_spec (low k) (high (key x))),
    (Z.leb_spec (low k) (low (key x))), (Z.leb_spec (high (key x)) (high k)); try done; lia.
Qed.

Lemma hits_ahead k x : low (key x) ≤ high (key x) → low k ≤ high k → high k < low (key x) → hits k x = false.
Proof.
  intros Hv Hk Hx. unfold hits, overlaps. rewrite !Z.geb_leb.
  destruct (Z.leb_spec (low (key x)) (low k)), (Z.leb_spec (low k) (high (key x))),
    (Z.leb_spec (low k) (low (key x))), (Z.leb_spec (high (key x)) (high k)); try done; lia.
Qed.

(** The scan stops at the first key above the range: no key behind it
    overlaps. *)
Lemma scan_ok p F s l k fuel :
  visits p F s l → sorted_keys l → low k ≤ high k → (0 < F)%nat → (length l + F ≤ fuel)%nat →
  ⟪ collision_scan fuel s k, p ⟫ ⇓ ⟪ existsb (hits k) l, p ⟫.
Proof.
  intros Hv Hs Hk HF. revert fuel. induction Hv as [|a i x s ks nd Ha Hx Hi Hnext _ IH];
    intros [|fuel] Hf; [lia|done|lia|].
  apply (sorted_app [x]) in Hs as ([Hvx _] & Hs & Hb). apply Forall_cons in Hvx as [Hvx _].
  cbn [collision_scan length existsb] in *. unfold State_eq. cbn [actual index]. rewrite bool_decide_false by done.
  cbn [andb]. unfold state_deref, state_next. cbn [actual index or_ub]. run_pure. run_ok by (by eapply get_key_ok).
  fold (hits k x). destruct (hits k x); [done|]. cbn [orb]. rewrite Z.gtb_ltb.
  destruct (Z.ltb_spec (high k) (low (key x))) as [Hgt|Hle].
  - assert (existsb (hits k) ks = false) as ->; [|done]. apply not_true_is_false. rewrite existsb_exists.
    intros (y & Hy%list_elem_of_In & Hhit). destruct Hs as [Hvs _]. rewrite Forall_forall in Hvs.
    specialize (Hb x y ltac:(left) Hy). unfold key_before in Hb. rewrite hits_ahead in Hhit; [done|by apply Hvs|done|lia].
  - run_ok by (apply Hnext; lia). apply IH; [done|lia].
Qed.

(** The range of the key at a position. *)
Definition range_at (st : State) : HM V (option Range1d) :=
  match actual st with Some _ => x ← state_deref st; mret (Some (key x)) | None => mret None end.

(** Where the scan starts. *)
Definition scan_start (fuel : nat) (a : ptr) (st : State) : HM V State :=
  match actual st with
  | Some _ => mret st
  | None => m ← get_most_left fuel a; mret (mkState (Some m) 0)
  end.

Lemma sorted_inj l i j x y :
  sorted_keys l → l !! i = Some x → l !! j = Some y → key x = key y → i = j.
Proof.
  intros Hs Hx Hy He. pose proof Hs as [Hv _]. rewrite Forall_lookup in Hv. specialize (Hv _ _ Hy).
  eapply (sorted_unique l i j x y (low (key y))); [done..| |]; rewrite ?He; apply in_range_spec; lia.
Qed.

(** In a layer the test either finds the key with the range, or the range is
    not a key and the scan tells whether it overlaps one. *)
Lemma layer_ok p fl d t H fuel k :
  heap_ok p fl → rep p d None t → t_nonempty t → NoDup (addrs t) → sorted_keys (flat t) → (height t ≤ H)%nat →
  low k ≤ high k → (length (flat t) + 2 * H ≤ fuel)%nat →
  ∃ st lk, ⟪ search_closest_lower_or_equal_key fuel (Some (addr t)) (low k), p ⟫ ⇓ ⟪ st, p ⟫
    ∧ ⟪ range_at st, p ⟫ ⇓ ⟪ lk, p ⟫
    ∧ ((∃ b i nd j x, st = mkState (Some b) i ∧ lk = Some k ∧ flat t !! j = Some x ∧ key x = k
          ∧ node_at p b = Some nd ∧ node_key nd i = Some x)
       ∨ (∀ x, x ∈ flat t → key x ≠ k) ∧ lk ≠ Some k
         ∧ ⟪ s ← scan_start fuel (addr t) st; collision_scan fuel s k, p ⟫ ⇓ ⟪ existsb (hits k) (flat t), p ⟫).
Proof.
  intros Hp Hr Hne Hnd Hs Hh Hk Hf. assert (0 < height t)%nat by (destruct t; cbn; lia).
  destruct (closest_layer p fl d Hp t H fuel (low k) Hr Hne Hnd Hs Hh) as (st & Hst & Hcl); [lia|].
  assert (∀ x, x ∈ flat t → key x = k → in_range (key x) (low k) = true) as Hself.
  { intros x _ ->. apply in_range_spec. lia. }
  destruct Hcl as [[-> Hnone]|(l1 & x & l2 & Hall & Hv & Hl1 & Hx)].
  - exists (mkState None 0), None. split_and!; [done|done|]. right. split_and!; [|done|].
    + intros x Hx He. specialize (Hself x Hx He). by rewrite Hnone in Hself.
    + unfold scan_start. cbn [actual].
      destruct (first_leaf_ok p fl d Hp t None fuel Hr ltac:(lia)) as [_ Hl]. rewrite bind_assoc.
      run_ok by (exact Hl). run_pure. apply (scan_ok p H); [by eapply visits_layer|done|done|lia|lia].
  - inversion Hv as [|b i x' s' ks nd Hb Hki Hi Hnext Hrest]; subst.
    exists (mkState (Some b) i), (Some (key x)). split_and!; [done| |].
    { unfold range_at, state_deref. cbn [actual index or_ub]. run_pure. by run_ok by (by eapply get_key_ok). }
    assert (flat t !! length l1 = Some x) as Hjx by (rewrite Hall; by apply list_lookup_middle).
    destruct (decide (key x = k)) as [He|Hne'].
    + left. exists b, i, nd, (length l1), x. split_and!; [done|by rewrite He|done..].
    + right. split_and!; [|congruence|].
      * intros y Hy He. pose proof (Hself y Hy He) as Hiny. destruct Hx as [Hinx|Hno]; [|by rewrite Hno in Hiny].
        apply list_elem_of_lookup in Hy as [jy Hjy].
        pose proof (sorted_unique (flat t) _ _ _ _ _ Hs Hjx Hjy Hinx Hiny) as Hj. subst jy. by simplify_eq.
      * unfold scan_start. cbn [actual]. rewrite bind_ret. rewrite Hall in Hs, Hf |- *.
        rewrite length_app in Hf. pose proof Hs as [Hvs _]. rewrite Forall_forall in Hvs.
        rewrite (scan_ok p H _ (x :: l2)); [|done|by apply sorted_app in Hs as (_ & Hs & _)|done|lia|lia].
        rewrite existsb_app. assert (existsb (hits k) l1 = false) as ->; [|done].
        apply not_true_is_false. rewrite existsb_exists. intros (y & Hy%list_elem_of_In & Hhit).
        rewrite hits_past in Hhit; [done|apply Hvs, elem_of_app; by left|by apply Hl1].
Qed.
End layer.

(** ** The whole tree *)

Section collides.
Context {V : Type}.
Implicit Types (ks : list Range1d) (tr : option (trie V)).

(** The test on the stored trie: the first range of the rule that is not a
    key is tested against the keys of its layer. *)
Fixpoint t_collides ks tr : bool :=
  match ks, tr with
  | k :: ks, Some (Entries es) =>
      match find_key k es with
      | Some (_, e) => t_collides ks e.2
      | None => existsb (λ e, overlaps e.1.1 k) es
      end
  | _, _ => false
  end.

(** The overlap test is exact on the keys the test meets. *)
Fixpoint exact_overlaps ks tr : Prop :=
  match ks, tr with
  | k :: ks, Some (Entries es) =>
      Forall (λ e, low k < low e.1.1 → high k < high e.1.1 → high k < low e.1.1) es
      ∧ ∀ e, e ∈ es → e.1.1 = k → exact_overlaps ks e.2
  | _, _ => True
  end.

Fixpoint exact_overlaps_check ks tr : bool :=
  match ks, tr with
  | k :: ks, Some (Entries es) =>
      forallb (λ e, ((low e.1.1 <=? low k) || (high e.1.1 <=? high k) || (high k <? low e.1.1))
        && (if decide (e.1.1 = k) then exact_overlaps_check ks e.2 else true)) es
  | _, _ => true
  end.

Lemma exact_overlaps_check_sound ks tr : exact_overlaps_check ks tr = true → exact_overlaps ks tr.
Proof.
  revert tr. induction ks as [|k ks IH]; intros [[es]|]; try done. cbn [exact_overlaps_check exact_overlaps].
  rewrite forallb_forall. intros He. split.
  - apply Forall_forall. intros e Hin%list_elem_of_In. specialize (He e Hin).
    apply andb_true_iff in He as [He _]. rewrite !orb_true_iff, !Z.leb_le, Z.ltb_lt in He. lia.
  - intros e Hin%list_elem_of_In Hk. specialize (He e Hin). apply andb_true_iff in He as [_ He].
    rewrite decide_True in He by done. by apply IH.
Qed.

Lemma no_such_key k (es : list (Range1d * V * option (trie V))) :
  find_key k es = None ↔ ∀ e, e ∈ es → e.1.1 ≠ k.
Proof. unfold find_key. by rewrite list_find_None, Forall_forall. Qed.

(** A range that does not overlap a key is disjoint from it. *)
Lemma not_overlaps a k :
  low a ≤ high a → low k ≤ high k → (low k < low a → high k < high a → high k < low a) →
  overlaps a k = false ↔ high a < low k ∨ high k < low a.
Proof.
  intros Ha Hk Hx. unfold overlaps. rewrite !Z.geb_leb.
  destruct (Z.leb_spec (low a) (low k)), (Z.leb_spec (low k) (high a)),
    (Z.leb_spec (low k) (low a)), (Z.leb_spec (high a) (high k)); cbn; split; intros; try done; lia.
Qed.
End collides.

Section tree.
Context `{cfg : !BTreeCfg, Hok : !CfgOk} {V : Type} `{!RuleValue V}.
Implicit Types (p : Heap V) (g : gtrie V) (o : option (gtrie V)) (r : rule_spec_t V).

(** Every layer is a B-tree. *)
Fixpoint layered g : Prop :=
  match g with
  | GLayer _ nexts => foldr (λ o P, match o with Some g => layered g | None => True end ∧ P) True nexts
  | GChain _ _ _ _ => False
  end.

(** Only the root may be a compressed node. *)
Definition plain o : Prop :=
  match o with
  | None => True
  | Some (GChain _ _ _ nl) => match nl with Some g => layered g | None => True end
  | Some g => layered g
  end.

Lemma layered_next t nexts g : layered (GLayer t nexts) → Some g ∈ nexts → layered g.
Proof.
  cbn. induction nexts as [|o nexts IH]; [by intros _ ?%elem_of_nil|]. intros [Ho Hn] Hg.
  apply elem_of_cons in Hg as [<-|Hg]; [done|by apply IH].
Qed.

Context p (fl : list nat) (H : nat) (order : list nat) r (ks : list Range1d) (fuel : nat).
Hypothesis Hp : heap_ok p fl.
Hypothesis Hks : Forall2 (λ d k, fields r !! d = Some k) order ks.
Hypothesis Hvalid : Forall (λ k, low k ≤ high k) ks.

Notation loop := (does_rule_colide_loop fuel order r).

(** The loop from the root [o] of a layer for the dimension [level] on. *)
Definition decided (level : nat) o : Prop :=
  ∀ start todo, (level + todo = length order)%nat →
    ⟪ loop (g_addr <$> o) start level todo, p ⟫ ⇓ ⟪ t_collides (drop level ks) (abs <$> o), p ⟫.

Lemma decided_None level : decided level None.
Proof.
  intros start [|todo] _; cbn; by destruct (drop level ks).
Qed.

Lemma next_size t nexts g :
  length (flat t) = length nexts → Some g ∈ nexts → (t_size (abs g) ≤ t_size (abs (GLayer t nexts)))%nat.
Proof.
  intros Hl Hg. rewrite abs_layer, layer_size by done.
  assert (t_size (abs g) ≤ sum_list_with (λ o, o_size (abs <$> o)) nexts)%nat; [|lia].
  clear Hl. induction nexts as [|o nexts IH]; [by apply elem_of_nil in Hg|]. cbn.
  apply elem_of_cons in Hg as [<-|Hg]; [cbn; lia|]. specialize (IH Hg). lia.
Qed.

Lemma layered_decided g level :
  g_rep p H order level g → g_shaped g → NoDup (g_addrs g) → layered g → (t_size (abs g) + 2 * H ≤ fuel)%nat →
  decided level (Some g).
Proof using Hp Hks Hvalid Hok.
  revert level. induction g as [t nexts IH|a c cs o IH] using gtrie_ind'; [|done].
  intros level Hg Hne Hnd Hlay Hf start todo Htodo. pose proof (g_rep_level _ _ _ _ _ Hg) as Hlev.
  pose proof (Forall2_length _ _ _ Hks) as Hlk. destruct todo as [|todo]; [lia|].
  apply g_rep_layer in Hg as ((d & Hd & Hr) & Hs & Hh & Hn). apply g_shaped_layer in Hne as [[Htne _] Hne].
  pose proof Hnd as Hnd'. rewrite g_addrs_layer in Hnd. apply NoDup_app in Hnd as (Hndt & _ & Hndn).
  destruct (Forall2_lookup_l _ _ _ _ _ Hks Hd) as (k & Hk & Hfk).
  assert (low k ≤ high k) as Hkv by (rewrite Forall_lookup in Hvalid; by eapply Hvalid).
  pose proof (Forall2_length _ _ _ Hn) as Hln.
  assert (length (flat t) ≤ t_size (abs (GLayer t nexts)))%nat as Hsz by (rewrite abs_layer, layer_size by done; lia).
  destruct (layer_ok p fl d t H fuel k) as (st & lk & Hst & Hlk' & Hcase); [done..|lia|].
  assert (∃ nd, node_at p (addr t) = Some nd ∧ is_compressed nd = false) as (nd & Ha & Hcomp).
  { destruct t as [a its ts]. apply rep_unfold in Hr as [(nd & Ha & Hnr) _]. exists nd.
    split; [done|]. apply (nr_compressed _ _ _ _ _ Hnr). }
  rewrite (drop_S _ _ _ Hk). cbn [fmap option_fmap option_map g_addr does_rule_colide_loop].
  rewrite Hd. cbn [or_ub]. rewrite bind_ret, Hfk. cbn [or_ub]. rewrite bind_ret, (bind_load _ _ _ _ Ha), Hcomp.
  run_ok by exact Hst. run_ok by exact Hlk'. rewrite abs_layer. cbn [t_collides].
  destruct Hcase as [(b & i & bd & j & x & -> & -> & Hjx & Hkx & Hb & Hbx)|(Hno & Hlkn & Hscan)].
  - destruct (Forall2_lookup_l _ _ _ _ _ Hn Hjx) as (o & Ho & Hxo).
    rewrite (proj2 (range_eq_spec k k)) by done. rewrite <- Hkx.
    rewrite (find_key_layer (flat t) (fmap (M := option) abs <$> nexts) j x (abs <$> o) Hs Hjx)
      by (by rewrite list_lookup_fmap, Ho). cbn [snd].
    destruct (Nat.eqb_spec todo 0) as [->|Htn].
    { rewrite drop_ge by lia. by destruct (abs <$> o) as [[]|]. }
    cbn [actual or_ub KeyIterator.index]. run_pure. run_ok by (by eapply (next_layer_at p fl H order (S level))).
    destruct o as [g|]; [|by apply decided_None; lia].
    pose proof (list_elem_of_lookup_2 _ _ _ Ho) as Hgin. rewrite Forall_lookup in Hne.
    apply (IH g Hgin (S level)); [apply Hxo|by apply (Hne j (Some g))| |by eapply layered_next| |lia].
    + apply (NoDup_concat_part _ _ Hndn). by apply (list_elem_of_fmap_2 o_addrs nexts (Some g)).
    + pose proof (next_size t nexts g Hln Hgin). lia.
  - assert ((match lk with Some lk => range_eq lk k | None => false end) = false) as ->.
    { destruct lk as [lk|]; [|done]. apply not_true_is_false. rewrite range_eq_spec. congruence. }
    unfold scan_start in Hscan. rewrite Hscan.
    rewrite (proj2 (no_such_key k _)).
    + do 2 f_equal. unfold layer_entries. clear - Hln. revert Hln. generalize (flat t) as xs. intros xs. revert nexts.
      induction xs as [|x xs IHx]; intros [|o os] Hl; try done. cbn. unfold hits at 1. f_equal. apply IHx. by injection Hl.
    + intros e He. unfold layer_entries in He. apply list_elem_of_lookup in He as [i Hi].
      rewrite lookup_zip_with in Hi. destruct (flat t !! i) as [x|] eqn:Hx; [|done]. cbn in Hi.
      rewrite list_lookup_fmap in Hi. destruct (nexts !! i); [|done]. injection Hi as <-. cbn.
      apply Hno. by eapply list_elem_of_lookup_2.
Qed.

Lemma t_collides_one ks0 k x (T : option (trie V)) xs :
  t_collides (k :: ks0) (chain_trie (x :: xs) T)
  = if decide (key x = k) then t_collides ks0 (chain_trie xs T) else overlaps (key x) k.
Proof.
  cbn. case_decide; [done|]. cbn. by rewrite orb_false_r.
Qed.

(** A compressed root, from its [i]-th key on. *)
Lemma chain_decided a c cs o :
  g_rep p H order 0 (GChain a c cs o) → decided (length (c :: cs)) o →
  ∀ n i, (S i + n = length (c :: cs))%nat → ∀ todo, (i + todo = length order)%nat →
    ⟪ loop (Some a) 0 i todo, p ⟫ ⇓ ⟪ t_collides (drop i ks) (chain_trie (drop i (c :: cs)) (abs <$> o)), p ⟫.
Proof using Hp Hks Hok.
  intros Hg Ho. destruct (chain_parts _ _ _ _ _ _ _ _ Hg) as (nd & Ha & Hc & _ & [_ Hlast] & _).
  set (its := c :: cs) in *. pose proof (cr_cnt _ _ _ _ Hc) as Hcnt. pose proof (cr_max _ _ _ _ Hc) as Hmax.
  induction n as [|n IH]; intros i Hi todo Htodo;
    (destruct (lookup_lt_is_Some_2 its i) as [x Hx]; [lia|]);
    (destruct (cr_dims _ _ _ _ Hc i) as (d & Hd & _); [lia|]); cbn [Nat.add] in Hd;
    pose proof (lookup_lt_Some _ _ _ Hd); (destruct todo as [|todo]; [lia|]);
    destruct (Forall2_lookup_l _ _ _ _ _ Hks Hd) as (k & Hk & Hfk);
    rewrite (drop_S _ _ _ Hk), (drop_S _ _ _ Hx), t_collides_one;
    cbn [does_rule_colide_loop]; rewrite Hd; cbn [or_ub]; rewrite bind_ret, Hfk; cbn [or_ub];
    rewrite bind_ret, (bind_load _ _ _ _ Ha), (cr_compressed _ _ _ _ Hc), Nat.sub_0_r;
    (run_ok by (eapply get_key_ok; [exact Ha|by apply (cr_keys _ _ _ _ Hc)|lia]));
    (case_decide as He; [rewrite (proj2 (range_eq_spec _ _)) by done|
       rewrite (not_true_is_false (range_eq (key x) k)) by (by rewrite range_eq_spec); by destruct (overlaps (key x) k)]);
    rewrite Hcnt.
  - rewrite (proj2 (Nat.eqb_eq _ _)) by lia.
    run_ok by (eapply (next_layer_at p fl H order (length its)); [exact Hp|exact Ha|by apply (cr_keys _ _ _ _ Hc)|];
      apply Hlast; by replace (length its - 1)%nat with i by lia).
    rewrite (drop_ge its) by lia. cbn [chain_trie]. replace (S i) with (length its) by lia. apply Ho. lia.
  - rewrite (proj2 (Nat.eqb_neq _ _)) by lia. rewrite bind_ret. apply IH; lia.
Qed.

Lemma does_rule_colide_ok o :
  (∀ g, o = Some g → g_rep p H order 0 g) → o_shaped o → NoDup (o_addrs o) → plain o → length order = D →
  (o_size (abs <$> o) + 2 * H ≤ fuel)%nat →
  ⟪ does_rule_colide fuel (g_addr <$> o) order r, p ⟫ ⇓ ⟪ t_collides ks (abs <$> o), p ⟫.
Proof using Hp Hks Hvalid Hok.
  intros Hg Hne Hnd Hpl Hlo Hf. unfold does_rule_colide. rewrite <- Hlo, <- (drop_0 ks).
  destruct o as [[t nexts|a c cs nl]|]; [| |by apply decided_None].
  - apply (layered_decided _ 0); [by apply Hg|done..].
  - specialize (Hg _ eq_refl). cbn [fmap option_fmap option_map g_addr]. rewrite abs_chain, <- (drop_0 (c :: cs)).
    apply (chain_decided a c cs nl Hg) with (n := length cs); [|done|done].
    destruct nl as [g|]; [|apply decided_None]. change (NoDup (a :: g_addrs g)) in Hnd.
    apply NoDup_cons in Hnd as [_ Hnd]. destruct (chain_parts _ _ _ _ _ _ _ _ Hg) as (nd & Ha & Hc & _ & [_ Hlast] & _).
    apply layered_decided; [|done|done|done|].
    + destruct (lookup_lt_is_Some_2 (c :: cs) (length (c :: cs) - 1)) as [x Hx]; [cbn; lia|]. apply (Hlast x Hx).
    + cbn [fmap option_fmap option_map o_size] in Hf.
      pose proof (f_equal o_size (abs_chain a c cs (Some g))) as He. rewrite chain_size in He. cbn [o_size fmap option_fmap option_map] in He. lia.
Qed.
End tree.

(** ** The answer *)

Section answer.
Context `{cfg : !BTreeCfg, Hok : !CfgOk} {V : Type} `{!RuleValue V}.
Implicit Types (p : Heap V) (g : gtrie V) (o : option (gtrie V)) (r : rule_spec_t V).
Implicit Types (ks : list Range1d) (tr : option (trie V)).

(** The ranges of all entries are valid. *)
Inductive valid_trie : option (trie V) → Prop :=
| valid_None : valid_trie None
| valid_Some es :
    (∀ e, e ∈ es → low e.1.1 ≤ high e.1.1 ∧ valid_trie e.2) → valid_trie (Some (Entries es)).

Lemma abs_valid p H order level g : g_rep p H order level g → valid_trie (Some (abs g)).
Proof.
  revert level. induction g as [t nexts IH|a c cs nl IH] using gtrie_ind'; intros level.
  - intros (_ & [Hv _] & _ & Hnx)%g_rep_layer. rewrite abs_layer. constructor. intros e He.
    apply list_elem_of_lookup in He as [i Hi]. unfold layer_entries in Hi. rewrite lookup_zip_with, list_lookup_fmap in Hi.
    destruct (flat t !! i) as [x|] eqn:Hx; [|done]. cbn in Hi. destruct (nexts !! i) as [o|] eqn:Ho; [|done].
    injection Hi as <-. cbn. rewrite Forall_lookup in Hv. split; [by eapply Hv|].
    destruct o as [g'|]; [|constructor]. destruct (Forall2_lookup_l _ _ _ _ _ Hnx Hx) as (o & Ho' & Hn). simplify_eq.
    eapply IH; [by eapply list_elem_of_lookup_2|]. apply Hn.
  - intros Hg. pose proof Hg as (_ & _ & Hv & _ & Hn). rewrite abs_chain.
    assert (valid_trie (abs <$> nl)) as Hnl by (destruct nl as [g'|]; [by eapply IH; [|apply Hn]|constructor]).
    clear - Hv Hnl. induction Hv as [|x xs Hx _ IHx]; [done|]. constructor. intros e ->%list_elem_of_singleton. by split.
Qed.

(** On disjoint layers the test answers [false] exactly when the rule can be
    inserted. *)
Lemma t_collides_no_overlap ks tr :
  disjoint_trie tr → valid_trie tr → Forall (λ k, low k ≤ high k) ks → exact_overlaps ks tr →
  t_collides ks tr = false ↔ no_overlap ks tr.
Proof.
  intros Hd Hv Hks. revert tr Hd Hv. induction Hks as [|k ks Hk _ IH]; intros [[es]|] Hd Hv Hx; try done.
  inversion Hd as [|? Hinj Hdn]; subst. inversion Hv as [|? Hve]; subst. cbn [t_collides no_overlap exact_overlaps] in *.
  destruct Hx as [Hx Hxn]. rewrite Forall_forall in Hx.
  destruct (find_key k es) as [[j e]|] eqn:Hfind.
  - apply list_find_Some in Hfind as (Hj & He & _). pose proof (list_elem_of_lookup_2 _ _ _ Hj) as Hein.
    assert (∀ e', e' ∈ es → e'.1.1 = k → e' = e) as Huniq.
    { intros e' [i Hi]%list_elem_of_lookup He'. assert (i = j) as ->; [|congruence].
      apply (Hinj i j e' e (low k) Hi Hj); apply in_range_spec; rewrite ?He, ?He'; lia. }
    rewrite (IH e.2); [|destruct e as [[? ?] ?]; by eapply Hdn|by apply Hve|by apply Hxn]. split.
    + intros Hn. split; [|intros e' He' Hk'; by rewrite (Huniq e' He' Hk')].
      apply Forall_forall. intros e' He'. destruct (decide (e'.1.1 = k)) as [|Hne]; [by left|right].
      destruct (Hve e' He') as [Hv' _]. apply list_elem_of_lookup in He' as [i Hi].
      destruct (Z.lt_ge_cases (high e'.1.1) (low k)); [by left|].
      destruct (Z.lt_ge_cases (high k) (low e'.1.1)); [by right|]. exfalso.
      assert (i = j) as ->; [|congruence].
      apply (Hinj i j e' e (Z.max (low e'.1.1) (low k)) Hi Hj); apply in_range_spec; rewrite ?He; lia.
    + intros [_ Hn]. by apply Hn.
  - rewrite no_such_key in Hfind. split.
    + intros Hno. split; [|intros e He Hek; by destruct (Hfind e He)]. apply Forall_forall. intros e He. right.
      apply not_overlaps; [by apply Hve|done|by apply Hx|].
      apply not_true_is_false. intros Hov. apply (eq_true_false_abs _) in Hno; [done|].
      apply existsb_exists. exists e. split; [by apply list_elem_of_In|done].
    + intros [Hn _]. rewrite Forall_forall in Hn. apply not_true_is_false. rewrite existsb_exists.
      intros (e & He%list_elem_of_In & Hov). destruct (Hn e He) as [Heq|Hdis]; [by destruct (Hfind e He)|].
      apply (not_overlaps e.1.1 k) in Hdis; [congruence|by apply Hve|done|by apply Hx].
Qed.

(** C11. On a tree without compressed nodes behind the root the collision test
    returns and changes nothing.  Where the overlap test of ranges is exact on
    the keys it meets, it answers no exactly when the rule overlaps no stored
    path without following it, which is what an insertion needs. *)
Theorem does_rule_colide_decides p fl H order o r fuel :
  stores p fl H order o → plain o → rule_ok r → length order = D → Forall (λ d, (d < D)%nat) order →
  exact_overlaps (rule_keys order r) (abs <$> o) → (o_size (abs <$> o) + 2 * H ≤ fuel)%nat →
  ∃ b, ⟪ does_rule_colide fuel (g_addr <$> o) order r, p ⟫ ⇓ ⟪ b, p ⟫
    ∧ (b = false ↔ no_overlap (rule_keys order r) (abs <$> o)).
Proof using Hok.
  intros [Hp Hg Hnd Hne] Hpl Hr Hlo Hod Hx Hf. destruct (rule_keys_ok order r Hr Hod) as [Hks Hv].
  exists (t_collides (rule_keys order r) (abs <$> o)). split.
  - by eapply (does_rule_colide_ok p fl H order r).
  - apply t_collides_no_overlap; [| |done|done]; destruct o as [g|]; try constructor.
    + by eapply abs_disjoint, Hg.
    + by eapply abs_valid, Hg.
Qed.
End answer.

Module CollisionExample.
Import LookupSpec.Example InsertSpec.InsertExample.
#[local] Existing Instance cfg3.

(** Rules that restrict two dimensions at most. *)
Definition plain_rules : list (rule_spec_t RuleValueInt) :=
  [rule3 (exact16 1) (exact16 2) any16 1 1; rule3 (exact16 1) (exact16 7) any16 1 2;
   rule3 (mkRange 16 31) any16 any16 1 3; rule3 (exact16 40) (mkRange 2 9) any16 1 4;
   rule3 (exact16 50) any16 any16 1 5; rule3 (exact16 1) (mkRange 100 200) any16 1 6].

Definition plain_built : result (option ptr) * Heap RuleValueInt :=
  fold_each plain_rules None (λ r rule, insert_rule 30 r [0; 1; 2]%nat rule) pool0.

Definition plain_tree : gtrie RuleValueInt :=
  default (GChain 0 (mkKeyInfo any16 rv_default 0) [] None)
    (match plain_built.1 with Ok (Some r) => g_read 9 plain_built.2 r | _ => None end).

Definition free_nodes : list nat := seq (length (g_addrs plain_tree)) (30 - length (g_addrs plain_tree)).

Lemma plain_stores : stores plain_built.2 free_nodes 9 [0; 1; 2]%nat (Some plain_tree).
Proof. apply stores_check_sound. vm_compute. reflexivity. Qed.

(** A rule that collides below the key [1]. *)
Definition colliding_rule : rule_spec_t RuleValueInt := rule3 (exact16 1) (mkRange 150 160) any16 1 7.

Lemma does_rule_colide_decides_witness :
  plain_built.1 = Ok (Some (g_addr plain_tree))
  ∧ does_rule_colide 60 (g_addr <$> Some plain_tree) [0; 1; 2]%nat colliding_rule plain_built.2 = (Ok true, plain_built.2)
  ∧ ∃ b, ⟪ does_rule_colide 60 (g_addr <$> Some plain_tree) [0; 1; 2]%nat colliding_rule, plain_built.2 ⟫
      ⇓ ⟪ b, plain_built.2 ⟫
    ∧ (b = false ↔ no_overlap (rule_keys [0; 1; 2]%nat colliding_rule) (abs <$> Some plain_tree)).
Proof.
  split; [vm_compute; reflexivity|]. split; [vm_compute; reflexivity|].
  apply (does_rule_colide_decides plain_built.2 free_nodes 9 [0; 1; 2]%nat (Some plain_tree) colliding_rule 60);
    [exact plain_stores|vm_compute; repeat split| |reflexivity| | |apply Nat.leb_le; vm_compute; reflexivity].
  - split; [reflexivity|]. repeat (constructor; [by apply Z.leb_le|]). constructor.
  - by repeat (constructor; [by apply Nat.ltb_lt|]).
  - apply exact_overlaps_check_sound. vm_compute. reflexivity.
Defined.
End CollisionExample.
