(* ===== verification/Rotate.v ===== *)
(** * Borrowing from a sibling and merging siblings

    [borrowFromPrev], [borrowFromNext] and [merge] on a represented layer:
    the keys of the layer in order stay the same, one child of the node gets
    more keys, and a merge returns one node to the pool. *)
From S2P Require Import Prelude Range RuleValue Mempool Node NodeLemmas Search Layer LayerSearch Trie Footprint Slots Insert Split Chain InsertLayer InsertRoot Decompress Integrity Destroy Remove.
Local Open Scope Z_scope.

(** ** Runs of keys and child pointers inside of a node *)

Section shifts.
Context `{cfg : !BTreeCfg, Hok : !CfgOk} {V : Type} `{!RuleValue V}.
Implicit Types (p : Heap V) (nd : Node V).

(** The slots [lo + 1], ..., [hi - 1] moved one place down. *)
Lemma shift_slots_down p a nd lo hi :
  node_at p a = Some nd → node_wf nd → (hi ≤ MAX_DEGREE)%nat →
  (∀ j, (j < hi)%nat → is_Some (slot nd j)) →
  ∃ nd', for_each (range_up (lo + 1) hi) (λ i, move_key a i a (i - 1)) p = (Ok tt, put a nd' p)
    ∧ same_shape nd nd'
    ∧ (∀ j, (j < hi - 1)%nat → slot nd' j = slot nd (if (j <? lo)%nat then j else S j)).
Proof.
  intros Ha Hw Hhi Hs. destruct (decide (lo + 1 ≤ hi)%nat) as [Hlo|Hlo].
  2: { exists nd. rewrite put_id by done. unfold range_up.
       replace (hi - (lo + 1))%nat with 0%nat by lia. split_and!; [done|apply same_shape_refl|].
       intros j Hj. by rewrite (proj2 (Nat.ltb_lt _ _)) by lia. }
  destruct (for_each_up (λ i, move_key a i a (i - 1))
    (λ m p', ∃ nd', p' = put a nd' p ∧ same_shape nd nd'
       ∧ (∀ j, (j < lo ∨ m - 1 ≤ j)%nat → slot nd' j = slot nd j)
       ∧ (∀ j, (lo ≤ j < m - 1)%nat → slot nd' j = slot nd (S j))) (lo + 1) hi p)
    as (p' & Hr & nd' & -> & H1 & H2 & H3); [done| | |exists nd'].
  - exists nd. rewrite put_id by done. split_and!; [done|apply same_shape_refl|done|lia].
  - intros i p' Hi (nd' & -> & Hsh & H1 & H2). destruct (Hs i) as [x Hx]; [lia|].
    eexists. split.
    { eapply (move_slot_ok _ _ nd'); [apply node_at_put_eq| |lia|apply node_at_put_eq| |lia|right; lia].
      - rewrite H1 by lia. exact Hx.
      - by apply (ss_wf _ _ Hsh). }
    exists (set_slot (i - 1) x nd'). rewrite put_put. split_and!; [done| | |].
    + eapply same_shape_trans; [exact Hsh|apply set_slot_shape].
    + intros j Hj. rewrite slot_set_slot; [|by apply (ss_wf _ _ Hsh)|lia].
      rewrite decide_False by lia. apply H1. lia.
    + intros j Hj. rewrite slot_set_slot; [|by apply (ss_wf _ _ Hsh)|lia].
      case_decide as He; [by replace (S j) with i by lia|]. apply H2. lia.
  - split_and!; [done|done|]. intros j Hj. destruct (Nat.ltb_spec j lo); [apply H2|apply H3]; lia.
Qed.

Lemma copy_child_index p a nd i j c :
  node_at p a = Some nd → node_wf nd → child_index nd !! i = Some c → (j ≤ MAX_DEGREE)%nat →
  (c ← get_child_index a i; set_child_index a j c) p = (Ok tt, put a (node_set_child_index j c nd) p).
Proof.
  intros Ha Hw Hc Hj. unfold get_child_index. rewrite bind_assoc, (bind_load _ _ _ _ Ha), Hc.
  cbn [or_ub]. rewrite bind_ret. by apply set_child_index_ok.
Qed.

(** The child pointers [lo + 1], ..., [hi - 1] moved one place down, without
    their parents. *)
Lemma shift_indices_down p a nd lo hi :
  node_at p a = Some nd → node_wf nd → (hi ≤ S MAX_DEGREE)%nat →
  ∃ ci, for_each (range_up (lo + 1) hi) (λ i, c ← get_child_index a i; set_child_index a (i - 1) c) p
        = (Ok tt, put a (with_children ci nd) p)
    ∧ length ci = S MAX_DEGREE
    ∧ (∀ j, (j < hi - 1)%nat → ci !! j = child_index nd !! (if (j <? lo)%nat then j else S j)).
Proof.
  intros Ha Hw Hhi. pose proof (wf_children _ Hw) as Hl.
  destruct (decide (lo + 1 ≤ hi)%nat) as [Hlo|Hlo].
  2: { exists (child_index nd). replace (with_children (child_index nd) nd) with nd by by destruct nd.
       rewrite put_id by done. unfold range_up. replace (hi - (lo + 1))%nat with 0%nat by lia.
       split_and!; [done|done|]. intros j Hj. by rewrite (proj2 (Nat.ltb_lt _ _)) by lia. }
  destruct (for_each_up (λ i, c ← get_child_index a i; set_child_index a (i - 1) c)
    (λ m p', ∃ ci, p' = put a (with_children ci nd) p ∧ length ci = S MAX_DEGREE
       ∧ (∀ j, (j < lo ∨ m - 1 ≤ j)%nat → ci !! j = child_index nd !! j)
       ∧ (∀ j, (lo ≤ j < m - 1)%nat → ci !! j = child_index nd !! S j)) (lo + 1) hi p)
    as (p' & Hr & ci & -> & H1 & H2 & H3); [done| | |exists ci].
  - exists (child_index nd). replace (with_children (child_index nd) nd) with nd by by destruct nd.
    rewrite put_id by done. split_and!; [done|done|done|lia].
  - intros i p' Hi (ci & -> & Hci & H1 & H2).
    destruct (lookup_lt_is_Some_2 (child_index nd) i) as [c Hc]; [lia|].
    eexists. split.
    { eapply copy_child_index; [apply node_at_put_eq|destruct Hw; by split| |lia].
      cbn. rewrite H1 by lia. exact Hc. }
    exists (<[(i - 1)%nat := c]> ci). rewrite put_put, length_insert. split_and!; [done|done| |].
    + intros j Hj. rewrite list_lookup_insert_ne by lia. apply H1. lia.
    + intros j Hj. destruct (decide (j = i - 1)%nat) as [->|].
      * rewrite list_lookup_insert_eq by lia. by replace (S (i - 1)) with i by lia.
      * rewrite list_lookup_insert_ne by lia. apply H2. lia.
  - split_and!; [done|done|]. intros j Hj. destruct (Nat.ltb_spec j lo); [apply H2|apply H3]; lia.
Qed.

(** The first [hi] child pointers moved one place up, without their parents. *)
Lemma shift_indices_up p a nd hi :
  node_at p a = Some nd → node_wf nd → (hi ≤ MAX_DEGREE)%nat →
  ∃ ci, for_each (range_down 0 hi) (λ i, c ← get_child_index a i; set_child_index a (i + 1) c) p
        = (Ok tt, put a (with_children ci nd) p)
    ∧ length ci = S MAX_DEGREE
    ∧ (∀ j, (j < hi)%nat → ci !! S j = child_index nd !! j).
Proof.
  intros Ha Hw Hhi. pose proof (wf_children _ Hw) as Hl.
  destruct (for_each_down (λ i, c ← get_child_index a i; set_child_index a (i + 1) c)
    (λ m p', ∃ ci, p' = put a (with_children ci nd) p ∧ length ci = S MAX_DEGREE
       ∧ (∀ j, (m ≤ j < hi)%nat → ci !! S j = child_index nd !! j)
       ∧ (∀ j, (j ≤ m)%nat → ci !! j = child_index nd !! j)) 0 hi p)
    as (p' & Hr & ci & -> & H1 & H2 & H3); [lia| | |].
  - exists (child_index nd). replace (with_children (child_index nd) nd) with nd by by destruct nd.
    rewrite put_id by done. split_and!; [done|done|lia|done].
  - intros i p' Hi (ci & -> & Hci & H1 & H2).
    destruct (lookup_lt_is_Some_2 (child_index nd) i) as [c Hc]; [lia|].
    eexists. split.
    { eapply copy_child_index; [apply node_at_put_eq|destruct Hw; by split| |lia].
      cbn. rewrite H2 by lia. exact Hc. }
    exists (<[(i + 1)%nat := c]> ci). rewrite put_put, length_insert. split_and!; [done|done| |].
    + intros j Hj. destruct (decide (j = i)) as [->|].
      * rewrite Nat.add_1_r, list_lookup_insert_eq by lia. done.
      * rewrite list_lookup_insert_ne by lia. apply H1. lia.
    + intros j Hj. rewrite list_lookup_insert_ne by lia. apply H2. lia.
  - exists ci. split_and!; [done|done|]. intros j Hj. apply H2. lia.
Qed.
End shifts.

(** ** Nodes that get or lose a key at one end *)

Section ends.
Context `{cfg : !BTreeCfg, Hok : !CfgOk} {V : Type} `{!RuleValue V}.
Implicit Types (p : Heap V) (nd : Node V) (its : list (KeyInfo V)) (cs : list ptr) (x m : KeyInfo V).

Lemma node_rep_change d par its cs its' cs' nd nd' :
  node_rep d par its cs nd → node_wf nd' → key_cnt nd' = length its' → (length its' ≤ MAX_DEGREE)%nat →
  is_compressed nd' = is_compressed nd → is_leaf nd' = is_leaf nd → parent nd' = parent nd →
  (∀ i k, its' !! i = Some k → slot nd' i = Some (k, d)) →
  (cs = [] → cs' = [] ∧ child_index nd' = child_index nd) →
  (cs ≠ [] → length cs' = S (length its')
     ∧ ∀ i c, cs' !! i = Some c → child_index nd' !! i = Some (to_index c)) →
  node_rep d par its' cs' nd'.
Proof.
  intros Hn Hw Hc Hm Hcp Hlf Hpa Hs H0 H1. destruct (decide (cs = [])) as [->|Hne].
  - destruct (H0 eq_refl) as [-> Hci]. apply node_rep_intro; try done; try by left.
    + by rewrite Hcp, (nr_compressed _ _ _ _ _ Hn).
    + by rewrite Hlf, (nr_leaf _ _ _ _ _ Hn).
    + intros _. by rewrite Hci, (nr_no_kids _ _ _ _ _ Hn).
    + by rewrite Hpa, (nr_parent _ _ _ _ _ Hn).
  - destruct (H1 Hne) as [Hl Hci]. assert (cs' ≠ []) by by intros ->.
    apply node_rep_intro; try done; try by right.
    + by rewrite Hcp, (nr_compressed _ _ _ _ _ Hn).
    + by rewrite Hlf, (nr_leaf _ _ _ _ _ Hn), !bool_decide_false.
    + by rewrite Hpa, (nr_parent _ _ _ _ _ Hn).
Qed.

Lemma with_children_wf ci nd : node_wf nd → length ci = S MAX_DEGREE → node_wf (with_children ci nd).
Proof. intros []. by split. Qed.

(** A key replaced. *)
Lemma node_rep_set_slot d par its1 m x its2 cs nd :
  node_rep d par (its1 ++ m :: its2) cs nd →
  node_rep d par (its1 ++ x :: its2) cs (set_slot (length its1) (x, d) nd).
Proof.
  intros Hn. pose proof (nr_wf _ _ _ _ _ Hn) as Hw. pose proof (nr_max _ _ _ _ _ Hn) as Hmax.
  pose proof (nr_arity _ _ _ _ _ Hn) as Hl.
  assert (length (its1 ++ x :: its2) = length (its1 ++ m :: its2)) as Hlen by (by rewrite !length_app).
  assert (length its1 < MAX_DEGREE)%nat as Hlt by (rewrite length_app in Hmax; cbn [length] in Hmax; lia).
  apply (node_rep_change _ _ (its1 ++ m :: its2) cs _ _ nd); rewrite ?Hlen; try done.
  - by apply (ss_wf _ _ (set_slot_shape _ _ _)).
  - apply (nr_cnt _ _ _ _ _ Hn).
  - intros i k Hi. rewrite slot_set_slot by (done || lia). case_decide as He.
    + subst. rewrite lookup_app_r, Nat.sub_diag in Hi by lia. by injection Hi as ->.
    + eapply nr_slot; [done|]. destruct (decide (i < length its1)%nat).
      * by rewrite lookup_app_l in * by lia.
      * rewrite lookup_app_r in * by lia. destruct (i - length its1)%nat eqn:E; [lia|done].
  - intros Hne. split; [by destruct Hl|]. apply (nr_kids _ _ _ _ _ Hn).
Qed.

(** A key, and a child, at the end. *)
Lemma node_rep_snoc d par its cs nd m (oc : option ptr) ci :
  node_rep d par its cs nd → (length its < MAX_DEGREE)%nat → (oc = None ↔ cs = []) →
  ci = match oc with
       | None => child_index nd
       | Some c => <[(length its + 1)%nat := to_index c]> (child_index nd)
       end →
  node_rep d par (its ++ [m]) (cs ++ option_list oc)
    (node_set_key_cnt (length its + 1) (with_children ci (set_slot (length its) (m, d) nd))).
Proof.
  intros Hn Hlt Hoc Hci. pose proof (nr_wf _ _ _ _ _ Hn) as Hw. pose proof (nr_arity _ _ _ _ _ Hn) as Hl.
  pose proof (wf_children _ Hw) as Hwc.
  apply (node_rep_change _ _ its cs _ _ nd); rewrite ?length_app; cbn [length]; try done; try lia.
  - apply node_wf_set_cnt, with_children_wf; [by apply (ss_wf _ _ (set_slot_shape _ _ _))|].
    subst ci. destruct oc; by rewrite ?length_insert.
  - intros i k Hi. change (slot (set_slot (length its) (m, d) nd) i = Some (k, d)).
    rewrite slot_set_slot by (done || lia). case_decide as He.
    + subst. rewrite lookup_app_r, Nat.sub_diag in Hi by lia. by injection Hi as ->.
    + pose proof (lookup_lt_Some _ _ _ Hi) as Hlen. rewrite length_app in Hlen. cbn in Hlen.
      rewrite lookup_app_l in Hi by lia. by eapply nr_slot.
  - intros ->. destruct oc as [c|]; [|by subst]. by destruct Hoc as [_ Hoc]; specialize (Hoc eq_refl).
  - intros Hne. destruct oc as [c|]; [|by destruct Hoc as [Hoc _]; specialize (Hoc eq_refl)].
    destruct Hl as [|Hl]; [done|]. cbn. split; [lia|]. intros i c' Hi. subst ci.
    destruct (decide (i = length its + 1)%nat) as [->|].
    + rewrite lookup_app_r in Hi by lia. replace (length its + 1 - length cs)%nat with 0%nat in Hi by lia.
      injection Hi as ->. apply list_lookup_insert_eq. lia.
    + rewrite list_lookup_insert_ne by lia. apply (nr_kids _ _ _ _ _ Hn).
      pose proof (lookup_lt_Some _ _ _ Hi) as Hlen. rewrite length_app in Hlen. cbn in Hlen.
      by rewrite lookup_app_l in Hi by lia.
Qed.

(** A key, and a child, less at the front. *)
Lemma node_rep_tail d par x its cs nd nd1 ci :
  node_rep d par (x :: its) cs nd → same_shape nd nd1 →
  (∀ j, (j < length its)%nat → slot nd1 j = slot nd (S j)) → length ci = S MAX_DEGREE →
  (cs = [] → ci = child_index nd) →
  (cs ≠ [] → ∀ j, (j < S (length its))%nat → ci !! j = child_index nd !! S j) →
  node_rep d par its (drop 1 cs) (node_set_key_cnt (length its) (with_children ci nd1)).
Proof.
  intros Hn Hsh Hs Hlci H0 H1. pose proof (nr_wf _ _ _ _ _ Hn) as Hw. pose proof (nr_arity _ _ _ _ _ Hn) as Hl.
  pose proof (nr_max _ _ _ _ _ Hn) as Hmax. cbn [length] in *.
  apply (node_rep_change _ _ (x :: its) cs _ _ nd); try done; try lia.
  - apply node_wf_set_cnt, with_children_wf; [by apply (ss_wf _ _ Hsh)|done].
  - apply (ss_compressed _ _ Hsh).
  - apply (ss_leaf _ _ Hsh).
  - apply (ss_parent _ _ Hsh).
  - intros i k Hi. change (slot nd1 i = Some (k, d)). rewrite Hs by (by eapply lookup_lt_Some).
    by apply (nr_slot _ _ _ _ _ (S i) k Hn).
  - intros ->. split; [done|]. by apply H0.
  - intros Hne. destruct Hl as [|Hl]; [done|]. split; [rewrite length_drop; lia|].
    intros i c Hi. rewrite lookup_drop in Hi. pose proof (lookup_lt_Some _ _ _ Hi).
    cbn. rewrite H1 by (done || lia). by apply (nr_kids _ _ _ _ _ Hn).
Qed.

(** A key, and a child, more at the front. *)
Lemma node_rep_cons d par x its cs nd nd1 (oc : option ptr) ci :
  node_rep d par its cs nd → (length its < MAX_DEGREE)%nat → same_shape nd nd1 →
  slot nd1 0 = Some (x, d) → (∀ j, (j < length its)%nat → slot nd1 (S j) = slot nd j) →
  (oc = None ↔ cs = []) → length ci = S MAX_DEGREE →
  (cs = [] → ci = child_index nd) → (∀ c, oc = Some c → ci !! 0%nat = Some (to_index c)) →
  (cs ≠ [] → ∀ j, (j < S (length its))%nat → ci !! S j = child_index nd !! j) →
  node_rep d par (x :: its) (option_list oc ++ cs) (node_set_key_cnt (length its + 1) (with_children ci nd1)).
Proof.
  intros Hn Hlt Hsh Hs0 Hs Hoc Hlci H0 Hc0 H1. pose proof (nr_wf _ _ _ _ _ Hn) as Hw.
  pose proof (nr_arity _ _ _ _ _ Hn) as Hl.
  apply (node_rep_change _ _ its cs _ _ nd); cbn [length]; try done; try lia.
  - apply node_wf_set_cnt, with_children_wf; [by apply (ss_wf _ _ Hsh)|done].
  - cbn. lia.
  - apply (ss_compressed _ _ Hsh).
  - apply (ss_leaf _ _ Hsh).
  - apply (ss_parent _ _ Hsh).
  - intros i k Hi. change (slot nd1 i = Some (k, d)). destruct i as [|i]; cbn in Hi; [by simplify_eq|].
    rewrite Hs by (by eapply lookup_lt_Some). by eapply nr_slot.
  - intros ->. destruct oc as [c|]; [by destruct Hoc as [_ Hoc]; specialize (Hoc eq_refl)|].
    split; [done|]. by apply H0.
  - intros Hne. destruct oc as [c|]; [|by destruct Hoc as [Hoc _]; specialize (Hoc eq_refl)].
    destruct Hl as [|Hl]; [done|]. cbn. split; [lia|]. intros [|i] c' Hi; cbn in Hi.
    + injection Hi as <-. by apply Hc0.
    + pose proof (lookup_lt_Some _ _ _ Hi). rewrite H1 by (done || lia). by apply (nr_kids _ _ _ _ _ Hn).
Qed.

(** A key, and a child, less at the end. *)
Lemma node_rep_init d par its x cs nd :
  node_rep d par (its ++ [x]) cs nd →
  node_rep d par its (take (S (length its)) cs) (node_set_key_cnt (length its) nd).
Proof.
  intros Hn. pose proof (node_rep_take _ _ _ _ _ (length its) Hn) as Ht.
  rewrite take_app_length in Ht. apply Ht. rewrite length_app. cbn. lia.
Qed.

(** The loops of [borrowFromNext] and [borrowFromPrev] over the sibling that
    loses its first key, and over the child that gets a new first key. *)
Lemma drop_front p a nd d par x its cs leaf :
  node_at p a = Some nd → node_rep d par (x :: its) cs nd → leaf = bool_decide (cs = []) →
  ∃ nd1 nd2,
    for_each (range_up 1 (S (length its))) (λ i, move_key a i a (i - 1)) p = (Ok tt, put a nd1 p)
    ∧ (if leaf then mret tt
       else for_each (range_up 1 (S (S (length its))))
              (λ i, c ← get_child_index a i; set_child_index a (i - 1) c)) (put a nd1 p)
      = (Ok tt, put a nd2 p)
    ∧ node_rep d par its (drop 1 cs) (node_set_key_cnt (length its) nd2).
Proof.
  intros Ha Hn ->. pose proof (nr_max _ _ _ _ _ Hn) as Hmax. pose proof (nr_wf _ _ _ _ _ Hn) as Hw.
  cbn [length] in Hmax.
  destruct (shift_slots_down p a nd 0 (S (length its))) as (nd1 & Hs & Hsh & Hsl); [done|done|lia| |].
  { intros j Hj. destruct (lookup_lt_is_Some_2 (x :: its) j) as [k Hk]; [cbn; lia|].
    eexists. by eapply nr_slot. }
  pose proof (ss_wf _ _ Hsh Hw) as Hw1. pose proof (ss_children _ _ Hsh) as Hch.
  assert (∀ j, (j < length its)%nat → slot nd1 j = slot nd (S j)) as Hsl'
    by (intros j Hj; rewrite Hsl by lia; done).
  destruct (decide (cs = [])) as [->|Hne].
  - rewrite bool_decide_true by done. exists nd1, (with_children (child_index nd) nd1).
    split_and!; [done|rewrite <- Hch; by destruct nd1|].
    apply (node_rep_tail _ _ x its [] nd); try done. apply (wf_children _ Hw).
  - rewrite bool_decide_false by done.
    destruct (shift_indices_down (put a nd1 p) a nd1 0 (S (S (length its)))) as (ci & Hrun & Hlen & Hci);
      [apply node_at_put_eq|done|lia|]. rewrite put_put in Hrun.
    exists nd1, (with_children ci nd1). split_and!; [done|done|].
    apply (node_rep_tail _ _ x its cs nd); try done. intros _ j Hj. by rewrite Hci, Hch by lia.
Qed.

Lemma open_front p a nd d par its cs leaf :
  node_at p a = Some nd → node_rep d par its cs nd → (length its < MAX_DEGREE)%nat →
  leaf = bool_decide (cs = []) →
  ∃ nd1 ci,
    for_each (range_down 0 (length its)) (λ i, move_key a i a (i + 1)) p = (Ok tt, put a nd1 p)
    ∧ (if leaf then mret tt
       else for_each (range_down 0 (S (length its)))
              (λ i, c ← get_child_index a i; set_child_index a (i + 1) c)) (put a nd1 p)
      = (Ok tt, put a (with_children ci nd1) p)
    ∧ same_shape nd nd1 ∧ length ci = S MAX_DEGREE
    ∧ (∀ x oc, (oc = None ↔ cs = []) →
        node_rep d par (x :: its) (option_list oc ++ cs)
          (node_set_key_cnt (length its + 1) (with_children
             (match oc with None => ci | Some c => <[0%nat := to_index c]> ci end)
             (set_slot 0 (x, d) nd1)))).
Proof.
  intros Ha Hn Hlt ->. pose proof (nr_wf _ _ _ _ _ Hn) as Hw. destruct max_degree as [HM _].
  destruct (shift_slots_up p a nd 0 (length its)) as (nd1 & Hs & Hsh & Hsl & _); [done|done|lia|lia| |].
  { intros j Hj. destruct (lookup_lt_is_Some_2 its j Hj) as [k Hk]. eexists. by eapply nr_slot. }
  pose proof (ss_wf _ _ Hsh Hw) as Hw1. pose proof (ss_children _ _ Hsh) as Hch.
  assert (∃ ci, (if bool_decide (cs = []) then mret tt
       else for_each (range_down 0 (S (length its)))
              (λ i, c ← get_child_index a i; set_child_index a (i + 1) c)) (put a nd1 p)
      = (Ok tt, put a (with_children ci nd1) p) ∧ length ci = S MAX_DEGREE
      ∧ (cs = [] → ci = child_index nd)
      ∧ (cs ≠ [] → ∀ j, (j < S (length its))%nat → ci !! S j = child_index nd !! j))
    as (ci & Hrun & Hlen & H0 & H1).
  { destruct (decide (cs = [])) as [->|Hne].
    - rewrite bool_decide_true by done. exists (child_index nd). rewrite (wf_children _ Hw).
      split_and!; [rewrite <- Hch; by destruct nd1|done..].
    - rewrite bool_decide_false by done.
      destruct (shift_indices_up (put a nd1 p) a nd1 (S (length its))) as (ci & Hrun & Hlen & Hci);
        [apply node_at_put_eq|done|lia|]. rewrite put_put in Hrun.
      exists ci. split_and!; [done|done|done|]. intros _ j Hj. by rewrite Hci, Hch by lia. }
  exists nd1, ci. split_and!; [done|done|done|done|]. intros x oc Hoc.
  apply (node_rep_cons _ _ _ _ _ nd); try done.
  - eapply same_shape_trans; [exact Hsh|apply set_slot_shape].
  - rewrite slot_set_slot by (done || lia). by rewrite decide_True.
  - intros j Hj. rewrite slot_set_slot by (done || lia). rewrite decide_False by done. apply Hsl. lia.
  - destruct oc; by rewrite ?length_insert.
  - intros Hcs. rewrite (proj2 Hoc Hcs). by apply H0.
  - intros c ->. apply list_lookup_insert_eq. lia.
  - intros Hne j Hj. destruct oc; [rewrite list_lookup_insert_ne by done|]; by apply H1.
Qed.

(** A key, and the child behind it, taken out of the middle. *)
Lemma node_rep_remove d par its1 m its2 cs1 l r cs2 nd nd1 ci :
  node_rep d par (its1 ++ m :: its2) (cs1 ++ l :: r :: cs2) nd → length cs1 = length its1 →
  same_shape nd nd1 → length ci = S MAX_DEGREE →
  (∀ j, (j < length its1 + length its2)%nat →
     slot nd1 j = slot nd (if (j <? length its1)%nat then j else S j)) →
  (∀ j, (j < length its1 + length its2 + 1)%nat →
     ci !! j = child_index nd !! (if (j <? length its1 + 1)%nat then j else S j)) →
  node_rep d par (its1 ++ its2) (cs1 ++ l :: cs2)
    (node_set_key_cnt (length its1 + length its2) (with_children ci nd1)).
Proof.
  intros Hn Hl Hsh Hci Hs Hc. pose proof (nr_wf _ _ _ _ _ Hn) as Hw. pose proof (nr_max _ _ _ _ _ Hn) as Hmax.
  pose proof (nr_arity _ _ _ _ _ Hn) as [Hl'|Hl']; [by destruct cs1|].
  rewrite length_app in Hmax, Hl'. rewrite length_app in Hl'. cbn [length] in Hmax, Hl'.
  apply (node_rep_change _ _ _ _ _ _ nd _ Hn); rewrite ?length_app; try done; try lia.
  - apply node_wf_set_cnt, with_children_wf; [by apply (ss_wf _ _ Hsh)|done].
  - apply (ss_compressed _ _ Hsh).
  - apply (ss_leaf _ _ Hsh).
  - apply (ss_parent _ _ Hsh).
  - intros i k Hi. change (slot nd1 i = Some (k, d)). pose proof (lookup_lt_Some _ _ _ Hi) as Hlt.
    rewrite length_app in Hlt. rewrite Hs by lia. eapply nr_slot; [done|]. destruct (Nat.ltb_spec i (length its1)).
    + by rewrite lookup_app_l in * by lia.
    + rewrite lookup_app_r in * by lia. by replace (S i - length its1)%nat with (S (i - length its1)) by lia.
  - by destruct cs1.
  - intros _. cbn [length]. split; [lia|]. intros i c Hi. pose proof (lookup_lt_Some _ _ _ Hi) as Hlt.
    rewrite length_app in Hlt. cbn [length] in Hlt. cbn. rewrite Hc by lia. apply (nr_kids _ _ _ _ _ Hn).
    destruct (Nat.ltb_spec i (length its1 + 1)) as [Hlt1|Hge1].
    + destruct (decide (i < length cs1)%nat); [by rewrite lookup_app_l in * by lia|].
      rewrite lookup_app_r in * by lia. by replace (i - length cs1)%nat with 0%nat in * by lia.
    + rewrite lookup_app_r in * by lia. replace (S i - length cs1)%nat with (S (S (i - length cs1 - 1))) by lia.
      by replace (i - length cs1)%nat with (S (i - length cs1 - 1)) in Hi by lia.
Qed.

(** A key and all keys of the sibling behind it at the end. *)
Lemma node_rep_append d par its cs nd nd1 m its' cs' ci n :
  node_rep d par its cs nd → same_shape nd nd1 → n = (length its + length its' + 1)%nat → (n ≤ MAX_DEGREE)%nat →
  (∀ j, (j < length its)%nat → slot nd1 j = slot nd j) → slot nd1 (length its) = Some (m, d) →
  (∀ j k, its' !! j = Some k → slot nd1 (j + (length its + 1))%nat = Some (k, d)) →
  (cs = [] → cs' = [] ∧ ci = child_index nd) → (cs ≠ [] → length cs' = S (length its')) →
  length ci = S MAX_DEGREE → (∀ j, (j < length cs)%nat → ci !! j = child_index nd !! j) →
  (∀ j c, cs' !! j = Some c → ci !! (j + (length its + 1))%nat = Some (to_index c)) →
  node_rep d par (its ++ m :: its') (cs ++ cs') (node_set_key_cnt n (with_children ci nd1)).
Proof.
  intros Hn Hsh -> Hmax Hs1 Hsm Hs2 H0 H1 Hci Hc1 Hc2. pose proof (nr_wf _ _ _ _ _ Hn) as Hw.
  pose proof (nr_arity _ _ _ _ _ Hn) as Hl.
  apply (node_rep_change _ _ _ _ _ _ nd _ Hn); rewrite ?length_app; cbn [length]; try done; try lia.
  - apply node_wf_set_cnt, with_children_wf; [by apply (ss_wf _ _ Hsh)|done].
  - cbn. lia.
  - apply (ss_compressed _ _ Hsh).
  - apply (ss_leaf _ _ Hsh).
  - apply (ss_parent _ _ Hsh).
  - intros i k Hi. change (slot nd1 i = Some (k, d)). destruct (decide (i < length its)%nat).
    + rewrite lookup_app_l in Hi by lia. rewrite Hs1 by lia. by eapply nr_slot.
    + rewrite lookup_app_r in Hi by lia. destruct (i - length its)%nat as [|j] eqn:E; cbn in Hi.
      * replace i with (length its) by lia. congruence.
      * replace i with (j + (length its + 1))%nat by lia. by apply Hs2.
  - intros Hcs. destruct (H0 Hcs) as [-> ->]. by subst.
  - intros Hne. destruct Hl as [|Hl]; [done|]. rewrite H1 by done. split; [lia|]. intros i c Hi.
    cbn. destruct (decide (i < length cs)%nat).
    + rewrite lookup_app_l in Hi by lia. rewrite Hc1 by lia. by apply (nr_kids _ _ _ _ _ Hn).
    + rewrite lookup_app_r in Hi by lia. apply Hc2 in Hi. rewrite <- Hi. f_equal. lia.
Qed.

(** ** Accesses *)

Lemma child_at_ok p fl a nd d par its cs i c :
  heap_ok p fl → node_at p a = Some nd → node_rep d par its cs nd → cs !! i = Some c →
  is_Some (node_at p c) → child_at a i p = (Ok c, p).
Proof.
  intros Hp Ha Hn Hi [cd Hc]. unfold child_at.
  by run_ok by (eapply child_some; [done|done|by apply (nr_kids _ _ _ _ _ Hn)|done]).
Qed.

(** One child moved from a node to another. *)
Lemma give_child p fl src sd si dst dd di oc leaf :
  heap_ok p fl → node_at p src = Some sd → node_at p dst = Some dd → node_wf dd → (di ≤ MAX_DEGREE)%nat →
  leaf = bool_decide (oc = None) →
  (∀ c, oc = Some c → child_index sd !! si = Some (to_index c) ∧ is_Some (node_at p c) ∧ dst ≠ c) →
  ∃ p', (if leaf then mret tt else _ch ← child src si; set_child dst di _ch) p = (Ok tt, p')
    ∧ heap_ok p' fl
    ∧ node_at p' dst = Some (with_children
        (match oc with None => child_index dd | Some c => <[di := to_index c]> (child_index dd) end) dd)
    ∧ (∀ c, oc = Some c → node_at p' c = node_set_parent (Some dst) <$> node_at p c)
    ∧ (∀ b, b ≠ dst → Some b ≠ oc → node_at p' b = node_at p b).
Proof.
  intros Hp Hs Hd Hw Hdi -> Hoc. destruct oc as [c|].
  - rewrite bool_decide_false by done. destruct (Hoc c eq_refl) as (Hci & [cd Hc] & Hne).
    eexists. split.
    { run_ok by (by eapply child_some). by eapply set_child_ok. }
    split; [eapply heap_ok_put; [by eapply heap_ok_put|by rewrite node_at_put_ne]|].
    rewrite node_at_put_ne, node_at_put_eq by done. split; [by destruct dd|]. split.
    + intros c' [= <-]. by rewrite node_at_put_eq, Hc.
    + intros b Hb Hbc. rewrite !node_at_put_ne; [done| |]; congruence.
  - rewrite bool_decide_true by done. exists p. split; [done|]. split; [done|].
    split; [by destruct dd|]. by split.
Qed.
End ends.

(** ** Trees that change in place *)

Section reworked.
Context `{cfg : !BTreeCfg, Hok : !CfgOk} {V : Type} `{!RuleValue V}.
Implicit Types (p : Heap V) (nd : Node V) (t : btree V) (its : list (KeyInfo V)) (fl : list nat).

(** The layer [t] became [t'] under the same root: the nodes it lost are free,
    the memory outside of it is the same. *)
Record reworked p fl p' fl' (d : nat) (par : option ptr) t t' : Prop := {
  rw_heap : heap_ok p' fl';
  rw_rep : rep p' d par t';
  rw_addr : addr t' = addr t;
  rw_nodes : ∃ F, addrs t ≡ₚ addrs t' ++ F ∧ fl' ≡ₚ F ++ fl;
  rw_frame : ∀ b, b ∉ addrs t → node_at p' b = node_at p b;
}.

Lemma reworked_refl p fl d par t : heap_ok p fl → rep p d par t → reworked p fl p fl d par t t.
Proof. intros Hp Hr. split; [done..| |done]. exists []. by rewrite app_nil_r. Qed.

Lemma reworked_trans p fl p1 fl1 p2 fl2 d par t t1 t2 :
  reworked p fl p1 fl1 d par t t1 → reworked p1 fl1 p2 fl2 d par t1 t2 →
  reworked p fl p2 fl2 d par t t2.
Proof.
  intros [_ _ Ha1 (F1 & HF1 & Hl1) Hf1] [Hp2 Hr2 Ha2 (F2 & HF2 & Hl2) Hf2]. split; [done|done|congruence| |].
  - exists (F2 ++ F1). rewrite HF1, HF2, Hl2, Hl1, !app_assoc. done.
  - intros b Hb. rewrite Hf2, Hf1; [done..|]. intros Hb1. apply Hb. rewrite HF1. set_solver.
Qed.

Lemma reworked_NoDup p fl p' fl' d par t t' :
  reworked p fl p' fl' d par t t' → NoDup (addrs t) → NoDup (addrs t').
Proof. intros [_ _ _ (F & -> & _) _]. by intros (? & _ & _)%NoDup_app. Qed.

Lemma reworked_nonempty p fl p' fl' d par t t' :
  reworked p fl p' fl' d par t t' → fl ≠ [] → fl' ≠ [].
Proof.
  intros [_ _ _ (F & _ & Hl) _] Hne ->. symmetry in Hl.
  by apply Permutation_nil_r, app_eq_nil in Hl as [_ ?].
Qed.

Lemma reworked_modifies p fl p' fl' d par t t' :
  reworked p fl p' fl' d par t t' → modifies p p' (addrs t) (addrs t').
Proof.
  intros [_ _ _ (F & HF & _) Hf]. split.
  - intros b nd Hb Hn. by rewrite Hf.
  - intros b Hb. left. rewrite HF. set_solver.
Qed.

(** A child changes in place. *)
Lemma reworked_kid p fl p' fl' d par a its ks i c c' :
  rep p d par (BNode a its ks) → NoDup (addrs (BNode a its ks)) → ks !! i = Some c →
  reworked p fl p' fl' d (Some a) c c' →
  reworked p fl p' fl' d par (BNode a its ks) (BNode a its (<[i := c']> ks)).
Proof.
  intros Hr Hnd Hi Hc. pose proof Hc as [Hp' Hc' Ha (F & HF & Hl) Hf]. split; [done| |done| |].
  - eapply rep_insert_kid; [done..| |done|done]. by eapply reworked_modifies.
  - exists F. split; [|done]. rewrite !addrs_unfold. cbn [app]. f_equiv.
    rewrite <- (take_drop_middle _ _ _ Hi) at 1. rewrite insert_take_drop by (by eapply lookup_lt_Some).
    rewrite !fmap_app, !fmap_cons, !concat_app, !concat_cons, HF. solve_Permutation.
  - intros b Hb. apply Hf. intros Hbc. apply Hb. eapply addrs_kid; [|done]. by eapply list_elem_of_lookup_2.
Qed.

(** The root gets other keys in its slots. *)
Lemma reworked_root p fl d par a nd nd' its its' ks :
  heap_ok p fl → rep p d par (BNode a its ks) → NoDup (addrs (BNode a its ks)) → node_at p a = Some nd →
  node_rep d par its' (addr <$> ks) nd' →
  reworked p fl (put a nd' p) fl d par (BNode a its ks) (BNode a its' ks).
Proof.
  intros Hp Hr Hnd Ha Hn'. split; [by eapply heap_ok_put| |done| |].
  - pose proof Hr as [_ Hks]%rep_unfold. apply rep_unfold. split; [eexists; split; [apply node_at_put_eq|done]|].
    rewrite Forall_forall in Hks |- *. intros k Hk. eapply rep_frame; [by apply Hks|].
    intros b Hb. rewrite node_at_put_ne; [done|]. intros <-.
    destruct (addrs_disjoint _ _ _ Hnd) as (Hd & _). by destruct (Hd k Hk).
  - exists []. by rewrite !addrs_unfold, app_nil_r.
  - intros b Hb. rewrite node_at_put_ne; [done|]. intros <-. apply Hb, (addrs_root (BNode a its ks)).
Qed.
End reworked.

(** ** Two neighbouring children and the key between them *)

Section pair.
Context `{cfg : !BTreeCfg, Hok : !CfgOk} {V : Type} `{!RuleValue V}.
Implicit Types (p : Heap V) (nd : Node V) (t : btree V) (its : list (KeyInfo V)) (ks : list (btree V)).

Definition pair_tree (a : ptr) its1 (m : KeyInfo V) its2 ks1 ks2 (L R : btree V) : btree V :=
  BNode a (its1 ++ m :: its2) (ks1 ++ L :: R :: ks2).

Lemma weave_one {A} (its1 its2 : list A) xs1 l xs2 :
  length xs1 = length its1 → length xs2 = length its2 →
  weave (its1 ++ its2) (xs1 ++ l :: xs2)
  = concat (zip_with (λ xs k, xs ++ [k]) xs1 its1) ++ l ++ concat (zip_with cons its2 xs2).
Proof.
  intros H1 H2. rewrite (weave_split _ _ (length its1) l).
  - unfold weave_pre, weave_post. rewrite take_app_length' by done. rewrite take_app_length.
    rewrite drop_app_length. rewrite <- H1, drop_app_ge by lia.
    by replace (S (length xs1) - length xs1)%nat with 1%nat by lia.
  - rewrite !length_app. cbn. lia.
  - rewrite lookup_app_r by lia. by rewrite H1, Nat.sub_diag.
Qed.

Lemma pair_flat a its1 m its2 ks1 ks2 L R :
  length ks1 = length its1 → length ks2 = length its2 →
  flat (pair_tree a its1 m its2 ks1 ks2 L R)
  = concat (zip_with (λ xs k, xs ++ [k]) (flat <$> ks1) its1) ++ (flat L ++ m :: flat R)
      ++ concat (zip_with cons its2 (flat <$> ks2)).
Proof.
  intros H1 H2. unfold pair_tree. cbn [flat]. rewrite fmap_app, !fmap_cons.
  rewrite weave_one by (cbn; rewrite ?length_fmap; lia). cbn. by rewrite <- app_assoc.
Qed.

Lemma one_flat a its1 its2 ks1 ks2 k :
  length ks1 = length its1 → length ks2 = length its2 →
  flat (BNode a (its1 ++ its2) (ks1 ++ k :: ks2))
  = concat (zip_with (λ xs k, xs ++ [k]) (flat <$> ks1) its1) ++ flat k
      ++ concat (zip_with cons its2 (flat <$> ks2)).
Proof.
  intros H1 H2. cbn [flat]. rewrite fmap_app, !fmap_cons. by apply weave_one; rewrite length_fmap.
Qed.

(** The nodes of such a tree. *)
Section aliases.
Context (a : ptr) (its1 its2 : list (KeyInfo V)) (m : KeyInfo V) (ks1 ks2 : list (btree V)).
Context (l r : ptr) (lits rits : list (KeyInfo V)) (lks rks : list (btree V)).
Let t := pair_tree a its1 m its2 ks1 ks2 (BNode l lits lks) (BNode r rits rks).
Let outer := concat (addrs <$> (ks1 ++ ks2)).
Let inner := concat (addrs <$> (lks ++ rks)).

Lemma pair_addrs : addrs t ≡ₚ a :: l :: r :: inner ++ outer.
Proof.
  unfold t, pair_tree, inner, outer. rewrite addrs_unfold, !fmap_app, !fmap_cons, !concat_app, !concat_cons.
  rewrite !addrs_unfold. cbn [app]. solve_Permutation.
Qed.

Hypothesis Hnd : NoDup (addrs t).

Lemma pair_roots : a ≠ l ∧ a ≠ r ∧ l ≠ r.
Proof using Hnd.
  rewrite pair_addrs in Hnd. apply NoDup_cons in Hnd as [Ha [Hl _]%NoDup_cons].
  split_and!; intros ->; [apply Ha|apply Ha; right|apply Hl]; by left.
Qed.

Lemma pair_inner b : b ∈ inner → b ≠ a ∧ b ≠ l ∧ b ≠ r ∧ b ∉ outer.
Proof using Hnd.
  rewrite pair_addrs in Hnd.
  apply NoDup_cons in Hnd as [Ha [Hl [Hr (_ & Hd & _)%NoDup_app]%NoDup_cons]%NoDup_cons].
  intros Hb. split_and!; [intros ->..|by apply Hd].
  - apply Ha. do 2 right. apply elem_of_app. by left.
  - apply Hl. right. apply elem_of_app. by left.
  - apply Hr. apply elem_of_app. by left.
Qed.

Lemma pair_outer b : b ∈ outer → b ≠ a ∧ b ≠ l ∧ b ≠ r ∧ b ∉ inner.
Proof using Hnd.
  intros Hb. split_and!; [..|by intros (_ & _ & _ & ?)%pair_inner].
  all: rewrite pair_addrs in Hnd;
    apply NoDup_cons in Hnd as [Ha [Hl [Hr _]%NoDup_cons]%NoDup_cons]; intros ->.
  - apply Ha. do 2 right. apply elem_of_app. by right.
  - apply Hl. right. apply elem_of_app. by right.
  - apply Hr. apply elem_of_app. by right.
Qed.

Lemma pair_inner_NoDup : NoDup inner.
Proof using Hnd.
  rewrite pair_addrs in Hnd. apply NoDup_cons in Hnd as [_ [_ [_ (? & _)%NoDup_app]%NoDup_cons]%NoDup_cons].
  done.
Qed.

Lemma inner_kid k b : k ∈ lks ++ rks → b ∈ addrs k → b ∈ inner.
Proof. intros Hk Hb. apply elem_of_concat. exists (addrs k). split; [done|]. by apply list_elem_of_fmap_2. Qed.

Lemma outer_kid k b : k ∈ ks1 ++ ks2 → b ∈ addrs k → b ∈ outer.
Proof. intros Hk Hb. apply elem_of_concat. exists (addrs k). split; [done|]. by apply list_elem_of_fmap_2. Qed.

Lemma inner_root c : c ∈ addr <$> lks ++ rks → c ∈ inner.
Proof. intros (k & -> & Hk)%list_elem_of_fmap. by eapply inner_kid, addrs_root. Qed.

(** The roots of the grandchildren are different, and no other nodes of them. *)
Lemma inner_roots k b : k ∈ lks ++ rks → b ∈ addrs k → b ≠ addr k → b ∉ addr <$> lks ++ rks.
Proof using Hnd.
  intros (i & Hi)%list_elem_of_lookup Hb Hne (k' & -> & (j & Hj)%list_elem_of_lookup)%list_elem_of_fmap.
  assert (i = j) as ->; [|by simplify_eq].
  eapply (NoDup_concat_inj _ _ _ _ _ _ pair_inner_NoDup); [by rewrite list_lookup_fmap, Hi
    |by rewrite list_lookup_fmap, Hj|done|apply addrs_root].
Qed.

Lemma inner_roots_NoDup : NoDup (addr <$> lks ++ rks).
Proof using Hnd.
  apply NoDup_alt. intros i j b Hi Hj. rewrite list_lookup_fmap in Hi, Hj.
  apply fmap_Some in Hi as (k & Hi & ->), Hj as (k' & Hj & He).
  eapply (NoDup_concat_inj _ _ _ _ _ _ pair_inner_NoDup); [by rewrite list_lookup_fmap, Hi
    |by rewrite list_lookup_fmap, Hj|apply addrs_root|]. rewrite He. apply addrs_root.
Qed.

(** ** The memory of the tree after the pair has changed *)

Context (p : Heap V) (fl : list nat) (d : nat) (par : option ptr).
Hypothesis Hr : rep p d par t.

Lemma pair_reps :
  (∃ nd, node_at p a = Some nd ∧ node_rep d par (its1 ++ m :: its2) ((addr <$> ks1) ++ l :: r :: (addr <$> ks2)) nd)
  ∧ (∃ ld, node_at p l = Some ld ∧ node_rep d (Some a) lits (addr <$> lks) ld)
  ∧ (∃ rd, node_at p r = Some rd ∧ node_rep d (Some a) rits (addr <$> rks) rd)
  ∧ Forall (rep p d (Some a)) (ks1 ++ ks2) ∧ Forall (rep p d (Some l)) lks ∧ Forall (rep p d (Some r)) rks.
Proof using Hr.
  unfold t, pair_tree in Hr. apply rep_unfold in Hr as [Ha Hk]. rewrite fmap_app, !fmap_cons in Ha.
  apply Forall_app in Hk as [Hk1 [Hl [Hrr Hk2]%Forall_cons]%Forall_cons].
  apply rep_unfold in Hl as [Hl Hlk], Hrr as [Hrr Hrk].
  split_and!; [done..| |done|done]. by apply Forall_app.
Qed.

Lemma inner_rep p' q k :
  k ∈ lks ++ rks → node_at p' (addr k) = node_set_parent (Some q) <$> node_at p (addr k) →
  (∀ b, b ∈ inner → b ∉ addr <$> lks ++ rks → node_at p' b = node_at p b) → rep p' d (Some q) k.
Proof using Hok Hnd Hr.
  intros Hk Hroot Hf. destruct pair_reps as (_ & _ & _ & _ & Hlk & Hrk). rewrite Forall_forall in Hlk, Hrk.
  assert (∃ q0, rep p d q0 k) as [q0 Hk0].
  { apply elem_of_app in Hk as [Hk|Hk]; eexists; [by apply Hlk|by apply Hrk]. }
  destruct (rep_live _ _ _ _ Hk0) as [nd Hnode]. rewrite Hnode in Hroot.
  eapply rep_reparent; [exact Hk0|exact Hnode| |exact Hroot|].
  - eapply NoDup_concat_part; [exact pair_inner_NoDup|]. by apply list_elem_of_fmap_2.
  - intros b Hb Hne. apply Hf; [by eapply inner_kid|by eapply inner_roots].
Qed.

Lemma outer_rep p' k :
  k ∈ ks1 ++ ks2 → (∀ b, b ∈ outer → node_at p' b = node_at p b) → rep p' d (Some a) k.
Proof using Hok Hnd Hr.
  intros Hk Hf. destruct pair_reps as (_ & _ & _ & Hks & _). rewrite Forall_forall in Hks.
  eapply rep_frame; [by apply Hks|]. intros b Hb. apply Hf. by eapply outer_kid.
Qed.

(** A child points to its new parent, the others are the same. *)
Definition adopted p' (q : ptr) ks : Prop :=
  ∀ k, k ∈ ks → node_at p' (addr k) = node_set_parent (Some q) <$> node_at p (addr k).

Definition elsewhere p' : Prop :=
  ∀ b, b ≠ a → b ≠ l → b ≠ r → b ∉ addr <$> lks ++ rks → node_at p' b = node_at p b.

Lemma elsewhere_frame p' b : elsewhere p' → b ∉ addrs t → node_at p' b = node_at p b.
Proof.
  intros Hf Hb. rewrite pair_addrs in Hb.
  apply Hf; [intros ->; apply Hb..|intros Hin; apply Hb].
  - by left.
  - right. by left.
  - do 2 right. by left.
  - do 3 right. apply elem_of_app. left. by apply inner_root.
Qed.

Lemma elsewhere_kids p' :
  elsewhere p' → (∀ b, b ∈ inner → b ∉ addr <$> lks ++ rks → node_at p' b = node_at p b)
  ∧ (∀ b, b ∈ outer → node_at p' b = node_at p b).
Proof using Hnd.
  intros Hf. split.
  - intros b (? & ? & ? & _)%pair_inner Hb. by apply Hf.
  - intros b (? & ? & ? & Hb)%pair_outer. apply Hf; [done..|]. by intros ?%inner_root.
Qed.

Lemma pair_rebuild p' m' lits' lks' rits' rks' nd' ld' rd' :
  heap_ok p' fl → lks' ++ rks' = lks ++ rks →
  node_at p' a = Some nd' →
  node_rep d par (its1 ++ m' :: its2) ((addr <$> ks1) ++ l :: r :: (addr <$> ks2)) nd' →
  node_at p' l = Some ld' → node_rep d (Some a) lits' (addr <$> lks') ld' →
  node_at p' r = Some rd' → node_rep d (Some a) rits' (addr <$> rks') rd' →
  adopted p' l lks' → adopted p' r rks' → elsewhere p' →
  reworked p fl p' fl d par t (pair_tree a its1 m' its2 ks1 ks2 (BNode l lits' lks') (BNode r rits' rks')).
Proof using Hok Hnd Hr.
  intros Hp' Hks Ha Hn' Hl Hln Hrr Hrn Hal Har Hf. pose proof (elsewhere_kids _ Hf) as [Hfi Hfo].
  assert (∀ k, k ∈ lks' ∨ k ∈ rks' → k ∈ lks ++ rks) as Hin by (intros k; rewrite <- Hks; set_solver).
  split; [done| |done| |by intros b; apply elsewhere_frame].
  - unfold pair_tree. apply rep_unfold. rewrite fmap_app, !fmap_cons. split; [by exists nd'|].
    apply Forall_app. rewrite !Forall_cons, !rep_unfold. split_and!; [|by exists ld'| |by exists rd'| |].
    all: apply Forall_forall; intros k Hk.
    + apply outer_rep; [set_solver|done].
    + apply inner_rep; [auto|by apply Hal|done].
    + apply inner_rep; [auto|by apply Har|done].
    + apply outer_rep; [set_solver|done].
  - exists []. split; [|done]. rewrite app_nil_r, pair_addrs. unfold pair_tree, outer, inner.
    rewrite <- Hks, addrs_unfold, !fmap_app, !fmap_cons, !concat_app, !concat_cons, !addrs_unfold.
    cbn [app]. solve_Permutation.
Qed.

Lemma pair_merged p' fl' lits' nd' ld' :
  heap_ok p' fl' → fl' ≡ₚ r :: fl →
  node_at p' a = Some nd' → node_rep d par (its1 ++ its2) ((addr <$> ks1) ++ l :: (addr <$> ks2)) nd' →
  node_at p' l = Some ld' → node_rep d (Some a) lits' (addr <$> lks ++ rks) ld' →
  adopted p' l (lks ++ rks) → elsewhere p' →
  reworked p fl p' fl' d par t (BNode a (its1 ++ its2) (ks1 ++ BNode l lits' (lks ++ rks) :: ks2)).
Proof using Hok Hnd Hr.
  intros Hp' Hfl Ha Hn' Hl Hln Hal Hf. pose proof (elsewhere_kids _ Hf) as [Hfi Hfo].
  split; [done| |done| |by intros b; apply elsewhere_frame].
  - apply rep_unfold. rewrite fmap_app, !fmap_cons. split; [by exists nd'|].
    apply Forall_app. rewrite !Forall_cons, !rep_unfold. split_and!; [|by exists ld'| |].
    all: apply Forall_forall; intros k Hk.
    + apply outer_rep; [set_solver|done].
    + apply inner_rep; [done|by apply Hal|done].
    + apply outer_rep; [set_solver|done].
  - exists [r]. split; [|done]. rewrite pair_addrs. unfold outer, inner.
    rewrite addrs_unfold, !fmap_app, fmap_cons, !concat_app, concat_cons, addrs_unfold.
    rewrite fmap_app, concat_app. cbn [app]. solve_Permutation.
Qed.
(** ** The operations *)

Hypothesis Hp : heap_ok p fl.
Hypothesis Hl1 : length ks1 = length its1.
Hypothesis Hleaf : lks = [] ↔ rks = [].

Lemma inner_root_ne c : c ∈ addr <$> lks ++ rks → c ≠ a ∧ c ≠ l ∧ c ≠ r.
Proof using Hok Hnd. by intros (? & ? & ? & _)%inner_root%pair_inner. Qed.

(** Which children of the two nodes are different. *)
Lemma NoDup_head (cs1 cs2 : list ptr) c :
  NoDup (cs1 ++ cs2) → cs2 !! 0%nat = Some c → c ∉ cs1 ∧ c ∉ drop 1 cs2.
Proof.
  destruct cs2 as [|c' cs2]; [done|]. intros (_ & Hd & [Hn _]%NoDup_cons)%NoDup_app [= ->]. split; [|done].
  intros Hc. apply (Hd c Hc). by left.
Qed.

(** The children keep their parents where they are not moved. *)
Lemma kept_parent q ks k nd :
  Forall (rep p d (Some q)) ks → k ∈ ks → node_at p (addr k) = node_set_parent (Some q) <$> node_at p (addr k).
Proof.
  rewrite Forall_forall. intros Hks Hk. specialize (Hks k Hk). destruct k as [b its' ks'].
  apply rep_unfold in Hks as [(bd & Hb & Hn) _]. cbn [addr]. rewrite Hb. cbn.
  by rewrite node_set_parent_id by apply (nr_parent _ _ _ _ _ Hn).
Qed.

Lemma child_at_pair : child_at a (length its1) p = (Ok l, p) ∧ child_at a (length its1 + 1) p = (Ok r, p).
Proof using Hok Hr Hp Hl1.
  destruct pair_reps as ((nd & Ha & Hn) & (ld & Hl & _) & (rd & Hrd & _) & _).
  assert (length (addr <$> ks1) = length its1) as Hl1' by (by rewrite length_fmap).
  split; (eapply child_at_ok; [exact Hp|exact Ha|exact Hn| |by eexists]); rewrite lookup_app_r by lia; rewrite Hl1'.
  - by rewrite Nat.sub_diag.
  - by replace (length its1 + 1 - length its1)%nat with 1%nat by lia.
Qed.

Lemma inner_live k : k ∈ lks ++ rks → is_Some (node_at p (addr k)) ∧ addr k ≠ a ∧ addr k ≠ l ∧ addr k ≠ r.
Proof using Hok Hnd Hr.
  intros Hk. split; [|by apply inner_root_ne, list_elem_of_fmap_2].
  destruct pair_reps as (_ & _ & _ & _ & Hlk & Hrk). rewrite Forall_forall in Hlk, Hrk.
  apply elem_of_app in Hk as [Hk|Hk]; eapply rep_live; [by apply Hlk|by apply Hrk].
Qed.

Lemma borrowFromNext_ok x rits' :
  rits = x :: rits' → (length lits < MAX_DEGREE)%nat →
  ∃ p', borrowFromNext a (length its1) p = (Ok tt, p')
    ∧ reworked p fl p' fl d par t
        (pair_tree a its1 x its2 ks1 ks2 (BNode l (lits ++ [m]) (lks ++ take 1 rks)) (BNode r rits' (drop 1 rks))).
Proof using Hok Hnd Hr Hp Hl1 Hleaf.
  intros Hrits Hlt. destruct pair_roots as (Hal & Har & Hlr). destruct child_at_pair as [Hchl Hchr].
  destruct pair_reps as ((nd & Ha & Hn) & (ld & Hl & Hln) & (rd & Hrd & Hrn) & _ & Hlk & Hrk).
  pose proof (nr_max _ _ _ _ _ Hn) as Hmax. rewrite length_app in Hmax. cbn [length] in Hmax.
  rewrite Hrits in Hrn. pose proof (nr_max _ _ _ _ _ Hrn) as Hrmax. cbn [length] in Hrmax.
  set (oc := addr <$> (rks !! 0%nat)).
  assert (oc = None ↔ lks = []) as Hoc.
  { unfold oc. rewrite fmap_None, Hleaf. split; [|by intros ->]. by destruct rks. }
  assert (∀ c, oc = Some c → (addr <$> rks) !! 0%nat = Some c ∧ ∃ k, k ∈ lks ++ rks ∧ c = addr k) as Hocs.
  { intros c (k & Hk & ->)%fmap_Some. rewrite list_lookup_fmap, Hk. split; [done|]. exists k.
    split; [apply elem_of_app; right; by eapply list_elem_of_lookup_2|done]. }
  assert (∀ k, k ∈ lks ∨ k ∈ drop 1 rks → Some (addr k) ≠ oc) as Hmv.
  { intros k Hk He. symmetry in He. destruct (Hocs _ He) as (Hc & _).
    pose proof inner_roots_NoDup as Hndr. rewrite fmap_app in Hndr.
    destruct (NoDup_head _ _ _ Hndr Hc) as [H1 H2]. rewrite <- fmap_drop in H2.
    destruct Hk; [apply H1|apply H2]; by apply list_elem_of_fmap_2. }
  unfold borrowFromNext. run_ok by (exact Hchl). run_ok by (exact Hchr).
  rewrite (bind_load _ _ _ _ Hl), (bind_load _ _ _ _ Hrd).
  rewrite (nr_cnt _ _ _ _ _ Hln), (nr_cnt _ _ _ _ _ Hrn), (nr_leaf _ _ _ _ _ Hln), (nr_leaf _ _ _ _ _ Hrn).
  set (ld1 := set_slot (length lits) (m, d) ld).
  run_ok by (eapply (move_slot_ok p a nd); [done|eapply nr_slot; [exact Hn|apply list_lookup_middle; done]|lia|exact Hl
    |apply (nr_wf _ _ _ _ _ Hln)|lia|by left]). fold ld1.
  pose proof (heap_ok_put _ _ _ ld1 _ Hp Hl) as Hp1. set (p1 := put l ld1 p) in *.
  destruct (give_child p1 fl r rd 0 l ld1 (length lits + 1) oc (bool_decide (addr <$> lks = [])))
    as (p2 & Hg & Hp2 & Hl2 & Hc2 & Ho2); [done|unfold p1; by rewrite node_at_put_ne|apply node_at_put_eq
    |apply (ss_wf _ _ (set_slot_shape _ _ _)), (nr_wf _ _ _ _ _ Hln)|lia| | |].
  { apply bool_decide_ext. rewrite Hoc. by destruct lks. }
  { intros c Hc. destruct (Hocs c Hc) as (Hci & k & Hin & ->). destruct (inner_live k Hin) as (? & _ & ? & _).
    split; [by apply (nr_kids _ _ _ _ _ Hrn)|]. unfold p1. by rewrite node_at_put_ne by auto. }
  run_ok by (exact Hg). set (ld2 := with_children _ ld1) in Hl2.
  assert (∀ b, b ≠ l → Some b ≠ oc → node_at p2 b = node_at p b) as Hp2o.
  { intros b Hb Hbc. rewrite Ho2 by done. unfold p1. by rewrite node_at_put_ne by auto. }
  assert (Some a ≠ oc ∧ Some r ≠ oc) as [Hao Hro].
  { split; intros He; symmetry in He; destruct (Hocs _ He) as (_ & k & Hin & Hk);
      by destruct (inner_live k Hin) as (_ & ? & _ & ?). }
  set (nd1 := set_slot (length its1) (x, d) nd).
  run_ok by (eapply (move_slot_ok p2 r rd); [by rewrite Hp2o by auto|by eapply nr_slot|lia|by rewrite Hp2o by auto
    |apply (nr_wf _ _ _ _ _ Hn)|lia|by left]). fold nd1.
  destruct (drop_front (put a nd1 p2) r rd d (Some a) x rits' (addr <$> rks) (bool_decide (addr <$> rks = [])))
    as (rd1 & rd2 & Hs1 & Hs2 & Hrn'); [by rewrite node_at_put_ne, Hp2o by auto|done|done|].
  cbn [length]. run_ok by (exact Hs1). run_ok by (exact Hs2).
  replace (Z.of_nat (length lits) + 1) with (Z.of_nat (length lits + 1)) by lia.
  replace (Z.of_nat (S (length rits')) - 1) with (Z.of_nat (length rits')) by lia.
  run_ok by (apply set_key_cnt_ok; [rewrite !node_at_put_ne by done; exact Hl2|lia]).
  erewrite set_key_cnt_ok; [|rewrite node_at_put_ne by done; apply node_at_put_eq|lia].
  eexists. split; [done|].
  eapply (pair_rebuild _ x (lits ++ [m]) (lks ++ take 1 rks) rits' (drop 1 rks) nd1).
  - repeat eapply heap_ok_put; rewrite ?node_at_put_ne by done; [exact Hp2| | | |];
      rewrite ?Hp2o by auto; try done; first [exact Hl2|apply node_at_put_eq].
  - by rewrite <- app_assoc, take_drop.
  - rewrite !node_at_put_ne by done. apply node_at_put_eq.
  - by eapply node_rep_set_slot.
  - rewrite node_at_put_ne by done. apply node_at_put_eq.
  - assert (addr <$> lks ++ take 1 rks = (addr <$> lks) ++ option_list oc) as ->.
    { rewrite fmap_app. f_equal. unfold oc. by destruct rks. }
    apply node_rep_snoc; [done|done| |done]. rewrite Hoc. by destruct lks.
  - apply node_at_put_eq.
  - by rewrite fmap_drop.
  - intros k [Hk|Hk]%elem_of_app.
    + destruct (inner_live k) as (_ & ? & ? & ?); [set_solver|].
      rewrite !node_at_put_ne, Hp2o by auto. by eapply kept_parent.
    + destruct (inner_live k) as (_ & ? & ? & ?); [apply elem_of_app; right; by eapply elem_of_take_in|].
      rewrite !node_at_put_ne by auto. rewrite Hc2; [unfold p1; by rewrite node_at_put_ne by auto|].
      unfold oc. destruct rks; [by apply elem_of_nil in Hk|]. cbn in Hk. rewrite take_0 in Hk.
      by apply list_elem_of_singleton in Hk as ->.
  - intros k Hk. pose proof (elem_of_drop_in _ _ _ Hk) as Hk'.
    destruct (inner_live k) as (_ & ? & ? & ?); [set_solver|].
    rewrite !node_at_put_ne, Hp2o by auto. by eapply kept_parent.
  - intros b ??? Hb. rewrite !node_at_put_ne by auto. apply Hp2o; [done|].
    intros He; symmetry in He. destruct (Hocs _ He) as (_ & k & ? & ->). by apply Hb, list_elem_of_fmap_2.
Qed.

Lemma borrowFromPrev_ok x lits' :
  lits = lits' ++ [x] → (length rits < MAX_DEGREE)%nat →
  let n := S (length lits') in
  ∃ p', borrowFromPrev a (length its1 + 1) p = (Ok tt, p')
    ∧ reworked p fl p' fl d par t
        (pair_tree a its1 x its2 ks1 ks2 (BNode l lits' (take n lks)) (BNode r (m :: rits) (drop n lks ++ rks))).
Proof using Hok Hnd Hr Hp Hl1 Hleaf.
  intros Hlits Hlt n. destruct pair_roots as (Hal & Har & Hlr). destruct child_at_pair as [Hchl Hchr].
  destruct pair_reps as ((nd & Ha & Hn) & (ld & Hl & Hln) & (rd & Hrd & Hrn) & _ & Hlk & Hrk).
  pose proof (nr_max _ _ _ _ _ Hn) as Hmax. rewrite length_app in Hmax. cbn [length] in Hmax.
  rewrite Hlits in Hln. pose proof (nr_max _ _ _ _ _ Hln) as Hlmax. rewrite length_app in Hlmax. cbn [length] in Hlmax.
  pose proof (nr_arity _ _ _ _ _ Hln) as Hla. rewrite length_fmap, length_app in Hla. cbn [length] in Hla.
  assert (length lits' + 1 = n)%nat as Hnl by (unfold n; lia). rewrite Hnl in *.
  set (oc := addr <$> (lks !! n)).
  assert (lks = [] ∨ ∃ k0, lks !! n = Some k0 ∧ drop n lks = [k0]) as Hlast.
  { destruct Hla as [->%fmap_nil_inv|Hla]; [by left|right].
    destruct (lookup_lt_is_Some_2 lks n) as [k0 Hk0]; [lia|]. exists k0. split; [done|].
    by rewrite (drop_S _ _ _ Hk0), drop_ge by lia. }
  assert (oc = None ↔ rks = []) as Hoc.
  { unfold oc. rewrite fmap_None, <- Hleaf. split; [|by intros ->].
    destruct Hlast as [->|(k0 & -> & _)]; done. }
  assert (∀ c, oc = Some c → (addr <$> lks) !! n = Some c ∧ ∃ k, k ∈ lks ++ rks ∧ c = addr k) as Hocs.
  { intros c (k & Hk & ->)%fmap_Some. rewrite list_lookup_fmap, Hk. split; [done|]. exists k.
    split; [apply elem_of_app; left; by eapply list_elem_of_lookup_2|done]. }
  assert (∀ k, k ∈ take n lks ∨ k ∈ rks → Some (addr k) ≠ oc) as Hmv.
  { intros k Hk He. symmetry in He. destruct (Hocs _ He) as (Hc & _).
    pose proof inner_roots_NoDup as Hndr. rewrite <- (take_drop n lks), <- app_assoc in Hndr.
    rewrite !fmap_app in Hndr. assert (addr k ∈ addr <$> drop n lks) as Hd.
    { apply (list_elem_of_lookup_2 _ 0%nat). by rewrite fmap_drop, lookup_drop, Nat.add_0_r. }
    apply NoDup_app in Hndr as (_ & H1 & (_ & H2 & _)%NoDup_app). destruct Hk as [Hk|Hk].
    - apply (H1 (addr k)); [by apply list_elem_of_fmap_2|]. apply elem_of_app. by left.
    - apply (H2 (addr k)); [done|]. by apply list_elem_of_fmap_2. }
  unfold borrowFromPrev. run_ok by (exact Hchr). rewrite !(pred_w_pos _ (_ + 1)), Nat.add_sub by lia. run_ok by (exact Hchl).
  rewrite (bind_load _ _ _ _ Hrd), (bind_load _ _ _ _ Hl).
  rewrite (nr_cnt _ _ _ _ _ Hln), (nr_cnt _ _ _ _ _ Hrn), (nr_leaf _ _ _ _ _ Hrn).
  rewrite length_app. cbn [length]. rewrite Hnl. change (pred_w 8 n) with (length lits').
  destruct (open_front p r rd d (Some a) rits (addr <$> rks) (bool_decide (addr <$> rks = [])))
    as (rd1 & ci & Hs1 & Hs2 & Hsh & Hcil & Hrn'); [done..|].
  pose proof (ss_wf _ _ Hsh (nr_wf _ _ _ _ _ Hrn)) as Hw1.
  run_ok by (exact Hs1). run_ok by (exact Hs2). set (rd2 := set_slot 0 (m, d) (with_children ci rd1)).
  run_ok by (eapply (move_slot_ok _ a nd _ r (with_children ci rd1)); [by rewrite node_at_put_ne by auto
    |eapply nr_slot; [exact Hn|by apply list_lookup_middle]|lia|apply node_at_put_eq|by apply with_children_wf|lia
    |by left]). rewrite put_put. fold rd2.
  pose proof (heap_ok_put _ _ _ rd2 _ Hp Hrd) as Hp1. set (p1 := put r rd2 p) in *.
  destruct (give_child p1 fl l ld n r rd2 0 oc (bool_decide (addr <$> rks = [])))
    as (p2 & Hg & Hp2 & Hr2 & Hc2 & Ho2); [done|unfold p1; by rewrite node_at_put_ne by auto|apply node_at_put_eq
    |by apply (ss_wf _ _ (set_slot_shape _ _ _)), with_children_wf|lia| | |].
  { apply bool_decide_ext. rewrite Hoc. by destruct rks. }
  { intros c Hc. destruct (Hocs c Hc) as (Hci & k & Hin & ->). destruct (inner_live k Hin) as (? & _ & _ & ?).
    split; [by apply (nr_kids _ _ _ _ _ Hln)|]. unfold p1. by rewrite node_at_put_ne by auto. }
  run_ok by (exact Hg).
  assert (∀ b, b ≠ r → Some b ≠ oc → node_at p2 b = node_at p b) as Hp2o.
  { intros b Hb Hbc. rewrite Ho2 by done. unfold p1. by rewrite node_at_put_ne by auto. }
  assert (Some a ≠ oc ∧ Some l ≠ oc) as [Hao Hlo].
  { split; intros He; symmetry in He; destruct (Hocs _ He) as (_ & k & Hin & Hk);
      by destruct (inner_live k Hin) as (_ & ? & ? & _). }
  set (nd1 := set_slot (length its1) (x, d) nd).
  run_ok by (eapply (move_slot_ok p2 l ld); [by rewrite Hp2o by auto
    |eapply nr_slot; [exact Hln|by apply list_lookup_middle]|lia|by rewrite Hp2o by auto
    |apply (nr_wf _ _ _ _ _ Hn)|lia|left; auto]). fold nd1.
  replace (Z.of_nat (length rits) + 1) with (Z.of_nat (length rits + 1)) by lia.
  replace (Z.of_nat n - 1) with (Z.of_nat (length lits')) by lia.
  run_ok by (apply set_key_cnt_ok; [rewrite !node_at_put_ne by done; exact Hr2|lia]).
  erewrite set_key_cnt_ok; [|rewrite !node_at_put_ne by auto; rewrite Hp2o by auto; exact Hl|lia].
  eexists. split; [done|].
  eapply (pair_rebuild _ x lits' (take n lks) (m :: rits) (drop n lks ++ rks) nd1).
  - repeat eapply heap_ok_put; rewrite ?node_at_put_ne by auto; [exact Hp2| | |];
      rewrite ?Hp2o by auto; first [done|exact Hr2].
  - by rewrite app_assoc, take_drop.
  - rewrite !node_at_put_ne by auto. apply node_at_put_eq.
  - by eapply node_rep_set_slot.
  - apply node_at_put_eq.
  - rewrite fmap_take. by eapply node_rep_init.
  - rewrite node_at_put_ne by auto. apply node_at_put_eq.
  - assert (addr <$> drop n lks ++ rks = option_list oc ++ (addr <$> rks)) as ->.
    { rewrite fmap_app. f_equal. unfold oc. destruct Hlast as [->|(k0 & -> & ->)]; [by rewrite drop_nil|done]. }
    apply Hrn'. rewrite Hoc. by destruct rks.
  - intros k Hk. pose proof (elem_of_take_in _ _ _ Hk) as Hk'.
    destruct (inner_live k) as (_ & ? & ? & ?); [set_solver|].
    rewrite !node_at_put_ne, Hp2o by auto. by eapply kept_parent.
  - intros k [Hk|Hk]%elem_of_app.
    + destruct (inner_live k) as (_ & ? & ? & ?); [apply elem_of_app; left; by eapply elem_of_drop_in|].
      rewrite !node_at_put_ne by auto. rewrite Hc2; [unfold p1; by rewrite node_at_put_ne by auto|].
      unfold oc. destruct Hlast as [->|(k0 & -> & Hd)]; [by rewrite drop_nil in Hk; apply elem_of_nil in Hk|].
      rewrite Hd in Hk. by apply list_elem_of_singleton in Hk as ->.
    + destruct (inner_live k) as (_ & ? & ? & ?); [set_solver|].
      rewrite !node_at_put_ne, Hp2o by auto. by eapply kept_parent.
  - intros b ??? Hb. rewrite !node_at_put_ne by auto. apply Hp2o; [done|].
    intros He; symmetry in He. destruct (Hocs _ He) as (_ & k & ? & ->). by apply Hb, list_elem_of_fmap_2.
Qed.

(** The keys and children of the sibling go to the child. *)
Lemma transfer_ok :
  length lits = MIN_DEGREE → length rits = MIN_DEGREE →
  ∃ p' ld2 rd,
    (move_key a (length its1) l MIN_DEGREE;;
     sibd ← load r;
     transfer_items r 0 l (MIN_DEGREE + 1) (key_cnt sibd);;
     mret sibd) p = (Ok rd, p')
    ∧ heap_ok p' fl ∧ node_at p' l = Some ld2 ∧ key_cnt ld2 = MIN_DEGREE ∧ key_cnt rd = MIN_DEGREE
    ∧ node_rep d (Some a) (lits ++ m :: rits) (addr <$> lks ++ rks) (node_set_key_cnt MAX_DEGREE ld2)
    ∧ adopted p' l (lks ++ rks)
    ∧ (∀ b, b ≠ l → b ∉ addr <$> lks ++ rks → node_at p' b = node_at p b).
Proof using Hok Hnd Hr Hp Hl1 Hleaf.
  intros Hll Hrl. destruct pair_roots as (Hal & Har & Hlr). destruct max_degree as [HM Hm1].
  destruct pair_reps as ((nd & Ha & Hn) & (ld & Hl & Hln) & (rd & Hrd & Hrn) & _ & Hlk & Hrk).
  pose proof (nr_max _ _ _ _ _ Hn) as Hmax. rewrite length_app in Hmax. cbn [length] in Hmax.
  pose proof (nr_wf _ _ _ _ _ Hln) as Hlw.
  pose proof (nr_arity _ _ _ _ _ Hln) as Hla. pose proof (nr_arity _ _ _ _ _ Hrn) as Hra.
  rewrite length_fmap in Hla, Hra.
  run_ok by (eapply (move_slot_ok p a nd); [done|eapply nr_slot; [exact Hn|by apply list_lookup_middle]|lia|exact Hl
    |done|lia|by left]).
  set (ld1 := set_slot MIN_DEGREE (m, d) ld).
  pose proof (set_slot_shape MIN_DEGREE (m, d) ld) as Hsh1. fold ld1 in Hsh1.
  pose proof (ss_wf _ _ Hsh1 Hlw) as Hw1. pose proof (heap_ok_put _ _ _ ld1 _ Hp Hl) as Hp1.
  rewrite bind_load with (nd := rd) by (by rewrite node_at_put_ne). unfold transfer_items.
  rewrite (nr_cnt _ _ _ _ _ Hrn), Hrl.
  destruct (copy_slots (put l ld1 p) r rd l ld1 id (λ j, j + (MIN_DEGREE + 1))%nat MIN_DEGREE)
    as (ld2 & Hc & Hsh2 & Hs2 & Hs2'); [auto|by rewrite node_at_put_ne|apply node_at_put_eq|done| |intros; lia|].
  { intros j Hj. unfold id. split; [|lia]. destruct (lookup_lt_is_Some_2 rits j) as [k Hk]; [lia|].
    eexists. by eapply nr_slot. }
  pose proof (ss_wf _ _ Hsh2 Hw1) as Hw2. rewrite bind_assoc. run_ok by (exact Hc). rewrite put_put.
  pose proof (heap_ok_put _ _ _ ld2 _ Hp Hl) as Hp2. pose proof (same_shape_trans _ _ _ Hsh1 Hsh2) as Hsh.
  rewrite bind_assoc, (bind_load _ _ ld2) by apply node_at_put_eq.
  rewrite (ss_leaf _ _ Hsh), (nr_leaf _ _ _ _ _ Hln).
  assert (∀ ci, length ci = S MAX_DEGREE → (lks = [] → ci = child_index ld) →
    (∀ j, (j < length lks)%nat → ci !! j = child_index ld !! j) →
    (∀ j c, (addr <$> rks) !! j = Some c → ci !! (j + (MIN_DEGREE + 1))%nat = Some (to_index c)) →
    node_rep d (Some a) (lits ++ m :: rits) (addr <$> lks ++ rks) (node_set_key_cnt MAX_DEGREE (with_children ci ld2)))
    as Hrep.
  { intros ci Hci H0 H1 H2. rewrite fmap_app. rewrite <- Hll in H2.
    apply (node_rep_append _ _ lits (addr <$> lks) ld ld2); try done; try lia.
    - intros j Hj. rewrite Hs2' by lia. unfold ld1. rewrite slot_set_slot by (done || lia).
      by rewrite decide_False by lia.
    - rewrite Hs2' by lia. unfold ld1. rewrite Hll, slot_set_slot by (done || lia). by rewrite decide_True.
    - intros j k Hk. pose proof (lookup_lt_Some _ _ _ Hk). rewrite Hll, Hs2 by lia. by eapply nr_slot.
    - intros Hk%fmap_nil_inv. rewrite (proj1 Hleaf Hk). auto.
    - rewrite length_fmap. intros Hne. destruct Hra as [Hra|]; [|done]. apply fmap_nil_inv in Hra.
      destruct Hne. by rewrite (proj2 Hleaf Hra).
    - intros j. rewrite length_fmap. apply H1. }
  destruct Hla as [Hlks%fmap_nil_inv|Hla].
  - rewrite bool_decide_true by (by rewrite Hlks). rewrite bind_ret. pose proof (proj1 Hleaf Hlks) as Hrks.
    exists (put l ld2 p), ld2, rd. split_and!; [done|done|apply node_at_put_eq| | | | |].
    + by rewrite (ss_cnt _ _ Hsh), (nr_cnt _ _ _ _ _ Hln).
    + by rewrite (nr_cnt _ _ _ _ _ Hrn).
    + replace ld2 with (with_children (child_index ld2) ld2) by by destruct ld2.
      pose proof (ss_children _ _ Hsh) as ->. apply Hrep; [apply (wf_children _ Hlw)|done|done|].
      rewrite Hrks. by intros j c Hj.
    + rewrite Hlks, Hrks. by intros k Hk%elem_of_nil.
    + intros b Hb _. by rewrite node_at_put_ne by auto.
  - assert (rks ≠ []) as Hrne by (intros He; rewrite (proj2 Hleaf He) in Hla; done).
    destruct Hra as [Hra%fmap_nil_inv|Hra]; [done|]. rewrite Hrl in Hra. rewrite Hll in Hla.
    rewrite bool_decide_false by (intros He%fmap_nil_inv; rewrite He in Hla; done).
    pose proof inner_roots_NoDup as Hndr. rewrite fmap_app in Hndr. apply NoDup_app in Hndr as (_ & Hdis & Hndr).
    destruct (move_children (put l ld2 p) fl r rd l ld2 id (λ j, j + (MIN_DEGREE + 1))%nat (addr <$> rks))
      as (p' & ld3 & Hrun & Hp' & Hl3 & (ci & Hld3 & Hw3) & Hci & Hci' & Hmv & Hot);
      [done|auto|by rewrite node_at_put_ne|apply node_at_put_eq|done|intros; lia
      |rewrite length_fmap, Hra; lia|done| | | |].
    + intros (k & ? & Hk)%list_elem_of_fmap. by destruct (inner_live k) as (_ & _ & _ & ?); [set_solver|].
    + intros (k & ? & Hk)%list_elem_of_fmap. by destruct (inner_live k) as (_ & _ & ? & _); [set_solver|].
    + intros j c Hj. split; [by apply (nr_kids _ _ _ _ _ Hrn)|].
      apply list_elem_of_lookup_2 in Hj as (k & -> & Hk)%list_elem_of_fmap.
      destruct (inner_live k) as (? & _ & ? & _); [set_solver|]. by rewrite node_at_put_ne by auto.
    + rewrite length_fmap, Hra in Hrun. unfold id in Hrun. run_ok by (exact Hrun).
      exists p', ld3, rd. split_and!; [done|done|done| | | | |].
      * rewrite Hld3. cbn. by rewrite (ss_cnt _ _ Hsh), (nr_cnt _ _ _ _ _ Hln).
      * by rewrite (nr_cnt _ _ _ _ _ Hrn).
      * subst ld3. cbn in Hci, Hci'. apply Hrep; [apply (wf_children _ Hw3)| | |done].
        -- intros He. rewrite He in Hla. done.
        -- intros j Hj. rewrite Hci' by lia. by rewrite (ss_children _ _ Hsh).
      * intros k Hk. pose proof (inner_live k Hk) as ([kd Hkd] & _ & ? & _).
        apply elem_of_app in Hk as [Hk|Hk].
        -- rewrite Hot, node_at_put_ne; [by eapply kept_parent|auto|auto|].
           intros Hin. eapply Hdis; [by apply list_elem_of_fmap_2|done].
        -- rewrite Hkd. apply Hmv; [by apply list_elem_of_fmap_2|]. by rewrite node_at_put_ne by auto.
      * intros b Hb Hbn. rewrite fmap_app, not_elem_of_app in Hbn. rewrite Hot by naive_solver.
        by rewrite node_at_put_ne by auto.
Qed.

(** The gap in the parent is closed. *)
Lemma close_gap q nd :
  node_at q a = Some nd →
  node_rep d par (its1 ++ m :: its2) ((addr <$> ks1) ++ l :: r :: (addr <$> ks2)) nd →
  ∃ nd', shift_items_on_right_to_left a (length its1) q = (Ok tt, put a nd' q)
    ∧ node_rep d par (its1 ++ its2) ((addr <$> ks1) ++ l :: (addr <$> ks2))
        (node_set_key_cnt (length its1 + length its2) nd').
Proof using Hok Hl1.
  intros Ha Hn. pose proof (nr_max _ _ _ _ _ Hn) as Hmax. rewrite length_app in Hmax. cbn [length] in Hmax.
  pose proof (nr_wf _ _ _ _ _ Hn) as Hw.
  unfold shift_items_on_right_to_left. rewrite (bind_load _ _ _ _ Ha), (nr_cnt _ _ _ _ _ Hn), length_app.
  cbn [length]. set (cnt := (length its1 + S (length its2))%nat) in *.
  destruct (shift_slots_down q a nd (length its1) cnt) as (nd1 & Hs & Hsh & Hsl); [done|done|lia| |].
  { intros j Hj. destruct (lookup_lt_is_Some_2 (its1 ++ m :: its2) j) as [k Hk]; [rewrite length_app; cbn; lia|].
    eexists. by eapply nr_slot. }
  run_ok by (exact Hs).
  destruct (shift_indices_down (put a nd1 q) a nd1 (length its1 + 1) (S cnt)) as (ci & Hci & Hlen & Hl);
    [apply node_at_put_eq|by apply (ss_wf _ _ Hsh)|lia|].
  replace (length its1 + 2)%nat with (length its1 + 1 + 1)%nat by lia.
  rewrite Hci, put_put. eexists. split; [done|].
  eapply node_rep_remove; [exact Hn|by rewrite length_fmap|done|done| |].
  - intros j Hj. apply Hsl. lia.
  - intros j Hj. rewrite Hl by lia. by rewrite (ss_children _ _ Hsh).
Qed.

Lemma merge_ok :
  length lits = MIN_DEGREE → length rits = MIN_DEGREE → fl ≠ [] →
  ∃ p' fl', merge a (length its1) p = (Ok tt, p')
    ∧ reworked p fl p' fl' d par t
        (BNode a (its1 ++ its2) (ks1 ++ BNode l (lits ++ m :: rits) (lks ++ rks) :: ks2)).
Proof using Hok Hnd Hr Hp Hl1 Hleaf.
  intros Hll Hrl Hfl. destruct pair_roots as (Hal & Har & Hlr). destruct max_degree as [HM Hm1].
  destruct child_at_pair as [Hchl Hchr].
  destruct pair_reps as ((nd & Ha & Hn) & _ & (rd & Hrd & _) & _).
  pose proof (nr_max _ _ _ _ _ Hn) as Hmax. rewrite length_app in Hmax. cbn [length] in Hmax.
  destruct (transfer_ok Hll Hrl) as (p1 & ld2 & rd' & Hrun & Hp1 & Hl2 & Hlc & Hrc & Hln & Had & Hot).
  unfold merge. run_ok by (exact Hchl). run_ok by (exact Hchr). rewrite (bind_load _ _ _ _ Ha).
  rewrite (nr_cnt _ _ _ _ _ Hn), length_app. cbn [length]. rewrite bind_assert by (apply Nat.leb_le; lia).
  apply bind_Ok_inv in Hrun as ([] & q1 & Hq1 & Hrun). rewrite (bind_ok _ _ _ _ _ Hq1).
  apply bind_Ok_inv in Hrun as (sibd & q2 & Hq2 & Hrun). rewrite (bind_ok _ _ _ _ _ Hq2).
  apply bind_Ok_inv in Hrun as ([] & q3 & Hq3 & [= -> ->]). rewrite (bind_ok _ _ _ _ _ Hq3).
  assert (a ∉ addr <$> lks ++ rks ∧ r ∉ addr <$> lks ++ rks) as [Hai Hri].
  { split; intros (? & _ & ?)%inner_root_ne; done. }
  assert (node_at p1 a = Some nd ∧ node_at p1 r = Some rd) as [Ha1 Hr1] by (split; rewrite Hot by auto; done).
  destruct (close_gap p1 nd Ha1 Hn) as (nd' & Hgap & Hn'). run_ok by (exact Hgap).
  rewrite (bind_load _ _ ld2) by (by rewrite node_at_put_ne by auto). rewrite Hlc, Hrc.
  replace (Z.of_nat MIN_DEGREE + Z.of_nat MIN_DEGREE + 1) with (Z.of_nat MAX_DEGREE) by lia.
  replace (Z.of_nat (length its1 + S (length its2)) - 1) with (Z.of_nat (length its1 + length its2)) by lia.
  run_ok by (apply set_key_cnt_ok; [by rewrite node_at_put_ne by auto|lia]).
  run_ok by (apply set_key_cnt_ok; [rewrite node_at_put_ne by auto; apply node_at_put_eq|lia]).
  run_ok by (apply upd_ok; rewrite !node_at_put_ne by auto; exact Hr1). set (p2 := put r _ _).
  assert (heap_ok p2 fl) as Hp2.
  { repeat eapply heap_ok_put; rewrite ?node_at_put_ne by auto; first [eassumption|apply node_at_put_eq]. }
  destruct (release_node_ok p2 fl r (clean_children rd)) as (p3 & fl3 & Hrel & [Hp3 Hl3 Hf3]);
    [done|done|apply node_at_put_eq|].
  rewrite Hrel. exists p3, fl3. split; [done|].
  assert (∀ b, b ≠ r → node_at p3 b = node_at p2 b) as Hf by (intros b Hb; apply Hf3; set_solver).
  eapply (pair_merged _ fl3 (lits ++ m :: rits)); [done|done| |exact Hn'| |exact Hln| |].
  - rewrite Hf by auto. unfold p2. rewrite node_at_put_ne by auto. apply node_at_put_eq.
  - rewrite Hf by auto. unfold p2. rewrite !node_at_put_ne by auto. apply node_at_put_eq.
  - intros k Hk. destruct (inner_live k Hk) as (_ & ? & ? & ?).
    rewrite Hf by auto. unfold p2. rewrite !node_at_put_ne by auto. by apply Had.
  - intros b ??? Hb. rewrite Hf by auto. unfold p2. rewrite !node_at_put_ne by auto. by apply Hot.
Qed.
End aliases.
End pair.
