(* ===== verification/RemoveSpec.v ===== *)
(** * Removal from one layer

    The deletion [remove_1d] on a represented layer refines the deletion of
    the key from the list of keys in order: it returns, the tree stays
    balanced, and a key that is not there is reported with the exception of
    the source.  The keys of the layer have no next layers, as the source
    asserts of the keys it takes out. *)
From S2P Require Import Prelude Range RuleValue Mempool Node NodeLemmas Search Layer LayerSearch Trie TrieCheck Footprint Slots Insert LookupSpec Split Chain InsertLayer InsertRoot Decompress Integrity InsertSpec Build BuildSpec Balance Destroy Remove Rotate.
Local Open Scope Z_scope.

(** ** The abstract operation *)

Section without.
Context {V : Type}.
Implicit Types (x y : KeyInfo V) (l : list (KeyInfo V)) (k : Range1d).

Definition without k l : list (KeyInfo V) := filter (λ x, key x ≠ k) l.

Definition remove_result k l : result unit :=
  if bool_decide (k ∈ key <$> l) then Ok tt else Err (runtime_error (no_such_key k)).

Lemma without_app k l1 l2 : without k (l1 ++ l2) = without k l1 ++ without k l2.
Proof. apply filter_app. Qed.

Lemma without_id k l : k ∉ key <$> l → without k l = l.
Proof.
  intros Hk. unfold without. induction l as [|x l IH]; [done|]. cbn in Hk. apply not_elem_of_cons in Hk as [Hx Hk].
  rewrite filter_cons_True by done. by rewrite IH.
Qed.

(** A key of a layer occurs once. *)
Lemma sorted_key_once l1 x l2 :
  sorted_keys (l1 ++ x :: l2) → key x ∉ key <$> l1 ∧ key x ∉ key <$> l2.
Proof.
  intros (_ & [Hv Hs] & Hb)%sorted_app. apply StronglySorted_inv in Hs as [_ Hs].
  rewrite Forall_forall in Hs, Hv. pose proof (Hv x ltac:(left)) as Hx.
  split; intros (y & He & Hy)%list_elem_of_fmap.
  - pose proof (Hb y x Hy ltac:(left)) as Hlt. unfold key_before in Hlt. rewrite <- He in Hlt. lia.
  - pose proof (Hs y Hy) as Hlt. unfold key_before in Hlt. rewrite <- He in Hlt. lia.
Qed.

Lemma without_middle l1 x l2 : sorted_keys (l1 ++ x :: l2) → without (key x) (l1 ++ x :: l2) = l1 ++ l2.
Proof.
  intros [H1 H2]%sorted_key_once. rewrite without_app, without_id by done. f_equal.
  unfold without. rewrite filter_cons_False by (intros He; by apply He). by apply without_id.
Qed.

Lemma remove_result_in k l : k ∈ key <$> l → remove_result k l = Ok tt.
Proof. intros Hk. unfold remove_result. by rewrite bool_decide_true. Qed.

(** Keys around the part of a list that can hold the key do not matter. *)
Lemma remove_result_inner k l1 l l2 :
  k ∉ key <$> l1 → k ∉ key <$> l2 → remove_result k (l1 ++ l ++ l2) = remove_result k l.
Proof.
  intros H1 H2. unfold remove_result. rewrite !fmap_app.
  rewrite (bool_decide_ext _ (k ∈ key <$> l)); [done|]. rewrite !elem_of_app. tauto.
Qed.

Lemma without_inner k l1 l l2 :
  k ∉ key <$> l1 → k ∉ key <$> l2 → without k (l1 ++ l ++ l2) = l1 ++ without k l ++ l2.
Proof. intros H1 H2. rewrite !without_app. by rewrite (without_id _ l1), (without_id _ l2). Qed.

Lemma sorted_part l1 l l2 : sorted_keys (l1 ++ l ++ l2) → sorted_keys l.
Proof. by intros (_ & (? & _)%sorted_app & _)%sorted_app. Qed.

(** The three ways to take a key out of an inner node. *)
Lemma replace_pred l1 l y x l2 :
  sorted_keys (l1 ++ (l ++ [y]) ++ x :: l2) →
  l1 ++ without (key y) (l ++ [y]) ++ y :: l2 = without (key x) (l1 ++ (l ++ [y]) ++ x :: l2).
Proof.
  intros Hs. pose proof (sorted_part _ _ _ Hs) as Hy.
  rewrite (app_assoc l1 (l ++ [y])), (without_middle (l1 ++ l ++ [y]) x) by (by rewrite <- app_assoc).
  rewrite without_middle, app_nil_r by done. by rewrite <- !app_assoc.
Qed.

Lemma replace_succ l1 x y l l2 :
  sorted_keys (l1 ++ x :: (y :: l) ++ l2) →
  (l1 ++ [y]) ++ without (key y) (y :: l) ++ l2 = without (key x) (l1 ++ x :: (y :: l) ++ l2).
Proof.
  intros Hs. rewrite (without_middle l1 x) by done.
  change (l1 ++ x :: (y :: l) ++ l2) with (l1 ++ ([x] ++ (y :: l)) ++ l2) in Hs.
  apply sorted_part, sorted_app in Hs as (_ & Hs & _).
  pose proof (without_middle [] y l Hs) as Hw. cbn [app] in Hw. rewrite Hw. by rewrite <- app_assoc.
Qed.

Lemma remove_inner l1 l x l' l2 :
  sorted_keys (l1 ++ (l ++ x :: l') ++ l2) →
  l1 ++ without (key x) (l ++ x :: l') ++ l2 = without (key x) (l1 ++ (l ++ x :: l') ++ l2).
Proof.
  intros Hs. assert (key x ∉ key <$> l1 ∧ key x ∉ key <$> l2) as [H1 H2].
  { rewrite <- app_assoc in Hs. cbn in Hs. rewrite app_assoc in Hs.
    apply sorted_key_once in Hs as [Ha Hb]. rewrite fmap_app, not_elem_of_app in Ha, Hb. tauto. }
  by rewrite without_inner.
Qed.

Lemma elem_of_without k l x : x ∈ without k l ↔ key x ≠ k ∧ x ∈ l.
Proof. unfold without. by rewrite list_elem_of_filter. Qed.

Lemma sorted_without k l : sorted_keys l → sorted_keys (without k l).
Proof.
  intros [Hv Hs]. split.
  - rewrite Forall_forall in Hv |- *. intros x [_ Hx]%elem_of_without. by apply Hv.
  - clear Hv. induction Hs as [|x l _ IH Hx]; [constructor|]. unfold without. rewrite filter_cons.
    case_decide; [|done]. constructor; [done|]. rewrite Forall_forall in Hx |- *.
    intros y [_ Hy]%elem_of_without. by apply Hx.
Qed.

End without.

(** ** Balanced trees *)

Section balanced.
Context `{cfg : !BTreeCfg, Hok : !CfgOk} {V : Type} `{!RuleValue V}.
Implicit Types (p : Heap V) (nd : Node V) (t c : btree V) (its : list (KeyInfo V)) (ks : list (btree V))
  (x y : KeyInfo V) (k : Range1d).

Lemma balanced_kids h (b c : btree V) : balanced h c = true → balanced h b = true → kids c = [] ↔ kids b = [].
Proof. destruct c as [? ? ks], b as [? ? ks'], h; cbn; destruct ks, ks'; done. Qed.

Lemma balanced_change h a its ks b its' : balanced h (BNode a its ks) = balanced h (BNode b its' ks).
Proof. by destruct h. Qed.

(** ** The keys around a child *)

Definition keys_before its ks : list (KeyInfo V) := concat (zip_with (λ xs x, xs ++ [x]) (flat <$> ks) its).
Definition keys_behind its ks : list (KeyInfo V) := concat (zip_with cons its (flat <$> ks)).

Lemma keys_before_snoc its x ks c :
  length ks = length its → keys_before (its ++ [x]) (ks ++ [c]) = keys_before its ks ++ flat c ++ [x].
Proof.
  intros Hl. unfold keys_before. rewrite fmap_app, zip_with_app by (by rewrite length_fmap).
  rewrite concat_app. cbn. by rewrite app_nil_r.
Qed.

Lemma keys_behind_cons its x ks c : keys_behind (x :: its) (c :: ks) = x :: flat c ++ keys_behind its ks.
Proof. done. Qed.

Lemma weave_app {A} (xs1 xs2 : list (list A)) (its1 its2 : list A) (m : A) :
  (xs1 = [] ∧ xs2 = []) ∨ length xs1 = S (length its1) →
  weave (its1 ++ m :: its2) (xs1 ++ xs2) = weave its1 xs1 ++ m :: weave its2 xs2.
Proof.
  intros [[-> ->]|Hl]; [done|]. revert its1 Hl. induction xs1 as [|xs xs1 IH]; intros [|z its1] Hl; cbn in Hl; try lia.
  - destruct xs1; [|done]. cbn. by rewrite app_nil_r.
  - cbn [weave app]. rewrite IH by lia. by rewrite <- app_assoc.
Qed.

Lemma flat_app a its1 m its2 ks1 ks2 b e :
  (ks1 = [] ∧ ks2 = []) ∨ length ks1 = S (length its1) →
  flat (BNode a (its1 ++ m :: its2) (ks1 ++ ks2)) = flat (BNode b its1 ks1) ++ m :: flat (BNode e its2 ks2).
Proof.
  intros Hl. cbn [flat]. rewrite fmap_app. apply weave_app. rewrite length_fmap.
  destruct Hl as [[-> ->]|Hl]; [by left|by right].
Qed.

(** ** Searching a node *)

Lemma findKey_loop_ok p a nd its k n i :
  node_at p a = Some nd → (∀ j x, its !! j = Some x → node_key nd j = Some x) → (length its ≤ MAX_DEGREE)%nat →
  (i + n = length its)%nat → (∀ j x, (j < i)%nat → its !! j = Some x → low (key x) < low k) →
  ∃ j, findKey_loop a n i k p = (Ok j, p) ∧ (j ≤ length its)%nat
    ∧ (∀ j' x, (j' < j)%nat → its !! j' = Some x → low (key x) < low k)
    ∧ (∀ x, its !! j = Some x → low k ≤ low (key x)).
Proof.
  intros Ha Hkeys Hmax. revert i. induction n as [|n IH]; intros i Hn Hlt.
  { exists i. split_and!; [done|lia|done|]. intros x Hx%lookup_lt_Some. lia. }
  destruct (lookup_lt_is_Some_2 its i) as [x Hx]; [lia|]. cbn [findKey_loop].
  run_ok by (eapply get_key_ok; [done|by apply Hkeys|lia]). unfold key_lt_range, range_lt.
  destruct (Z.ltb_spec (low (key x)) (low k)) as [Hk|Hk].
  - apply IH; [lia|]. intros j y Hj Hy. destruct (decide (j = i)) as [->|]; [by simplify_eq|].
    eapply Hlt; [|done]. lia.
  - exists i. split_and!; [done|lia|done|]. intros y Hy. by simplify_eq.
Qed.

(** The keys before the index start below the range, the others do not. *)
Lemma findKey_ok p a nd d par its cs k :
  node_at p a = Some nd → node_rep d par its cs nd →
  ∃ its1 its2, its = its1 ++ its2 ∧ findKey a k p = (Ok (length its1), p)
    ∧ Forall (λ x, low (key x) < low k) its1
    ∧ (∀ x its', its2 = x :: its' → low k ≤ low (key x)).
Proof.
  intros Ha Hn. unfold findKey. rewrite (bind_load _ _ _ _ Ha), (nr_cnt _ _ _ _ _ Hn).
  destruct (findKey_loop_ok p a nd its k (length its) 0) as (i & Hrun & Hi & Hlt & Hge);
    [done|apply (nr_keys _ _ _ _ _ Hn)|apply (nr_max _ _ _ _ _ Hn)|lia|lia|].
  exists (take i its), (drop i its). rewrite take_drop, length_take, Nat.min_l by lia.
  split_and!; [done|done| |].
  - apply Forall_lookup. intros j x (Hx & Hj)%lookup_take_Some. by eapply Hlt.
  - intros x its' He. apply Hge. by rewrite <- (Nat.add_0_r i), <- lookup_drop, He.
Qed.

(** ** A leaf *)

Lemma removeFromLeaf_ok p fl d par a its1 x its2 :
  heap_ok p fl → rep p d par (BNode a (its1 ++ x :: its2) []) → knext_level x = INVALID_INDEX →
  ∃ p', removeFromLeaf a (length its1) p = (Ok tt, p')
    ∧ reworked p fl p' fl d par (BNode a (its1 ++ x :: its2) []) (BNode a (its1 ++ its2) []).
Proof.
  intros Hp Hr Hx. pose proof Hr as [(nd & Ha & Hn) _]%rep_unfold.
  pose proof (nr_max _ _ _ _ _ Hn) as Hmax. rewrite length_app in Hmax. cbn [length] in Hmax.
  pose proof (nr_wf _ _ _ _ _ Hn) as Hw. pose proof (nr_cnt _ _ _ _ _ Hn) as Hcnt.
  rewrite length_app in Hcnt. cbn [length] in Hcnt.
  assert ((its1 ++ x :: its2) !! length its1 = Some x) as Hxi by (by apply list_lookup_middle).
  pose proof (nr_keys _ _ _ _ _ Hn _ _ Hxi) as (_ & _ & Hnl)%node_key_inv. rewrite Hx in Hnl.
  unfold removeFromLeaf. run_ok by (by eapply next_layer_none). rewrite bind_assert by done.
  rewrite (bind_load _ _ _ _ Ha), Hcnt.
  destruct (shift_slots_down p a nd (length its1) (length its1 + S (length its2)))
    as (nd1 & Hs & Hsh & Hsl); [done|done|lia| |].
  { intros j Hj. destruct (lookup_lt_is_Some_2 (its1 ++ x :: its2) j) as [y Hy]; [rewrite length_app; cbn; lia|].
    eexists. by eapply nr_slot. }
  run_ok by (exact Hs).
  replace (Z.of_nat (length its1 + S (length its2)) - 1) with (Z.of_nat (length its1 + length its2)) by lia.
  erewrite set_key_cnt_ok; [|apply node_at_put_eq|lia]. rewrite put_put. eexists. split; [done|].
  eapply reworked_root; [done|done|by rewrite addrs_unfold; apply NoDup_singleton|done|].
  apply (node_rep_change _ _ _ _ _ _ nd _ Hn); rewrite ?length_app; try done; try lia.
  - by apply node_wf_set_cnt, (ss_wf _ _ Hsh).
  - apply (ss_compressed _ _ Hsh).
  - apply (ss_leaf _ _ Hsh).
  - apply (ss_parent _ _ Hsh).
  - intros i y Hi. rewrite slot_set_cnt. pose proof (lookup_lt_Some _ _ _ Hi) as Hlt. rewrite length_app in Hlt.
    rewrite Hsl by lia. eapply nr_slot; [done|]. destruct (Nat.ltb_spec i (length its1)).
    + by rewrite lookup_app_l in * by lia.
    + rewrite lookup_app_r in * by lia. by replace (S i - length its1)%nat with (S (i - length its1)) by lia.
  - intros _. split; [done|]. apply (ss_children _ _ Hsh).
Qed.

(** ** The neighbours of a key in the subtrees around it *)

Lemma min_degree_pos : (1 ≤ MIN_DEGREE)%nat.
Proof. apply max_degree. Qed.

Lemma right_most_ok h p fl d par t fuel :
  rep p d par t → balanced h t = true → heap_ok p fl → (1 ≤ length (items t))%nat → (h ≤ fuel)%nat →
  ∃ b bd n y F, right_most_leaf fuel (addr t) p = (Ok b, p) ∧ node_at p b = Some bd ∧ key_cnt bd = S n
    ∧ (n < MAX_DEGREE)%nat ∧ node_key bd n = Some y ∧ flat t = F ++ [y].
Proof.
  revert par t fuel. induction h as [|h IH]; intros par [a its ks] fuel Hr Hb Hp Hi Hf; cbn [items addr] in *.
  - apply balanced_0 in Hb as ->. apply rep_unfold in Hr as [(nd & Ha & Hn) _].
    destruct (exists_last (l := its)) as (F & y & ->); [by intros ->; cbn in Hi; lia|].
    pose proof (nr_max _ _ _ _ _ Hn) as Hmax. pose proof (nr_cnt _ _ _ _ _ Hn) as Hcnt.
    rewrite length_app in Hmax, Hcnt. cbn [length] in Hmax, Hcnt.
    exists a, nd, (length F), y, F. split_and!; [|done|lia|lia| |done].
    + destruct fuel; cbn [right_most_leaf]; by rewrite (bind_load _ _ _ _ Ha), (nr_leaf _ _ _ _ _ Hn).
    + apply (nr_keys _ _ _ _ _ Hn). by apply list_lookup_middle.
  - apply balanced_S in Hb as [Hne Hks]. pose proof Hr as [(nd & Ha & Hn) Hrk]%rep_unfold.
    pose proof (rep_arity _ _ _ _ _ Hn) as [|Hl]; [done|].
    destruct (exists_last (l := ks)) as (ks1 & c & ->); [done|]. rewrite length_app in Hl. cbn [length] in Hl.
    apply Forall_app in Hks as [_ [[Hmin Hbc] _]%Forall_cons], Hrk as [_ [Hrc _]%Forall_cons].
    destruct fuel as [|fuel]; [lia|]. pose proof min_degree_pos.
    destruct (IH (Some a) c fuel) as (b & bd & n & y & F & Hrun & Hb & Hcnt & Hnm & Hk & Hfl); [done|done|done|lia|lia|].
    destruct (rep_live _ _ _ _ Hrc) as [cd Hcd].
    exists b, bd, n, y, (keys_before its ks1 ++ F). split_and!; try done.
    + cbn [right_most_leaf]. rewrite (bind_load _ _ _ _ Ha), (nr_leaf _ _ _ _ _ Hn), (nr_cnt _ _ _ _ _ Hn).
      rewrite bool_decide_false by (by intros ?%fmap_nil_inv).
      run_ok by (eapply child_some; [done|exact Ha|apply (nr_kids _ _ _ _ _ Hn);
        rewrite fmap_app, lookup_app_r, length_fmap by (rewrite length_fmap; lia);
        replace (length its - length ks1)%nat with 0%nat by lia; done|exact Hcd]).
      cbn [or_ub]. rewrite bind_ret. done.
    + pose proof (one_flat a its [] ks1 [] c) as He. rewrite app_nil_r in He. rewrite He by (cbn; lia). cbn.
      by rewrite app_nil_r, Hfl, app_assoc.
Qed.

Lemma left_most_ok h p fl d par t fuel :
  rep p d par t → balanced h t = true → heap_ok p fl → (1 ≤ length (items t))%nat → (h ≤ fuel)%nat →
  ∃ b bd y F, left_most_leaf fuel (addr t) p = (Ok b, p) ∧ node_at p b = Some bd
    ∧ node_key bd 0 = Some y ∧ flat t = y :: F.
Proof.
  revert par t fuel. induction h as [|h IH]; intros par [a its ks] fuel Hr Hb Hp Hi Hf; cbn [items addr] in *.
  - apply balanced_0 in Hb as ->. apply rep_unfold in Hr as [(nd & Ha & Hn) _].
    destruct its as [|y F]; [cbn in Hi; lia|]. exists a, nd, y, F. split_and!; [|done| |done].
    + destruct fuel; cbn [left_most_leaf]; by rewrite (bind_load _ _ _ _ Ha), (nr_leaf _ _ _ _ _ Hn).
    + by apply (nr_keys _ _ _ _ _ Hn).
  - apply balanced_S in Hb as [Hne Hks]. pose proof Hr as [(nd & Ha & Hn) Hrk]%rep_unfold.
    destruct ks as [|c ks]; [done|]. pose proof (rep_arity _ _ _ _ _ Hn) as [|Hl]; [done|]. cbn [length] in Hl.
    apply Forall_cons in Hks as [[Hmin Hbc] _], Hrk as [Hrc _].
    destruct fuel as [|fuel]; [lia|]. pose proof min_degree_pos.
    destruct (IH (Some a) c fuel) as (b & bd & y & F & Hrun & Hb & Hk & Hfl); [done|done|done|lia|lia|].
    destruct (rep_live _ _ _ _ Hrc) as [cd Hcd].
    exists b, bd, y, (F ++ keys_behind its ks). split_and!; try done.
    + cbn [left_most_leaf]. rewrite (bind_load _ _ _ _ Ha), (nr_leaf _ _ _ _ _ Hn).
      rewrite bool_decide_false by done.
      run_ok by (eapply child_some; [done|exact Ha|by apply (nr_kids _ _ _ _ _ Hn)|exact Hcd]).
      cbn [or_ub]. rewrite bind_ret. done.
    + pose proof (one_flat a [] its [] ks c) as He. cbn [app] in He. rewrite He by (cbn; lia). cbn. by rewrite Hfl.
Qed.

(** ** A child gets more keys *)

Lemma balanced_mix h its ks t1 t2 a :
  balanced h t1 = true → balanced h t2 = true → (∀ c, c ∈ ks → c ∈ kids t1 ∨ c ∈ kids t2) →
  (ks = [] ↔ kids t1 = []) → balanced h (BNode a its ks) = true.
Proof.
  destruct t1 as [a1 its1 ks1], t2 as [a2 its2 ks2]. cbn [kids]. intros H1 H2 Hin Hnil. destruct h as [|h].
  - apply balanced_0 in H1. by apply balanced_0, Hnil.
  - apply balanced_S in H1 as [Hne H1], H2 as [_ H2]. rewrite Forall_forall in H1, H2.
    apply balanced_S. split; [by intros ?%Hnil|]. apply Forall_forall. intros c [?|?]%Hin; auto.
Qed.

(** The child [c] between [its1] and [its2] became [c'], which has one key more
    than it must have; the keys in order are the same. *)
Record filled (h : nat) its1 its2 ks1 c ks2 its1' its2' ks1' c' ks2' : Prop := {
  fi_before : length ks1' = length its1';
  fi_behind : length ks2' = length its2';
  fi_good : Forall (good_kid h) (ks1' ++ ks2');
  fi_kid : balanced h c' = true ∧ (MIN_DEGREE + 1 ≤ length (items c'))%nat;
  fi_index : length its1' = length its1 ∨ (its2 = [] ∧ its2' = [] ∧ S (length its1') = length its1);
  fi_size : (length (its1 ++ its2) ≤ S (length (its1' ++ its2')))%nat;
  fi_keys : ∃ P Q, keys_before its1 ks1 = keys_before its1' ks1' ++ P
    ∧ flat c' = P ++ flat c ++ Q ∧ keys_behind its2 ks2 = Q ++ keys_behind its2' ks2';
}.

Section fill.
Context (p : Heap V) (fl : list nat) (d : nat) (par : option ptr) (a : ptr) (h : nat).
Context (its1 its2 : list (KeyInfo V)) (m : KeyInfo V) (ks1 ks2 : list (btree V)).
Context (l r : ptr) (lits rits : list (KeyInfo V)) (lks rks : list (btree V)).
Let L := BNode l lits lks.
Let R := BNode r rits rks.
Let t := pair_tree a its1 m its2 ks1 ks2 L R.
Hypothesis Hr : rep p d par t.
Hypothesis Hnd : NoDup (addrs t).
Hypothesis Hp : heap_ok p fl.
Hypothesis Hfl : fl ≠ [].
Hypothesis Hl1 : length ks1 = length its1.
Hypothesis Hl2 : length ks2 = length its2.
Hypothesis Hgood : Forall (good_kid h) (ks1 ++ ks2).
Hypothesis HL : good_kid h L.
Hypothesis HR : good_kid h R.

Lemma pair_leaves : lks = [] ↔ rks = [].
Proof using HL HR. destruct HL as [_ H1], HR as [_ H2]. apply (balanced_kids _ _ _ H1 H2). Qed.

Lemma pair_arity : (lks = [] ∨ length lks = S (length lits)) ∧ (rks = [] ∨ length rks = S (length rits)).
Proof using Hr.
  destruct (pair_reps _ _ _ _ _ _ _ _ _ _ _ _ _ _ _ Hr) as (_ & (ld & _ & Hln) & (rd & _ & Hrn) & _).
  split; by eapply rep_arity.
Qed.

Lemma good_around ks1' ks2' : ks1' = ks1 → ks2' = ks2 → Forall (good_kid h) ks1' ∧ Forall (good_kid h) ks2'.
Proof using Hgood. intros -> ->. by apply Forall_app. Qed.

Lemma fill_prev :
  (MIN_DEGREE + 1 ≤ length lits)%nat → length rits = MIN_DEGREE →
  ∃ p' x L' R', borrowFromPrev a (length its1 + 1) p = (Ok tt, p')
    ∧ reworked p fl p' fl d par t (BNode a ((its1 ++ [x]) ++ its2) ((ks1 ++ [L']) ++ R' :: ks2))
    ∧ filled h (its1 ++ [m]) its2 (ks1 ++ [L]) R ks2 (its1 ++ [x]) its2 (ks1 ++ [L']) R' ks2.
Proof using Hok Hr Hnd Hp Hl1 Hl2 Hgood HL HR.
  intros Hll Hrl. destruct max_degree as [HM _]. pose proof pair_leaves as Hleaf. destruct pair_arity as [Hla Hra].
  destruct (exists_last (l := lits)) as (lits' & x & Hlits); [by intros He; rewrite He in Hll; cbn in Hll; lia|].
  rewrite Hlits, length_app in Hla, Hll. cbn [length] in Hla, Hll.
  destruct (borrowFromPrev_ok a its1 its2 m ks1 ks2 l r lits rits lks rks Hnd p fl d par Hr Hp Hl1 Hleaf x lits' Hlits)
    as (p' & Hrun & Hrw); [lia|]. set (n := S (length lits')) in *.
  exists p', x, (BNode l lits' (take n lks)), (BNode r (m :: rits) (drop n lks ++ rks)).
  split; [done|]. split; [unfold pair_tree in Hrw; by rewrite <- !app_assoc|].
  set (Y := BNode l [] (drop n lks)).
  assert (flat L = flat (BNode l lits' (take n lks)) ++ x :: flat Y) as HfL.
  { unfold L. rewrite Hlits, <- (take_drop n lks) at 1. apply flat_app.
    destruct Hla as [->|Hla]; [left; by rewrite take_nil, drop_nil|right; rewrite length_take; lia]. }
  assert (flat (BNode r (m :: rits) (drop n lks ++ rks)) = flat Y ++ m :: flat R) as HfR.
  { apply (flat_app r [] m rits (drop n lks) rks). cbn.
    destruct Hla as [Hla|Hla]; [left; by rewrite (proj1 Hleaf Hla), Hla, drop_nil|right; rewrite length_drop; lia]. }
  destruct HL as [HLm HLb], HR as [HRm HRb]. destruct (good_around ks1 ks2) as [Hg1 Hg2]; [done..|].
  assert (length lks ≠ 0%nat → (n < length lks)%nat) as Hn by (destruct Hla as [->|]; cbn; lia).
  split; rewrite ?length_app; cbn [length]; try lia.
  - rewrite !Forall_app, Forall_cons. split_and!; [done|split; [cbn; lia|]|by constructor|done].
    apply (balanced_mix h _ _ L L); [done..| |].
    + intros c Hc. left. by apply elem_of_take_in in Hc.
    + cbn [kids L]. split; [|intros ->; apply take_nil]. intros He. destruct lks; done.
  - split; [|cbn; lia]. apply (balanced_mix h _ _ R L); [done..| |].
    + intros c [Hc%elem_of_drop_in|Hc]%elem_of_app; auto.
    + cbn [kids R]. split; [by intros [_ ?]%app_nil|]. intros He. by rewrite He, (proj2 Hleaf He), drop_nil.
  - exists (flat Y ++ [m]), []. rewrite !keys_before_snoc, HfL, HfR by done.
    rewrite !app_nil_r. split_and!; [|by rewrite <- app_assoc|done]. by rewrite <- !app_assoc.
Qed.

Lemma fill_next :
  length lits = MIN_DEGREE → (MIN_DEGREE + 1 ≤ length rits)%nat →
  ∃ p' x L' R', borrowFromNext a (length its1) p = (Ok tt, p')
    ∧ reworked p fl p' fl d par t (BNode a (its1 ++ x :: its2) (ks1 ++ L' :: R' :: ks2))
    ∧ filled h its1 (m :: its2) ks1 L (R :: ks2) its1 (x :: its2) ks1 L' (R' :: ks2).
Proof using Hok Hr Hnd Hp Hl1 Hl2 Hgood HL HR.
  intros Hll Hrl. destruct max_degree as [HM _]. pose proof pair_leaves as Hleaf. destruct pair_arity as [Hla Hra].
  destruct rits as [|x rits'] eqn:Hrits; [cbn in Hrl; lia|]. cbn [length] in Hrl, Hra.
  destruct (borrowFromNext_ok a its1 its2 m ks1 ks2 l r lits (x :: rits') lks rks Hnd p fl d par Hr Hp Hl1 Hleaf x rits')
    as (p' & Hrun & Hrw); [done|lia|].
  exists p', x, (BNode l (lits ++ [m]) (lks ++ take 1 rks)), (BNode r rits' (drop 1 rks)).
  split; [done|]. split; [done|]. set (Y := BNode r [] (take 1 rks)).
  assert (flat R = flat Y ++ x :: flat (BNode r rits' (drop 1 rks))) as HfR.
  { unfold R. rewrite <- (take_drop 1 rks) at 1. apply (flat_app r [] x rits').
    destruct Hra as [->|Hra]; [by left|right; rewrite length_take; cbn [length]; lia]. }
  assert (flat (BNode l (lits ++ [m]) (lks ++ take 1 rks)) = flat L ++ m :: flat Y) as HfL.
  { apply flat_app. destruct Hla as [Hla|]; [left|by right]. by rewrite (proj1 Hleaf Hla), Hla. }
  destruct HL as [HLm HLb], HR as [HRm HRb]. destruct (good_around ks1 ks2) as [Hg1 Hg2]; [done..|].
  split; rewrite ?length_app; cbn [length]; try lia.
  - rewrite !Forall_app, Forall_cons. split_and!; [done|split; [cbn; lia|]|done].
    apply (balanced_mix h _ _ R R); [done..| |].
    + intros c Hc. left. by apply elem_of_drop_in in Hc.
    + cbn [kids R]. split; [|intros ->; apply drop_nil]. intros He%(f_equal length). rewrite length_drop in He.
      destruct Hra as [?|Hra]; [done|]. cbn in He. lia.
  - split; [|cbn; rewrite length_app; cbn; lia]. apply (balanced_mix h _ _ L R); [done..| |].
    + intros c [Hc|Hc%elem_of_take_in]%elem_of_app; auto.
    + cbn [kids L]. split; [by intros [? _]%app_nil|]. intros He. by rewrite He, (proj1 Hleaf He).
  - exists [], (m :: flat Y). rewrite app_nil_r. split_and!; [done|done|]. rewrite !keys_behind_cons, HfR.
    by rewrite <- !app_assoc.
Qed.

Lemma fill_merge :
  length lits = MIN_DEGREE → length rits = MIN_DEGREE →
  ∃ p' fl' M, merge a (length its1) p = (Ok tt, p')
    ∧ reworked p fl p' fl' d par t (BNode a (its1 ++ its2) (ks1 ++ M :: ks2))
    ∧ flat M = flat L ++ m :: flat R
    ∧ (balanced h M = true ∧ (MIN_DEGREE + 1 ≤ length (items M))%nat) ∧ Forall (good_kid h) (ks1 ++ ks2).
Proof using Hok Hr Hnd Hp Hfl Hl1 Hl2 Hgood HL HR.
  intros Hll Hrl. pose proof pair_leaves as Hleaf. destruct pair_arity as [Hla Hra].
  destruct (merge_ok a its1 its2 m ks1 ks2 l r lits rits lks rks Hnd p fl d par Hr Hp Hl1 Hleaf Hll Hrl Hfl)
    as (p' & fl' & Hrun & Hrw). exists p', fl', (BNode l (lits ++ m :: rits) (lks ++ rks)).
  split_and!; [done|done| | | |done].
  - apply flat_app. destruct Hla as [Hla|]; [left|by right]. by rewrite (proj1 Hleaf Hla).
  - destruct HL as [_ HLb], HR as [_ HRb]. apply (balanced_mix h _ _ L R); [done..| |].
    + by intros c [Hc|Hc]%elem_of_app; auto.
    + cbn [kids L]. split; [by intros [? _]%app_nil|]. intros He. by rewrite He, (proj1 Hleaf He).
  - cbn [items]. rewrite length_app. cbn. lia.
Qed.
End fill.

Lemma child_key_cnt_ok p fl d par a its ks i c :
  heap_ok p fl → rep p d par (BNode a its ks) → ks !! i = Some c →
  child_at a i p = (Ok (addr c), p) ∧ child_key_cnt a i p = (Ok (length (items c)), p).
Proof.
  intros Hp [(nd & Ha & Hn) Hks]%rep_unfold Hi. rewrite Forall_lookup in Hks. pose proof (Hks _ _ Hi) as Hc.
  assert (child_at a i p = (Ok (addr c), p)) as Hat.
  { eapply child_at_ok; [done|done|exact Hn|by rewrite list_lookup_fmap, Hi|by eapply rep_live]. }
  split; [done|]. unfold child_key_cnt. run_ok by (exact Hat).
  destruct c as [b its' ks']. apply rep_unfold in Hc as [(bd & Hb & Hbn) _]. cbn [addr items].
  by rewrite (bind_load _ _ _ _ Hb), (nr_cnt _ _ _ _ _ Hbn).
Qed.

(** The two tests of [fill]. *)
Lemma fill_tests p fl d par a its1 its2 ks1 c ks2 :
  heap_ok p fl → rep p d par (BNode a (its1 ++ its2) (ks1 ++ c :: ks2)) →
  length ks1 = length its1 → length ks2 = length its2 →
  let big o := match o with Some c => (MIN_DEGREE + 1 <=? length (items c))%nat | None => false end in
  let i := length its1 in
  (if (i =? 0)%nat then mret false
   else c ← child_key_cnt a (i - 1); mret (MIN_DEGREE + 1 <=? c)%nat) p = (Ok (big (last ks1)), p)
  ∧ (if (i =? length (its1 ++ its2))%nat then mret false
     else c ← child_key_cnt a (i + 1); mret (MIN_DEGREE + 1 <=? c)%nat) p = (Ok (big (head ks2)), p).
Proof.
  intros Hp Hr H1 H2 big i. subst i. split.
  - destruct (decide (ks1 = [])) as [->|Hne]; [by rewrite <- H1|].
    destruct (exists_last Hne) as (K1 & L & ->). rewrite length_app in H1. cbn [length] in H1.
    rewrite (proj2 (Nat.eqb_neq _ _)) by lia. rewrite last_snoc.
    destruct (child_key_cnt_ok _ _ _ _ _ _ _ (length its1 - 1) L Hp Hr) as [_ Hc];
      [rewrite <- app_assoc; cbn; replace (length its1 - 1)%nat with (length K1) by lia; by apply list_lookup_middle|].
    by run_ok by (exact Hc).
  - rewrite length_app. destruct ks2 as [|R K2]; cbn [length] in H2.
    + rewrite (proj2 (Nat.eqb_eq _ _)) by lia. done.
    + rewrite (proj2 (Nat.eqb_neq _ _)) by lia.
      destruct (child_key_cnt_ok _ _ _ _ _ _ _ (length its1 + 1) R Hp Hr) as [_ Hc].
      { rewrite lookup_app_r by lia. by replace (length its1 + 1 - length ks1)%nat with 1%nat by lia. }
      by run_ok by (exact Hc).
Qed.

Lemma fill_ok p fl d par a h its1 its2 ks1 c ks2 :
  let t := BNode a (its1 ++ its2) (ks1 ++ c :: ks2) in
  rep p d par t → NoDup (addrs t) → heap_ok p fl → fl ≠ [] → length ks1 = length its1 →
  length ks2 = length its2 → Forall (good_kid h) (ks1 ++ ks2) → good_kid h c →
  length (items c) = MIN_DEGREE → its1 ++ its2 ≠ [] →
  ∃ p' fl' its1' its2' ks1' c' ks2', fill a (length its1) p = (Ok tt, p')
    ∧ reworked p fl p' fl' d par t (BNode a (its1' ++ its2') (ks1' ++ c' :: ks2'))
    ∧ filled h its1 its2 ks1 c ks2 its1' its2' ks1' c' ks2'.
Proof.
  intros t Hr Hnd Hp Hfl H1 H2 Hg Hc Hmin Hne. pose proof Hr as [(nd & Ha & Hn) _]%rep_unfold.
  destruct (fill_tests _ _ _ _ _ _ _ _ _ _ Hp Hr H1 H2) as [Hprev Hnext].
  unfold fill. rewrite (bind_load _ _ _ _ Ha), (nr_cnt _ _ _ _ _ Hn). run_ok by (exact Hprev).
  apply Forall_app in Hg as [Hg1 Hg2]. destruct c as [b bits bks] eqn:Ec. cbn [items] in Hmin.
  destruct (match last ks1 with Some _ => _ | None => false end) eqn:Hbig.
  { (* a key of the previous sibling *)
    destruct (decide (ks1 = [])) as [->|Hk1]; [done|]. destruct (exists_last Hk1) as (K1 & [l lits lks] & ->).
    rewrite last_snoc in Hbig. apply Nat.leb_le in Hbig. cbn [items] in Hbig.
    destruct (decide (its1 = [])) as [->|Hi1]; [rewrite length_app in H1; cbn in H1; lia|].
    destruct (exists_last Hi1) as (I1 & m & ->). rewrite !length_app in *. cbn [length] in *.
    apply Forall_app in Hg1 as [Hg1 [HL _]%Forall_cons]. unfold t in *. rewrite <- !app_assoc in Hr, Hnd.
    destruct (fill_prev p fl d par a h I1 its2 m K1 ks2 l b lits bits lks bks Hr Hnd Hp)
      as (p' & x & L' & R' & Hrun & Hrw & Hf); [lia|done|by apply Forall_app|done..|].
    exists p', fl, (I1 ++ [x]), its2, (K1 ++ [L']), R', ks2. split_and!; [exact Hrun| |done].
    by rewrite <- (app_assoc I1 [m]), <- (app_assoc K1 [_]). }
  run_ok by (exact Hnext).
  assert (∀ L, last ks1 = Some L → length (items L) = MIN_DEGREE) as Hsmall.
  { intros L HL. rewrite HL in Hbig. apply Nat.leb_gt in Hbig. apply last_Some_elem_of in HL.
    rewrite Forall_forall in Hg1. destruct (Hg1 _ HL). lia. }
  destruct its2 as [|m I2], ks2 as [|[r rits rks] K2]; try done.
  - (* the last child *)
    rewrite app_nil_r, Nat.eqb_refl. cbn [negb head].
    rewrite app_nil_r in Hne. destruct (exists_last Hne) as (I1 & m & ->).
    destruct (decide (ks1 = [])) as [->|Hk1]; [rewrite length_app in H1; cbn in H1; lia|].
    destruct (exists_last Hk1) as (K1 & [l lits lks] & ->). rewrite !length_app in *. cbn [length] in *.
    rewrite bind_assert by (apply Nat.ltb_lt; lia). rewrite Nat.add_sub.
    apply Forall_app in Hg1 as [Hg1 [HL _]%Forall_cons]. unfold t in *.
    rewrite app_nil_r in Hr, Hnd. rewrite <- !app_assoc in Hr, Hnd.
    destruct (fill_merge p fl d par a h I1 [] m K1 [] l b lits bits lks bks Hr Hnd Hp Hfl)
      as (p' & fl' & M & Hrun & Hrw & HfM & HM & HgM); [lia|done|by rewrite app_nil_r|done..|by apply (Hsmall _ (last_snoc _ _))|done|].
    exists p', fl', I1, [], K1, M, []. split_and!; [exact Hrun|by rewrite app_nil_r, <- (app_assoc K1 [_])|].
    split; [lia|done|done|done|right; split_and!; [done..|rewrite length_app; cbn; lia]|rewrite !length_app; cbn; lia|].
    exists (flat (BNode l lits lks) ++ [m]), []. rewrite keys_before_snoc by lia.
    split_and!; [done|by rewrite HfM, app_nil_r, <- app_assoc|done].
  - apply Forall_cons in Hg2 as [HR Hg2]. cbn [length] in H2. injection H2 as H2.
    destruct (head _) eqn:Hh; [|done]. cbn in Hh. injection Hh as <-.
    destruct (Nat.leb_spec (MIN_DEGREE + 1) (length (items (BNode r rits rks)))) as [Hrb|Hrs].
    + (* a key of the next sibling *)
      destruct (fill_next p fl d par a h its1 I2 m ks1 K2 b r bits rits bks rks Hr Hnd Hp)
        as (p' & x & L' & R' & Hrun & Hrw & Hf); [done|done|by apply Forall_app|done..|].
      exists p', fl, its1, (x :: I2), ks1, L', (R' :: K2). split_and!; [exact Hrun|done|done].
    + (* the next sibling *)
      rewrite length_app. rewrite (proj2 (Nat.eqb_neq _ _)) by (cbn; lia). cbn [negb].
      destruct (fill_merge p fl d par a h its1 I2 m ks1 K2 b r bits rits bks rks Hr Hnd Hp Hfl)
        as (p' & fl' & M & Hrun & Hrw & HfM & HM & HgM); [done|done|by apply Forall_app|done..| |].
      { destruct HR. cbn [items] in *. lia. }
      exists p', fl', its1, I2, ks1, M, K2. split_and!; [exact Hrun|done|].
      split; [done|done|done|done|by left|rewrite !length_app; cbn; lia|].
      exists [], (m :: flat (BNode r rits rks)). rewrite app_nil_r, HfM. by split_and!.
Qed.

(** ** One child of a node *)

Lemma kid_flat a its1 its2 ks1 c ks2 :
  length ks1 = length its1 → length ks2 = length its2 →
  flat (BNode a (its1 ++ its2) (ks1 ++ c :: ks2)) = keys_before its1 ks1 ++ flat c ++ keys_behind its2 ks2.
Proof. apply one_flat. Qed.

Lemma kid_reworked p fl p' fl' d par a its ks1 c c' ks2 :
  rep p d par (BNode a its (ks1 ++ c :: ks2)) → NoDup (addrs (BNode a its (ks1 ++ c :: ks2))) →
  reworked p fl p' fl' d (Some a) c c' →
  reworked p fl p' fl' d par (BNode a its (ks1 ++ c :: ks2)) (BNode a its (ks1 ++ c' :: ks2)).
Proof.
  intros Hr Hnd Hc. assert ((ks1 ++ c :: ks2) !! length ks1 = Some c) as Hi by by apply list_lookup_middle.
  pose proof (reworked_kid _ _ _ _ _ _ _ _ _ _ _ _ Hr Hnd Hi Hc) as Hrw.
  by rewrite insert_app_r_alt, Nat.sub_diag in Hrw by done.
Qed.

Lemma kid_rep p d par a its ks1 c ks2 :
  rep p d par (BNode a its (ks1 ++ c :: ks2)) → NoDup (addrs (BNode a its (ks1 ++ c :: ks2))) →
  rep p d (Some a) c ∧ NoDup (addrs c).
Proof.
  intros [_ Hks]%rep_unfold Hnd. destruct (addrs_disjoint _ _ _ Hnd) as (Hk & _).
  rewrite Forall_forall in Hks. assert (c ∈ ks1 ++ c :: ks2) as Hin by set_solver.
  split; [by apply Hks|by apply Hk].
Qed.

Lemma kid_balanced h a its ks1 c ks2 :
  balanced (S h) (BNode a its (ks1 ++ c :: ks2)) = true ↔ good_kid h c ∧ Forall (good_kid h) (ks1 ++ ks2).
Proof.
  rewrite balanced_S, !Forall_app, Forall_cons. split; [tauto|]. intros ?. split; [by destruct ks1|tauto].
Qed.

(** The key is not among the keys around the child the search descends to. *)
Lemma not_before k its1 ks1 l :
  length ks1 = length its1 → sorted_keys (keys_before its1 ks1 ++ l) → Forall (λ x, low (key x) < low k) its1 →
  k ∉ key <$> keys_before its1 ks1.
Proof.
  intros Hl Hs Hlow. destruct (decide (its1 = [])) as [->|Hne].
  { destruct ks1; [|done]. apply not_elem_of_nil. }
  destruct (exists_last Hne) as (I1 & m & ->). destruct (decide (ks1 = [])) as [->|Hk1].
  { rewrite length_app in Hl. cbn in Hl. lia. }
  destruct (exists_last Hk1) as (K1 & L & ->). rewrite !length_app in Hl. cbn [length] in Hl.
  rewrite keys_before_snoc in * by lia. apply Forall_app in Hlow as [_ [Hm _]%Forall_cons].
  rewrite app_assoc in *. apply sorted_app in Hs as (([Hv _] & _ & Hb)%sorted_app & _ & _).
  rewrite Forall_forall in Hv.
  rewrite fmap_app, not_elem_of_app. split; intros (x & He & Hx)%list_elem_of_fmap; subst k.
  - pose proof (Hb x m Hx ltac:(left)) as Hlt. unfold key_before in Hlt.
    pose proof (Hv x Hx). lia.
  - apply list_elem_of_singleton in Hx as ->. lia.
Qed.

Lemma not_from k l1 l2 :
  sorted_keys (l1 ++ l2) → (∀ x l', l2 = x :: l' → low k ≤ low (key x) ∧ key x ≠ k) → k ∉ key <$> l2.
Proof.
  intros (_ & Hs & _)%sorted_app Hk. destruct l2 as [|m l2]; [apply not_elem_of_nil|].
  destruct (Hk m l2 eq_refl) as [Hlow Hne]. destruct Hs as [[Hv _]%Forall_cons [_ Hb]%StronglySorted_inv].
  rewrite Forall_forall in Hb. rewrite fmap_cons, not_elem_of_cons. split; [done|].
  intros (x & He & Hx)%list_elem_of_fmap. subst k. pose proof (Hb x Hx) as Hlt. unfold key_before in Hlt. lia.
Qed.

Lemma not_behind k its2 ks2 l :
  length ks2 = length its2 → sorted_keys (l ++ keys_behind its2 ks2) →
  (∀ x its', its2 = x :: its' → low k ≤ low (key x) ∧ key x ≠ k) → k ∉ key <$> keys_behind its2 ks2.
Proof.
  intros Hl Hs Hk. eapply not_from; [exact Hs|]. intros x l' He.
  destruct its2 as [|m I2], ks2 as [|R K2]; try done. injection He as <- _. by eapply Hk.
Qed.

Lemma not_in_leaf k its1 its2 :
  sorted_keys (its1 ++ its2) → Forall (λ x, low (key x) < low k) its1 →
  (∀ x its', its2 = x :: its' → low k ≤ low (key x) ∧ key x ≠ k) → k ∉ key <$> its1 ++ its2.
Proof.
  intros Hs Hlow Hk. rewrite fmap_app, not_elem_of_app. split; [|by eapply not_from].
  rewrite Forall_forall in Hlow. intros (x & -> & Hx)%list_elem_of_fmap. specialize (Hlow x Hx). lia.
Qed.

(** ** The recursion *)

(** What the removal of the key [k] from [t] leaves. *)
Record removed p fl p' fl' (d : nat) (par : option ptr) (h : nat) k t t' : Prop := {
  rm_reworked : reworked p fl p' fl' d par t t';
  rm_balanced : balanced h t' = true;
  rm_flat : flat t' = without k (flat t);
  rm_size : (length (items t) ≤ S (length (items t')))%nat;
}.

Definition plain t : Prop := Forall (λ x, knext_level x = INVALID_INDEX) (flat t).

Definition removes (d h : nat) : Prop := ∀ p fl par t k fuel,
  rep p d par t → NoDup (addrs t) → heap_ok p fl → fl ≠ [] → balanced h t = true → sorted_keys (flat t) →
  plain t → (h = 0%nat ∨ items t ≠ []) → (2 * h + 1 ≤ fuel)%nat →
  ∃ p' fl' t', remove_key fuel (addr t) k p = (remove_result k (flat t), p')
    ∧ removed p fl p' fl' d par h k t t'.

Lemma removed_kid p fl p' fl' d par h k a its1 its2 ks1 c c' ks2 :
  rep p d par (BNode a (its1 ++ its2) (ks1 ++ c :: ks2)) →
  NoDup (addrs (BNode a (its1 ++ its2) (ks1 ++ c :: ks2))) →
  length ks1 = length its1 → length ks2 = length its2 → Forall (good_kid h) (ks1 ++ ks2) →
  (MIN_DEGREE + 1 ≤ length (items c))%nat → removed p fl p' fl' d (Some a) h k c c' →
  let t' := BNode a (its1 ++ its2) (ks1 ++ c' :: ks2) in
  reworked p fl p' fl' d par (BNode a (its1 ++ its2) (ks1 ++ c :: ks2)) t'
  ∧ balanced (S h) t' = true ∧ flat t' = keys_before its1 ks1 ++ without k (flat c) ++ keys_behind its2 ks2.
Proof.
  intros Hr Hnd H1 H2 Hg Hmin [Hrw Hb Hfl Hsz] t'. split_and!.
  - by apply kid_reworked.
  - apply kid_balanced. split; [split; [lia|done]|done].
  - unfold t'. by rewrite kid_flat, Hfl.
Qed.

Lemma plain_part t c l1 l2 : flat t = l1 ++ flat c ++ l2 → plain t → plain c.
Proof. unfold plain. intros ->. rewrite !Forall_app. tauto. Qed.

Lemma set_slot_key nd i x d : node_dim nd i = Some d → set_slot i (x, d) nd = node_set_key i x nd.
Proof.
  intros Hd. assert (dim_index nd !! i = Some (Some d)) as Hi.
  { unfold node_dim in Hd. destruct (dim_index nd !! i) as [[]|]; cbn in Hd; congruence. }
  unfold set_slot, node_set_dim, node_set_key. cbn. by rewrite (list_insert_id (dim_index nd)) by done.
Qed.

(** The key of an inner node is replaced by a neighbour. *)
Lemma set_key_reworked p fl d par a its1 x y its2 ks :
  let t := BNode a (its1 ++ x :: its2) ks in
  heap_ok p fl → rep p d par t → NoDup (addrs t) →
  ∃ p', set_key a (length its1) y p = (Ok tt, p')
    ∧ reworked p fl p' fl d par t (BNode a (its1 ++ y :: its2) ks).
Proof.
  intros t Hp Hr Hnd. pose proof Hr as [(nd & Ha & Hn) _]%rep_unfold.
  pose proof (nr_max _ _ _ _ _ Hn) as Hmax. rewrite length_app in Hmax. cbn [length] in Hmax.
  erewrite set_key_ok; [|done|apply (nr_wf _ _ _ _ _ Hn)|lia]. eexists. split; [done|].
  eapply reworked_root; [done..|]. rewrite <- (set_slot_key nd _ _ d).
  - by eapply node_rep_set_slot.
  - apply (nr_dims _ _ _ _ _ Hn). rewrite length_app. cbn. lia.
Qed.

Lemma getPred_ok h p fl d par a its ks i c fuel :
  heap_ok p fl → rep p d par (BNode a its ks) → ks !! i = Some c → good_kid h c → (h ≤ fuel)%nat →
  ∃ y F, getPred fuel a i p = (Ok y, p) ∧ flat c = F ++ [y].
Proof.
  intros Hp Hr Hi [Hm Hb] Hf. pose proof min_degree_pos. pose proof Hr as [_ Hks]%rep_unfold.
  rewrite Forall_lookup in Hks.
  destruct (right_most_ok h p fl d (Some a) c fuel) as (b & bd & n & y & F & Hrun & Hbd & Hcnt & Hn & Hk & Hfl);
    [by eapply Hks|done|done|lia|done|].
  destruct (child_key_cnt_ok _ _ _ _ _ _ _ _ _ Hp Hr Hi) as [Hc _]. unfold child_at in Hc.
  apply bind_Ok_inv in Hc as (o & q & Hc1 & Hc2). destruct o as [c'|]; [|done]. injection Hc2 as -> ->.
  exists y, F. split; [|done]. unfold getPred. run_ok by (exact Hc1). cbn [or_ub]. rewrite bind_ret.
  run_ok by (exact Hrun). rewrite (bind_load _ _ _ _ Hbd), Hcnt. by eapply get_key_ok.
Qed.

Lemma getSucc_ok h p fl d par a its ks i c fuel :
  heap_ok p fl → rep p d par (BNode a its ks) → ks !! (i + 1)%nat = Some c → good_kid h c → (h ≤ fuel)%nat →
  ∃ y F, getSucc fuel a i p = (Ok y, p) ∧ flat c = y :: F.
Proof.
  intros Hp Hr Hi [Hm Hb] Hf. pose proof max_degree. pose proof Hr as [_ Hks]%rep_unfold.
  rewrite Forall_lookup in Hks.
  destruct (left_most_ok h p fl d (Some a) c fuel) as (b & bd & y & F & Hrun & Hbd & Hk & Hfl);
    [by eapply Hks|done|done|lia|done|].
  destruct (child_key_cnt_ok _ _ _ _ _ _ _ _ _ Hp Hr Hi) as [Hc _]. unfold child_at in Hc.
  apply bind_Ok_inv in Hc as (o & q & Hc1 & Hc2). destruct o as [c'|]; [|done]. injection Hc2 as -> ->.
  exists y, F. split; [|done]. unfold getSucc. run_ok by (exact Hc1). cbn [or_ub]. rewrite bind_ret.
  run_ok by (exact Hrun). eapply get_key_ok; [done|done|lia].
Qed.

(** A key of the list of a child replaces the key next to the child and is
    removed from the child instead. *)
Lemma replace_and_remove d h p fl p1 par a its1 its2 ks1 c ks2 its1' its2' y k fuel :
  removes d h →
  let t := BNode a (its1 ++ its2) (ks1 ++ c :: ks2) in
  let t1 := BNode a (its1' ++ its2') (ks1 ++ c :: ks2) in
  rep p d par t → NoDup (addrs t) → fl ≠ [] → reworked p fl p1 fl d par t t1 →
  length its1' = length its1 → length its2' = length its2 →
  length ks1 = length its1 → length ks2 = length its2 → Forall (good_kid h) (ks1 ++ ks2) → good_kid h c →
  (MIN_DEGREE + 1 ≤ length (items c))%nat → sorted_keys (flat t) → plain t → key y ∈ key <$> flat c →
  keys_before its1' ks1 ++ without (key y) (flat c) ++ keys_behind its2' ks2 = without k (flat t) →
  (2 * h + 1 ≤ fuel)%nat →
  ∃ p' fl' t', remove_key fuel (addr c) (key y) p1 = (Ok tt, p') ∧ removed p fl p' fl' d par (S h) k t t'.
Proof.
  intros Hrem t t1 Hr Hnd Hfl Hrw Hi1 Hi2 H1 H2 Hg [Hm Hb] Hmin Hs Hpl Hy Hres Hf.
  pose proof (reworked_NoDup _ _ _ _ _ _ _ _ Hrw Hnd) as Hnd1. pose proof Hrw as [Hp1 Hr1 _ _ _].
  destruct (kid_rep _ _ _ _ _ _ _ _ Hr1 Hnd1) as [Hrc Hndc].
  pose proof (kid_flat a its1 its2 ks1 c ks2 H1 H2) as Hft. fold t in Hft.
  destruct (Hrem p1 fl (Some a) c (key y) fuel) as (p' & fl' & c' & Hrun & Hc'); [done..| | | |done|].
  - rewrite Hft in Hs. by eapply sorted_part.
  - by eapply plain_part.
  - right. intros He. rewrite He in Hmin. cbn in Hmin. lia.
  - rewrite remove_result_in in Hrun by done.
    destruct (removed_kid p1 fl p' fl' d par h (key y) a its1' its2' ks1 c c' ks2) as (Hrw' & Hb' & Hfl');
      [done|done|lia|lia|done|lia|done|].
    exists p', fl', (BNode a (its1' ++ its2') (ks1 ++ c' :: ks2)). split; [done|]. split.
    + by eapply reworked_trans.
    + done.
    + by rewrite Hfl'.
    + cbn [items t]. rewrite !length_app. lia.
Qed.

Lemma removeFromNonLeaf_ok d h p fl par a its1 x its2 ks1 L R ks2 fuel :
  removes d h →
  let t := pair_tree a its1 x its2 ks1 ks2 L R in
  rep p d par t → NoDup (addrs t) → heap_ok p fl → fl ≠ [] →
  length ks1 = length its1 → length ks2 = length its2 → Forall (good_kid h) (ks1 ++ ks2) →
  good_kid h L → good_kid h R → sorted_keys (flat t) → plain t → (2 * h + 2 ≤ fuel)%nat →
  ∃ p' fl' t', removeFromNonLeaf fuel a (length its1) p = (Ok tt, p')
    ∧ removed p fl p' fl' d par (S h) (key x) t t'.
Proof.
  intros Hrem t Hr Hnd Hp Hfl H1 H2 Hg HL HR Hs Hpl Hf. unfold t, pair_tree in *.
  destruct fuel as [|fuel]; [lia|]. pose proof (proj1 (Forall_app _ _ _) Hg) as [Hg1 Hg2].
  assert ((ks1 ++ L :: R :: ks2) !! length its1 = Some L) as HiL by (rewrite <- H1; by apply list_lookup_middle).
  assert ((ks1 ++ L :: R :: ks2) !! (length its1 + 1)%nat = Some R) as HiR.
  { rewrite lookup_app_r by lia. by replace (length its1 + 1 - length ks1)%nat with 1%nat by lia. }
  destruct (child_key_cnt_ok _ _ _ _ _ _ _ _ _ Hp Hr HiL) as [HcL HnL].
  destruct (child_key_cnt_ok _ _ _ _ _ _ _ _ _ Hp Hr HiR) as [HcR HnR].
  pose proof Hr as [(nd & Ha & Hn) _]%rep_unfold. pose proof (nr_max _ _ _ _ _ Hn) as Hmax.
  rewrite length_app in Hmax. cbn [length] in Hmax.
  pose proof (kid_flat a its1 (x :: its2) ks1 L (R :: ks2)) as Hft. rewrite keys_behind_cons in Hft.
  specialize (Hft H1 ltac:(cbn; lia)).
  cbn [removeFromNonLeaf]. run_ok by (eapply get_key_ok;
    [done|apply (nr_keys _ _ _ _ _ Hn); by apply list_lookup_middle|lia]).
  run_ok by (exact HnL). destruct (Nat.leb_spec (MIN_DEGREE + 1) (length (items L))) as [HbL|HsL].
  { (* the predecessor *)
    destruct (getPred_ok h p fl d par a _ _ _ L fuel Hp Hr HiL HL) as (y & F & Hpred & HF); [lia|].
    run_ok by (exact Hpred).
    destruct (set_key_reworked p fl d par a its1 x y its2 _ Hp Hr Hnd) as (p1 & Hset & Hrw).
    run_ok by (exact Hset). pose proof Hrw as [Hp1 Hr1 _ _ _].
    destruct (child_key_cnt_ok _ _ _ _ _ _ _ _ _ Hp1 Hr1 HiL) as [HcL1 _]. run_ok by (exact HcL1).
    apply (replace_and_remove d h p fl p1 par a its1 (x :: its2) ks1 L (R :: ks2) its1 (y :: its2)); try done.
    - cbn. lia.
    - rewrite Forall_app, Forall_cons. auto.
    - rewrite HF, fmap_app. apply elem_of_app. right. by left.
    - rewrite Hft, HF in *. rewrite keys_behind_cons. by apply replace_pred.
    - lia. }
  run_ok by (exact HnR). destruct (Nat.leb_spec (MIN_DEGREE + 1) (length (items R))) as [HbR|HsR].
  { (* the successor *)
    destruct (getSucc_ok h p fl d par a _ _ _ R fuel Hp Hr HiR HR) as (y & F & Hsucc & HF); [lia|].
    run_ok by (exact Hsucc).
    destruct (set_key_reworked p fl d par a its1 x y its2 _ Hp Hr Hnd) as (p1 & Hset & Hrw).
    run_ok by (exact Hset). pose proof Hrw as [Hp1 Hr1 _ _ _].
    destruct (child_key_cnt_ok _ _ _ _ _ _ _ _ _ Hp1 Hr1 HiR) as [HcR1 _]. run_ok by (exact HcR1).
    assert (∀ z, BNode a (its1 ++ z :: its2) (ks1 ++ L :: R :: ks2)
                 = BNode a ((its1 ++ [z]) ++ its2) ((ks1 ++ [L]) ++ R :: ks2)) as He
      by (intros z; by rewrite <- !app_assoc).
    rewrite He in Hr, Hnd, Hs, Hpl |- *. rewrite (He x), (He y) in Hrw. rewrite He in Hft.
    apply (replace_and_remove d h p fl p1 par a (its1 ++ [x]) its2 (ks1 ++ [L]) R ks2 (its1 ++ [y]) its2);
      rewrite ?length_app; try done; cbn [length]; try lia.
    - rewrite !Forall_app, Forall_singleton. auto.
    - rewrite HF. by left.
    - rewrite Hft, HF in *. rewrite keys_before_snoc by done.
      pose proof (replace_succ (keys_before its1 ks1 ++ flat L) x y F (keys_behind its2 ks2)) as Hrs.
      rewrite <- !app_assoc in Hrs. rewrite <- !app_assoc. by apply Hrs. }
  (* both are small *)
  destruct L as [l lits lks], R as [r rits rks]. cbn [items] in HsL, HsR.
  pose proof HL as [HLm _]. pose proof HR as [HRm _]. cbn [items] in HLm, HRm.
  destruct (fill_merge p fl d par a h its1 its2 x ks1 ks2 l r lits rits lks rks Hr Hnd Hp Hfl H1 H2 Hg HL HR)
    as (p1 & fl1 & M & Hrun & Hrw & HfM & [HbM HMm] & _); [lia|lia|].
  run_ok by (exact Hrun). pose proof Hrw as [Hp1 Hr1 _ _ _].
  pose proof (reworked_NoDup _ _ _ _ _ _ _ _ Hrw Hnd) as Hnd1.
  assert ((ks1 ++ M :: ks2) !! length its1 = Some M) as HiM by (rewrite <- H1; by apply list_lookup_middle).
  destruct (child_key_cnt_ok _ _ _ _ _ _ _ _ _ Hp1 Hr1 HiM) as [HcM _]. run_ok by (exact HcM).
  destruct (kid_rep _ _ _ _ _ _ _ _ Hr1 Hnd1) as [HrM HndM].
  assert (flat t = keys_before its1 ks1 ++ flat M ++ keys_behind its2 ks2) as HftM.
  { unfold t, pair_tree. rewrite Hft, HfM. by rewrite <- !app_assoc. }
  unfold t, pair_tree in HftM. rewrite HftM in Hs.
  destruct (Hrem p1 fl1 (Some a) M (key x) fuel) as (p' & fl' & M' & Hrun' & HM');
    [done..|by eapply reworked_nonempty|done|by eapply sorted_part|by eapply plain_part| |lia|].
  { right. intros He. rewrite He in HMm. cbn in HMm. lia. }
  rewrite remove_result_in in Hrun' by (rewrite HfM, fmap_app; apply elem_of_app; right; by left).
  destruct (removed_kid p1 fl1 p' fl' d par h (key x) a its1 its2 ks1 M M' ks2) as (Hrw' & Hb' & Hfl'); [done..|].
  exists p', fl', (BNode a (its1 ++ its2) (ks1 ++ M' :: ks2)). split; [done|]. split.
  - by eapply reworked_trans.
  - done.
  - rewrite Hfl', HftM, HfM in *. by apply remove_inner.
  - cbn [items]. rewrite !length_app. cbn. lia.
Qed.

(** The test whether the key is in the node. *)
Lemma here_ok p nd d par a its1 its2 cs k :
  node_at p a = Some nd → node_rep d par (its1 ++ its2) cs nd →
  (if (length its1 <? key_cnt nd)%nat then ki ← get_key a (length its1); mret (range_eq (key ki) k)
   else mret false) p
  = (Ok (match its2 with x :: _ => range_eq (key x) k | [] => false end), p).
Proof.
  intros Ha Hn. pose proof (nr_max _ _ _ _ _ Hn) as Hmax.
  rewrite (nr_cnt _ _ _ _ _ Hn). rewrite length_app in *. destruct its2 as [|x its2]; cbn [length] in *.
  - by rewrite (proj2 (Nat.ltb_ge _ _)) by lia.
  - rewrite (proj2 (Nat.ltb_lt _ _)) by lia.
    by run_ok by (eapply get_key_ok; [done|apply (nr_keys _ _ _ _ _ Hn); by apply list_lookup_middle|lia]).
Qed.

(** The key is in the node. *)
Lemma remove_here d h p fl par a its1 x its2 ks fuel :
  match h with O => True | S h => removes d h end →
  let t := BNode a (its1 ++ x :: its2) ks in
  rep p d par t → NoDup (addrs t) → heap_ok p fl → fl ≠ [] → balanced h t = true →
  sorted_keys (flat t) → plain t → (2 * h ≤ fuel)%nat →
  ∃ p' fl' t', (if bool_decide (addr <$> ks = []) then removeFromLeaf a (length its1)
                else removeFromNonLeaf fuel a (length its1)) p = (Ok tt, p')
    ∧ removed p fl p' fl' d par h (key x) t t'.
Proof.
  intros Hrem t Hr Hnd Hp Hfl Hb Hs Hpl Hf. destruct h as [|h].
  - apply balanced_0 in Hb as ->. rewrite bool_decide_true by done.
    destruct (removeFromLeaf_ok p fl d par a its1 x its2) as (p' & Hrun & Hrw); [done|done| |].
    { unfold plain in Hpl. cbn in Hpl. by apply Forall_app in Hpl as [_ [? _]%Forall_cons]. }
    exists p', fl, (BNode a (its1 ++ its2) []). split; [done|]. split; [done|done| |].
    + cbn [flat t fmap list_fmap weave] in *. by rewrite without_middle.
    + cbn. rewrite !length_app. cbn. lia.
  - pose proof Hb as [Hne _]%balanced_S. pose proof (rep_kids_length _ _ _ _ _ _ Hr) as [|Hl]; [done|].
    rewrite length_app in Hl. cbn [length] in Hl. rewrite bool_decide_false by (by intros ?%fmap_nil_inv).
    destruct (lookup_lt_is_Some_2 ks (length its1)) as [L HL]; [lia|].
    destruct (lookup_lt_is_Some_2 ks (S (length its1))) as [R HR]; [lia|].
    assert (ks = take (length its1) ks ++ L :: R :: drop (S (S (length its1))) ks) as Hks.
    { by rewrite <- (drop_S _ _ _ HR), take_drop_middle. }
    set (ks1 := take (length its1) ks) in Hks. set (ks2 := drop (S (S (length its1))) ks) in Hks.
    assert (length ks1 = length its1 ∧ length ks2 = length its2) as [H1 H2].
    { unfold ks1, ks2. rewrite length_take, length_drop. lia. }
    clearbody ks1 ks2. subst ks. apply kid_balanced in Hb as [HgL Hg]. apply Forall_app in Hg as [Hg1 [HgR Hg2]%Forall_cons].
    apply (removeFromNonLeaf_ok d h p fl par a its1 x its2 ks1 L R ks2 fuel); try done; [by apply Forall_app|lia].
Qed.

(** The child the removal goes on in. *)
Lemma child_to_visit p fl d par a its1' its2' ks1' c' ks2' its1 its2 (ptr_ : ptr) nd' :
  heap_ok p fl → rep p d par (BNode a (its1' ++ its2') (ks1' ++ c' :: ks2')) → node_at p a = Some nd' →
  length ks1' = length its1' →
  length its1' = length its1 ∨ (its2 = [] ∧ its2' = [] ∧ S (length its1') = length its1) →
  (if (length its1 =? length (its1 ++ its2 : list (KeyInfo V)))%nat && (key_cnt nd' <? length its1)%nat
   then child_at a (length its1 - 1) else child_at a (length its1)) p = (Ok (addr c'), p).
Proof.
  intros Hp Hr Ha H1 Hi. pose proof Hr as [(nd & Ha' & Hn) _]%rep_unfold. rewrite Ha in Ha'. injection Ha' as <-.
  rewrite (nr_cnt _ _ _ _ _ Hn), !length_app.
  destruct (child_key_cnt_ok _ _ _ _ _ _ _ (length its1') c' Hp Hr) as [Hc _];
    [rewrite <- H1; by apply list_lookup_middle|].
  destruct Hi as [Hi|(-> & -> & Hi)].
  - rewrite <- Hi. by rewrite (proj2 (Nat.ltb_ge _ _)), andb_false_r by lia.
  - cbn [length]. rewrite (proj2 (Nat.eqb_eq _ _)), (proj2 (Nat.ltb_lt _ _)) by lia. cbn [andb].
    by replace (length its1 - 1)%nat with (length its1') by lia.
Qed.

(** The key is not in an inner node. *)
Lemma remove_below d h p fl par a its1 its2 ks1 c ks2 k fuel :
  removes d h →
  let t := BNode a (its1 ++ its2) (ks1 ++ c :: ks2) in
  rep p d par t → NoDup (addrs t) → heap_ok p fl → fl ≠ [] → length ks1 = length its1 →
  length ks2 = length its2 → Forall (good_kid h) (ks1 ++ ks2) → good_kid h c → its1 ++ its2 ≠ [] →
  sorted_keys (flat t) → plain t → k ∉ key <$> keys_before its1 ks1 → k ∉ key <$> keys_behind its2 ks2 →
  (2 * h + 1 ≤ fuel)%nat →
  ∃ p' fl' t', (n ← child_key_cnt a (length its1);
     (if (n <? MIN_DEGREE + 1)%nat then fill a (length its1) else mret tt);;
     nd ← load a;
     c ← (if (length its1 =? length (its1 ++ its2))%nat && (key_cnt nd <? length its1)%nat
          then child_at a (length its1 - 1) else child_at a (length its1));
     remove_key fuel c k) p = (remove_result k (flat t), p')
    ∧ removed p fl p' fl' d par (S h) k t t'.
Proof.
  intros Hrem t Hr Hnd Hp Hfl H1 H2 Hg Hc Hne Hs Hpl Hk1 Hk2 Hf.
  destruct (child_key_cnt_ok _ _ _ _ _ _ _ (length its1) c Hp Hr) as [_ Hcnt];
    [rewrite <- H1; by apply list_lookup_middle|]. run_ok by (exact Hcnt).
  assert (∃ p1 fl1 its1' its2' ks1' c' ks2',
    (if (length (items c) <? MIN_DEGREE + 1)%nat then fill a (length its1) else mret tt) p = (Ok tt, p1)
    ∧ reworked p fl p1 fl1 d par t (BNode a (its1' ++ its2') (ks1' ++ c' :: ks2'))
    ∧ filled h its1 its2 ks1 c ks2 its1' its2' ks1' c' ks2')
    as (p1 & fl1 & its1' & its2' & ks1' & c' & ks2' & Hrun & Hrw & [Hf1 Hf2 Hfg [Hfb Hfm] Hfi Hfs (P & Q & HP & HPQ & HQ)]).
  { destruct Hc as [Hm Hb]. destruct (Nat.ltb_spec (length (items c)) (MIN_DEGREE + 1)).
    - apply fill_ok; [done..|lia|done].
    - exists p, fl, its1, its2, ks1, c, ks2. split_and!; [done|by apply reworked_refl|].
      split; [done|done|done|done|by left|lia|]. exists [], []. by rewrite !app_nil_r. }
  run_ok by (exact Hrun). pose proof Hrw as [Hp1 Hr1 _ _ _].
  pose proof (reworked_NoDup _ _ _ _ _ _ _ _ Hrw Hnd) as Hnd1.
  pose proof Hr1 as [(nd1 & Ha1 & _) _]%rep_unfold. rewrite (bind_load _ _ _ _ Ha1).
  run_ok by (by eapply child_to_visit).
  destruct (kid_rep _ _ _ _ _ _ _ _ Hr1 Hnd1) as [Hrc Hndc].
  pose proof (kid_flat a its1 its2 ks1 c ks2 H1 H2) as Hft. fold t in Hft.
  assert (flat t = keys_before its1' ks1' ++ flat c' ++ keys_behind its2' ks2') as Hft'.
  { by rewrite Hft, HPQ, HP, HQ, <- !app_assoc. }
  rewrite HP, fmap_app, not_elem_of_app in Hk1. rewrite HQ, fmap_app, not_elem_of_app in Hk2.
  destruct (Hrem p1 fl1 (Some a) c' k fuel) as (p' & fl' & c'' & Hrun' & HM');
    [done..|by eapply reworked_nonempty|done|rewrite Hft' in Hs; by eapply sorted_part|by eapply plain_part| |done|].
  { right. intros He. rewrite He in Hfm. cbn in Hfm. lia. }
  destruct (removed_kid p1 fl1 p' fl' d par h k a its1' its2' ks1' c' c'' ks2') as (Hrw' & Hb' & Hfl'); [done..|].
  exists p', fl', (BNode a (its1' ++ its2') (ks1' ++ c'' :: ks2')). split.
  - rewrite Hrun', Hft', remove_result_inner by tauto. done.
  - split; [by eapply reworked_trans|done| |exact Hfs].
    by rewrite Hfl', Hft', without_inner by tauto.
Qed.

Lemma remove_key_S fuel (node : ptr) k :
  remove_key (V := V) (S fuel) node k =
    (idx ← findKey node k;
     nd ← load node;
     here ← (if (idx <? key_cnt nd)%nat
             then ki ← get_key node idx; mret (range_eq (key ki) k) else mret false);
     if here : bool then
       if is_leaf nd then removeFromLeaf node idx else removeFromNonLeaf fuel node idx
     else if is_leaf nd then throw (runtime_error (no_such_key k))
     else
       c ← child_key_cnt node idx;
       (if (c <? MIN_DEGREE + 1)%nat then fill node idx else mret tt);;
       nd1 ← load node;
       c ← (if (idx =? key_cnt nd)%nat && (key_cnt nd1 <? idx)%nat then child_at node (idx - 1)
            else child_at node idx);
       remove_key fuel c k).
Proof. reflexivity. Qed.

Lemma remove_key_ok d h : removes d h.
Proof.
  induction h as [h IH] using lt_wf_ind. intros p fl par [a its ks] k fuel Hr Hnd Hp Hfl Hb Hs Hpl Hne Hf.
  destruct fuel as [|fuel]; [lia|]. pose proof Hr as [(nd & Ha & Hn) _]%rep_unfold. cbn [addr items] in *.
  destruct (findKey_ok p a nd d par its (addr <$> ks) k Ha Hn) as (its1 & its2 & -> & Hfind & Hlow & Hge).
  rewrite remove_key_S. run_ok by (exact Hfind). rewrite (bind_load _ _ _ _ Ha). run_ok by (by eapply here_ok).
  rewrite (nr_leaf _ _ _ _ _ Hn), (nr_cnt _ _ _ _ _ Hn).
  destruct (match its2 with x :: _ => range_eq (key x) k | [] => false end) eqn:Hhere.
  { destruct its2 as [|x its2]; [done|]. apply range_eq_spec in Hhere as <-.
    destruct (remove_here d h p fl par a its1 x its2 ks fuel) as (p' & fl' & t' & Hrun & Hrm); [|done..|lia|].
    { destruct h; [done|]. apply IH. lia. }
    exists p', fl', t'. split; [|done]. rewrite Hrun. symmetry. f_equal. apply remove_result_in.
    apply list_elem_of_fmap_2. eapply flat_items; [by eapply rep_kids_length|]. apply elem_of_app. right. by left. }
  assert (∀ x its', its2 = x :: its' → low k ≤ low (key x) ∧ key x ≠ k) as Hge'.
  { intros x its' ->. split; [by eapply Hge|]. intros He. by rewrite He, (proj2 (range_eq_spec k k)) in Hhere. }
  destruct h as [|h].
  - apply balanced_0 in Hb as ->. rewrite bool_decide_true by done.
    pose proof (not_in_leaf k its1 its2 Hs Hlow Hge') as Hk.
    exists p, fl, (BNode a (its1 ++ its2) []). split.
    { unfold remove_result. cbn [flat fmap list_fmap weave]. by rewrite bool_decide_false. }
    split; [by apply reworked_refl|done| |cbn; lia]. cbn [flat fmap list_fmap weave]. by rewrite without_id.
  - pose proof Hb as [Hkne _]%balanced_S. pose proof (rep_kids_length _ _ _ _ _ _ Hr) as [|Hl]; [done|].
    rewrite length_app in Hl. rewrite bool_decide_false by (by intros ?%fmap_nil_inv).
    destruct (lookup_lt_is_Some_2 ks (length its1)) as [c Hc]; [lia|].
    pose proof (take_drop_middle _ _ _ Hc) as Hks. set (ks1 := take (length its1) ks) in Hks.
    set (ks2 := drop (S (length its1)) ks) in Hks.
    assert (length ks1 = length its1 ∧ length ks2 = length its2) as [H1 H2].
    { unfold ks1, ks2. rewrite length_take, length_drop. lia. }
    clearbody ks1 ks2. subst ks. apply kid_balanced in Hb as [Hgc Hg].
    pose proof Hs as Hs'. rewrite (kid_flat a its1 its2 ks1 c ks2 H1 H2) in Hs'.
    apply (remove_below d h p fl par a its1 its2 ks1 c ks2 k fuel); try done; [by apply IH; lia|by destruct Hne| | |lia].
    + by eapply not_before.
    + rewrite app_assoc in Hs'. by eapply not_behind.
Qed.

(** ** The whole layer *)

(** A layer that is a tree of its own: its root if it has keys, the keys in
    order, its nodes and the free list. *)
Record layer_at p fl (d H : nat) (o : option ptr) (l : list (KeyInfo V)) (F : list ptr) : Prop := {
  la_heap : heap_ok p fl;
  la_free : fl ≠ [];
  la_sorted : sorted_keys l;
  la_plain : Forall (λ x, knext_level x = INVALID_INDEX) l;
  la_nodes : match o with
             | None => l = [] ∧ F = []
             | Some a => ∃ t h, addr t = a ∧ rep p d None t ∧ NoDup (addrs t) ∧ F ≡ₚ addrs t ∧ flat t = l
                 ∧ items t ≠ [] ∧ balanced h t = true ∧ (h ≤ H)%nat
             end;
}.

Lemma plain_without k (l : list (KeyInfo V)) :
  Forall (λ x, knext_level x = INVALID_INDEX) l → Forall (λ x, knext_level x = INVALID_INDEX) (without k l).
Proof. rewrite !Forall_forall. intros Hl x [_ Hx]%elem_of_without. by apply Hl. Qed.

(** A root without keys is freed: its only child is the new root. *)
Lemma drop_root p fl d h a ks :
  let t := BNode a [] ks in
  rep p d None t → NoDup (addrs t) → heap_ok p fl → fl ≠ [] → balanced h t = true →
  ∃ p' fl' o F, (new_root ← (if bool_decide (addr <$> ks = []) then mret None
                  else c ← child_at a 0; upd c (node_set_parent None);; mret (Some c));
                 upd a clean_children;;
                 node_allocator_release a;;
                 mret new_root) p = (Ok o, p')
    ∧ (∃ G, fl' ≡ₚ G ++ fl ∧ addrs t ≡ₚ G ++ F) ∧ (∀ b, b ∉ addrs t → node_at p' b = node_at p b)
    ∧ (sorted_keys (flat t) → plain t → layer_at p' fl' d h o (flat t) F).
Proof.
  intros t Hr Hnd Hp Hfl Hb. pose proof Hr as [(nd & Ha & Hn) Hks]%rep_unfold.
  destruct (rep_kids_length _ _ _ _ _ _ Hr) as [->|Hl].
  - rewrite bool_decide_true, bind_ret by done. run_ok by (by apply upd_ok).
    destruct (release_node_ok (put a (clean_children nd) p) fl a (clean_children nd)) as (p' & fl' & Hrel & [Hp' Hl' Hf']);
      [by eapply heap_ok_put|done|apply node_at_put_eq|].
    run_ok by (exact Hrel). exists p', fl', None, []. split_and!; [done| | |].
    + exists [a]. by rewrite Hl'.
    + intros b Hb'. rewrite Hf' by done. apply node_at_put_ne. intros ->. apply Hb', (addrs_root t).
    + intros Hs Hpl. split; [done| |done|done|done]. intros ->. symmetry in Hl'.
      by apply Permutation_nil_r in Hl'.
  - destruct ks as [|c [|? ?]]; [done| |done]. destruct h as [|h]; [done|].
    apply balanced_S in Hb as [_ [[Hcm Hcb] _]%Forall_cons]. rewrite bool_decide_false by done.
    destruct (kid_rep p d None a [] [] c [] Hr Hnd) as [Hrc Hndc].
    destruct (child_key_cnt_ok p fl d None a [] [c] 0 c Hp Hr eq_refl) as [Hchild _].
    destruct (rep_live _ _ _ _ Hrc) as [cd Hcd].
    assert (addr c ≠ a) as Hca.
    { destruct (addrs_disjoint _ _ _ Hnd) as (Hk & _). destruct (Hk c) as [Hna _]; [by left|].
      intros <-. apply Hna, addrs_root. }
    rewrite !bind_assoc. run_ok by (exact Hchild). rewrite bind_assoc. run_ok by (by apply upd_ok). rewrite bind_ret.
    set (p1 := put (addr c) _ p). assert (node_at p1 a = Some nd) as Ha1 by (unfold p1; by rewrite node_at_put_ne).
    assert (heap_ok p1 fl) as Hp1 by (by eapply heap_ok_put).
    run_ok by (by apply upd_ok).
    destruct (release_node_ok (put a (clean_children nd) p1) fl a (clean_children nd)) as (p' & fl' & Hrel & [Hp' Hl' Hf']);
      [by eapply heap_ok_put|done|apply node_at_put_eq|].
    run_ok by (exact Hrel).
    assert (addrs t = a :: addrs c) as Hat by (unfold t; rewrite addrs_unfold; cbn; by rewrite app_nil_r).
    assert (∀ b, b ≠ a → node_at p' b = node_at p1 b) as Hf.
    { intros b Hb. rewrite Hf' by (by intros ?%list_elem_of_singleton). by rewrite node_at_put_ne by auto. }
    exists p', fl', (Some (addr c)), (addrs c). split_and!; [done| | |].
    + exists [a]. by rewrite Hl', Hat.
    + intros b Hb. rewrite Hat, not_elem_of_cons in Hb. destruct Hb as [Hba Hbc]. rewrite Hf by done.
      unfold p1. apply node_at_put_ne. intros <-. apply Hbc, addrs_root.
    + intros Hs Hpl. split; [done| |done|done|].
      { intros ->. symmetry in Hl'. by apply Permutation_nil_r in Hl'. }
      pose proof min_degree_pos. exists c, h. split_and!; try done; [| |by intros He; rewrite He in Hcm; cbn in Hcm; lia|lia].
      * eapply rep_reparent; [exact Hrc|exact Hcd|done| |].
        -- rewrite Hf by done. apply node_at_put_eq.
        -- intros b Hb Hne. rewrite Hat in Hnd. apply NoDup_cons in Hnd as [Hna _].
           rewrite Hf by (by intros ->). unfold p1. by rewrite node_at_put_ne by auto.
      * unfold t. cbn. by rewrite app_nil_r.
Qed.

Lemma flat_nil_items t : flat t = [] → items t = [].
Proof.
  destruct t as [a its ks]. intros He. destruct its as [|x its]; [done|].
  destruct ks as [|c ks]; [done|]. cbn in He. by apply app_eq_nil in He as [_ ?].
Qed.

Lemma layer_at_mono p fl d H H' o l F : layer_at p fl d H o l F → (H ≤ H')%nat → layer_at p fl d H' o l F.
Proof.
  intros [? ? ? ? Hn] HH. split; [done..|]. destruct o; [|done].
  destruct Hn as (t & h & ? & ? & ? & ? & ? & ? & ? & ?). exists t, h. split_and!; try done. lia.
Qed.

(** The key is there. *)
Lemma remove_1d_present p fl d H a l F k fuel :
  layer_at p fl d H (Some a) l F → k ∈ key <$> l → (2 * H + 1 ≤ fuel)%nat →
  ∃ p' fl' o F', remove_1d fuel k a p = (Ok o, p')
    ∧ layer_at p' fl' d H o (without k l) F'
    ∧ (∃ G, fl' ≡ₚ G ++ fl ∧ F ≡ₚ G ++ F') ∧ ∀ b, b ∉ F → node_at p' b = node_at p b.
Proof.
  intros [Hp Hfl Hs Hpl (t & h & Ha & Hr & Hnd & HF & Ht & Hne & Hb & Hh)] Hk Hf. subst a l.
  destruct (remove_key_ok d h p fl None t k fuel) as (p1 & fl1 & t1 & Hrun & [Hrw Hb1 Hfl1 Hsz]);
    [done..|by right|lia|]. pose proof Hrw as [Hp1 Hr1 Ha1 (G & HG & Hl1) Hf1].
  pose proof (reworked_NoDup _ _ _ _ _ _ _ _ Hrw Hnd) as Hnd1.
  pose proof (reworked_nonempty _ _ _ _ _ _ _ _ Hrw Hfl) as Hfl1ne.
  assert (F ≡ₚ G ++ addrs t1) as Hn1 by (rewrite HF, HG; solve_Permutation).
  assert (∀ b, b ∉ F → node_at p1 b = node_at p b) as Hf1' by (intros b; rewrite HF; apply Hf1).
  pose proof (sorted_without k _ Hs) as Hs1. pose proof (plain_without k _ Hpl) as Hpl1.
  rewrite remove_result_in in Hrun by done. unfold remove_1d. run_ok by (exact Hrun).
  destruct t1 as [b its ks]. cbn [addr] in Ha1. subst b. pose proof Hr1 as [(nd & Hnode & Hn) _]%rep_unfold.
  rewrite (bind_load _ _ _ _ Hnode), (nr_cnt _ _ _ _ _ Hn), (nr_leaf _ _ _ _ _ Hn). rewrite <- Hfl1 in *.
  destruct its as [|x its]; cbn [length Nat.eqb].
  - destruct (drop_root p1 fl1 d h (addr t) ks) as (p' & fl' & o & F' & Hrun' & (G' & Hn' & HG') & Hf' & Hla); [done..|].
    exists p', fl', o, F'. split_and!; [exact Hrun'| | |].
    + by eapply layer_at_mono; [apply Hla|].
    + exists (G ++ G'). split; [rewrite Hn', Hl1; solve_Permutation|]. by rewrite Hn1, HG', app_assoc.
    + intros b Hb'. rewrite Hf', Hf1'; [done..|]. rewrite HF in Hb'. rewrite HG, not_elem_of_app in Hb'. tauto.
  - exists p1, fl1, (Some (addr t)), (addrs (BNode (addr t) (x :: its) ks)). split_and!; try done; [|by exists G].
    split; try done. exists (BNode (addr t) (x :: its) ks), h. by split_and!.
Qed.

(** A key that is not there ends in the exception of the source; the keys stay
    the same, but children may have been merged, and a root that lost its last
    key is not replaced. *)
Lemma remove_1d_missing p fl d H a l F k fuel :
  layer_at p fl d H (Some a) l F → k ∉ key <$> l → (2 * H + 1 ≤ fuel)%nat →
  ∃ p' fl' t', remove_1d fuel k a p = (Err (runtime_error (no_such_key k)), p')
    ∧ heap_ok p' fl' ∧ rep p' d None t' ∧ addr t' = a ∧ flat t' = l ∧ ∃ G, fl' ≡ₚ G ++ fl ∧ F ≡ₚ G ++ addrs t'.
Proof.
  intros [Hp Hfl Hs Hpl (t & h & Ha & Hr & Hnd & HF & Ht & Hne & Hb & Hh)] Hk Hf. subst a l.
  destruct (remove_key_ok d h p fl None t k fuel) as (p1 & fl1 & t1 & Hrun & [Hrw Hb1 Hfl1 Hsz]);
    [done..|by right|lia|]. pose proof Hrw as [Hp1 Hr1 Ha1 (G & HG & Hl1) Hf1].
  unfold remove_result in Hrun. rewrite bool_decide_false in Hrun by done.
  exists p1, fl1, t1. split_and!; [|done..| |].
  - unfold remove_1d. by rewrite (bind_err _ _ _ _ _ Hrun).
  - by rewrite Hfl1, without_id.
  - exists G. split; [done|]. rewrite HF, HG. solve_Permutation.
Qed.

(** C7. The removal of a key from a layer is the removal of the key from the
    list of its keys in order.  It returns; the layer stays a balanced B-tree
    whose nodes have enough keys, nodes that are no longer needed are back in
    the pool, and the memory outside of the layer is the same.  A key that is
    not there is reported with the exception of the source, and no key is lost. *)
Theorem remove_1d_refines p fl d H a l F k fuel :
  layer_at p fl d H (Some a) l F → (2 * H + 1 ≤ fuel)%nat →
  (k ∈ key <$> l → ∃ p' fl' o F', remove_1d fuel k a p = (Ok o, p')
     ∧ layer_at p' fl' d H o (without k l) F'
     ∧ (∃ G, fl' ≡ₚ G ++ fl ∧ F ≡ₚ G ++ F') ∧ ∀ b, b ∉ F → node_at p' b = node_at p b)
  ∧ (k ∉ key <$> l → ∃ p' fl' t', remove_1d fuel k a p = (Err (runtime_error (no_such_key k)), p')
     ∧ heap_ok p' fl' ∧ rep p' d None t' ∧ addr t' = a ∧ flat t' = l ∧ ∃ G, fl' ≡ₚ G ++ fl ∧ F ≡ₚ G ++ addrs t').
Proof using Hok.
  intros Hl Hf. split; intros Hk; [by eapply remove_1d_present|by eapply remove_1d_missing].
Qed.
End balanced.

(** ** A layer built by insertions *)

Section decide.
Context `{cfg : !BTreeCfg, Hok : !CfgOk} {V : Type} `{!RuleValue V, !EqDecision V}.

Definition layer_check (p : Heap V) (fl : list nat) (d h : nat) (t : btree V) : bool :=
  heap_check p fl && negb (bool_decide (fl = [])) && sorted_check (flat t)
  && forallb (λ x, knext_level x =? INVALID_INDEX) (flat t)
  && rep_check p d None t && bool_decide (NoDup (addrs t))
  && negb (match items t with [] => true | _ => false end) && balanced h t.

Lemma layer_check_sound p fl d h t :
  layer_check p fl d h t = true → layer_at p fl d h (Some (addr t)) (flat t) (addrs t).
Proof.
  unfold layer_check. rewrite !andb_true_iff, !negb_true_iff, bool_decide_eq_true, bool_decide_eq_false.
  intros [[[[[[[Hp Hfl] Hs] Hpl] Hr] Hnd] Hne] Hb]. split; [by apply heap_check_sound|done|by apply sorted_check_sound| |].
  - eapply forallb_Forall; [|exact Hpl]. intros x. apply Z.eqb_eq.
  - exists t, h. split_and!; try done; [by apply rep_check_sound|]. intros He. by rewrite He in Hne.
Qed.
End decide.

Module RemoveExample.
Import LookupSpec.Example InsertSpec.InsertExample Balance.BalanceExample.
#[local] Existing Instance cfg3.

Definition grown : result (option ptr) * Heap RuleValueInt :=
  fold_each rules10 None (λ r rule, insert_rule 30 r [0; 1; 2]%nat rule) pool0.

Definition grown_root : ptr := match grown.1 with Ok (Some r) => r | _ => 0%nat end.

Definition grown_tree : btree RuleValueInt := default (BNode 0%nat [] []) (btree_read 5 grown.2 grown_root).

Lemma grown_layer : layer_at grown.2 (seq 4 26) 0 1 (Some (addr grown_tree)) (flat grown_tree) (addrs grown_tree).
Proof. apply layer_check_sound. vm_compute. reflexivity. Qed.

(** A key of the root is removed; a key between two keys is not there. *)
Lemma remove_1d_refines_witness :
  (exact16 7 ∈ key <$> flat grown_tree) ∧ (mkRange 0 9 ∉ key <$> flat grown_tree)
  ∧ (∃ p' fl' o F', remove_1d 20 (exact16 7) (addr grown_tree) grown.2 = (Ok o, p')
     ∧ layer_at p' fl' 0 1 o (without (exact16 7) (flat grown_tree)) F'
     ∧ (∃ G, fl' ≡ₚ G ++ seq 4 26 ∧ addrs grown_tree ≡ₚ G ++ F') ∧ ∀ b, b ∉ addrs grown_tree → node_at p' b = node_at grown.2 b)
  ∧ ∃ p' fl' t', remove_1d 20 (mkRange 0 9) (addr grown_tree) grown.2 = (Err (runtime_error (no_such_key (mkRange 0 9))), p')
     ∧ heap_ok p' fl' ∧ rep p' 0 None t' ∧ addr t' = addr grown_tree ∧ flat t' = flat grown_tree
     ∧ ∃ G, fl' ≡ₚ G ++ seq 4 26 ∧ addrs grown_tree ≡ₚ G ++ addrs t'.
Proof.
  assert (exact16 7 ∈ key <$> flat grown_tree) as Hk by (refine (bool_decide_unpack _ _); vm_compute; exact I).
  assert (mkRange 0 9 ∉ key <$> flat grown_tree) as Hk' by (refine (bool_decide_unpack _ _); vm_compute; exact I).
  split; [exact Hk|]. split; [exact Hk'|]. split.
  - eapply (remove_1d_refines grown.2 (seq 4 26) 0 1); [exact grown_layer|by apply Nat.leb_le|exact Hk].
  - eapply (remove_1d_refines grown.2 (seq 4 26) 0 1); [exact grown_layer|by apply Nat.leb_le|exact Hk'].
Defined.
End RemoveExample.
