(* ===== verification/RemoveRule.v ===== *)
(** * Removal of a rule

    [remove] of the source follows the path of the rule and works at its last
    position.  Where that key has a next layer, its value is overwritten with
    the default value and nothing else changes.  Where the tree is a single
    layer, the key is deleted, and the tree stores the other rules. *)
From S2P Require Import Prelude Range RuleValue Mempool Node NodeLemmas Search Layer LayerSearch Trie TrieCheck TrieSearch Footprint Slots Insert LookupSpec Split Chain InsertLayer InsertRoot Decompress Integrity SearchPath InsertNext KeyUpdate InsertWalk InsertAct TrieInsert InsertSpec Build BuildSpec Balance Destroy Remove Rotate RemoveSpec.
Local Open Scope Z_scope.

Lemma filter_iff_in {A} (P Q : A → Prop) `{!∀ x, Decision (P x), !∀ x, Decision (Q x)} (l : list A) :
  (∀ x, x ∈ l → P x ↔ Q x) → filter P l = filter Q l.
Proof.
  induction l as [|x l IH]; intros HPQ; [done|]. rewrite !filter_cons, IH by (intros; apply HPQ; by right).
  specialize (HPQ x ltac:(by left)). do 2 case_decide; tauto.
Qed.

Lemma Forall_filter_in {A} (P Q : A → Prop) `{!∀ x, Decision (P x)} (l : list A) :
  Forall Q l → Forall Q (filter P l).
Proof. rewrite !Forall_forall. intros HQ x [_ ?]%list_elem_of_filter. by apply HQ. Qed.

Section RemoveRule.
Context `{cfg : !BTreeCfg, Hok : !CfgOk} {V : Type} `{!RuleValue V}.
Implicit Types (p : Heap V) (g : gtrie V) (o : option (gtrie V)) (order : list nat) (r : rule_spec_t V).

(** The last position of the path, where the loop starts. *)
Lemma remove_loop_last fuel order r (path : list path_item) root l b i p d key :
  last path = Some (l, b, i) → order !! (length path - 1)%nat = Some d → fields r !! d = Some key →
  remove_loop fuel order r path root (length path) p =
    (nl ← get_next_layer b i;
     match nl with
     | Some _ => set_value b i rv_default;; mret root
     | None =>
         new_root ← remove_1d fuel key l;
         if bool_decide (Some l = root) then mret new_root
         else
           match path !! (length path - 1 - 1)%nat with
           | Some (_, prev_node, prev_index) =>
               if (length path - 1 =? 0)%nat then throw out_of_range
               else
                 set_next_layer prev_node prev_index nl;;
                 remove_loop fuel order r path root (length path - 1)
           | None => throw out_of_range
           end
     end) p.
Proof.
  intros Hlast Hd Hkey. rewrite last_lookup in Hlast. destruct path as [|x path]; [done|].
  cbn [length Nat.pred] in *. rewrite Nat.sub_succ, Nat.sub_0_r in *. cbn [remove_loop].
  rewrite Hd. cbn [or_ub]. rewrite bind_ret, Hkey. cbn [or_ub]. rewrite bind_ret.
  unfold path_item in *. rewrite Hlast. cbn [or_ub]. rewrite bind_ret.
  destruct (get_next_layer b i p) as [[[z|]|e] p1] eqn:Hn.
  - rewrite !(bind_ok _ _ _ _ _ Hn). apply set_value_bind.
  - by rewrite !(bind_ok _ _ _ _ _ Hn).
  - by rewrite !(bind_err _ _ _ _ _ Hn).
Qed.

(** C10. The last key of the path has a next layer: its value is cleared.  The rule
    itself need not be in the tree. *)
Theorem remove_rule_clears p order root tr H n r path l b i z fuel :
  length order = D → Forall (λ d, (d < D)%nat) order →
  tree_at p order root tr H n → (1 ≤ H)%nat → rule_ok r → (S H + length order ≤ fuel)%nat →
  search_path fuel root order r 0 p = (Ok path, p) → last path = Some (l, b, i) →
  get_next_layer b i p = (Ok (Some z), p) →
  ∃ p', remove_rule fuel root order r p = (Ok root, p')
    ∧ tree_at p' order root (t_insert (length path) (rule_keys order r) rv_default tr) (S H) n.
Proof using Hok.
  intros Hlo Ho (fl & o & Hst & <- & <- & <-) HH Hr Hf Hpath Hlast Hnext.
  destruct Hst as [Hp Hg Hnd Hsh]. destruct (rule_keys_ok order r Hr Ho) as [Hks Hv].
  assert (walk (rule_keys order r) 0 o path) as Hw by (eapply (search_path_inv p fl H order r _ Hp Hks 0 o fuel); done || lia).
  pose proof (walk_matched p H order _ _ _ _ Hw Hg) as Hlen.
  rewrite drop_0 in Hlen. pose proof (matched_le (rule_keys order r) (abs <$> o)) as Hle.
  rewrite <- Hlen in Hle. unfold rule_keys in Hle at 1. rewrite length_fmap in Hle.
  destruct o as [g|]; [|by inversion Hw; subst]. set (r0 := mkRule (fields r) (rv_default : V)).
  assert (rule_path order r0 (rule_keys order r) (length path)) as Hrp.
  { split; [exact Hks|exact Hv| |lia]. unfold rule_keys. rewrite length_fmap. lia. }
  assert (path ≠ []) as Hne by by intros ->.
  destruct (set_value_ok order r0 (rule_keys order r) (length path) Hrp p fl H 0 g path) as
    (l' & b' & i' & p' & Hlast' & Hset & k & g' & [Hk Hp'] & (Hg' & Ha' & Hnd' & Hsh') & Habs & _);
    [done|done|done|done|by apply Hg|done|done|done|]. rewrite Hlast in Hlast'. injection Hlast' as <- <- <-.
  exists p'. split.
  - unfold remove_rule. run_ok by (exact Hpath).
    assert (0 < length path)%nat by (destruct path; [done|cbn; lia]).
    destruct (lookup_lt_is_Some_2 order (length path - 1)) as [d Hd]; [lia|].
    destruct (Forall2_lookup_l _ _ _ _ _ Hks Hd) as (key & _ & Hkey).
    rewrite (remove_loop_last fuel order r path _ l b i p d key) by done.
    run_ok by (exact Hnext). run_ok by (exact Hset). done.
  - exists fl, (Some g'). assert (k = 0%nat) as -> by lia. split_and!; [|by cbn; f_equal| |done].
    + split; [done|by intros ? [= <-]|done|done].
    + rewrite drop_0, Nat.sub_0_r in Habs. exact Habs.
Qed.

(** ** A tree of one layer *)

Definition one_layer (l : list (KeyInfo V)) : option (trie V) :=
  match l with
  | [] => None
  | _ => Some (Entries ((λ x, (key x, kvalue x, None)) <$> l))
  end.

Lemma balanced_nonempty h (t : btree V) : items t ≠ [] → balanced h t = true → t_nonempty t.
Proof using Hok.
  revert h. induction t as [a its ks IH] using btree_ind'. intros h Hits Hb. cbn [items] in Hits.
  apply t_nonempty_unfold. split; [done|]. destruct h as [|h]; [by apply balanced_0 in Hb as ->|].
  apply balanced_S in Hb as [_ Hg]. rewrite Forall_forall in IH, Hg |- *. intros c Hc.
  destruct (Hg c Hc) as [Hm Hb]. apply (IH c Hc h); [|done]. destruct max_degree as [_ ?].
  intros He. rewrite He in Hm. cbn in Hm. lia.
Qed.

Lemma abs_alone t nexts :
  length nexts = length (flat t) → Forall (λ o, o = None) nexts →
  abs (GLayer t nexts) = Entries ((λ x, (key x, kvalue x, None)) <$> flat t).
Proof.
  rewrite abs_layer. intros Hl Ho. f_equal. revert nexts Hl Ho.
  induction (flat t) as [|x l IH]; intros [|o nexts] Hl Ho; try done.
  apply Forall_cons in Ho as [-> Ho]. cbn. f_equal. apply IH; [by injection Hl|done].
Qed.

(** A stored tree of one layer, as its B-tree. *)
Lemma stores_layer_at p fl H order t nexts :
  stores p fl H order (Some (GLayer t nexts)) → Forall (λ o, o = None) nexts → fl ≠ [] →
  ∃ d, order !! 0%nat = Some d ∧ layer_at p fl d (H - 1) (Some (addr t)) (flat t) (addrs t)
    ∧ abs (GLayer t nexts) = Entries ((λ x, (key x, kvalue x, None)) <$> flat t).
Proof.
  intros [Hp Hg Hnd Hsh] Hno Hfl. specialize (Hg _ eq_refl).
  pose proof Hg as ((d & Hd & Hr) & Hs & Hh & Hn)%g_rep_layer.
  apply g_shaped_layer in Hsh as [[Hne [h Hb]] _]. pose proof (balanced_height _ _ Hb) as Hht.
  exists d. split_and!; [done| |].
  - split; [done|done|done| |].
    + apply Forall_lookup. intros i x Hx. destruct (Forall2_lookup_l _ _ _ _ _ Hn Hx) as (o & Ho & Hxo).
      rewrite Forall_lookup in Hno. by rewrite (Hno _ _ Ho) in Hxo.
    + exists t, h. split_and!; try done; [|by destruct t; apply t_nonempty_unfold in Hne as [? _]|lia].
      cbn [o_addrs] in Hnd. rewrite g_addrs_layer in Hnd. by apply NoDup_app in Hnd as [? _].
  - apply abs_alone; [|done]. symmetry. by eapply Forall2_length.
Qed.

Lemma layer_at_stores p fl d h order root l F :
  layer_at p fl d h root l F → order !! 0%nat = Some d →
  ∃ o, stores p fl (S h) order o ∧ g_addr <$> o = root ∧ abs <$> o = one_layer l.
Proof using Hok.
  intros [Hp Hfl Hs Hpl Hn] Hd. destruct root as [a|].
  - destruct Hn as (t & h' & <- & Hr & Hnd & _ & <- & Hne & Hb & Hh).
    set (nexts := replicate (length (flat t)) (None : option (gtrie V))). exists (Some (GLayer t nexts)).
    assert (Forall (λ o, o = None) nexts) as Hno by (by apply Forall_replicate).
    split_and!; [split| |].
    + done.
    + intros g [= <-]. apply g_rep_layer. split_and!; [by exists d|done|rewrite (balanced_height _ _ Hb); lia|].
      apply Forall2_same_length_lookup. split; [by unfold nexts; rewrite length_replicate|].
      intros i x o Hx [-> _]%lookup_replicate. cbn. rewrite Forall_lookup in Hpl. by eapply Hpl.
    + cbn [o_addrs]. rewrite g_addrs_layer. assert (concat (o_addrs <$> nexts) = []) as ->; [|by rewrite app_nil_r].
      unfold nexts. generalize (length (flat t)) as n. induction n as [|n IH]; [done|exact IH].
    + apply g_shaped_layer. split; [split; [by eapply balanced_nonempty|by exists h']|].
      eapply Forall_impl; [exact Hno|]. by intros o ->.
    + done.
    + cbn [fmap option_fmap option_map]. rewrite abs_alone by (done || (unfold nexts; apply length_replicate)).
      destruct (flat t) eqn:He; [|done]. by apply flat_nil_items in He.
  - destruct Hn as [-> ->]. exists None. split_and!; [|done..]. split; [done|done|constructor|done].
Qed.

(** The removal of a rule from a tree of one layer: the key of the rule is
    deleted. *)
Lemma remove_rule_layer p fl H order t nexts r k fuel :
  let g := GLayer t nexts in
  length order = D → (2 ≤ D)%nat → Forall (λ d, (d < D)%nat) order → stores p fl H order (Some g) →
  Forall (λ o, o = None) nexts → fl ≠ [] → rule_ok r → rule_keys order r !! 0%nat = Some k →
  k ∈ key <$> flat t → (S H + length order ≤ fuel)%nat → (2 * H + 1 ≤ fuel)%nat →
  ∃ p' fl' o', remove_rule fuel (Some (addr t)) order r p = (Ok (g_addr <$> o'), p')
    ∧ stores p' fl' H order o' ∧ abs <$> o' = one_layer (without k (flat t))
    ∧ (length fl ≤ length fl')%nat.
Proof using Hok.
  intros g Hlo HD Ho Hst Hno Hfl Hr Hk Hin Hf Hf2. pose proof Hst as [Hp Hg Hnd Hsh].
  destruct (rule_keys_ok order r Hr Ho) as [Hks _].
  destruct (search_path_run p fl H order r (rule_keys order r) Hp Hks 0 (Some g) fuel) as (path & Hpath & Hw); [done..|lia|].
  destruct (stores_layer_at p fl H order t nexts Hst Hno Hfl) as (d & Hd & Hl & _).
  specialize (Hg _ eq_refl). pose proof Hg as ((d' & Hd' & Hrep) & _ & Hh & Hn)%g_rep_layer.
  rewrite Hd in Hd'. injection Hd' as <-.
  assert (∃ b i, path = [(addr t, b, i)] ∧ get_next_layer b i p = (Ok None, p)) as (b & i & -> & Hnext).
  { inversion Hw as [|l' t' nexts' k' Hk' Hmiss|l' t' nexts' b i j x o rest Hk' Hat Hj Hno' Hrest| | |]; subst.
    - rewrite Hk in Hk'. injection Hk' as <-. apply list_elem_of_fmap in Hin as (x & -> & Hx).
      by destruct (Hmiss x Hx).
    - exists b, i. rewrite Forall_lookup in Hno. rewrite (Hno _ _ Hno') in Hrest. inversion Hrest; subst. split; [done|].
      destruct (rep_key_at _ _ _ _ _ _ _ Hrep Hat) as (nd & Hb & Hkey & _).
      apply Forall2_same_length_lookup in Hn as [_ Hn]. specialize (Hn _ _ _ Hj Hno').
      rewrite (Hno _ _ Hno') in Hn. apply (next_layer_at p fl H order 1 b nd i x None); done. }
  unfold found_path in Hpath. rewrite overreads_short in Hpath by (cbn; lia).
  destruct (Forall2_lookup_l _ _ _ _ _ Hks Hd) as (k' & Hk' & Hkey). rewrite Hk in Hk'. injection Hk' as <-.
  destruct (remove_1d_present p fl d (H - 1) (addr t) (flat t) (addrs t) k fuel) as
    (p' & fl' & root' & F' & Hrun & Hl' & (G & HG & _) & _); [done..|lia|].
  destruct (layer_at_stores p' fl' d (H - 1) order root' _ F' Hl' Hd) as (o' & Hst' & <- & Habs).
  assert (1 ≤ H)%nat by (destruct t; cbn in Hh; lia).
  exists p', fl', o'. split_and!; [|by replace (S (H - 1)) with H in Hst' by lia|done|].
  - unfold remove_rule. run_ok by (exact Hpath).
    rewrite (remove_loop_last fuel order r _ _ (addr t) b i p d k) by done.
    run_ok by (exact Hnext). run_ok by (exact Hrun). by rewrite bool_decide_true.
  - rewrite HG, length_app. lia.
Qed.

(** ** Trees whose rules differ in one field only *)

Lemma shaped_stored p H order l g : g_rep p H order l g → g_shaped g → ∃ k w, stored (Some (abs g)) [k] w.
Proof.
  destruct g as [t nexts|a c cs nl].
  - intros Hg [[Hne _] _]%g_shaped_layer. assert (∃ x, x ∈ flat t) as [x Hx].
    { destruct (flat t) as [|x xs] eqn:He; [|exists x; by left]. apply flat_nil_items in He.
      destruct t as [a its ks]. apply t_nonempty_unfold in Hne as [Hne _]. by destruct Hne. }
    exists (key x), (kvalue x). by apply (layer_below_stored p H order l _ [] t x (layer_here t nexts)).
  - intros _ _. exists (key c), (kvalue c). rewrite abs_chain. by eapply stored_here, list_elem_of_singleton.
Qed.

(** A tree all of whose paths have one range is a single layer. *)
Lemma single_layer p H order g :
  g_rep p H order 0 g → g_shaped g → (∀ ks w, stored (Some (abs g)) ks w → (length ks ≤ 1)%nat) →
  ∃ t nexts, g = GLayer t nexts ∧ Forall (λ o, o = None) nexts.
Proof.
  intros Hg Hsh Hst. destruct g as [t nexts|a c cs nl].
  - exists t, nexts. split; [done|]. apply Forall_lookup. intros i [g|] Hi; [exfalso|done].
    apply g_shaped_layer in Hsh as [_ Hsh]. rewrite Forall_lookup in Hsh. specialize (Hsh _ _ Hi).
    apply g_rep_layer in Hg as (_ & _ & _ & Hn). destruct (Forall2_lookup_r _ _ _ _ _ Hn Hi) as (x & Hx & _ & Hg).
    destruct (shaped_stored _ _ _ _ _ Hg Hsh) as (k & w & Hk). specialize (Hst [key x; k] w). cbn in Hst.
    enough (2 ≤ 1)%nat by lia. apply Hst. apply (stored_next _ _ (kvalue x) (Some (abs g))); [|exact Hk].
    apply (list_elem_of_lookup_2 _ i), lookup_zip_with_Some. exists x, (Some (abs g)).
    by rewrite list_lookup_fmap, Hi.
  - apply g_rep_chain in Hg as (_ & Hcs & _). destruct cs as [|c1 cs]; [done|].
    specialize (Hst [key c; key c1] (kvalue c1)). enough (2 ≤ 1)%nat by lia. apply Hst. rewrite abs_chain.
    eapply stored_next; [by left|]. by eapply stored_here, list_elem_of_singleton.
Qed.

Context (order : list nat).

Lemma last_value_filter rs (T ks : list Range1d) :
  last_value order (filter (λ r, trim order r ≠ T) rs) ks = if decide (ks = T) then None else last_value order rs ks.
Proof.
  induction rs as [|r rs IH] using rev_ind; [by case_decide|]. rewrite filter_app, filter_cons, filter_nil.
  destruct (decide (trim order r ≠ T)) as [Hr|Hr]; rewrite ?last_value_app, ?app_nil_r, IH;
    repeat case_decide; naive_solver.
Qed.

Lemma stored_alone (l : list (KeyInfo V)) ks w :
  stored (Some (Entries ((λ x, (key x, kvalue x, None)) <$> l))) ks w ↔ ∃ x, x ∈ l ∧ ks = [key x] ∧ w = kvalue x.
Proof.
  split.
  - intros (k & v & nl & ks' & -> & (x & [= -> -> ->] & Hx)%list_elem_of_fmap & Hk)%stored_inv.
    destruct Hk as [[-> ->]|Hk]; [by exists x|by apply stored_None in Hk].
  - intros (x & Hx & -> & ->). apply stored_here with None.
    by apply (list_elem_of_fmap_2 (λ x : KeyInfo V, (key x, kvalue x, None : option (trie V)))).
Qed.

Lemma stored_one_layer (l : list (KeyInfo V)) ks w :
  stored (one_layer l) ks w ↔ ∃ x, x ∈ l ∧ ks = [key x] ∧ w = kvalue x.
Proof.
  destruct l; [|apply stored_alone]. split; [by intros ?%stored_None|].
  by intros (x & ?%elem_of_nil & _).
Qed.

Lemma one_layer_unique (l : list (KeyInfo V)) : sorted_keys l → unique_keys (one_layer l).
Proof.
  intros Hs%sorted_keys_NoDup. destruct l as [|x l]; constructor.
  - by rewrite <- list_fmap_compose.
  - intros k v nl (y & [= -> -> ->] & _)%list_elem_of_fmap. constructor.
Qed.

(** The trie without a rule of one range. *)
Lemma trie_of_without rs (l : list (KeyInfo V)) k :
  sorted_keys l → Forall (λ r, length (trim order r) = 1%nat) rs →
  trie_of order rs (Some (Entries ((λ x, (key x, kvalue x, None)) <$> l))) →
  trie_of order (filter (λ r, trim order r ≠ [k]) rs) (one_layer (without k l)).
Proof.
  intros Hs Hrs [_ Hpaths Hvals].
  assert (∀ ks w, stored (one_layer (without k l)) ks w
            ↔ stored (Some (Entries ((λ x, (key x, kvalue x, None)) <$> l))) ks w ∧ ks ≠ [k]) as Hw.
  { intros ks w. rewrite stored_one_layer, stored_alone. setoid_rewrite elem_of_without. naive_solver. }
  split.
  - by apply one_layer_unique, sorted_without.
  - intros ks w [Hk Hne]%Hw. destruct (Hpaths _ _ Hk) as (r & Hr & Hp). exists r. split; [|done].
    apply list_elem_of_filter. split; [|done]. intros He.
    destruct (stored_cons _ _ _ Hk) as (k' & ks' & ->). rewrite He in Hp. apply prefix_cons_inv_1 in Hp as Hk'.
    apply prefix_cons_inv_2, prefix_nil_inv in Hp. by subst.
  - intros ks w Hval. rewrite last_value_filter, Hw, Hvals by done. case_decide; naive_solver.
Qed.

(** The removal of a rule from a tree that stores rules of one range. *)
Lemma removed_run p fl H o rs r fuel :
  KEY_SIZE = 2%nat → is_valid (rv_default : V) = false → (2 ≤ D)%nat → order ≡ₚ seq 0 D → Forall rule_ok16 rs →
  Forall (λ r, is_valid (rvalue r) = true) rs → Forall (λ r, length (trim order r) = 1%nat) rs → r ∈ rs →
  stores p fl H order o → trie_of order rs (abs <$> o) → fl ≠ [] →
  (insert_fuel H order ≤ fuel)%nat → (2 * H + 1 ≤ fuel)%nat →
  ∃ p' fl' o', remove_rule fuel (g_addr <$> o) order r p = (Ok (g_addr <$> o'), p')
    ∧ stores p' fl' H order o' ∧ trie_of order (filter (λ r', trim order r' ≠ trim order r) rs) (abs <$> o').
Proof using Hok.
  intros HK Hdef HD Hperm Hrs Hval Htr Hr Hst Ht Hfl Hfuel Hfuel2.
  destruct (order_facts order Hperm) as (Hlo & Hod & _).
  assert (∃ w, stored (abs <$> o) (trim order r) w) as [w Hw].
  { destruct (last_value_some order rs r Hr) as [w Hw]. exists w. apply (to_values _ _ _ Ht); [|done].
    destruct (last_value_in _ _ _ _ Hw) as (r' & Hr' & _ & <-). rewrite Forall_forall in Hval. by apply Hval. }
  destruct o as [g|]; [|by apply stored_None in Hw]. rewrite Forall_forall in Htr, Hrs.
  pose proof Hst as [_ Hg _ Hsh]. specialize (Hg _ eq_refl).
  destruct (single_layer p H order g Hg Hsh) as (t & nexts & -> & Hno).
  { intros ks w' Hs. destruct (to_paths _ _ _ Ht _ _ Hs) as (r' & Hr' & Hp).
    rewrite <- (Htr r' Hr'). by apply prefix_length. }
  destruct (stores_layer_at p fl H order t nexts Hst Hno Hfl) as (d & _ & Hl & Habs).
  cbn [fmap option_fmap option_map] in Ht, Hw. rewrite Habs in Ht, Hw.
  pose proof Hw as (x & Hx & Hk & _)%stored_alone.
  destruct (remove_rule_layer p fl H order t nexts r (key x) fuel) as (p' & fl' & o' & Hrun & Hst' & Habs' & _);
    [done..|by apply Hrs| |by apply list_elem_of_fmap_2|unfold insert_fuel, fuel_bound in Hfuel; lia|done|].
  { unfold trim in Hk. specialize (Htr r Hr). destruct (rule_keys order r) as [|k0 ks]; [by rewrite take_nil in Hk|].
    destruct (levels order r); [done|]. cbn in Hk. by injection Hk as ->. }
  exists p', fl', o'. split_and!; [done|done|]. rewrite Habs', Hk.
  apply trie_of_without; [by eapply la_sorted|by apply Forall_forall|done].
Qed.

(** Rules of one range are not stored at the last level of several. *)
Lemma full_keys_short rs :
  (2 ≤ D)%nat → Forall (λ r, total_levels_required_cnt order r = Some 1%nat) rs → full_keys order rs = [].
Proof.
  intros HD Hlev. unfold full_keys. induction Hlev as [|r rs Hr _ IH]; [done|].
  assert (full_depth order r = false) as Hfull.
  { unfold full_depth. apply bool_decide_eq_false. rewrite Hr. intros [= ?]. lia. }
  rewrite filter_cons, decide_False; [done|by rewrite Hfull].
Qed.

(** C8. A tree built by insertions of rules that differ in the first field of the
    order only, after the removal of one of them: it answers every packet like
    the linear search through the rules with other ranges. *)
Theorem build_remove_classifies N rs r fuel :
  PATH_COMPRESSION = true → KEY_SIZE = 2%nat → is_valid (rv_default : V) = false → (2 ≤ D)%nat →
  order ≡ₚ seq 0 D → Forall rule_ok16 rs → Forall (λ r, is_valid (rvalue r) = true) rs →
  (∀ r r', r ∈ rs → r' ∈ rs → compatible (rule_keys order r) (rule_keys order r')) →
  Forall (λ r, total_levels_required_cnt order r = Some 1%nat) rs → r ∈ rs →
  Z.of_nat N ≤ INVALID_INDEX → (1 + nodes_needed 1 (length rs) ≤ N)%nat →
  (insert_fuel (1 + length rs) order ≤ fuel)%nat → (2 * length rs + 3 ≤ fuel)%nat →
  ∃ p p' p'' root root', Pool.DynamicMempool_ctor N = Ok p ∧ insert_rules fuel None order rs p = (Ok root, p')
    ∧ remove_rule fuel root order r p' = (Ok root', p'')
    ∧ ∀ v, length v = D → Forall (λ x, 0 ≤ x < 65536) v →
      search_vec fuel default_in_packet_position order root' v p''
      = (Ok (linear_search (filter (λ r', rule_keys order r' ≠ rule_keys order r) rs) v), p'').
Proof using Hok.
  intros HPC HK Hdef HD Hperm Hrs Hval Hc Hlev Hr Hfit Hneed Hfuel Hfuel2.
  destruct (order_facts order Hperm) as (Hlo & Hod & _).
  assert (1 ≤ D)%nat as HD1 by lia. assert (1 < N)%nat by (destruct rs; [by apply elem_of_nil in Hr|cbn in Hneed; lia]).
  destruct (build_run N order rs fuel) as (p & p' & fl & o & Hp & Hrun & Hst & Hl & Ht); try done; try lia.
  { rewrite full_keys_short by done. constructor. }
  assert (Forall (λ r, length (trim order r) = 1%nat) rs) as Htr.
  { rewrite Forall_forall in Hrs, Hlev |- *. intros r' Hr'. rewrite (trim_length HK order Hlo HD1 Hod) by apply Hrs, Hr'.
    unfold levels. by rewrite Hlev. }
  assert (∀ r', r' ∈ rs → trim order r' = trim order r ↔ rule_keys order r' = rule_keys order r) as Hkeys.
  { rewrite Forall_forall in Hrs. intros r' Hr'. split; intros He.
    - apply (trim_determines HK order Hlo HD1 Hod); [by apply Hrs|by apply Hrs|by apply Hc|]. rewrite He. apply prefix_take.
    - apply (trim_keys HK order Hlo HD1 Hod); [apply Hrs, Hr'|apply Hrs, Hr|done]. }
  destruct (removed_run p' fl (1 + length rs) o rs r fuel) as (p'' & fl'' & o'' & Hrem & Hst'' & Ht'');
    [done..|by intros ->; cbn in Hl; lia|done|lia|].
  exists p, p', p'', (g_addr <$> o), (g_addr <$> o''). split_and!; [done..|]. intros v Hlv Hv.
  rewrite <- (filter_iff_in (λ r', trim order r' ≠ trim order r) (λ r', rule_keys order r' ≠ rule_keys order r) rs)
    by (intros r' Hr'; by rewrite Hkeys).
  eapply stored_lookup; try done.
  - by apply Forall_filter_in.
  - by apply Forall_filter_in.
  - intros r1 r2 [_ H1]%list_elem_of_filter [_ H2]%list_elem_of_filter. by apply Hc.
Qed.
End RemoveRule.

(** ** Removals from concrete trees *)

Module RemoveRuleExample.
Import LookupSpec.Example InsertSpec.InsertExample BuildSpec.BuildExample Balance.BalanceExample.
#[local] Existing Instance cfg3.

Definition prefix_rule : rule_spec_t RuleValueInt := rule3 (exact16 1) any16 any16 1 2.

Definition prefix_path : list path_item :=
  match (search_path 20 (Some (g_addr built_tree)) order3 prefix_rule 0 built.2).1 with Ok l => l | Err _ => [] end.

Definition prefix_end : path_item := default (0, 0, 0)%nat (last prefix_path).

Definition prefix_next : ptr :=
  match (get_next_layer prefix_end.1.2 prefix_end.2 built.2).1 with Ok (Some z) => z | _ => 0%nat end.

(** The rule is a prefix of three others; removing it clears its value. *)
Lemma remove_rule_clears_witness :
  length prefix_path = 1%nat
  ∧ ∃ p', remove_rule 20 (Some (g_addr built_tree)) order3 prefix_rule built.2 = (Ok (Some (g_addr built_tree)), p')
    ∧ tree_at p' order3 (Some (g_addr built_tree))
        (t_insert (length prefix_path) (rule_keys order3 prefix_rule) rv_default (Some (abs built_tree))) 10 22.
Proof.
  split; [vm_compute; reflexivity|].
  apply (remove_rule_clears built.2 order3 (Some (g_addr built_tree)) (Some (abs built_tree)) 9 22 prefix_rule
    prefix_path prefix_end.1.1 prefix_end.1.2 prefix_end.2 prefix_next 20);
    [reflexivity|exact dims3|exact built_tree_at|by apply Nat.leb_le| |by apply Nat.leb_le| | |].
  - split; [done|]. by repeat constructor.
  - vm_compute. reflexivity.
  - vm_compute. reflexivity.
  - vm_compute. reflexivity.
Defined.

(** Ten rules are inserted and one is removed. *)
Lemma build_remove_classifies_witness :
  linear_search rules10 [7; 0; 0] = RuleValueInt_ctor 1 7
  ∧ ∃ p p' p'' root root', Pool.DynamicMempool_ctor 300 = Ok p ∧ insert_rules 120 None order3 rules10 p = (Ok root, p')
    ∧ remove_rule 120 root order3 (rule3 (exact16 7) any16 any16 1 7) p' = (Ok root', p'')
    ∧ ∀ v, length v = D → Forall (λ x, 0 ≤ x < 65536) v →
      search_vec 120 default_in_packet_position order3 root' v p''
      = (Ok (linear_search (filter (λ r', rule_keys order3 r' ≠ rule_keys order3 (rule3 (exact16 7) any16 any16 1 7)) rules10) v), p'').
Proof.
  split; [vm_compute; reflexivity|].
  apply (build_remove_classifies order3 300 rules10 (rule3 (exact16 7) any16 any16 1 7) 120); try reflexivity;
    [by apply Nat.leb_le|exact rules10_ok| | | | | | | |].
  - by repeat constructor.
  - exact rules10_compatible.
  - by repeat constructor.
  - by left.
  - done.
  - apply Nat.leb_le. vm_compute. reflexivity.
  - apply Nat.leb_le. vm_compute. reflexivity.
  - apply Nat.leb_le. vm_compute. reflexivity.
Defined.
End RemoveRuleExample.
