(* ===== verification/RulesSpec.v ===== *)
(** * The rules a tree enumerates

    [to_rules] on a stored tree: the result lists the stored paths with a
    valid value, each as a rule whose other ranges are wildcards.  Together
    with the insertions it is a round trip. *)
From S2P Require Import Prelude Range RuleValue Mempool Node NodeLemmas Search Layer LayerSearch Trie TrieCheck Footprint Slots Insert LookupSpec Split Chain InsertLayer InsertRoot Decompress Integrity InsertWalk InsertAct TrieInsert InsertSpec Build BuildSpec ToRules Destroy.
Local Open Scope Z_scope.

Section rules_of.
Context `{cfg : !BTreeCfg} {V : Type} `{!RuleValue V}.
Implicit Types (path : list Range1d) (order : list nat).

(** The rule of an entry. *)
Definition entry_rules path (v : V) : list (rule_spec_t V) :=
  if is_valid v then [mkRule path v] else [].

(** The rules of a trie from level [l] on; [path] has the ranges above. *)
Fixpoint rules_of order (l : nat) path (tr : trie V) : list (rule_spec_t V) :=
  match tr with
  | Entries es =>
      foldr (λ e rs,
        let path' := <[default 0%nat (order !! l) := e.1.1]> path in
        entry_rules path' e.1.2
        ++ match e.2 with Some nl => rules_of order (S l) path' nl | None => [] end ++ rs) [] es
  end.

Definition o_rules order (l : nat) path (tr : option (trie V)) : list (rule_spec_t V) :=
  match tr with Some tr => rules_of order l path tr | None => [] end.

Lemma rules_of_cons order l path e es :
  rules_of order l path (Entries (e :: es)) = rules_of order l path (Entries [e]) ++ rules_of order l path (Entries es).
Proof. cbn. by rewrite app_nil_r, <- app_assoc. Qed.

Lemma rules_of_entries order l d path es :
  order !! l = Some d →
  rules_of order l path (Entries es) =
  concat ((λ e, entry_rules (<[d := e.1.1]> path) e.1.2 ++ o_rules order (S l) (<[d := e.1.1]> path) e.2) <$> es).
Proof.
  intros Hd. induction es as [|e es IH]; [done|]. cbn [rules_of foldr fmap list_fmap concat] in *.
  rewrite Hd in IH |- *. cbn [default from_option] in *. rewrite <- app_assoc. do 2 f_equal. exact IH.
Qed.

(** The ranges of a path in the dimensions of the order, wildcards elsewhere. *)
Fixpoint place order (l : nat) path (ks : list Range1d) : list Range1d :=
  match ks with
  | [] => path
  | k :: ks' => place order (S l) (<[default 0%nat (order !! l) := k]> path) ks'
  end.

Lemma rules_of_stored order l path (tr : option (trie V)) r :
  r ∈ o_rules order l path tr ↔
  ∃ ks w, stored tr ks w ∧ is_valid w = true ∧ r = mkRule (place order l path ks) w.
Proof.
  split.
  - destruct tr as [tr|]; [|by intros ?%elem_of_nil]. revert l path r.
    assert (∀ n tr l path r, (t_size tr ≤ n)%nat → r ∈ rules_of order l path tr →
      ∃ ks w, stored (Some tr) ks w ∧ is_valid w = true ∧ r = mkRule (place order l path ks) w) as Hn;
      [|intros l path r; by apply (Hn (t_size tr))].
    clear tr. intros n. induction n as [|n IHn]; intros [es] l path r; rewrite t_size_entries.
    { intros Hs Hr. destruct es; [by apply elem_of_nil in Hr|cbn in Hs; lia]. }
    intros Hs Hr. cbn [rules_of] in Hr.
    assert (∃ e, e ∈ es ∧ let path' := <[default 0%nat (order !! l) := e.1.1]> path in
      r ∈ entry_rules path' e.1.2 ++ o_rules order (S l) path' e.2) as (e & Hin & He).
    { clear - Hr. induction es as [|e es IH]; [by apply elem_of_nil in Hr|]. cbn [foldr] in Hr.
      rewrite app_assoc in Hr. apply elem_of_app in Hr as [Hr|Hr].
      - exists e. split; [by left|exact Hr].
      - destruct (IH Hr) as (e' & Hin & He). exists e'. split; [by right|exact He]. }
    destruct e as [[k v] nl]. cbn in He. apply elem_of_app in He as [He|He].
    + unfold entry_rules in He. destruct (is_valid v) eqn:Hv; [|by apply elem_of_nil in He].
      apply list_elem_of_singleton in He as ->. exists [k], v. split_and!; [by eapply stored_here|done|done].
    + destruct nl as [nl|]; [|by apply elem_of_nil in He]. cbn in He.
      apply IHn in He as (ks & w & Hst & Hw & ->).
      2: { pose proof (sum_list_with_in _ (λ e : Range1d * V * option (trie V), 1 + o_size e.2)%nat _ Hin) as Hle.
           unfold o_size at 1 in Hle. cbn [snd] in Hle. lia. }
      exists (k :: ks), w. split_and!; [by eapply stored_next|done|done].
  - intros (ks & w & Hst & Hw & ->). revert l path. induction Hst as [es k v nl Hin|es k v nl ks w Hin Hst IH]; intros l path.
    + cbn [o_rules rules_of place]. induction es as [|e es IHe]; [by apply elem_of_nil in Hin|]. cbn [foldr].
      apply elem_of_cons in Hin as [<-|Hin]; [|rewrite app_assoc; apply elem_of_app; right; by apply IHe].
      apply elem_of_app. left. unfold entry_rules. cbn. rewrite Hw. by left.
    + cbn [o_rules rules_of place]. induction es as [|e es IHe]; [by apply elem_of_nil in Hin|]. cbn [foldr].
      apply elem_of_cons in Hin as [<-|Hin]; [|rewrite app_assoc; apply elem_of_app; right; by apply IHe].
      cbn. apply elem_of_app. right. apply elem_of_app. left. specialize (IH Hw (S l) (<[default 0%nat (order !! l) := k]> path)).
      by destruct nl as [nl|]; [|by apply elem_of_nil in IH].
Qed.
Lemma place_length order l path ks : length (place order l path ks) = length path.
Proof. revert l path. induction ks as [|k ks IH]; intros l path; [done|]. cbn. by rewrite IH, length_insert. Qed.

(** A path sets no dimensions but those of its levels. *)
Lemma place_other order l path ks d :
  (l + length ks ≤ length order)%nat → (∀ j, (j < length ks)%nat → order !! (l + j)%nat ≠ Some d) →
  place order l path ks !! d = path !! d.
Proof.
  revert l path. induction ks as [|k ks IH]; intros l path Hl Hd; [done|]. cbn [place length] in *.
  rewrite IH; [|lia|].
  - destruct (lookup_lt_is_Some_2 order l) as [d' Hd']; [lia|]. rewrite Hd'. cbn. apply list_lookup_insert_ne.
    intros ->. apply (Hd 0%nat); [lia|]. by rewrite Nat.add_0_r.
  - intros j Hj. rewrite Nat.add_succ_comm. apply Hd. lia.
Qed.

(** The rules are distinct when the places of the paths are. *)
Lemma rules_of_NoDup order l path (tr : option (trie V)) :
  unique_keys tr →
  (∀ ks1 w1 ks2 w2, stored tr ks1 w1 → is_valid w1 = true → stored tr ks2 w2 → is_valid w2 = true →
     place order l path ks1 = place order l path ks2 → ks1 = ks2) →
  NoDup (o_rules order l path tr).
Proof.
  intros Hu. revert l path. induction Hu as [|es Hnd Hnl IH]; intros l path Hinj; [constructor|].
  assert (∀ es', es' ⊆ es → NoDup ((λ e, e.1.1) <$> es') → NoDup (o_rules order l path (Some (Entries es')))) as Hsub;
    [|by apply Hsub].
  assert (∀ es' ks w, es' ⊆ es → stored (Some (Entries es')) ks w → stored (Some (Entries es)) ks w) as Hst.
  { intros es' ks w Hes Hs. inversion Hs; subst; [eapply stored_here|eapply stored_next]; eauto. }
  intros es'. induction es' as [|[[k v] nl] es' IHes]; intros Hes Hnd'; [constructor|].
  cbn [o_rules]. rewrite rules_of_cons. cbn in Hnd'. apply NoDup_cons in Hnd' as [Hk Hnd'].
  apply NoDup_app. split_and!; [| |apply IHes; [|done]].
  - cbn. rewrite app_nil_r. apply NoDup_app. split_and!.
    + unfold entry_rules. destruct (is_valid v); constructor; [by apply not_elem_of_nil|constructor].
    + unfold entry_rules. destruct (is_valid v) eqn:Hv; [|by intros x ?%elem_of_nil].
      intros x ->%list_elem_of_singleton Hx. destruct nl as [nl|]; [|by apply elem_of_nil in Hx].
      apply (rules_of_stored order (S l) _ (Some nl)) in Hx as (ks & w & Hs & Hw & [= He <-]).
      assert ([k] = k :: ks) as [= <-]; [|by inversion Hs].
      eapply Hinj; [|exact Hv| |exact Hw|exact He]; apply (Hst _ _ _ Hes);
        [eapply stored_here|eapply stored_next; [|exact Hs]]; by left.
    + destruct nl as [nl|]; [|constructor]. apply (IH k v (Some nl)); [apply Hes; by left|].
      intros ks1 w1 ks2 w2 H1 Hv1 H2 Hv2 He.
      assert (k :: ks1 = k :: ks2) as [= ->]; [|done].
      eapply (Hinj _ w1 _ w2); [|done| |done|exact He]; apply (Hst _ _ _ Hes);
        (eapply stored_next; [by left|done]).
  - intros x (ks1 & w1 & Hs1 & Hw1 & ->)%(rules_of_stored order l path (Some _))
      (ks2 & w2 & Hs2 & Hw2 & [= He <-])%(rules_of_stored order l path (Some _)).
    assert (ks1 = ks2) as <-.
    { eapply Hinj; [|exact Hw1| |exact Hw1|exact He]; (eapply Hst; [|eassumption]); intros e; rewrite ?list_elem_of_singleton.
      - intros ->. apply Hes. by left.
      - intros He'. apply Hes. by right. }
    apply Hk, list_elem_of_fmap. apply stored_entries in Hs1 as (e1 & ->%list_elem_of_singleton & ks & -> & _).
    apply stored_entries in Hs2 as (e2 & Hin & ks' & [= Hk' _] & _). by exists e2.
  - intros e He. apply Hes. by right.
Qed.

Lemma place_lookup order l path ks j k d :
  NoDup order → (l + length ks ≤ length order)%nat → ks !! j = Some k → order !! (l + j)%nat = Some d →
  (d < length path)%nat → place order l path ks !! d = Some k.
Proof.
  intros Hnd. revert l j path. induction ks as [|k0 ks IH]; intros l [|j] path Hl Hk Hd Hp; cbn in *; try done.
  - injection Hk as ->. rewrite Nat.add_0_r in Hd. rewrite Hd. cbn. rewrite place_other.
    + by apply list_lookup_insert_eq.
    + lia.
    + intros j Hj Hd'. pose proof (NoDup_lookup _ _ _ _ Hnd Hd Hd'). lia.
  - apply (IH _ j); [lia|done|by rewrite Nat.add_succ_comm|by rewrite length_insert].
Qed.
End rules_of.

(** ** The walk *)

Section walk.
Context `{cfg : !BTreeCfg, Hok : !CfgOk} {V : Type} `{!RuleValue V}.
Implicit Types (p : Heap V) (t : btree V) (g : gtrie V) (s : to_rules_state (V := V)).
Context (p : Heap V) (fl : list nat) (H : nat) (order : list nat).
Hypothesis Hp : heap_ok p fl.
Hypothesis Hnd : NoDup order.

(** The dimensions from level [l] on are unrestricted. *)
Definition wild (l : nat) (path : list Range1d) : Prop :=
  ∀ i d, (l ≤ i)%nat → order !! i = Some d → path !! d = Some any.

Lemma wild_set l d k path : order !! l = Some d → wild l path → wild (S l) (<[d := k]> path).
Proof using Hnd.
  intros Hd Hw i d' Hi Hd'. rewrite list_lookup_insert_ne; [apply (Hw i); [lia|done]|].
  intros ->. assert (l = i); [by eapply NoDup_lookup|lia].
Qed.

Definition add_rules s (rs : list (rule_spec_t V)) (path : list Range1d) : to_rules_state := mkToRules (res s ++ rs) path.

(** The walk over the layer [g] adds its rules and restores the path. *)
Definition enumerates (level F : nat) g : Prop :=
  ∀ fuel s, (F ≤ fuel)%nat → wild level (actual_path s) →
    ∃ rs, to_rules_node fuel order (Some (g_addr g)) level s p = (Ok (add_rules s rs (actual_path s)), p)
      ∧ rs ≡ₚ rules_of order level (actual_path s) (abs g).

Lemma to_rules_None fuel level s : to_rules_node fuel order None level s p = (Ok s, p).
Proof. by destruct fuel. Qed.

Lemma add_rules_nil s : add_rules s [] (actual_path s) = s.
Proof. destruct s. unfold add_rules. cbn. by rewrite app_nil_r. Qed.

Lemma enumerates_next level F o fuel s :
  (∀ g, o = Some g → enumerates level F g) → (F ≤ fuel)%nat → wild level (actual_path s) →
  ∃ rs, to_rules_node fuel order (g_addr <$> o) level s p = (Ok (add_rules s rs (actual_path s)), p)
    ∧ rs ≡ₚ o_rules order level (actual_path s) (abs <$> o).
Proof.
  intros Ho Hf Hw. destruct o as [g|]; [by apply Ho|]. exists []. cbn.
  by rewrite to_rules_None, add_rules_nil.
Qed.

(** The item [x] of a node: its own rule and those of its next layer. *)
Lemma visit_ok s level d x :
  order !! level = Some d → wild level (actual_path s) ∨ (∃ k0 path, actual_path s = <[d := k0]> path ∧ is_Some (path !! d)) →
  visit_key s d x p = (Ok (add_rules s (entry_rules (<[d := key x]> (actual_path s)) (kvalue x))
                                     (<[d := key x]> (actual_path s))), p).
Proof.
  intros Hd Hw. assert (is_Some (actual_path s !! d)) as [k Hk].
  { destruct Hw as [Hw|(k0 & path & -> & Hs)]; [eexists; by apply (Hw level)|].
    apply lookup_lt_is_Some in Hs. apply lookup_lt_is_Some. by rewrite length_insert. }
  unfold visit_key. rewrite Hk. cbn [or_ub]. rewrite bind_ret. unfold add_rules, entry_rules, save_actual_path, set_path.
  destruct (is_valid (kvalue x)); cbn; by rewrite ?app_nil_r.
Qed.

(** A loop that adds rules and keeps a property of the path. *)
Lemma fold_rules (I : list Range1d → Prop) (E : nat → list (rule_spec_t V))
    (body : to_rules_state → nat → HM V to_rules_state) (l : list nat) s :
  (∀ i s, i ∈ l → I (actual_path s) → ∃ rs path, body s i p = (Ok (add_rules s rs path), p) ∧ I path ∧ rs ≡ₚ E i) →
  I (actual_path s) →
  ∃ rs path, fold_each l s body p = (Ok (add_rules s rs path), p) ∧ I path ∧ rs ≡ₚ concat (E <$> l).
Proof.
  revert s. induction l as [|i l IH]; intros s Hb HI.
  { exists [], (actual_path s). split_and!; [by rewrite add_rules_nil|done|done]. }
  destruct (Hb i s) as (rs & path & Hrun & HI' & Hrs); [by left|done|].
  destruct (IH (add_rules s rs path)) as (rs' & path' & Hrun' & HI'' & Hrs'); [intros; apply Hb; [by right|done]|done|].
  exists (rs ++ rs'), path'. split_and!; [|done|cbn; by rewrite Hrs, Hrs'].
  cbn [fold_each]. run_ok by (exact Hrun). rewrite Hrun'. unfold add_rules. cbn. by rewrite app_assoc.
Qed.

(** *** A B-tree *)

Section btree.
Context (nx : KeyInfo V → option (gtrie V)).

(** The rules of one key of the layer with the dimension [d]. *)
Definition key_rules (level d : nat) path (x : KeyInfo V) : list (rule_spec_t V) :=
  entry_rules (<[d := key x]> path) (kvalue x) ++ o_rules order (S level) (<[d := key x]> path) (abs <$> nx x).

Definition tree_rules_of (level d : nat) path t : list (rule_spec_t V) := concat (key_rules level d path <$> flat t).

Lemma tree_rules_unfold level d path a its ts :
  ts = [] ∨ length ts = S (length its) →
  tree_rules_of level d path (BNode a its ts) ≡ₚ
    concat (key_rules level d path <$> its) ++ concat (tree_rules_of level d path <$> ts).
Proof.
  intros Hl. unfold tree_rules_of. cbn [flat].
  rewrite (weave_perm its (flat <$> ts)) by (destruct Hl as [->|?]; [by left|right; by rewrite length_fmap]).
  rewrite fmap_app, concat_app. f_equiv. clear. induction ts as [|t ts IH]; [done|]. cbn.
  by rewrite fmap_app, concat_app, IH.
Qed.

Lemma btree_rules_ok level d F t par fuel s :
  order !! level = Some d → rep p d par t →
  (∀ x, x ∈ flat t → next_rep p H order (S level) x (nx x)) →
  (∀ x g, x ∈ flat t → nx x = Some g → enumerates (S level) F g) →
  (height t + F ≤ fuel)%nat → wild level (actual_path s) →
  ∃ rs, to_rules_node fuel order (Some (addr t)) level s p = (Ok (add_rules s rs (actual_path s)), p)
    ∧ rs ≡ₚ tree_rules_of level d (actual_path s) t.
Proof using Hp Hnd.
  intros Hd. revert par fuel s. induction t as [a its ts IH] using btree_ind'.
  intros par fuel s Hr Hnx Hen Hf Hw. destruct fuel as [|fuel]; [cbn in Hf; lia|].
  pose proof Hr as [(nd & Ha & Hn) Hts]%rep_unfold. pose proof (rep_arity _ _ _ _ _ Hn) as Hl.
  pose proof (nr_max _ _ _ _ _ Hn) as Hmax. set (path := actual_path s) in *.
  assert (path !! d = Some any) as Hany by (by apply (Hw level)).
  cbn [to_rules_node addr]. rewrite (bind_load _ _ _ _ Ha), (nr_compressed _ _ _ _ _ Hn), (nr_cnt _ _ _ _ _ Hn), Hd.
  cbn [or_ub]. rewrite bind_ret.
  destruct (fold_rules (λ q, ∃ k, q = <[d := k]> path)
      (λ i, from_option (key_rules level d path) [] (its !! i))
      (λ s i,
        k ← get_key a i; s ← visit_key s d k; nl ← get_next_layer a i;
        to_rules_node fuel order nl (level + 1) s) (range_up 0 (length its)) s)
    as (rs1 & path1 & Hrun1 & (k1 & ->) & Hrs1).
  { intros i s' Hi (k0 & Hk0). unfold range_up in Hi. rewrite Nat.sub_0_r in Hi. apply elem_of_seq in Hi as [_ Hi].
    destruct (lookup_lt_is_Some_2 its i Hi) as [x Hx]. pose proof (nr_keys _ _ _ _ _ Hn _ _ Hx) as Hkx.
    assert (x ∈ flat (BNode a its ts)) as Hxf by (apply flat_items; [done|by eapply list_elem_of_lookup_2]).
    run_ok by (eapply get_key_ok; [done|exact Hkx|lia]).
    run_ok by (apply (visit_ok s' level); [done|right; exists k0, path; split; [done|by eexists]]).
    run_ok by (eapply next_layer_at; [exact Hp|exact Ha|exact Hkx|by apply Hnx]).
    rewrite Hk0, list_insert_insert_eq, Nat.add_1_r.
    set (s1 := add_rules s' _ (<[d := key x]> path)).
    destruct (enumerates_next (S level) F (nx x) fuel s1) as (rs & Hrun & Hrs);
      [intros g; by apply Hen|cbn in Hf; lia|by apply wild_set|].
    rewrite Hrun. eexists _, _. split_and!; [unfold add_rules, s1; cbn; by rewrite <- app_assoc|by eexists|].
    rewrite Hx. cbn [from_option]. unfold key_rules. by rewrite Hrs. }
  { exists any. by rewrite list_insert_id. }
  unfold range_up in Hrs1. rewrite Nat.sub_0_r, parts_by_index in Hrs1.
  run_ok by (exact Hrun1). cbv zeta.
  assert (set_path (add_rules s rs1 (<[d:=k1]> path)) d any = add_rules s rs1 path) as ->.
  { unfold set_path, add_rules. cbn. by rewrite list_insert_insert_eq, list_insert_id. }
  destruct (fold_rules (λ q, q = path)
      (λ i, from_option (tree_rules_of level d path) [] (ts !! i))
      (λ s i, c ← child a i; to_rules_node fuel order c level s) (range_up 0 (length its + 1)) (add_rules s rs1 path))
    as (rs2 & path2 & Hrun2 & -> & Hrs2); [|done|].
  { intros i s' Hi Hs'. unfold range_up in Hi. rewrite Nat.sub_0_r in Hi. apply elem_of_seq in Hi as [_ Hi].
    destruct Hl as [->|Hl].
    - run_ok by (eapply child_none; [exact Ha|]; rewrite (nr_no_kids _ _ _ _ _ Hn) by done; apply lookup_replicate_2; lia).
      rewrite to_rules_None. exists [], path. split_and!; [by rewrite <- Hs', add_rules_nil|done|done].
    - destruct (lookup_lt_is_Some_2 ts i) as [c Hc]; [lia|]. pose proof (list_elem_of_lookup_2 _ _ _ Hc) as Hcin.
      destruct (rep_kids_live _ _ _ _ _ _ Hr (addr c)) as (cd & Hcd & _); [by apply list_elem_of_fmap_2|].
      run_ok by (eapply child_some; [exact Hp|exact Ha| |exact Hcd];
        apply (nr_kids _ _ _ _ _ Hn); by rewrite list_lookup_fmap, Hc).
      rewrite Forall_forall in IH, Hts. rewrite Hc. cbn [from_option]. rewrite <- Hs'.
      destruct (IH c Hcin (Some a) fuel s') as (rs & Hrun & Hrs).
      + by apply Hts.
      + intros x Hx. apply Hnx. by eapply flat_kids.
      + intros x g Hx. apply Hen. by eapply flat_kids.
      + pose proof (height_kid a its ts c Hcin). lia.
      + by rewrite Hs'.
      + by exists rs, (actual_path s'). }
  rewrite Hrun2. exists (rs1 ++ rs2). split; [unfold add_rules; cbn; by rewrite app_assoc|].
  unfold range_up in Hrs2. rewrite Nat.sub_0_r in Hrs2.
  rewrite (tree_rules_unfold _ _ _ _ _ _ Hl), Hrs1, Hrs2. f_equiv. destruct Hl as [->|Hl].
  - clear. induction (seq 0 (length its + 1)); [done|]. by cbn.
  - by rewrite Nat.add_1_r, <- Hl, parts_by_index.
Qed.
End btree.

(** *** A compressed node *)

(** The path restored after the keys of a compressed node. *)
Lemma reset_ok level n path q res :
  (level + n ≤ length order)%nat → wild level path → length q = length path →
  (∀ d, (∀ j, (j < n)%nat → order !! (level + j)%nat ≠ Some d) → q !! d = path !! d) →
  fold_each (range_up 0 n) (mkToRules res q) (λ s i,
    d ← or_ub (order !! (level + i)%nat); mret (set_path s d any)) p = (Ok (mkToRules res path), p).
Proof.
  unfold range_up. rewrite Nat.sub_0_r. intros Hn Hw Hl Hd.
  assert (∀ m k q, (k + m = n)%nat → length q = length path →
    (∀ d, (∀ j, (k ≤ j < n)%nat → order !! (level + j)%nat ≠ Some d) → q !! d = path !! d) →
    fold_each (seq k m) (mkToRules res q) (λ s i,
      d ← or_ub (order !! (level + i)%nat); mret (set_path s d any)) p = (Ok (mkToRules res path), p)) as Hm;
    [|apply Hm; [done|done|intros d Hj; apply Hd; intros j ?; apply Hj; lia]].
  clear q Hl Hd. intros m. induction m as [|m IH]; intros k q Hk Hl Hd; cbn [seq fold_each].
  - assert (q = path) as ->; [|done]. apply list_eq. intros d. apply Hd. lia.
  - destruct (lookup_lt_is_Some_2 order (level + k)) as [d Hdk]; [lia|]. rewrite Hdk. cbn [or_ub].
    rewrite bind_assoc, bind_ret. apply IH; [lia|by rewrite length_insert|].
    pose proof (Hw (level + k)%nat d ltac:(lia) Hdk) as Hany. cbn. intros d' Hd'.
    destruct (decide (d' = d)) as [->|Hne].
    + rewrite Hany. apply list_lookup_insert_eq. rewrite Hl. by eapply lookup_lt_Some.
    + rewrite list_lookup_insert_ne by done. apply Hd. intros j Hj.
      destruct (decide (j = k)) as [->|]; [by rewrite Hdk; intros [= ->]|apply Hd'; lia].
Qed.

(** The body of the loop over the keys of a compressed node. *)
Definition chain_item fuel level a s (i : nat) : HM V to_rules_state :=
  d ← or_ub (order !! (level + i)%nat);
  p ← or_ub (actual_path s !! d);
  assert_ (range_eq p any);;
  k ← get_key a i;
  actual_d ← get_dim a i;
  assert_ (actual_d =? d)%nat;;
  s ← visit_key s d k;
  nl ← get_next_layer a i;
  to_rules_node fuel order nl (level + i + 1)%nat s.

Lemma chain_item_ok level F a nd its i x o s fuel :
  node_at p a = Some nd → chain_rep order level its nd → its !! i = Some x →
  next_rep p H order (S (level + i)) x o → (∀ g, o = Some g → enumerates (S (level + i)) F g) →
  (F ≤ fuel)%nat → wild (level + i) (actual_path s) →
  let path := place order (level + i) (actual_path s) [key x] in
  ∃ rs, chain_item fuel level a s i p = (Ok (add_rules s rs path), p)
    ∧ rs ≡ₚ entry_rules path (kvalue x) ++ o_rules order (S (level + i)) path (abs <$> o).
Proof using Hp Hnd.
  intros Ha Hc Hx Hox Ho HF Hw path. pose proof (lookup_lt_Some _ _ _ Hx) as Hi. pose proof (cr_max _ _ _ _ Hc) as Hmax.
  destruct (cr_dims _ _ _ _ Hc i Hi) as (d & Hd & Hdn). pose proof (cr_keys _ _ _ _ Hc _ _ Hx) as Hkx.
  assert (path = <[d := key x]> (actual_path s)) as -> by (unfold path; cbn; by rewrite Hd).
  unfold chain_item. rewrite Hd. cbn [or_ub]. rewrite bind_ret, (Hw (level + i)%nat d ltac:(done) Hd).
  cbn [or_ub]. rewrite bind_ret.
  rewrite bind_assert by (by apply range_eq_spec).
  run_ok by (eapply get_key_ok; [done|exact Hkx|lia]). run_ok by (by eapply get_dim_ok).
  rewrite bind_assert by (by apply Nat.eqb_eq).
  run_ok by (apply (visit_ok s (level + i)); [done|by left]).
  run_ok by (by eapply next_layer_at). rewrite Nat.add_1_r.
  destruct (enumerates_next (S (level + i)) F o fuel
    (add_rules s (entry_rules (<[d := key x]> (actual_path s)) (kvalue x)) (<[d := key x]> (actual_path s))))
    as (rs & Hrun & Hrs); [done|done|by apply wild_set|].
  rewrite Hrun. eexists. split; [unfold add_rules; cbn; by rewrite <- app_assoc|]. by rewrite Hrs.
Qed.

(** The keys of a compressed node from the [i]-th on. *)
Lemma chain_rules_ok level F a nd its o fuel :
  node_at p a = Some nd → chain_rep order level its nd → next_last p H order level its o →
  (∀ g, o = Some g → enumerates (level + length its) F g) → (F ≤ fuel)%nat →
  ∀ xs i x s, drop i its = x :: xs → wild (level + i) (actual_path s) →
  ∃ rs, fold_each (seq i (S (length xs))) s (chain_item fuel level a) p
    = (Ok (add_rules s rs (place order (level + i) (actual_path s) (key <$> x :: xs))), p)
    ∧ rs ≡ₚ o_rules order (level + i) (actual_path s) (chain_trie (x :: xs) (abs <$> o)).
Proof using Hp Hnd.
  intros Ha Hc [Hnone Hlast] Ho HF xs. induction xs as [|y xs IH]; intros i x s Hdrop Hw.
  all: assert (its !! i = Some x) as Hx by (by rewrite <- (Nat.add_0_r i), <- lookup_drop, Hdrop).
  all: pose proof (lookup_lt_Some _ _ _ Hx) as Hi; pose proof (f_equal length Hdrop) as Hlen; rewrite length_drop in Hlen; cbn in Hlen.
  - cbn [seq fold_each]. assert (i = length its - 1)%nat as Hil by lia.
    assert (level + length its = S (level + i))%nat as Hlev by lia. rewrite Hlev in Hlast, Ho.
    destruct (chain_item_ok level F a nd its i x o s fuel) as (rs & Hrun & Hrs); [done|done|done|by apply Hlast; rewrite <- Hil|done..|].
    run_ok by (exact Hrun). exists rs. split; [done|]. rewrite Hrs. cbn. by rewrite app_nil_r.
  - destruct (lookup_lt_is_Some_2 its (S i)) as [y' Hy]; [lia|].
    assert (drop (S i) its = y :: xs) as Hdrop'.
    { rewrite <- Nat.add_1_r, <- drop_drop, Hdrop. done. }
    destruct (chain_item_ok level F a nd its i x None s fuel) as (rs & Hrun & Hrs);
      [done|done|done|by apply (Hnone i x Hx); lia|done..|].
    cbn [length]. change (seq i (S (S (length xs)))) with (i :: seq (S i) (S (length xs))). cbn [fold_each].
    run_ok by (exact Hrun).
    destruct (IH (S i) y (add_rules s rs (place order (level + i) (actual_path s) [key x]))) as (rs' & Hrun' & Hrs'); [done|..].
    + destruct (cr_dims _ _ _ _ Hc i Hi) as (d & Hd & _). cbn. rewrite Hd. cbn. rewrite Nat.add_succ_r. by apply wild_set.
    + rewrite Hrun'. exists (rs ++ rs'). rewrite !Nat.add_succ_r. split.
      { unfold add_rules. cbn. by rewrite app_assoc. }
      rewrite Hrs, Hrs'. cbn. rewrite !app_nil_r. by rewrite Nat.add_succ_r.
Qed.

(** *** A layer *)

Lemma layer_rules level d path (nx : KeyInfo V → option (gtrie V)) xs :
  order !! level = Some d →
  rules_of order level path (Entries (layer_entries xs ((λ x, abs <$> nx x) <$> xs)))
  = concat (key_rules nx level d path <$> xs).
Proof.
  intros Hd. rewrite (rules_of_entries _ _ _ _ _ Hd). f_equal. induction xs as [|x xs IH]; [done|].
  cbn [fmap list_fmap layer_entries zip_with]. f_equal. exact IH.
Qed.

Lemma enumerates_layer level t nexts :
  g_rep p H order level (GLayer t nexts) →
  (∀ g, Some g ∈ nexts → g_rep p H order (S level) g → enumerates (S level) (S H * (length order - S level)) g) →
  enumerates level (S H * (length order - level)) (GLayer t nexts).
Proof using Hp Hnd.
  intros Hg IH fuel s Hf Hw. pose proof (g_rep_level _ _ _ _ _ Hg) as Hlev.
  apply g_rep_layer in Hg as ((d & Hd & Hr) & Hs & Hh & Hn).
  pose proof (next_of_map H order _ _ _ _ Hs Hn) as Hmap. set (nx := next_of (flat t) nexts) in *.
  assert (∀ x, x ∈ flat t → next_rep p H order (S level) x (nx x) ∧ nx x ∈ nexts) as Hnx.
  { intros x (j & Hx)%list_elem_of_lookup. destruct (Forall2_lookup_l _ _ _ _ _ Hn Hx) as (o & Ho & Hxo).
    unfold nx. rewrite (next_of_lookup _ _ _ _ _ Hs Hx Ho). split; [done|by eapply list_elem_of_lookup_2]. }
  destruct (btree_rules_ok nx level d (S H * (length order - S level)) t None fuel s) as (rs & Hrun & Hrs);
    [done|done|by intros x Hx; apply Hnx| | |done|].
  - intros x g Hx Ho. destruct (Hnx x Hx) as [Hxo Hin]. rewrite Ho in Hxo, Hin. apply IH; [done|apply Hxo].
  - replace (length order - level)%nat with (S (length order - S level)) in Hf by lia. lia.
  - exists rs. split; [exact Hrun|]. rewrite Hrs, abs_layer, <- Hmap, <- list_fmap_compose.
    unfold tree_rules_of. by rewrite <- (layer_rules _ _ _ _ _ Hd).
Qed.

Lemma enumerates_chain level a c cs o :
  g_rep p H order level (GChain a c cs o) →
  (∀ g, o = Some g → enumerates (level + length (c :: cs)) (S H * (length order - (level + length (c :: cs)))) g) →
  enumerates level (S H * (length order - level)) (GChain a c cs o).
Proof using Hp Hnd.
  intros Hg IH fuel s Hf Hw. pose proof (g_rep_level _ _ _ _ _ Hg) as Hlev.
  destruct (chain_parts _ _ _ _ _ _ _ _ Hg) as (nd & Ha & Hc & _ & Hlast & _).
  destruct fuel as [|fuel]; [lia|]. pose proof (cr_max _ _ _ _ Hc) as Hmax. set (n := length (c :: cs)) in *.
  assert (level + n ≤ length order)%nat as Hn.
  { destruct (cr_dims _ _ _ _ Hc (length cs)) as (d & Hd%lookup_lt_Some & _); [cbn; lia|]. subst n. cbn. lia. }
  destruct (chain_rules_ok level (S H * (length order - (level + n))) a nd (c :: cs) o fuel Ha Hc Hlast IH)
    with (xs := cs) (i := 0%nat) (x := c) (s := s) as (rs & Hrun & Hrs).
  { assert (length order - (level + n) + 1 ≤ length order - level)%nat as Hlt by (subst n; cbn; lia).
    apply (Nat.mul_le_mono_l _ _ (S H)) in Hlt. lia. }
  { done. }
  { by rewrite Nat.add_0_r. }
  rewrite Nat.add_0_r in Hrun, Hrs. exists rs. split; [|exact Hrs].
  cbn [to_rules_node g_addr]. rewrite (bind_load _ _ _ _ Ha), (cr_compressed _ _ _ _ Hc), (cr_cnt _ _ _ _ Hc). fold n.
  replace (range_up 0 n) with (seq 0 (S (length cs))) by done.
  run_ok by (exact Hrun). change (seq 0 (S (length cs))) with (range_up 0 n).
  run_ok by (apply (reset_ok level n (actual_path s)); [done|done|apply place_length|];
    intros d Hd; apply place_other; rewrite length_fmap; done).
  run_ok by (apply for_each_pure; intros i Hi; run_ok by (eapply child_none; [exact Ha|];
    rewrite (cr_no_kids _ _ _ _ Hc); apply lookup_replicate_2; lia); done).
  done.
Qed.

Lemma enumerates_ok level g :
  g_rep p H order level g → enumerates level (S H * (length order - level)) g.
Proof using Hp Hnd.
  revert level. induction g as [t nexts IH|a c cs nl IH] using gtrie_ind'; intros level Hg.
  - apply enumerates_layer; [done|]. intros g Hin. by apply IH.
  - apply enumerates_chain; [done|]. intros g ->. apply IH; [done|].
    destruct (chain_parts _ _ _ _ _ _ _ _ Hg) as (nd & _ & Hc & _ & [_ Hlast] & _).
    destruct (lookup_lt_is_Some_2 (c :: cs) (length (c :: cs) - 1)) as [x Hx]; [cbn; lia|]. by apply (Hlast x Hx).
Qed.
End walk.

(** ** The round trip *)

Section roundtrip.
Context `{cfg : !BTreeCfg, Hok : !CfgOk} {V : Type} `{!RuleValue V}.
Implicit Types (p : Heap V) (order : list nat) (r : rule_spec_t V) (rs : list (rule_spec_t V)).

(** The rules of which no later rule has the same ranges. *)
Definition latest rs : list (rule_spec_t V) :=
  foldl (λ acc r, filter (λ r', fields r' ≠ fields r) acc ++ [r]) [] rs.

Lemma latest_app rs r : latest (rs ++ [r]) = filter (λ r', fields r' ≠ fields r) (latest rs) ++ [r].
Proof. unfold latest. by rewrite foldl_app. Qed.

Lemma latest_in rs r : r ∈ latest rs → r ∈ rs.
Proof.
  induction rs as [|r' rs IH] using rev_ind; [done|]. rewrite latest_app, !elem_of_app.
  intros [[_ Hr]%list_elem_of_filter|?]; [left; by apply IH|by right].
Qed.

Lemma latest_NoDup rs : NoDup (latest rs).
Proof.
  induction rs as [|r rs IH] using rev_ind; [constructor|]. rewrite latest_app. apply NoDup_app. split_and!.
  - by apply NoDup_filter.
  - by intros r' [Hne _]%list_elem_of_filter ->%list_elem_of_singleton.
  - apply NoDup_singleton.
Qed.

(** [to_rules] on the memory of a tree. *)
Lemma to_rules_run p fl H order o fuel :
  stores p fl H order o → NoDup order → Forall (λ d, (d < D)%nat) order → (S H * length order ≤ fuel)%nat →
  ∃ rs, to_rules fuel (g_addr <$> o) order p = (Ok rs, p) ∧ rs ≡ₚ o_rules order 0 (replicate D any) (abs <$> o).
Proof using Hok.
  intros Hst Hnd Hod Hf. unfold to_rules. destruct o as [g|]; cbn [fmap option_fmap option_map].
  - destruct (enumerates_ok p fl H order (st_heap _ _ _ _ _ Hst) Hnd 0 g) with (fuel := fuel)
      (s := mkToRules (V := V) [] (replicate D any)) as (rs & Hrun & Hrs); [by apply Hst|lia| |].
    + intros i d _ Hd. cbn. rewrite Forall_lookup in Hod. apply lookup_replicate_2. by eapply Hod.
    + run_ok by (exact Hrun). by exists rs.
  - exists []. by destruct fuel.
Qed.
(** [to_rules] lists the stored paths that have a valid value, every one
    as the rule with these ranges and wildcards elsewhere. *)
Theorem to_rules_lists p order root tr H n fuel :
  tree_at p order root tr H n → NoDup order → Forall (λ d, (d < D)%nat) order →
  (S H * length order ≤ fuel)%nat →
  ∃ rs, to_rules fuel root order p = (Ok rs, p) ∧ rs ≡ₚ o_rules order 0 (replicate D any) tr
    ∧ ∀ r, r ∈ rs ↔ ∃ ks w, stored tr ks w ∧ is_valid w = true
                      ∧ r = mkRule (place order 0 (replicate D any) ks) w.
Proof using Hok.
  intros (fl & o & Hst & <- & <- & _) Hnd Hod Hf.
  destruct (to_rules_run p fl H order o fuel) as (rs & Hrun & Hrs); [done..|].
  exists rs. split_and!; [done|done|]. intros r. by rewrite Hrs, rules_of_stored.
Qed.

Section order.
Hypothesis HK : KEY_SIZE = 2%nat.
Context (order : list nat).
Hypothesis HD : (1 ≤ D)%nat.
Hypothesis Hperm : order ≡ₚ seq 0 D.

Lemma order_NoDup : NoDup order.
Proof using Hperm. rewrite Hperm. apply NoDup_seq. Qed.

Lemma order_level d : (d < D)%nat → ∃ l, order !! l = Some d.
Proof using Hperm. intros Hd. destruct (order_facts order Hperm) as (_ & _ & Hall). by apply list_elem_of_lookup, Hall. Qed.

(** The relevant ranges of a rule, in their places, are its ranges. *)
Lemma place_trim r : rule_ok r → place order 0 (replicate D any) (trim order r) = fields r.
Proof using HK HD Hperm.
  intros Hr. destruct (order_facts order Hperm) as (Hlo & Hod & _).
  destruct (levels_spec HK order Hlo HD Hod r Hr) as (_ & Hlev & Hw).
  pose proof (trim_length HK order Hlo HD Hod r Hr) as Hlt. apply list_eq. intros d.
  destruct (decide (d < D)%nat) as [Hd|Hd].
  2: { rewrite !(proj2 (lookup_ge_None _ _)); [done| |rewrite place_length, length_replicate; lia].
       destruct Hr as [-> _]. lia. }
  destruct (order_level d Hd) as (l & Hl).
  destruct (rule_keys_lookup HK order Hlo HD Hod r l Hr (lookup_lt_Some _ _ _ Hl)) as (d' & k & Hd' & Hk & Hkl). simplify_eq.
  rewrite Hk. destruct (decide (l < levels order r)%nat) as [Hll|Hll].
  - apply (place_lookup _ _ _ _ l); [apply order_NoDup|lia| |done|by rewrite length_replicate].
    unfold trim. by rewrite lookup_take_lt.
  - rewrite place_other; [| lia|].
    + rewrite lookup_replicate_2 by done. unfold any. rewrite HK. f_equal. symmetry.
      rewrite (Hw l k); [done|lia|done].
    + intros j Hj Hdj. pose proof (NoDup_lookup _ _ _ _ order_NoDup Hdj Hl). lia.
Qed.

Lemma trim_fields r r' : rule_ok r → rule_ok r' → trim order r = trim order r' → fields r = fields r'.
Proof using HK HD Hperm. intros Hr Hr' He. by rewrite <- (place_trim r), <- (place_trim r'), He. Qed.

Lemma fields_trim r r' : rule_ok r → rule_ok r' → fields r = fields r' → trim order r = trim order r'.
Proof using HK HD Hperm.
  intros Hr Hr' Hf. destruct (order_facts order Hperm) as (Hlo & Hod & _).
  apply (trim_keys HK order Hlo HD Hod); [done..|]. unfold rule_keys. by rewrite Hf.
Qed.

Lemma latest_last rs r :
  Forall rule_ok rs → r ∈ latest rs ↔ rule_ok r ∧ last_value order rs (trim order r) = Some (rvalue r).
Proof using HK HD Hperm.
  induction rs as [|r' rs IH] using rev_ind; intros Hrs.
  { split; [by intros ?%elem_of_nil|by intros [_ ?]]. }
  apply Forall_app in Hrs as [Hrs [Hr' _]%Forall_cons].
  rewrite latest_app, last_value_app, elem_of_app, list_elem_of_filter, list_elem_of_singleton, IH by done.
  destruct (decide (trim order r' = trim order r)) as [He|He].
  - split; [intros [(Hne & Hr & _)| ->]; [|by split]|].
    + destruct Hne. by apply trim_fields.
    + intros [Hr [= Hv]]. right. destruct r, r'. cbn in Hv. rewrite Hv. f_equal.
      by apply (trim_fields _ _ Hr Hr').
  - split; [intros [(_ & ?)| ->]; [done|by destruct He]|]. intros [Hr Hl]. left. split; [|done].
    intros Hf. by destruct He; apply fields_trim.
Qed.

(** The rules of the trie of the rules [rs]. *)
Lemma trie_of_latest rs (tr : option (trie V)) :
  trie_of order rs tr → Forall rule_ok rs → Forall (λ r, is_valid (rvalue r) = true) rs →
  o_rules order 0 (replicate D any) tr ≡ₚ latest rs.
Proof using HK HD Hperm.
  intros Ht Hrs Hval. pose proof Hrs as Hrs'. rewrite Forall_forall in Hrs, Hval.
  assert (∀ ks w, stored tr ks w → is_valid w = true → ∃ r, r ∈ latest rs ∧ ks = trim order r ∧ w = rvalue r
    ∧ place order 0 (replicate D any) ks = fields r) as Hst.
  { intros ks w Hs Hw. apply (to_values _ _ _ Ht) in Hs; [|done].
    destruct (last_value_in _ _ _ _ Hs) as (r & Hin & <- & _). exists (mkRule (fields r) w).
    assert (rule_ok r) as Hr by by apply Hrs.
    assert (trim order (mkRule (fields r) w) = trim order r) as He by by apply fields_trim.
    split_and!; [apply latest_last; [done|]; by rewrite He|done|done|by rewrite place_trim]. }
  apply NoDup_Permutation; [|apply latest_NoDup|].
  - apply rules_of_NoDup; [apply Ht|]. intros ks1 w1 ks2 w2 H1 Hw1 H2 Hw2.
    destruct (Hst _ _ H1 Hw1) as (r1 & [Hr1 _]%latest_last & -> & _ & ->); [|done].
    destruct (Hst _ _ H2 Hw2) as (r2 & [Hr2 _]%latest_last & -> & _ & ->); [|done]. by apply fields_trim.
  - intros r. rewrite rules_of_stored. split.
    + intros (ks & w & Hs & Hw & ->). destruct (Hst _ _ Hs Hw) as (r & Hin & _ & -> & ->). by destruct r.
    + intros Hin. pose proof (Hval _ (latest_in _ _ Hin)) as Hv.
      pose proof Hin as [Hr Hl]%latest_last; [|done]. exists (trim order r), (rvalue r).
      split_and!; [by apply (to_values _ _ _ Ht)|done|]. rewrite place_trim by done. by destruct r.
Qed.
End order.

(** C17. The rules listed for a tree are the rules inserted into it, in some
    order, less those a later rule with the same ranges has replaced. *)
Theorem build_to_rules N order rs fuel :
  PATH_COMPRESSION = true → KEY_SIZE = 2%nat → is_valid (rv_default : V) = false → (1 ≤ D)%nat →
  order ≡ₚ seq 0 D → Forall rule_ok16 rs → Forall (λ r, is_valid (rvalue r) = true) rs →
  (∀ r r', r ∈ rs → r' ∈ rs → compatible (rule_keys order r) (rule_keys order r')) →
  NoDup (full_keys order rs) → (1 < N)%nat → Z.of_nat N ≤ INVALID_INDEX → (nodes_needed 1 (length rs) ≤ N)%nat →
  (insert_fuel (1 + length rs) order ≤ fuel)%nat → (S (1 + length rs) * D ≤ fuel)%nat →
  ∃ p p' root rs', Pool.DynamicMempool_ctor N = Ok p ∧ insert_rules fuel None order rs p = (Ok root, p')
    ∧ to_rules fuel root order p' = (Ok rs', p') ∧ rs' ≡ₚ latest rs.
Proof using Hok.
  intros HPC HK Hdef HD Hperm Hrs Hval Hc Hunr HN Hfit Hneed Hfuel Hfuel'.
  destruct (order_facts order Hperm) as (Hlo & Hod & _).
  destruct (build_run N order rs fuel) as (p & p' & fl' & o & Hp & Hrun & Hst & _ & Ht); [done..|].
  destruct (to_rules_run p' fl' (1 + length rs) order o fuel) as (rs' & Hrun' & Hrs');
    [done|by apply order_NoDup|done|by rewrite Hlo|].
  exists p, p', (g_addr <$> o), rs'. split_and!; [done..|]. rewrite Hrs'.
  apply trie_of_latest; [done..| |done]. eapply Forall_impl; [exact Hrs|]. by intros r [? _].
Qed.
End roundtrip.

(** ** The rules of the examples *)

Module RulesExample.
Import LookupSpec.Example InsertSpec.InsertExample BuildExample.
#[local] Existing Instance cfg3.

Lemma to_rules_lists_witness :
  tree_at built.2 order3 (Some (g_addr built_tree)) (Some (abs built_tree)) 9 22
  ∧ ∃ rs, to_rules 40 (Some (g_addr built_tree)) order3 built.2 = (Ok rs, built.2)
    ∧ rs ≡ₚ o_rules order3 0 (replicate D any) (Some (abs built_tree))
    ∧ ∀ r, r ∈ rs ↔ ∃ ks w, stored (Some (abs built_tree)) ks w ∧ is_valid w = true
                      ∧ r = mkRule (place order3 0 (replicate D any) ks) w.
Proof.
  split; [exact built_tree_at|].
  apply (to_rules_lists built.2 order3 (Some (g_addr built_tree)) (Some (abs built_tree)) 9 22 40);
    [exact built_tree_at| |exact dims3|by apply Nat.leb_le].
  refine (bool_decide_unpack _ _); vm_compute; exact I.
Defined.

(** The first of the two rules with the same ranges is gone. *)
Lemma build_to_rules_witness :
  latest rules4 = drop 1 rules4
  ∧ ∃ p p' root rs', Pool.DynamicMempool_ctor 80 = Ok p ∧ insert_rules 60 None order3 rules4 p = (Ok root, p')
    ∧ to_rules 60 root order3 p' = (Ok rs', p') ∧ rs' ≡ₚ latest rules4.
Proof.
  split; [vm_compute; reflexivity|].
  apply (build_to_rules 80 order3 rules4 60); try reflexivity; [by apply Nat.leb_le|exact rules4_ok| | | | | | | |].
  - by repeat constructor.
  - exact rules4_compatible.
  - exact rules4_unrepeated.
  - apply Nat.ltb_lt. reflexivity.
  - done.
  - apply Nat.leb_le. reflexivity.
  - apply Nat.leb_le. vm_compute. reflexivity.
  - apply Nat.leb_le. reflexivity.
Defined.
End RulesExample.
