(* ===== verification/Facade.v ===== *)
(** * The operations of the tree object on a stored tree

    [btree_size] and [btree_clear] of [BTreeImpl]: the number of entries, and
    the return of exactly the nodes of the tree to the pool it shares with
    other trees. *)
From S2P Require Import Prelude Range RuleValue Mempool Node NodeLemmas Search Layer LayerSearch Trie TrieCheck Footprint Slots Insert LookupSpec InsertLayer InsertRoot InsertSpec Build Destroy BTreeImpl.
Local Open Scope Z_scope.

Section Facade.
Context `{cfg : !BTreeCfg, Hok : !CfgOk} {V : Type} `{!RuleValue V}.
Implicit Types (p : Heap V) (o : option (gtrie V)) (order : list nat).

(** C40. The size of a tree is the number of entries of the trie it stores;
    nothing changes. *)
Theorem btree_size_counts p order (t : BTree) tr H n fuel :
  tree_at p order (root t) tr H n → (S H * length order ≤ fuel)%nat →
  btree_size fuel t p = (Ok (o_size tr), p).
Proof using Hok.
  intros (fl & o & [Hp Hg _ _] & Hroot & <- & _) Hf. unfold btree_size. rewrite <- Hroot.
  destruct o as [g|]; [|done]. cbn.
  apply (size_ok p fl H order 0 g Hp (Hg g eq_refl) g fuel eq_refl). by rewrite Nat.sub_0_r.
Qed.

(** C14. Clearing a tree returns every node of it to the pool and no other: the
    nodes of the other trees in the pool are as they were. *)
Theorem btree_clear_frees p fl H o (t : BTree) fuel :
  stores p fl H (bt_dimension_order t) o → g_addr <$> o = root t → fl ≠ [] →
  (S H * length (bt_dimension_order t) ≤ fuel)%nat →
  ∃ p' fl', btree_clear fuel t p = (Ok (bt_set_root None t), p')
    ∧ stores p' fl' H (bt_dimension_order t) None ∧ fl' ≡ₚ o_addrs o ++ fl
    ∧ ∀ order2 H2 o2, stores p fl H2 order2 o2 → (∀ a, a ∈ o_addrs o2 → a ∉ o_addrs o) →
        stores p' fl' H2 order2 o2.
Proof using Hok.
  intros [Hp Hg Hnd Hne] Hroot Hfl Hf.
  assert (∃ p' fl', destroy_node fuel (root t) p = (Ok tt, p') ∧ frees p fl p' fl' (o_addrs o))
    as (p' & fl' & Hrun & Hfr).
  { rewrite <- Hroot. destruct o as [g|].
    - apply (destroy_ok H (bt_dimension_order t) 0 g p fl fuel); [done|done|by apply Hg|done|by rewrite Nat.sub_0_r].
    - exists p, fl. split; [by destruct fuel|by apply frees_refl]. }
  exists p', fl'. split_and!.
  - unfold btree_clear. by run_ok by (exact Hrun).
  - split; [apply (fr_heap _ _ _ _ _ Hfr)|done|constructor|done].
  - apply (fr_list _ _ _ _ _ Hfr).
  - intros order2 H2 o2 [_ Hg2 Hnd2 Hne2] Hdis. split; [apply (fr_heap _ _ _ _ _ Hfr)| |done|done].
    intros g2 ->. eapply g_rep_modifies; [by apply Hg2|by eapply frees_modifies|exact Hdis|done].
Qed.
End Facade.

Module FacadeExample.
Import LookupSpec.Example InsertSpec.InsertExample.
#[local] Existing Instance cfg3.

Definition tree9 : BTree := mkBTree (Some (g_addr built_tree)) [0; 1; 2]%nat default_in_packet_position.

Lemma btree_size_counts_witness :
  o_size (Some (abs built_tree)) = 15%nat
  ∧ btree_size 40 tree9 built.2 = (Ok (o_size (Some (abs built_tree))), built.2).
Proof.
  split; [vm_compute; reflexivity|].
  apply (btree_size_counts built.2 [0; 1; 2]%nat tree9 (Some (abs built_tree)) 9 22 40); [|by apply Nat.leb_le].
  exists (seq 8 22), (Some built_tree). split_and!; [exact built_stores|done..].
Defined.

Lemma btree_clear_frees_witness :
  ∃ p' fl', btree_clear 40 tree9 built.2 = (Ok (bt_set_root None tree9), p')
    ∧ stores p' fl' 9 [0; 1; 2]%nat None ∧ fl' ≡ₚ o_addrs (Some built_tree) ++ seq 8 22
    ∧ ∀ order2 H2 o2, stores built.2 (seq 8 22) H2 order2 o2 →
        (∀ a, a ∈ o_addrs o2 → a ∉ o_addrs (Some built_tree)) → stores p' fl' H2 order2 o2.
Proof.
  apply (btree_clear_frees built.2 (seq 8 22) 9 (Some built_tree) tree9 40);
    [exact built_stores|reflexivity|done|by apply Nat.leb_le].
Defined.
End FacadeExample.
