(* ===== verification/TreeInterface.v ===== *)
(** * What the classifier needs of a tree

    [TREE_LAWS] states what a tree promises to the classifier: the trees
    share one allocator, so the promise is about all of them together.  The
    rules of a tree are given in the order of their insertion; two rules may
    be in one tree when they are compatible in the order of its dimensions. *)
From S2P Require Import Prelude Range RuleValue Mempool Node Search Layer LayerSearch Trie TrieInsert Build BuildSpec Schedule DimOrder Common BTreeImpl.
Local Open Scope Z_scope.

Section fits.
Context {V : Type}.
Implicit Types (r : rule_spec_t V) (rs : list (rule_spec_t V)) (order : list nat).

(** The rule can be stored beside the rules [rs]. *)
Definition fits order rs r : Prop := ∀ r', r' ∈ rs → compatible (rule_keys order r') (rule_keys order r).

(** The dimensions from the position [n] on are wildcards of the rule. *)
Definition wild_from order (n : nat) r : Prop :=
  ∀ i d, (n ≤ i)%nat → order !! i = Some d → ∃ k, fields r !! d = Some k ∧ is_wildcard 2 k = true.

Lemma wild_from_mono order n n' r : (n ≤ n')%nat → wild_from order n r → wild_from order n' r.
Proof. intros Hn Hw i d Hi. apply Hw. lia. Qed.
End fits.

(** ** Rules as a linear list *)

Section linear.
Context `{cfg : !BTreeCfg} {V : Type} `{!RuleValue V, !RuleValueLaws V}.
Implicit Types (r : rule_spec_t V) (rs : list (rule_spec_t V)).

(** Rules a tree of the given dimension order can hold: their ranges are
    pairwise disjoint where they first differ. *)
Record tree_rules order rs : Prop := {
  tr_ok : Forall rule_ok16 rs;
  tr_valid : Forall (λ r, is_valid (rvalue r) = true) rs;
  tr_compatible : ∀ r r', r ∈ rs → r' ∈ rs → compatible (rule_keys order r) (rule_keys order r');
  tr_distinct : ∀ r r', r ∈ rs → r' ∈ rs → rule_keys order r = rule_keys order r' → rvalue r = rvalue r';
}.

(** [w] is the answer for the packet [v] of a classifier that holds [rs]. *)
Definition classified rs (v : list Z) (w : V) : Prop :=
  if is_valid w
  then (∃ r, r ∈ rs ∧ rule_matches r v = true ∧ rvalue r = w)
       ∧ ∀ r, r ∈ rs → rule_matches r v = true → priority (rvalue r) ≤ priority w
  else w = rv_default ∧ ∀ r, r ∈ rs → rule_matches r v = false.

Lemma linear_search_cases rs v :
  (linear_search rs v = rv_default ∧ ∀ r, r ∈ rs → rule_matches r v = false)
  ∨ ∃ r, r ∈ rs ∧ rule_matches r v = true ∧ linear_search rs v = rvalue r.
Proof.
  unfold linear_search. induction rs as [|r rs IH] using rev_ind.
  - left. split; [done|]. by intros r ?%elem_of_nil.
  - rewrite foldl_app. cbn. destruct (rule_matches r v) eqn:Hr.
    + right. exists r. split; [apply elem_of_app; right; by left|done].
    + destruct IH as [[Hd Hn]|(r' & Hin & Hm & He)].
      * left. split; [done|]. intros r' [Hin| ->%list_elem_of_singleton]%elem_of_app; [by apply Hn|done].
      * right. exists r'. split; [apply elem_of_app; by left|done].
Qed.

(** The answer of one tree. *)
Lemma linear_search_spec order rs v :
  order ≡ₚ seq 0 D → KEY_SIZE = 2%nat → (1 ≤ D)%nat → tree_rules order rs → length v = D →
  classified rs v (linear_search rs v).
Proof.
  intros Hperm HK HD [Hrs Hval Hc Hdist] Hl. destruct (order_facts _ Hperm) as (Hlo & Hod & Hall).
  rewrite Forall_forall in Hrs, Hval. unfold classified.
  destruct (linear_search_cases rs v) as [[-> Hn]|(r & Hin & Hm & ->)]; [by rewrite default_invalid|].
  rewrite (Hval r Hin). split; [by exists r|]. intros r' Hin' Hm'.
  rewrite (Hdist r' r Hin' Hin); [done|].
  apply (compatible_matches _ _ (packet_fields order v)); [by apply Hc|by rewrite !rule_keys_length| |];
    apply (rule_matches_spec HK order Hlo HD Hod Hall); done || apply Hrs; done.
Qed.

(** The ranges of a rule are given by its path. *)
Lemma rule_keys_fields order r r' :
  order ≡ₚ seq 0 D → rule_ok r → rule_ok r' → rule_keys order r = rule_keys order r' → fields r = fields r'.
Proof.
  intros Hperm [Hl _] [Hl' _] He. apply (list_eq_same_length _ _ D); [done..|].
  intros d k k' Hd Hk Hk'. assert (d ∈ order) as [i Hi]%list_elem_of_lookup by (rewrite Hperm, elem_of_seq; lia).
  apply (f_equal (λ ks, ks !! i)) in He. unfold rule_keys in He. rewrite !list_lookup_fmap, Hi in He. cbn in He.
  rewrite Hk, Hk' in He. by injection He.
Qed.

End linear.

(** ** The interface *)

Class TREE_LAWS `{cfg : !BTreeCfg} {A Tr V : Type} `{!RuleValue V} {tree_ops : TREE_T A Tr V} : Type := {
  (** The rules the promise is about. *)
  law_rule : rule_spec_t V → Prop;
  law_new : tree_dimension_order tree_new ≡ₚ seq 0 D;
  (** The allocator holds the trees with their rules; [n] more rules fit. *)
  tree_holds : A → nat → list (Tr * list (rule_spec_t V)) → Prop;
  law_colide a n ts i t rs r :
    tree_holds a n ts → ts !! i = Some (t, rs) → rule_ok16 r → law_rule r →
    ∃ b, tree_does_rule_colide t r a = (Ok b, a) ∧ (b = false ↔ fits (tree_dimension_order t) rs r);
  (** A rule with new ranges can be inserted where it fits. *)
  law_insert a n ts i t rs r :
    tree_holds a (S n) ts → ts !! i = Some (t, rs) → rule_ok16 r → law_rule r →
    is_valid (rvalue r) = true → fits (tree_dimension_order t) rs r → (∀ r', r' ∈ rs → fields r' ≠ fields r) →
    ∃ t' a', tree_insert t r a = (Ok t', a') ∧ tree_dimension_order t' = tree_dimension_order t
      ∧ tree_holds a' n (<[i := (t', rs ++ [r])]> ts);
  (** The dimensions that are wildcards of all rules may be reordered. *)
  law_reorder a n ts i t rs u order :
    tree_holds a n ts → ts !! i = Some (t, rs) → order ≡ₚ tree_dimension_order t →
    take u order = take u (tree_dimension_order t) → Forall (wild_from (tree_dimension_order t) u) rs →
    tree_holds a n (<[i := (tree_set_dimension_order order t, rs)]> ts)
    ∧ tree_dimension_order (tree_set_dimension_order order t) = order;
  law_search a n ts i t rs v :
    tree_holds a n ts → ts !! i = Some (t, rs) → length v = D → Forall (λ x, 0 ≤ x < 65536) v →
    tree_search t v a = (Ok (linear_search rs v), a);
}.

(** ** Reordering dimensions a rule does not use *)

Section reorder.
Context `{cfg : !BTreeCfg} {V : Type} `{!RuleValue V}.
Implicit Types (r : rule_spec_t V) (rs : list (rule_spec_t V)) (order : list nat).
Lemma swap_perm {X} (l : list X) i j x y :
  l !! i = Some x → l !! j = Some y → (i ≤ j)%nat → <[j := x]> (<[i := y]> l) ≡ₚ l.
Proof.
  intros Hi Hj Hij. destruct (decide (i = j)) as [->|Hne].
  { simplify_eq. by rewrite list_insert_insert_eq, list_insert_id. }
  pose proof (lookup_lt_Some _ _ _ Hi). pose proof (lookup_lt_Some _ _ _ Hj).
  rewrite <- (take_drop_middle l i x Hi) at 2.
  rewrite (insert_take_drop l i y) by lia.
  rewrite insert_app_r_alt by (rewrite length_take; lia). rewrite length_take, Nat.min_l by lia.
  replace (j - i)%nat with (S (j - S i)) by lia. set (m := (j - S i)%nat).
  change (<[S m := x]> (y :: drop (S i) l)) with (y :: <[m := x]> (drop (S i) l)). subst m.
  assert (drop (S i) l !! (j - S i)%nat = Some y) as Hd by (rewrite lookup_drop; by replace (S i + (j - S i))%nat with j by lia).
  pose proof (lookup_lt_Some _ _ _ Hd). rewrite (insert_take_drop (drop (S i) l)) by lia.
  rewrite <- (take_drop_middle _ _ _ Hd) at 3. solve_Permutation.
Qed.

Lemma rule_keys_wild order n r l k :
  wild_from order n r → (n ≤ l)%nat → rule_keys order r !! l = Some k → k = mkRange 0 65535.
Proof.
  intros Hw Hl Hk. unfold rule_keys in Hk. rewrite list_lookup_fmap in Hk.
  apply fmap_Some in Hk as (d & Hd & ->). destruct (Hw l d Hl Hd) as (k & Hk & Hwild).
  rewrite Hk. cbn. by apply is_wildcard_16.
Qed.

(** The swap of two positions behind the used ones. *)
Definition swap_dims order (i j : nat) : list nat :=
  match order !! i, order !! j with
  | Some x, Some y => <[j := x]> (<[i := y]> order)
  | _, _ => order
  end.

Lemma swap_dims_lookup order i j l x y :
  order !! i = Some x → order !! j = Some y →
  swap_dims order i j !! l = if decide (l = j) then Some x else if decide (l = i) then Some y else order !! l.
Proof.
  intros Hi Hj. unfold swap_dims. rewrite Hi, Hj. pose proof (lookup_lt_Some _ _ _ Hi). pose proof (lookup_lt_Some _ _ _ Hj).
  case_decide as Hl; [subst l; apply list_lookup_insert_eq; rewrite length_insert; lia|].
  rewrite list_lookup_insert_ne by done.
  case_decide as Hl'; [subst l; by apply list_lookup_insert_eq|by rewrite list_lookup_insert_ne].
Qed.

Lemma swap_dims_keys order n i j r :
  wild_from order n r → (n ≤ i)%nat → (n ≤ j)%nat → (i < length order)%nat → (j < length order)%nat →
  rule_keys (swap_dims order i j) r = rule_keys order r.
Proof.
  intros Hw Hi Hj [x Hx]%lookup_lt_is_Some_2 [y Hy]%lookup_lt_is_Some_2.
  apply list_eq. intros l. unfold rule_keys. rewrite !list_lookup_fmap, (swap_dims_lookup _ _ _ _ x y) by done.
  destruct (Hw i x Hi Hx) as (k & Hk & Hkw%is_wildcard_16). destruct (Hw j y Hj Hy) as (k' & Hk' & Hkw'%is_wildcard_16).
  repeat case_decide; subst; rewrite ?Hx, ?Hy; cbn; rewrite ?Hk, ?Hk'; done.
Qed.

Lemma swap_dims_wild order n i j r :
  wild_from order n r → (n ≤ i)%nat → (n ≤ j)%nat → (i < length order)%nat → (j < length order)%nat →
  wild_from (swap_dims order i j) n r.
Proof.
  intros Hw Hi Hj [x Hx]%lookup_lt_is_Some_2 [y Hy]%lookup_lt_is_Some_2 l d Hl.
  rewrite (swap_dims_lookup _ _ _ _ x y) by done.
  repeat case_decide; [intros [= <-]; by apply (Hw i)|intros [= <-]; by apply (Hw j)|by apply Hw].
Qed.

(** Two compatible rules one of which has wildcards only where the other has
    none differ before. *)
Definition differ_before (n : nat) (ks1 ks2 : list Range1d) : Prop :=
  ∃ l k1 k2, (l < n)%nat ∧ take l ks1 = take l ks2 ∧ ks1 !! l = Some k1 ∧ ks2 !! l = Some k2
    ∧ (high k1 < low k2 ∨ high k2 < low k1).

Lemma differ_before_compatible n ks1 ks2 : differ_before n ks1 ks2 → compatible ks1 ks2.
Proof.
  intros (l & k1 & k2 & _ & Ht & H1 & H2 & Hd). revert ks1 ks2 Ht H1 H2.
  induction l as [|l IH]; intros [|x1 ks1] [|x2 ks2] Ht H1 H2; try done; cbn in *.
  - injection H1 as ->. injection H2 as ->. by right.
  - injection Ht as -> Ht. left. split; [done|]. by apply IH.
Qed.

Lemma compatible_differ n ks1 ks2 l k2 :
  compatible ks1 ks2 → length ks1 = length ks2 → Forall in16 ks2 →
  (∀ i k, (n ≤ i)%nat → ks1 !! i = Some k → k = mkRange 0 65535) →
  (n ≤ l)%nat → ks2 !! l = Some k2 → k2 ≠ mkRange 0 65535 → differ_before n ks1 ks2.
Proof.
  revert n ks2 l. induction ks1 as [|k1 ks1 IH]; intros n [|k ks2] l Hc Hlen Hin Hw Hl Hk Hne; try done.
  apply Forall_cons in Hin as [(Hv & H0 & H1) Hin]. injection Hlen as Hlen.
  destruct n as [|n].
  - exfalso. pose proof (Hw 0%nat k1 ltac:(lia) eq_refl) as ->. cbn in Hc.
    destruct Hc as [[<- Hc]|[Hc|Hc]]; [|cbn in Hc; lia..]. destruct l as [|l]; [by injection Hk as <-|].
    destruct (IH 0%nat ks2 l) as (l' & ? & ? & ? & _); [done..| |lia|done|done|lia].
    intros i k Hi. by apply (Hw (S i)); lia.
  - destruct l as [|l]; [lia|]. cbn in Hc. destruct Hc as [[<- Hc]|Hd].
    + destruct (IH n ks2 l) as (l' & x1 & x2 & Hl' & Ht & H1' & H2' & Hd); [done..| |lia|done|done|].
      { intros i k' Hi. by apply (Hw (S i)); lia. }
      exists (S l'), x1, x2. split_and!; [lia|cbn; by rewrite Ht|done..].
    + exists 0%nat, k1, k. split_and!; [lia|done..].
Qed.

Lemma differ_before_ext n ks1 ks2 ks1' ks2' :
  take n ks1' = take n ks1 → take n ks2' = take n ks2 → differ_before n ks1 ks2 → differ_before n ks1' ks2'.
Proof.
  intros H1 H2 (l & k1 & k2 & Hl & Ht & Hk1 & Hk2 & Hd). exists l, k1, k2.
  rewrite <- (lookup_take_lt ks1 n l), <- H1 in Hk1 by done. rewrite <- (lookup_take_lt ks2 n l), <- H2 in Hk2 by done.
  apply lookup_take_Some in Hk1 as [? _], Hk2 as [? _]. split_and!; [done| |done..].
  apply (f_equal (take l)) in H1, H2. rewrite !take_take, Nat.min_l in H1, H2 by lia. congruence.
Qed.

Lemma swap_dims_take order n i j r :
  (n ≤ i)%nat → (n ≤ j)%nat → (i < length order)%nat → (j < length order)%nat →
  take n (rule_keys (swap_dims order i j) r) = take n (rule_keys order r).
Proof.
  intros Hi Hj [x Hx]%lookup_lt_is_Some_2 [y Hy]%lookup_lt_is_Some_2.
  apply list_eq. intros l. destruct (decide (l < n)%nat) as [Hl|Hl].
  - rewrite !lookup_take_lt by done. unfold rule_keys. rewrite !list_lookup_fmap.
    rewrite (swap_dims_lookup _ _ _ _ x y) by done. by rewrite !decide_False by lia.
  - by rewrite !lookup_take_ge by lia.
Qed.

(** The dimensions in front of the swapped ones stay. *)
Lemma swap_dims_order_take order n i j :
  (n ≤ i)%nat → (n ≤ j)%nat → (i < length order)%nat → (j < length order)%nat →
  take n (swap_dims order i j) = take n order.
Proof.
  intros Hi Hj [x Hx]%lookup_lt_is_Some_2 [y Hy]%lookup_lt_is_Some_2. unfold swap_dims. rewrite Hx, Hy.
  by rewrite !take_insert_ge by lia.
Qed.

Hypothesis HK : KEY_SIZE = 2%nat.

(** A dimension that only the new rule uses may come forward. *)
Lemma fits_swap order n rs r i j d k :
  order ≡ₚ seq 0 D → Forall rule_ok16 rs → rule_ok16 r → Forall (wild_from order n) rs →
  (n ≤ i)%nat → (n ≤ j)%nat → (i < D)%nat → order !! j = Some d → fields r !! d = Some k →
  is_wildcard 2 k = false → fits order rs r → fits (swap_dims order i j) rs r.
Proof.
  intros Hperm Hrs Hr Hw Hi Hj HiD Hd Hk Hkw Hf r' Hr'.
  assert (length order = D) as Hlo by (by rewrite Hperm, length_seq).
  assert (Forall (λ d, (d < D)%nat) order) as Hod.
  { apply Forall_forall. intros x. rewrite Hperm, elem_of_seq. lia. }
  assert (1 ≤ D)%nat as HD by lia. pose proof (lookup_lt_Some _ _ _ Hd).
  rewrite Forall_forall in Hrs, Hw. apply (differ_before_compatible n).
  eapply differ_before_ext; [apply swap_dims_take; lia|apply swap_dims_take; lia|].
  apply (compatible_differ n _ _ j k); [by apply Hf|by rewrite !rule_keys_length| | |done| |].
  - by apply (rule_keys_16 HK order Hlo HD Hod).
  - intros l k' Hl Hk'. by apply (rule_keys_wild order n r' l k' (Hw r' Hr')).
  - unfold rule_keys. rewrite list_lookup_fmap, Hd. cbn. by rewrite Hk.
  - intros ->. by cbn in Hkw.
Qed.
End reorder.
