(* ===== verification/Classifier.v ===== *)
(** * The classifier ([partition_sort_classifier.h])

    [PartitionSortClassifer]: a fixed array of trees over one allocator,
    sorted by the greatest priority stored in each.  A rule goes to the first
    tree it does not collide with; small trees are rebuilt when a better order
    of the dimensions is found, which may move rules to other trees.  A
    [tree_info] is an object with identity: the array [trees] holds indices
    into the store [infos]. *)
From S2P Require Import Prelude Range RuleValue Schedule DimOrder Common BTreeImpl.
Local Open Scope Z_scope.

(** ** State *)

Section state.
Context {A Tr V : Type}.

Record tree_info : Type := mkTreeInfo {
  tree : Tr;
  max_priority : Z;
  used_dim_cnt : nat;
  rules : list (rule_spec_t V);
  update_pending : bool;
  used_rule_masks : gmap (list Z) nat;
}.

Record Classifier : Type := mkClassifier {
  alloc : A;
  infos : list tree_info;
  trees : list nat;
  tree_cnt : nat;
  rule_to_tree : list (rule_spec_t V * nat);
}.

Definition ti_set_tree (x : Tr) (t : tree_info) : tree_info :=
  mkTreeInfo x (max_priority t) (used_dim_cnt t) (rules t) (update_pending t)
    (used_rule_masks t).

Definition ti_set_max_priority (x : Z) (t : tree_info) : tree_info :=
  mkTreeInfo (tree t) x (used_dim_cnt t) (rules t) (update_pending t) (used_rule_masks t).

Definition ti_set_used_dim_cnt (x : nat) (t : tree_info) : tree_info :=
  mkTreeInfo (tree t) (max_priority t) x (rules t) (update_pending t) (used_rule_masks t).

Definition ti_push_rule (r : rule_spec_t V) (t : tree_info) : tree_info :=
  mkTreeInfo (tree t) (max_priority t) (used_dim_cnt t) (rules t ++ [r]) (update_pending t)
    (used_rule_masks t).

Definition ti_set_update_pending (b : bool) (t : tree_info) : tree_info :=
  mkTreeInfo (tree t) (max_priority t) (used_dim_cnt t) (rules t) b (used_rule_masks t).

Definition ti_set_used_rule_masks (m : gmap (list Z) nat) (t : tree_info) : tree_info :=
  mkTreeInfo (tree t) (max_priority t) (used_dim_cnt t) (rules t) (update_pending t) m.

Definition set_alloc (a : A) (c : Classifier) : Classifier :=
  mkClassifier a (infos c) (trees c) (tree_cnt c) (rule_to_tree c).

Definition set_infos (l : list tree_info) (c : Classifier) : Classifier :=
  mkClassifier (alloc c) l (trees c) (tree_cnt c) (rule_to_tree c).

Definition set_trees (l : list nat) (c : Classifier) : Classifier :=
  mkClassifier (alloc c) (infos c) l (tree_cnt c) (rule_to_tree c).

Definition set_tree_cnt (n : nat) (c : Classifier) : Classifier :=
  mkClassifier (alloc c) (infos c) (trees c) n (rule_to_tree c).

Definition set_rule_to_tree (m : list (rule_spec_t V * nat)) (c : Classifier) : Classifier :=
  mkClassifier (alloc c) (infos c) (trees c) (tree_cnt c) m.
End state.
Arguments tree_info Tr V : clear implicits.
Arguments Classifier A Tr V : clear implicits.

(** ** Operations *)

Section Classifier.
Context {sort : StdSort} {A Tr V : Type} `{!RuleValue V} {tree_ops : TREE_T A Tr V}.
Context (KEY_SIZE D MAX_TREE_CNT TREE_FIXATION_THRESHOLD : nat).
(** What a read through the iterator of an erased entry yields: nothing, when
    the freed memory is gone, or the value it still holds. *)
Context (freed_read : nat → option nat).

Notation CM := (M (Classifier A Tr V)).

(** A computation of the allocator. *)
Definition lift {X} (m : M A X) : CM X := λ c,
  match m (alloc c) with (r, a) => (r, set_alloc a c) end.

(** [*ti] *)
Definition get_info (ti : nat) : CM (tree_info Tr V) :=
  l ← gets infos;
  or_ub (l !! ti).

Definition upd_info (ti : nat) (f : tree_info Tr V → tree_info Tr V) : CM unit :=
  t ← get_info ti;
  modify (λ c, set_infos (<[ti := f t]> (infos c)) c).

(** [trees[i]] *)
Definition tree_at (i : nat) : CM nat :=
  l ← gets trees;
  or_ub (l !! i).

Definition new_tree_info : tree_info Tr V := mkTreeInfo tree_new 0 0 [] false ∅.

Definition PartitionSortClassifer_ctor (a : A) : Classifier A Tr V :=
  mkClassifier a (replicate MAX_TREE_CNT new_tree_info) (seq 0 MAX_TREE_CNT) 0 [].

(** [rule_to_tree[rule] = ti], [find] and [erase]. *)
Definition rule_to_tree_set (rule : rule_spec_t V) (ti : nat) : CM unit :=
  modify (λ c, set_rule_to_tree
    ((rule, ti) :: filter (λ e, rule_spec_t_eq e.1 rule = false) (rule_to_tree c)) c).

Definition rule_to_tree_find (rule : rule_spec_t V) : CM (option nat) :=
  gets (λ c, snd <$> list_find (λ e, rule_spec_t_eq e.1 rule = true) (rule_to_tree c)
             ≫= λ e, Some e.2).

Definition rule_to_tree_erase (rule : rule_spec_t V) : CM unit :=
  modify (λ c, set_rule_to_tree
    (filter (λ e, rule_spec_t_eq e.1 rule = false) (rule_to_tree c)) c).

Definition used_rule_mask_incr (m : list Z) (t : tree_info Tr V) : tree_info Tr V :=
  ti_set_used_rule_masks
    (match used_rule_masks t !! m with
     | None => <[m := 1%nat]> (used_rule_masks t)
     | Some k => <[m := S k]> (used_rule_masks t)
     end) t.

Definition used_rule_mask_decr (ti : nat) (m : list Z) : CM unit :=
  t ← get_info ti;
  assert_ (bool_decide (used_rule_masks t !! m ≠ None));;
  k ← or_ub (used_rule_masks t !! m);
  upd_info ti (λ t, ti_set_used_rule_masks
    (if (k - 1 =? 0)%nat then delete m (used_rule_masks t)
     else <[m := (k - 1)%nat]> (used_rule_masks t)) t).

(** [max_priority_getter] *)
Definition max_priority_getter (l : list (tree_info Tr V)) (ti : nat) : Z :=
  match l !! ti with Some t => max_priority t | None => 0 end.

Definition resort_on_priority_change (original_i : nat) : CM unit :=
  ti ← tree_at original_i;
  t ← get_info ti;
  assert_ (0 <? length (rules t))%nat;;
  l ← gets infos;
  arr ← gets trees;
  n ← gets tree_cnt;
  arr ← array_resort (max_priority_getter l) arr n original_i;
  modify (set_trees arr).

(** [tree.insert(rule)] and [tree.does_rule_colide(rule)] of [*ti]. *)
Definition info_insert (ti : nat) (rule : rule_spec_t V) : CM unit :=
  t ← get_info ti;
  tr ← lift (tree_insert (tree t) rule);
  upd_info ti (ti_set_tree tr).

Definition info_colides (ti : nat) (rule : rule_spec_t V) : CM bool :=
  t ← get_info ti;
  lift (tree_does_rule_colide (tree t) rule).

(** The loop of [try_insert_to_tree_without_collisions] that moves the newly
    used dimensions behind the used ones. *)
Definition use_new_dims (ti : nat) (rule : rule_spec_t V) : CM unit :=
  t ← get_info ti;
  for_each (range_up (used_dim_cnt t) D) (λ d_i,
    t ← get_info ti;
    let order := tree_dimension_order (tree t) in
    d ← or_ub (order !! d_i);
    k ← or_ub (fields rule !! d);
    if is_wildcard KEY_SIZE k then mret tt
    else
      u ← or_ub (order !! used_dim_cnt t);
      upd_info ti (λ t, ti_set_used_dim_cnt (S (used_dim_cnt t))
        (ti_set_tree (tree_set_dimension_order
           (<[d_i := u]> (<[used_dim_cnt t := d]> order)) (tree t)) t))).

Fixpoint update_dimension_order (fuel : nat) (ti : nat)
    (rule_to_add_before : option (rule_spec_t V)) {struct fuel} : CM unit :=
  match fuel with
  | O => throw no_fuel
  | S fuel =>
      t ← get_info ti;
      if update_pending t then
        rule ← or_ub rule_to_add_before;
        c ← info_colides ti rule;
        assert_ (negb c);;
        info_insert ti rule;;
        upd_info ti (ti_push_rule rule)
      else
        upd_info ti (ti_set_update_pending true);;
        (match rule_to_add_before with
         | Some rule => upd_info ti (ti_push_rule rule)
         | None => mret tt
         end);;
        t ← get_info ti;
        new_dim_order ← resolve KEY_SIZE D (rules t) (tree_dimension_order (tree t));
        (if bool_decide (tree_dimension_order (tree t) ≠ new_dim_order.1) then
           tr ← lift (tree_clear (tree t));
           upd_info ti (λ t, ti_set_used_dim_cnt new_dim_order.2
             (ti_set_tree (tree_set_dimension_order new_dim_order.1 tr) t));;
           for_each (rules t) (λ r,
             c ← info_colides ti r;
             (if c : bool then insert fuel r else info_insert ti r);;
             (* a rule added to the vector invalidates the iterator *)
             t' ← get_info ti;
             or_ub (if (length (rules t') =? length (rules t))%nat then Some tt else None))
         else
           match rule_to_add_before with
           | Some rule => info_insert ti rule
           | None => mret tt
           end);;
        upd_info ti (ti_set_update_pending false)
  end
with try_insert_to_tree_without_collisions (fuel : nat) (rule : rule_spec_t V)
    (this_rule_mask : list Z) (tree_i : nat) {struct fuel} : CM bool :=
  match fuel with
  | O => throw no_fuel
  | S fuel =>
      assert_ (tree_i <? MAX_TREE_CNT)%nat;;
      ti ← tree_at tree_i;
      c ← info_colides ti rule;
      if c : bool then mret false
      else
        upd_info ti (ti_push_rule rule);;
        rule_to_tree_set rule ti;;
        upd_info ti (used_rule_mask_incr this_rule_mask);;
        t ← get_info ti;
        (if (length (rules t) <? TREE_FIXATION_THRESHOLD)%nat
         then update_dimension_order fuel ti (Some rule)
         else
           (if (used_dim_cnt t <? D)%nat then use_new_dims ti rule else mret tt);;
           c ← info_colides ti rule;
           assert_ (negb c);;
           info_insert ti rule);;
        t ← get_info ti;
        (if priority (rvalue rule) >? max_priority t then
           upd_info ti (ti_set_max_priority (priority (rvalue rule)));;
           resort_on_priority_change tree_i
         else mret tt);;
        mret true
  end
with insert (fuel : nat) (rule : rule_spec_t V) {struct fuel} : CM unit :=
  match fuel with
  | O => throw no_fuel
  | S fuel =>
      for_each (fields rule) (λ r, assert_ (low r <=? high r));;
      let this_rule_mask := get_rule_mask KEY_SIZE rule in
      n ← gets tree_cnt;
      (* trees which already contain rules with the same mask *)
      '(inserted, insert_tried) ← fold_each (range_up 0 n) (false, []) (λ s i,
        if s.1 : bool then mret s
        else
          ti ← tree_at i;
          t ← get_info ti;
          if bool_decide (used_rule_masks t !! this_rule_mask ≠ None) then
            b ← try_insert_to_tree_without_collisions fuel rule this_rule_mask i;
            mret (b, s.2 ++ [i])
          else mret s);
      if inserted : bool then mret tt
      else
        (* the rest of the trees *)
        inserted ← fold_each (range_up 0 n) false (λ inserted i,
          if inserted : bool then mret true
          else if bool_decide (i ∈ insert_tried) then mret false
          else try_insert_to_tree_without_collisions fuel rule this_rule_mask i);
        if inserted : bool then mret tt
        else
          n ← gets tree_cnt;
          if (n <? MAX_TREE_CNT)%nat then
            ti ← tree_at n;
            upd_info ti (ti_set_max_priority (priority (rvalue rule)));;
            t ← get_info ti;
            (if (length (rules t) =? 0)%nat then
               dor ← resolve KEY_SIZE D [rule] (tree_dimension_order (tree t));
               upd_info ti (λ t, ti_set_used_dim_cnt dor.2
                 (ti_set_tree (tree_set_dimension_order dor.1 (tree t)) t))
             else mret tt);;
            info_insert ti rule;;
            upd_info ti (ti_push_rule rule);;
            rule_to_tree_set rule ti;;
            upd_info ti (used_rule_mask_incr this_rule_mask);;
            t ← get_info ti;
            (if (1 <? length (rules t))%nat then update_dimension_order fuel ti None
             else mret tt);;
            modify (λ c, set_tree_cnt (S (tree_cnt c)) c);;
            n ← gets tree_cnt;
            resort_on_priority_change (n - 1)
          else throw (runtime_error "all tress used (need to implement tree merging)")
  end.

Definition remove (fuel : nat) (rule : rule_spec_t V) : CM unit :=
  ti ← rule_to_tree_find rule;
  match ti with
  | None => mret tt
  | Some ti =>
      t ← get_info ti;
      tr ← lift (tree_remove (tree t) rule);
      upd_info ti (ti_set_tree tr);;
      rule_to_tree_erase rule;;
      (* the iterator is read after the entry was erased *)
      ti ← or_ub (freed_read ti);
      used_rule_mask_decr ti (get_rule_mask KEY_SIZE rule);;
      t ← get_info ti;
      if (length (rules t) <? TREE_FIXATION_THRESHOLD)%nat
      then update_dimension_order fuel ti None else mret tt
  end.

(** The loop of [search] from the tree [i], [todo] trees left. *)
Fixpoint search_loop (val : list Z) (actual_found : V) (todo i : nat) : CM V :=
  match todo with
  | O => mret actual_found
  | S todo =>
      ti ← tree_at i;
      t ← get_info ti;
      res ← lift (tree_search (tree t) val);
      let actual_found :=
        if is_valid res && (negb (is_valid actual_found)
                            || (priority actual_found <? priority res))
        then res else actual_found in
      n ← gets tree_cnt;
      stop ← (if is_valid actual_found then
                if (n <=? i + 1)%nat then mret true
                else
                  next ← tree_at (i + 1);
                  nt ← get_info next;
                  mret (max_priority nt <=? priority actual_found)
              else mret false);
      if stop : bool then mret actual_found
      else search_loop val actual_found todo (S i)
  end.

Definition search (val : list Z) : CM V :=
  n ← gets tree_cnt;
  search_loop val rv_default n 0.

(** The destructor deletes every tree. *)
Definition PartitionSortClassifer_dtor : CM unit :=
  l ← gets trees;
  for_each l (λ ti,
    t ← get_info ti;
    tr ← lift (tree_clear (tree t));
    upd_info ti (ti_set_tree tr)).
End Classifier.
