(* ===== verification/ClassifierSpec.v ===== *)
(** * Correctness of the classifier's lookup

    The lookup over the sorted trees, proved against the interface [TREE_T]:
    what it needs is that a lookup in one tree leaves the allocator as it is
    and that no tree holds a rule of a priority above its [max_priority]. *)
From S2P Require Import Prelude Range RuleValue Node Build BuildSpec Schedule DimOrder Common BTreeImpl TreeInterface Classifier.
Local Open Scope Z_scope.

Section lookup.
Context {A Tr V : Type} `{!RuleValue V, !RuleValueLaws V} {tree_ops : TREE_T A Tr V}.
Implicit Types (c : Classifier A Tr V) (l : list (Z * V)).

(** The active trees of the classifier: [max_priority] and the answer of each
    for the packet [val]. *)
Record answers c (val : list Z) l : Prop := {
  answers_length : length l = tree_cnt c;
  answers_lookup : ∀ i mp r, l !! i = Some (mp, r) →
    ∃ ti t, trees c !! i = Some ti ∧ infos c !! ti = Some t ∧ max_priority t = mp
      ∧ tree_search (tree t) val (alloc c) = (Ok r, alloc c);
}.

(** The invariant of the array of trees. *)
Definition trees_sorted l : Prop := StronglySorted (λ a b, b.1 ≤ a.1) l.

Definition bounded l : Prop := Forall (λ a, is_valid a.2 = true → priority a.2 ≤ a.1) l.

(** [v] is a best answer among those of [l]. *)
Definition best_answer l (v : V) : Prop :=
  if is_valid v
  then v ∈ l.*2 ∧ ∀ r, r ∈ l.*2 → is_valid r = true → priority r ≤ priority v
  else v = rv_default ∧ ∀ r, r ∈ l.*2 → is_valid r = false.

(** The update of [actual_found]. *)
Definition better (v r : V) : V :=
  if is_valid r && (negb (is_valid v) || (priority v <? priority r)) then r else v.

Lemma best_answer_snoc l v mp r :
  best_answer l v → best_answer (l ++ [(mp, r)]) (better v r).
Proof.
  assert (∀ x, x ∈ (l ++ [(mp, r)]).*2 ↔ x ∈ l.*2 ∨ x = r) as Hin.
  { intros x. rewrite fmap_app, elem_of_app. by rewrite (list_elem_of_singleton x r). }
  unfold best_answer, better.
  destruct (is_valid r) eqn:Hr, (is_valid v) eqn:Hv; cbn [andb negb orb].
  - intros [? Hmax]. destruct (Z.ltb_spec (priority v) (priority r));
      rewrite ?Hr, ?Hv, Hin; (split; [by auto|]); intros x [Hx| ->]%Hin Hxv; try lia.
    + specialize (Hmax x Hx Hxv). lia.
    + by apply Hmax.
  - intros [-> Hno]. rewrite Hr, Hin. split; [by right|].
    intros x [Hx| ->]%Hin Hxv; [|lia]. specialize (Hno x Hx). congruence.
  - intros [? Hmax]. rewrite Hv, Hin. split; [by left|].
    intros x [Hx| ->]%Hin Hxv; [by apply Hmax|congruence].
  - intros [-> Hno]. rewrite Hv. split; [done|]. intros x [Hx| ->]%Hin; [by apply Hno|done].
Qed.

(** Once the next tree holds nothing better the rest can be skipped. *)
Lemma best_answer_stop l1 l2 v :
  best_answer l1 v → is_valid v = true → bounded l2 → trees_sorted l2 →
  (∀ a, head l2 = Some a → a.1 ≤ priority v) →
  best_answer (l1 ++ l2) v.
Proof.
  unfold best_answer. intros H Hv Hb Hs Hhd. rewrite Hv in *. destruct H as [Hin Hmax].
  rewrite fmap_app. split; [apply elem_of_app; by left|].
  intros r [Hr|Hr]%elem_of_app Hrv; [by apply Hmax|].
  apply list_elem_of_fmap in Hr as (a & -> & Ha).
  unfold bounded in Hb. rewrite Forall_forall in Hb. specialize (Hb a Ha Hrv).
  destruct l2 as [|b l2]; [by apply not_elem_of_nil in Ha|].
  specialize (Hhd b eq_refl). apply elem_of_cons in Ha as [->|Ha]; [lia|].
  apply StronglySorted_inv in Hs as [_ Hs]. rewrite Forall_forall in Hs.
  specialize (Hs a Ha). lia.
Qed.

Lemma lift_pure {X} (m : M A X) c x :
  m (alloc c) = (Ok x, alloc c) → lift m c = (Ok x, c).
Proof. intros H. unfold lift. rewrite H. by destruct c. Qed.

Lemma search_trees_ok c val l1 l2 v :
  answers c val (l1 ++ l2) → trees_sorted l2 → bounded l2 → best_answer l1 v →
  ∃ r, search_loop val v (length l2) (length l1) c = (Ok r, c) ∧ best_answer (l1 ++ l2) r.
Proof.
  revert l1 v. induction l2 as [|[mp x] l2 IH]; intros l1 v Ha Hs Hb Hv.
  { exists v. rewrite app_nil_r. done. }
  cbn [length search_loop].
  destruct (answers_lookup _ _ _ Ha (length l1) mp x) as (ti & t & Hti & Ht & _ & Hx).
  { by rewrite list_lookup_middle. }
  unfold tree_at, get_info. run_steps.
  run_ok by (by apply lift_pure). fold (better v x). run_steps.
  pose proof (best_answer_snoc l1 v mp x Hv) as Hv'. set (w := better v x) in *.
  apply StronglySorted_inv in Hs as [Hs Hmp]. apply Forall_cons in Hb as [_ Hb].
  rewrite <- (answers_length _ _ _ Ha), length_app. cbn [length].
  rewrite (cons_middle _ l1 l2), app_assoc in Ha |- *.
  assert (length (l1 ++ [(mp, x)]) = S (length l1)) as Hlen by (rewrite length_app; cbn; lia).
  destruct (IH _ w Ha Hs Hb Hv') as (r & Hr & Hbest). rewrite Hlen in Hr.
  destruct (is_valid w) eqn:Hw; [|run_steps; by exists r].
  destruct l2 as [|[mp' x'] l2].
  { rewrite (proj2 (Nat.leb_le _ _)) by (cbn; lia). run_steps. exists w.
    by rewrite app_nil_r. }
  rewrite (proj2 (Nat.leb_gt _ _)) by (cbn; lia).
  destruct (answers_lookup _ _ _ Ha (S (length l1)) mp' x') as (ti' & t' & Hti' & Ht' & Hmp' & _).
  { rewrite <- Hlen. by rewrite list_lookup_middle. }
  rewrite Nat.add_1_r. run_steps. rewrite Hmp'.
  destruct (Z.leb_spec mp' (priority w)) as [Hle|Hgt]; [|by exists r].
  exists w. split; [done|]. apply best_answer_stop; [done..|]. by intros a [= <-].
Qed.

Lemma search_best_ok c val l :
  answers c val l → trees_sorted l → bounded l →
  ∃ r, search val c = (Ok r, c) ∧ best_answer l r.
Proof.
  intros Ha Hs Hb. unfold search. run_steps. rewrite <- (answers_length _ _ _ Ha).
  apply (search_trees_ok c val [] l); [done..|].
  unfold best_answer. rewrite default_invalid. split; [done|].
  by intros r Hr%not_elem_of_nil.
Qed.

(** C39. On a classifier whose trees are sorted by [max_priority] and hold no
    rule above it, the lookup returns and leaves the classifier as it is; its
    result is a valid answer of some active tree with the greatest priority
    among the valid answers of all active trees, or the default value when no
    tree has one. *)
Theorem search_best c val l :
  answers c val l → trees_sorted l → bounded l →
  ∃ r, search val c = (Ok r, c) ∧ best_answer l r.
Proof.
  intros Ha Hs Hb. destruct (search_best_ok c val l Ha Hs Hb) as (r & Hr & Hbest). by exists r.
Qed.
End lookup.

(** ** The rules of all trees *)

Section classified.
Context `{cfg : !BTreeCfg} {A Tr V : Type} `{!RuleValue V, !RuleValueLaws V} {tree_ops : TREE_T A Tr V}.
Implicit Types (c : Classifier A Tr V) (rs : list (rule_spec_t V)).

(** A best answer among the answers of the trees is one for all rules. *)
Lemma best_classified (rss : list (Z * list (rule_spec_t V))) v w :
  (∀ mp rs, (mp, rs) ∈ rss → classified rs v (linear_search rs v)) →
  best_answer ((λ a : Z * list (rule_spec_t V), (a.1, linear_search a.2 v)) <$> rss) w →
  classified (concat rss.*2) v w.
Proof.
  intros Hclass Hbest. set (l := _ <$> rss) in Hbest.
  assert (∀ x, x ∈ l.*2 ↔ ∃ mp rs, (mp, rs) ∈ rss ∧ x = linear_search rs v) as Hl2.
  { intros x. unfold l. rewrite <- list_fmap_compose, list_elem_of_fmap. split.
    - intros ([mp rs] & -> & Hin). by exists mp, rs.
    - intros (mp & rs & Hin & ->). by exists (mp, rs). }
  assert (∀ r, r ∈ concat rss.*2 ↔ ∃ mp rs, (mp, rs) ∈ rss ∧ r ∈ rs) as Hcat.
  { intros r. rewrite elem_of_concat. split.
    - intros (rs & Hr & ([mp rs'] & -> & Hin)%list_elem_of_fmap). by exists mp, rs'.
    - intros (mp & rs & Hin & Hr). exists rs. split; [done|]. apply list_elem_of_fmap. by exists (mp, rs). }
  assert (∀ r mp rs, (mp, rs) ∈ rss → r ∈ rs → rule_matches r v = true →
            is_valid (linear_search rs v) = true ∧ priority (rvalue r) ≤ priority (linear_search rs v)) as Hone.
  { intros r mp rs Hin Hr Hm. specialize (Hclass _ _ Hin). unfold classified in Hclass.
    destruct (is_valid (linear_search rs v)) eqn:E.
    - split; [done|]. by apply (proj2 Hclass).
    - destruct Hclass as [_ Hn]. rewrite Hn in Hm; done. }
  unfold best_answer in Hbest. unfold classified. destruct (is_valid w) eqn:Hwv.
  + destruct Hbest as [(mp & rs & Hin & ->)%Hl2 Hmax]. split.
    * specialize (Hclass _ _ Hin). unfold classified in Hclass. rewrite Hwv in Hclass.
      destruct Hclass as [(r & Hr & Hm & He) _]. exists r. split; [|done]. apply Hcat. by exists mp, rs.
    * intros r (mp' & rs' & Hin' & Hr)%Hcat Hm. destruct (Hone r mp' rs' Hin' Hr Hm) as [Hv' Hp].
      etrans; [exact Hp|]. apply Hmax; [|done]. apply Hl2. by exists mp', rs'.
  + destruct Hbest as [-> Hno]. split; [done|]. intros r (mp & rs & Hin & Hr)%Hcat.
    apply not_true_is_false. intros Hm. destruct (Hone r mp rs Hin Hr Hm) as [Hv' _].
    rewrite Hno in Hv'; [done|]. apply Hl2. by exists mp, rs.
Qed.

(** A lookup through trees whose answers are those of their rules. *)
Lemma search_classified c (rss : list (Z * list (rule_spec_t V))) v :
  length rss = tree_cnt c →
  (∀ i mp rs, rss !! i = Some (mp, rs) →
     ∃ ti t, trees c !! i = Some ti ∧ infos c !! ti = Some t ∧ max_priority t = mp
       ∧ tree_search (tree t) v (alloc c) = (Ok (linear_search rs v), alloc c)
       ∧ classified rs v (linear_search rs v) ∧ Forall (λ r, priority (rvalue r) ≤ mp) rs) →
  StronglySorted (λ a b, b.1 ≤ a.1) rss →
  ∃ w, search v c = (Ok w, c) ∧ classified (concat rss.*2) v w.
Proof.
  intros Hlen Htrees Hsorted. set (l := (λ a : Z * list (rule_spec_t V), (a.1, linear_search a.2 v)) <$> rss).
  assert (∀ mp rs, (mp, rs) ∈ rss → classified rs v (linear_search rs v)) as Hclass.
  { intros mp rs (i & Hi)%list_elem_of_lookup. by destruct (Htrees _ _ _ Hi) as (? & ? & _ & _ & _ & _ & ? & _). }
  destruct (search_best_ok c v l) as (w & Hw & Hbest).
  - split; [by unfold l; rewrite length_fmap|]. intros i mp x Hi. unfold l in Hi.
    rewrite list_lookup_fmap in Hi. apply fmap_Some in Hi as ([mp' rs] & Hi & [= -> ->]).
    destruct (Htrees _ _ _ Hi) as (ti & t & Hti & Ht & Hmp & Hs & _). by exists ti, t.
  - unfold trees_sorted, l. clear - Hsorted. induction Hsorted as [|a rss _ IH Hf]; cbn; [constructor|].
    constructor; [done|]. apply Forall_fmap. eapply Forall_impl; [exact Hf|done].
  - apply Forall_fmap, Forall_forall. intros [mp rs] Hin Hval. cbn [fst snd] in *.
    specialize (Hclass _ _ Hin). unfold classified in Hclass. rewrite Hval in Hclass.
    destruct Hclass as [(r & Hr & _ & <-) _]. apply list_elem_of_lookup in Hin as [i Hi].
    destruct (Htrees _ _ _ Hi) as (ti & t & _ & _ & _ & _ & _ & Hb). rewrite Forall_forall in Hb. by apply Hb.
  - exists w. split; [done|]. by apply best_classified.
Qed.
End classified.
