(* ===== verification/ClassifierTrees.v ===== *)
(** * The classifier over stored trees

    The interface of [ClassifierSpec] discharged by B-trees: when every tree
    of the classifier stores pairwise compatible rules, a lookup in the whole
    classifier answers like the linear search for the matching rule of the
    greatest priority. *)
From S2P Require Import Prelude Range RuleValue Mempool Node NodeLemmas Search Layer LayerSearch Trie TrieCheck TrieSearch Footprint Slots Insert LookupSpec Split Chain InsertLayer InsertRoot Decompress Integrity SearchPath InsertNext KeyUpdate InsertWalk InsertAct TrieInsert InsertSpec Build BuildSpec Schedule DimOrder Common BTreeImpl TreeInterface Classifier ClassifierSpec.
Local Open Scope Z_scope.

Section ClassifierTrees.
Context `{cfg : !BTreeCfg} {V : Type} `{!RuleValue V, !RuleValueLaws V} (fuel : nat).

Implicit Types (p : Heap V) (r : rule_spec_t V) (rs : list (rule_spec_t V)).
Local Instance tree_ops : TREE_T (Heap V) BTree V := BTree_TREE_T fuel.

(** The tree stores the rules [rs] in the memory [p]. *)
Record tree_holds p (t : BTree) rs : Prop := {
  th_order : bt_dimension_order t ≡ₚ seq 0 D;
  th_pos : bt_in_packet_position t = default_in_packet_position;
  th_rules : tree_rules (bt_dimension_order t) rs;
  th_stored : ∃ fl H o, stores p fl H (bt_dimension_order t) o ∧ g_addr <$> o = root t
    ∧ trie_of (bt_dimension_order t) rs (abs <$> o) ∧ (H + D ≤ fuel)%nat;
}.

Lemma tree_holds_search p t rs v :
  KEY_SIZE = 2%nat → (1 ≤ D)%nat → tree_holds p t rs → length v = D → Forall (λ x, 0 ≤ x < 65536) v →
  tree_search t v p = (Ok (linear_search rs v), p).
Proof.
  intros HK HD [Hperm Hpos [Hrs Hval Hc _] (fl & H & o & Hst & Hroot & Ht & Hf)] Hl Hv.
  destruct (order_facts _ Hperm) as (Hlo & Hod & Hall). cbn. unfold btree_search. rewrite Hpos, <- Hroot.
  assert (∃ w, search_vec fuel default_in_packet_position (bt_dimension_order t) (g_addr <$> o) v p = (Ok w, p)
            ∧ deepest (abs <$> o) (packet_fields (bt_dimension_order t) v) rv_default w) as (w & Hw & Hdeep).
  { destruct o as [g|].
    - apply (search_vec_run p fl H _ g v fuel); [done|apply Hst|by apply Hst|done..|lia].
    - exists rv_default. split; [by destruct fuel|]. left. split; [done|]. by intros ks w ?%stored_None. }
  rewrite Hw. do 2 f_equal. by apply (deepest_linear HK _ Hlo HD Hod Hall rs _ v w Ht).
Qed.

(** C2. A classifier over B-trees answers every packet with a matching rule of
    the greatest priority, or with the default value when no rule of any tree
    matches, and changes nothing.  Its trees are sorted by [max_priority], which
    bounds the priorities of the rules of a tree; a tree stores pairwise
    compatible rules with valid values, and equal ranges have equal values. *)
Theorem classifier_linear (c : Classifier (Heap V) BTree V) (rss : list (Z * list (rule_spec_t V))) v :
  KEY_SIZE = 2%nat → (1 ≤ D)%nat → length rss = tree_cnt c →
  (∀ i mp rs, rss !! i = Some (mp, rs) →
     ∃ ti t, trees c !! i = Some ti ∧ infos c !! ti = Some t ∧ max_priority t = mp
       ∧ tree_holds (alloc c) (tree t) rs ∧ Forall (λ r, priority (rvalue r) ≤ mp) rs) →
  StronglySorted (λ a b, b.1 ≤ a.1) rss → length v = D → Forall (λ x, 0 ≤ x < 65536) v →
  ∃ w, Classifier.search v c = (Ok w, c) ∧ classified (concat rss.*2) v w.
Proof.
  intros HK HD Hlen Htrees Hsorted Hl Hv. apply search_classified; [done| |done].
  intros i mp rs Hi. destruct (Htrees i mp rs Hi) as (ti & t & Hti & Ht & Hmp & Hh & Hb).
  exists ti, t. pose proof Hh as [Hperm _ Hr _]. split_and!; [done..| | |done].
  - by apply tree_holds_search.
  - by eapply linear_search_spec.
Qed.
End ClassifierTrees.
