(* ===== verification/ClassifierInsert.v ===== *)
(** * Insertion into the classifier

    [insert] of the classifier against the interface [TREE_LAWS], for
    classifiers that do not rebuild a tree that has rules
    ([TREE_FIXATION_THRESHOLD] at most one): it keeps the trees sorted and
    their books right, so that the lookup answers like the linear search for
    the matching rule of the greatest priority.  With a greater threshold an
    insertion may leave the trees unsorted. *)
From S2P Require Import Prelude Range RuleValue Node Build BuildSpec Schedule DimOrder Common BTreeImpl TreeInterface Classifier ClassifierSpec.
Local Open Scope Z_scope.

Lemma NoDup_fmap_elem {X Y} (f : X → Y) (l : list X) x y :
  NoDup (f <$> l) → x ∈ l → y ∈ l → f x = f y → x = y.
Proof.
  intros Hnd [i Hi]%list_elem_of_lookup [j Hj]%list_elem_of_lookup He.
  assert (i = j) as ->; [|congruence].
  apply (NoDup_lookup (f <$> l) i j (f x) Hnd); rewrite list_lookup_fmap; [by rewrite Hi|by rewrite Hj, He].
Qed.

Section state.
Context {A Tr V : Type} `{!RuleValue V}.
Implicit Types (c : Classifier A Tr V) (t : tree_info Tr V).

(** The state with another record of the tree [ti]. *)
Definition put_info (ti : nat) t c : Classifier A Tr V := set_infos (<[ti := t]> (infos c)) c.

Lemma get_info_ok c ti t : infos c !! ti = Some t → get_info ti c = (Ok t, c).
Proof. intros Ht. unfold get_info. by rewrite bind_gets, Ht. Qed.

Lemma upd_info_ok c ti t f : infos c !! ti = Some t → upd_info ti f c = (Ok tt, put_info ti (f t) c).
Proof. intros Ht. unfold upd_info. run_ok by (by apply get_info_ok). done. Qed.

Lemma tree_at_ok c i ti : trees c !! i = Some ti → Classifier.tree_at i c = (Ok ti, c).
Proof. intros Ht. unfold Classifier.tree_at. by rewrite bind_gets, Ht. Qed.

Lemma put_info_eq c ti t t' : infos c !! ti = Some t' → infos (put_info ti t c) !! ti = Some t.
Proof. intros Ht. cbn. apply list_lookup_insert_eq. by eapply lookup_lt_Some. Qed.

Lemma put_info_put c ti t t' : put_info ti t' (put_info ti t c) = put_info ti t' c.
Proof. unfold put_info, set_infos. cbn. by rewrite list_insert_insert_eq. Qed.

Lemma put_info_id c ti t : infos c !! ti = Some t → put_info ti t c = c.
Proof. intros Ht. unfold put_info, set_infos. rewrite list_insert_id by done. by destruct c. Qed.

Lemma lift_ok {X} (m : M A X) c x a : m (alloc c) = (Ok x, a) → lift m c = (Ok x, set_alloc a c).
Proof. intros Hm. unfold lift. by rewrite Hm. Qed.

Lemma set_alloc_id c : set_alloc (alloc c) c = c.
Proof. by destruct c. Qed.

(** ** The order of the trees *)

Lemma descending_ext {X} (key key' : X → Z) l :
  (∀ x, x ∈ l → key x = key' x) → descending key l → descending key' l.
Proof.
  unfold descending. intros He Hs. induction Hs as [|x l Hs IH Hf]; constructor.
  - apply IH. intros y Hy. apply He. by right.
  - rewrite Forall_forall in Hf |- *. intros y Hy. rewrite <- !He by (by constructor). by apply Hf.
Qed.

(** The first [n] items without the one at [i] stay sorted. *)
Lemma descending_delete {X} (key : X → Z) l i x n :
  l !! i = Some x → (i < n)%nat → descending key (take n l) →
  descending key (take (n - 1) (take i l ++ drop (S i) l)).
Proof.
  intros Hx Hi. pose proof (lookup_lt_Some _ _ _ Hx).
  rewrite <- (take_drop_middle l i x Hx) at 1. unfold descending.
  rewrite !take_app, !length_take, !(Nat.min_l i (length l)) by lia.
  rewrite !(take_ge (take i l)) by (rewrite length_take; lia).
  replace (n - i)%nat with (S (n - 1 - i)) by lia. cbn [take].
  rewrite !StronglySorted_app, StronglySorted_cons. intros (H12 & H1 & _ & H2).
  split_and!; [|done|done]. intros a b Ha Hb. apply H12; [done|by right].
Qed.

Lemma not_in_delete {X} (l : list X) i x n :
  NoDup l → l !! i = Some x → x ∉ take n (take i l ++ drop (S i) l).
Proof.
  intros Hnd Hx Hin%elem_of_take. destruct Hin as (j & Hin & _). apply list_elem_of_lookup_2 in Hin.
  rewrite <- (take_drop_middle l i x Hx) in Hnd.
  apply NoDup_app in Hnd as (_ & Hd & [Hn _]%NoDup_cons). apply elem_of_app in Hin as [Hin|Hin]; [|done].
  apply (Hd x Hin). by left.
Qed.

Lemma max_priority_put c ti t x :
  x ≠ ti → max_priority_getter (infos (put_info ti t c)) x = max_priority_getter (infos c) x.
Proof. intros Hne. unfold max_priority_getter. cbn. by rewrite list_lookup_insert_ne. Qed.

(** The trees but the one at [i] are in order: so they are with it. *)
Lemma resort_ok c i ti t :
  NoDup (trees c) → trees c !! i = Some ti → infos c !! ti = Some t → rules t ≠ [] →
  (i < tree_cnt c ≤ length (trees c))%nat → Z.of_nat (tree_cnt c) < 2 ^ 64 →
  descending (max_priority_getter (infos c))
    (take (tree_cnt c - 1) (take i (trees c) ++ drop (S i) (trees c))) →
  ∃ l, resort_on_priority_change i c = (Ok tt, set_trees l c) ∧ l ≡ₚ trees c
    ∧ descending (max_priority_getter (infos c)) (take (tree_cnt c) l)
    ∧ drop (tree_cnt c) l = drop (tree_cnt c) (trees c).
Proof.
  intros Hnd Hi Ht Hr Hcnt Hmax Hs. unfold resort_on_priority_change.
  run_ok by (by apply tree_at_ok). run_ok by (by apply get_info_ok).
  rewrite bind_assert by (apply Nat.ltb_lt; destruct (rules t); [done|cbn; lia]). run_steps.
  destruct (array_resort_ok _ _ _ _ _ c Hi Hcnt Hmax Hs) as (j & (Hj & Hd & Hp & Hdrop) & Hres).
  unfold resort_outcome in Hres. rewrite bool_decide_true in Hres by (by right).
  run_ok by exact Hres. by eexists.
Qed.
End state.

Section insert.
Context {sort : StdSort} `{cfg : !BTreeCfg} {A Tr V : Type} `{!RuleValue V, !RuleValueLaws V}.
Context {tree_ops : TREE_T A Tr V} {tree_laws : TREE_LAWS (A := A) (Tr := Tr) (V := V)}.
Hypothesis HK : KEY_SIZE = 2%nat.
Implicit Types (c : Classifier A Tr V) (t : tree_info Tr V) (r rule : rule_spec_t V) (rs : list (rule_spec_t V)).

(** The trees with the rules that were inserted into them. *)
Definition stored_trees c : list (Tr * list (rule_spec_t V)) := (λ t, (tree t, rules t)) <$> infos c.

(** How often a mask is used. *)
Definition mask_count rs (m : list Z) : option nat :=
  match length (filter (λ r, get_rule_mask 2 r = m) rs) with O => None | n => Some n end.

(** A rule that may be inserted beside the rules [rs]. *)
Record admitted rs rule : Prop := {
  ad_ok : rule_ok16 rule;
  ad_law : law_rule rule;
  ad_valid : is_valid (rvalue rule) = true;
  ad_new : ∀ r', r' ∈ rs → fields r' ≠ fields rule;
}.

Lemma admitted_sub rs rs' rule : (∀ r, r ∈ rs → r ∈ rs') → admitted rs' rule → admitted rs rule.
Proof. intros Hs [Ho Hl Hv Hn]. split; [done..|]. intros r' Hr. by apply Hn, Hs. Qed.

(** The record of a tree is right: the dimensions in use come first, the rules
    are compatible, none has a priority above [max_priority], and the masks
    are counted. *)
Record info_ok t : Prop := {
  io_order : tree_dimension_order (tree t) ≡ₚ seq 0 D;
  io_used : (used_dim_cnt t ≤ D)%nat;
  io_wild : Forall (wild_from (tree_dimension_order (tree t)) (used_dim_cnt t)) (rules t);
  io_rules : Forall rule_ok16 (rules t);
  io_compatible : ∀ r r', r ∈ rules t → r' ∈ rules t →
    compatible (rule_keys (tree_dimension_order (tree t)) r) (rule_keys (tree_dimension_order (tree t)) r');
  io_priority : Forall (λ r, priority (rvalue r) ≤ max_priority t) (rules t);
  io_masks : ∀ m, used_rule_masks t !! m = mask_count (rules t) m;
}.

Lemma mask_count_snoc rs rule m :
  mask_count (rs ++ [rule]) m =
    if decide (get_rule_mask 2 rule = m) then Some (S (default 0%nat (mask_count rs m))) else mask_count rs m.
Proof.
  unfold mask_count. rewrite filter_app, filter_cons, filter_nil, length_app.
  case_decide; cbn [length]; [|by rewrite Nat.add_0_r].
  destruct (length (filter _ rs)) as [|k]; cbn; [done|]. by rewrite Nat.add_1_r.
Qed.

Lemma used_rule_mask_incr_ok t rule rs m :
  (∀ m, used_rule_masks t !! m = mask_count rs m) →
  used_rule_masks (used_rule_mask_incr (get_rule_mask 2 rule) t) !! m = mask_count (rs ++ [rule]) m.
Proof.
  intros Hm. rewrite mask_count_snoc. unfold used_rule_mask_incr. cbn [used_rule_masks ti_set_used_rule_masks].
  case_decide as He.
  - subst m. rewrite <- Hm. destruct (used_rule_masks t !! get_rule_mask 2 rule); by rewrite lookup_insert_eq.
  - rewrite <- Hm. destruct (used_rule_masks t !! get_rule_mask 2 rule); by rewrite lookup_insert_ne.
Qed.

(** ** The dimensions of a new rule *)

Lemma stored_trees_lookup c ti t : infos c !! ti = Some t → stored_trees c !! ti = Some (tree t, rules t).
Proof. intros Ht. unfold stored_trees. by rewrite list_lookup_fmap, Ht. Qed.

Lemma stored_trees_lt c ti t : infos c !! ti = Some t → (ti < length (stored_trees c))%nat.
Proof. intros Ht. unfold stored_trees. rewrite length_fmap. by eapply lookup_lt_Some. Qed.

Lemma order_field order r i :
  order ≡ₚ seq 0 D → rule_ok r → (i < D)%nat → ∃ d k, order !! i = Some d ∧ fields r !! d = Some k.
Proof.
  intros Hperm [Hl _] Hi. assert (length order = D) as Hlo by (by rewrite Hperm, length_seq).
  destruct (lookup_lt_is_Some_2 order i) as [d Hd]; [lia|].
  assert (d ∈ order) as Hin by (by eapply list_elem_of_lookup_2). rewrite Hperm, elem_of_seq in Hin.
  destruct (lookup_lt_is_Some_2 (fields r) d) as [k Hk]; [lia|]. by exists d, k.
Qed.

(** A dimension the new rule uses comes behind the used ones. *)
Lemma use_dim_ok a n ts ti tr rs rule u i d k :
  tree_holds a n ts → ts !! ti = Some (tr, rs) → tree_dimension_order tr ≡ₚ seq 0 D →
  Forall rule_ok16 rs → rule_ok16 rule → Forall (wild_from (tree_dimension_order tr) u) rs →
  fits (tree_dimension_order tr) rs rule → (u ≤ i < D)%nat →
  ∀ x, (u ≤ x ≤ i)%nat →
  tree_dimension_order tr !! i = Some d → fields rule !! d = Some k → is_wildcard 2 k = false →
  let order := swap_dims (tree_dimension_order tr) x i in
  let tr' := tree_set_dimension_order order tr in
  tree_holds a n (<[ti := (tr', rs)]> ts) ∧ tree_dimension_order tr' = order ∧ order ≡ₚ seq 0 D
  ∧ Forall (wild_from order u) rs ∧ fits order rs rule
  ∧ ∀ r, r ∈ rs → rule_keys order r = rule_keys (tree_dimension_order tr) r.
Proof using HK.
  intros Hh Hti Hperm Hrs Hr Hw Hf Hi x Hx Hd Hk Hkw order tr'.
  assert (length (tree_dimension_order tr) = D) as Hlo by (by rewrite Hperm, length_seq).
  rewrite Forall_forall in Hw.
  assert (order ≡ₚ tree_dimension_order tr) as Hswap.
  { unfold order, swap_dims. destruct (lookup_lt_is_Some_2 (tree_dimension_order tr) x) as [y Hy]; [lia|].
    rewrite Hy, Hd. apply swap_perm; [done|done|lia]. }
  assert (∀ r, r ∈ rs → rule_keys order r = rule_keys (tree_dimension_order tr) r) as Hkeys.
  { intros r Hr'. apply (swap_dims_keys _ u); [by apply Hw|lia..]. }
  destruct (law_reorder a n ts ti tr rs u order) as [Hh' Ho];
    [done..|by apply swap_dims_order_take; lia|by apply Forall_forall|].
  split_and!; [done|done|by rewrite Hswap| | |done].
  - apply Forall_forall. intros r Hr'. apply swap_dims_wild; [by apply Hw|lia..].
  - eapply (fits_swap HK (tree_dimension_order tr) u); [done|done|done| |lia|lia|lia|done..].
    by apply Forall_forall.
Qed.

Lemma use_new_dims_run c ti t rule rs n :
  infos c !! ti = Some t → tree_holds (alloc c) n (<[ti := (tree t, rs)]> (stored_trees c)) →
  tree_dimension_order (tree t) ≡ₚ seq 0 D → (used_dim_cnt t ≤ D)%nat →
  Forall (wild_from (tree_dimension_order (tree t)) (used_dim_cnt t)) rs → Forall rule_ok16 rs → rule_ok16 rule →
  fits (tree_dimension_order (tree t)) rs rule →
  ∃ tr u, use_new_dims KEY_SIZE D ti rule c = (Ok tt, put_info ti (ti_set_used_dim_cnt u (ti_set_tree tr t)) c)
    ∧ tree_holds (alloc c) n (<[ti := (tr, rs)]> (stored_trees c))
    ∧ tree_dimension_order tr ≡ₚ seq 0 D ∧ (u ≤ D)%nat
    ∧ Forall (wild_from (tree_dimension_order tr) u) (rs ++ [rule]) ∧ fits (tree_dimension_order tr) rs rule
    ∧ ∀ r, r ∈ rs → rule_keys (tree_dimension_order tr) r = rule_keys (tree_dimension_order (tree t)) r.
Proof using HK.
  intros Ht Hh Hperm Hu Hw Hrs Hr Hf. set (u0 := used_dim_cnt t) in *.
  pose proof (stored_trees_lt c ti t Ht) as Hti.
  unfold use_new_dims. run_ok by (by apply get_info_ok).
  edestruct (for_each_up (λ d_i, t ← get_info ti;
      let order := tree_dimension_order (tree t) in
      d ← or_ub (order !! d_i); k ← or_ub (fields rule !! d);
      if is_wildcard KEY_SIZE k then mret tt
      else u ← or_ub (order !! used_dim_cnt t);
        upd_info ti (λ t, ti_set_used_dim_cnt (S (used_dim_cnt t))
          (ti_set_tree (tree_set_dimension_order (<[d_i := u]> (<[used_dim_cnt t := d]> order)) (tree t)) t)))
    (λ i s, ∃ tr u, s = put_info ti (ti_set_used_dim_cnt u (ti_set_tree tr t)) c
       ∧ tree_holds (alloc c) n (<[ti := (tr, rs)]> (stored_trees c))
       ∧ tree_dimension_order tr ≡ₚ seq 0 D ∧ (u0 ≤ u ≤ i)%nat
       ∧ Forall (wild_from (tree_dimension_order tr) u0) rs ∧ fits (tree_dimension_order tr) rs rule
       ∧ (∀ r, r ∈ rs → rule_keys (tree_dimension_order tr) r = rule_keys (tree_dimension_order (tree t)) r)
       ∧ ∀ j d, (u ≤ j < i)%nat → tree_dimension_order tr !! j = Some d →
           ∃ k, fields rule !! d = Some k ∧ is_wildcard 2 k = true)
    u0 D c) as (s' & Hrun & tr & u & -> & Hh' & Hperm' & Hu' & Hw' & Hf' & Hkeys & Hnew); [done| | |].
  - exists (tree t), u0. replace (ti_set_used_dim_cnt u0 _) with t by (by destruct t). rewrite put_info_id by done.
    split_and!; [done..|lia|lia|done|done|done|]. intros j d Hj. lia.
  - intros i s Hi (tr & u & -> & Hh' & Hperm' & Hu' & Hw' & Hf' & Hkeys & Hnew).
    assert (length (tree_dimension_order tr) = D) as Hlo by (by rewrite Hperm', length_seq).
    run_ok by (apply get_info_ok; by eapply put_info_eq). cbn [tree used_dim_cnt ti_set_tree ti_set_used_dim_cnt].
    destruct (order_field _ rule i Hperm' (proj1 Hr)) as (d & k & Hd & Hk); [lia|].
    rewrite Hd. cbn [or_ub]. rewrite bind_ret, Hk. cbn [or_ub]. rewrite bind_ret, HK.
    destruct (is_wildcard 2 k) eqn:Hkw.
    + eexists. split; [done|]. exists tr, u. split_and!; [done|done|done|lia|lia|done|done|done|].
      intros j d' Hj Hd'. destruct (decide (j = i)) as [->|]; [simplify_eq; by exists k|apply (Hnew j); [lia|done]].
    + destruct (lookup_lt_is_Some_2 (tree_dimension_order tr) u) as [x Hx]; [lia|].
      rewrite Hx. cbn [or_ub]. rewrite bind_ret.
      destruct (use_dim_ok (alloc c) n _ ti tr rs rule u0 i d k Hh') with (x := u)
        as (Hh2 & Ho2 & Hperm2 & Hw2 & Hf2 & Hkeys2); [by apply list_lookup_insert_eq|done..|lia|lia|done|done|done|].
      rewrite list_insert_insert_eq in Hh2. unfold swap_dims in *. rewrite Hx, Hd in *.
      erewrite upd_info_ok by (by eapply put_info_eq). rewrite put_info_put. cbn [tree used_dim_cnt ti_set_tree ti_set_used_dim_cnt].
      eexists. split; [done|]. exists (tree_set_dimension_order (<[i := x]> (<[u := d]> (tree_dimension_order tr))) tr), (S u).
      rewrite Ho2. split_and!; [done|done|done|lia|lia|done|done| |].
      { intros r Hr'. by rewrite Hkeys2, Hkeys. }
      intros j d' Hj Hd'. pose proof (swap_dims_lookup (tree_dimension_order tr) u i j x d Hx Hd) as Hsw.
      unfold swap_dims in Hsw. rewrite Hx, Hd, Hd' in Hsw.
      repeat case_decide; subst.
      * injection Hsw as ->. apply (Hnew u); [lia|done].
      * lia.
      * apply (Hnew j); [lia|done].
  - exists tr, u. split_and!; [exact Hrun|done|done|lia| |done|done].
    apply Forall_app. split; [eapply Forall_impl; [exact Hw'|]; intros r; apply wild_from_mono; lia|].
    constructor; [|done]. intros j d Hj Hd. apply (Hnew j); [|done]. split; [done|].
    apply lookup_lt_Some in Hd. by rewrite Hperm', length_seq in Hd.
Qed.

(** ** The classifier *)

Context (MAX_TREE_CNT TREE_FIXATION_THRESHOLD : nat).
Hypothesis HD : (1 ≤ D)%nat.
Hypothesis Hmax : Z.of_nat MAX_TREE_CNT < 2 ^ 64.
Hypothesis Hthr : (TREE_FIXATION_THRESHOLD ≤ 1)%nat.

(** The classifier holds the rules [rs], and [n] more fit into its trees. *)
Record classifier_ok c (n : nat) rs : Prop := {
  co_trees : tree_holds (alloc c) n (stored_trees c);
  co_infos : length (infos c) = MAX_TREE_CNT;
  co_perm : trees c ≡ₚ seq 0 MAX_TREE_CNT;
  co_cnt : (tree_cnt c ≤ MAX_TREE_CNT ∧ tree_cnt c ≤ length rs)%nat;
  co_sorted : descending (max_priority_getter (infos c)) (take (tree_cnt c) (trees c));
  co_info : ∀ ti t, infos c !! ti = Some t → info_ok t;
  co_idle : ∀ i ti t, (tree_cnt c ≤ i)%nat → trees c !! i = Some ti → infos c !! ti = Some t → rules t = [];
  co_rules : concat (rules <$> infos c) ≡ₚ rs;
  co_map : ∀ r ti, (r, ti) ∈ rule_to_tree c → ∃ t, infos c !! ti = Some t ∧ r ∈ rules t;
}.

Lemma concat_insert {X} (l : list (list X)) i x y :
  l !! i = Some x → concat (<[i := x ++ [y]]> l) ≡ₚ y :: concat l.
Proof.
  intros Hi. rewrite (insert_take_drop l i) by (by eapply lookup_lt_Some).
  rewrite <- (take_drop_middle l i x Hi) at 3. rewrite !concat_app. cbn. solve_Permutation.
Qed.

Lemma trees_NoDup c n rs : classifier_ok c n rs → NoDup (trees c).
Proof. intros Hc. rewrite (co_perm _ _ _ Hc). apply NoDup_seq. Qed.

Lemma trees_length c n rs : classifier_ok c n rs → length (trees c) = MAX_TREE_CNT.
Proof. intros Hc. by rewrite (co_perm _ _ _ Hc), length_seq. Qed.

Lemma tree_info_at c n rs i :
  classifier_ok c n rs → (i < MAX_TREE_CNT)%nat → ∃ ti t, trees c !! i = Some ti ∧ infos c !! ti = Some t.
Proof.
  intros Hc Hi. destruct (lookup_lt_is_Some_2 (trees c) i) as [ti Hti]; [by rewrite (trees_length _ _ _ Hc)|].
  destruct (lookup_lt_is_Some_2 (infos c) ti) as [t Ht]; [|by exists ti, t].
  apply list_elem_of_lookup_2 in Hti. rewrite (co_perm _ _ _ Hc), elem_of_seq in Hti.
  rewrite (co_infos _ _ _ Hc). lia.
Qed.

(** [rule_to_tree] with the entry of the rule. *)
Definition map_with rule (ti : nat) c : list (rule_spec_t V * nat) :=
  (rule, ti) :: filter (λ e, rule_spec_t_eq e.1 rule = false) (rule_to_tree c).

(** The classifier with one more rule in the tree [ti], its trees sorted
    again. *)
Lemma stored_ok c n rs ti t t' a' rule l cnt j :
  classifier_ok c (S n) rs → infos c !! ti = Some t → info_ok t' → rules t' = rules t ++ [rule] →
  tree_holds a' n (<[ti := (tree t', rules t')]> (stored_trees c)) →
  l ≡ₚ trees c → drop cnt l = drop cnt (trees c) → (tree_cnt c ≤ cnt ≤ MAX_TREE_CNT)%nat →
  (cnt ≤ S (length rs))%nat → trees c !! j = Some ti → (j < cnt)%nat →
  descending (max_priority_getter (<[ti := t']> (infos c))) (take cnt l) →
  classifier_ok (mkClassifier a' (<[ti := t']> (infos c)) l cnt (map_with rule ti c)) n (rule :: rs).
Proof.
  intros Hc Ht Ht' Hrules Hh Hl Hdrop Hcnt Hcnt' Hj Hjc Hs. pose proof Hc as [Htrees Hlen Hperm _ _ Hinfo Hidle Hrs Hmap].
  pose proof (trees_NoDup _ _ _ Hc) as Hnd. pose proof (lookup_lt_Some _ _ _ Ht) as Hti.
  split; cbn [alloc infos trees tree_cnt rule_to_tree length].
  - unfold stored_trees in *. cbn [infos]. by rewrite list_fmap_insert.
  - by rewrite length_insert.
  - by rewrite Hl.
  - lia.
  - done.
  - intros ti' x. rewrite list_lookup_insert_Some. intros [(_ & -> & _)|[_ Hx]]; [done|by eapply Hinfo].
  - intros i ti' x Hi Hli Hx. assert (trees c !! i = Some ti') as Hci.
    { replace i with (cnt + (i - cnt))%nat in * by lia. rewrite <- lookup_drop, <- Hdrop, lookup_drop. done. }
    rewrite list_lookup_insert_Some in Hx. destruct Hx as [(<- & _ & _)|[_ Hx]].
    + pose proof (NoDup_lookup _ _ _ _ Hnd Hci Hj). lia.
    + apply (Hidle i ti'); [lia|done..].
  - rewrite list_fmap_insert, Hrules, concat_insert by (by rewrite list_lookup_fmap, Ht). by rewrite Hrs.
  - unfold map_with. intros r x [[= -> ->]|[_ Hin]%list_elem_of_filter]%elem_of_cons.
    + exists t'. split; [by apply list_lookup_insert_eq|]. rewrite Hrules. apply elem_of_app. right. by left.
    + destruct (Hmap r x Hin) as (y & Hy & Hr). destruct (decide (x = ti)) as [->|Hne].
      * exists t'. simplify_eq. split; [by apply list_lookup_insert_eq|]. rewrite Hrules. apply elem_of_app. by left.
      * exists y. by rewrite list_lookup_insert_ne.
Qed.

(** ** Into a tree of the classifier *)

Lemma info_colides_ok c ti t rule n rs :
  infos c !! ti = Some t → tree_holds (alloc c) n (<[ti := (tree t, rs)]> (stored_trees c)) →
  rule_ok16 rule → law_rule rule →
  ∃ b, info_colides ti rule c = (Ok b, c) ∧ (b = false ↔ fits (tree_dimension_order (tree t)) rs rule).
Proof.
  intros Ht Hh Hr Hlaw. pose proof (stored_trees_lt c ti t Ht) as Hti.
  destruct (law_colide _ _ _ ti (tree t) rs rule Hh) as (b & Hb & Hiff); [by apply list_lookup_insert_eq|done..|].
  exists b. split; [|done]. unfold info_colides. run_ok by (by apply get_info_ok).
  rewrite (lift_ok _ _ _ _ Hb). by rewrite set_alloc_id.
Qed.

Lemma info_insert_ok c ti t rule n rs :
  infos c !! ti = Some t → tree_holds (alloc c) (S n) (<[ti := (tree t, rs)]> (stored_trees c)) → admitted rs rule →
  fits (tree_dimension_order (tree t)) rs rule →
  ∃ tr a, info_insert ti rule c = (Ok tt, put_info ti (ti_set_tree tr t) (set_alloc a c))
    ∧ tree_dimension_order tr = tree_dimension_order (tree t)
    ∧ tree_holds a n (<[ti := (tr, rs ++ [rule])]> (stored_trees c)).
Proof.
  intros Ht Hh [] Hf. pose proof (stored_trees_lt c ti t Ht) as Hti.
  destruct (law_insert _ _ _ ti (tree t) rs rule Hh) as (tr & a & Hi & Ho & Hh'); [by apply list_lookup_insert_eq|done..|].
  rewrite list_insert_insert_eq in Hh'. exists tr, a. split; [|done].
  unfold info_insert. run_ok by (by apply get_info_ok). run_ok by (by apply lift_ok).
  by apply upd_info_ok.
Qed.

(** The dimensions of the rule, when the tree has unused ones. *)
Lemma use_new_dims_ok c ti t rule rs n :
  infos c !! ti = Some t → tree_holds (alloc c) n (<[ti := (tree t, rs)]> (stored_trees c)) →
  tree_dimension_order (tree t) ≡ₚ seq 0 D → (used_dim_cnt t ≤ D)%nat →
  Forall (wild_from (tree_dimension_order (tree t)) (used_dim_cnt t)) rs → Forall rule_ok16 rs → rule_ok16 rule →
  fits (tree_dimension_order (tree t)) rs rule →
  ∃ tr u, (if (used_dim_cnt t <? D)%nat then use_new_dims KEY_SIZE D ti rule else mret tt) c
      = (Ok tt, put_info ti (ti_set_used_dim_cnt u (ti_set_tree tr t)) c)
    ∧ tree_holds (alloc c) n (<[ti := (tr, rs)]> (stored_trees c))
    ∧ tree_dimension_order tr ≡ₚ seq 0 D ∧ (u ≤ D)%nat
    ∧ Forall (wild_from (tree_dimension_order tr) u) (rs ++ [rule]) ∧ fits (tree_dimension_order tr) rs rule
    ∧ ∀ r, r ∈ rs → rule_keys (tree_dimension_order tr) r = rule_keys (tree_dimension_order (tree t)) r.
Proof.
  intros Ht Hh Hperm Hu Hw Hrs Hr Hf. destruct (Nat.ltb_spec (used_dim_cnt t) D); [by eapply use_new_dims_run|].
  exists (tree t), (used_dim_cnt t). replace (ti_set_used_dim_cnt _ _) with t by (by destruct t).
  rewrite put_info_id by done. split_and!; [done..| |done|done].
  apply Forall_app. split; [done|]. constructor; [|done]. intros i d Hi Hd%lookup_lt_Some.
  rewrite Hperm, length_seq in Hd. lia.
Qed.

(** A tree that gets a rule it can hold is right. *)
Lemma info_ok_snoc t rule tr u p b :
  info_ok t → rule_ok16 rule → tree_dimension_order tr ≡ₚ seq 0 D → (u ≤ D)%nat →
  Forall (wild_from (tree_dimension_order tr) u) (rules t ++ [rule]) → fits (tree_dimension_order tr) (rules t) rule →
  (∀ r, r ∈ rules t → rule_keys (tree_dimension_order tr) r = rule_keys (tree_dimension_order (tree t)) r) →
  max_priority t ≤ p → priority (rvalue rule) ≤ p →
  info_ok (mkTreeInfo tr p u (rules t ++ [rule]) b (used_rule_masks (used_rule_mask_incr (get_rule_mask 2 rule) t))).
Proof.
  intros [_ _ _ Hrs Hc Hp Hm] Hr Ho Hu Hw Hf Hk Hmp Hpr.
  split; cbn [tree max_priority used_dim_cnt rules update_pending used_rule_masks]; [done..| | | |].
  - apply Forall_app. by split; [|constructor].
  - intros r r'. rewrite !elem_of_app, !list_elem_of_singleton. intros [H1| ->] [H2| ->].
    + rewrite !Hk by done. by apply Hc.
    + by apply Hf.
    + by apply compatible_sym, Hf.
    + apply compatible_refl.
  - apply Forall_app. split; [|by constructor]. eapply Forall_impl; [exact Hp|]. intros r Hle. cbn in *. lia.
  - intros m. by apply used_rule_mask_incr_ok.
Qed.

(** The books of the tree: the rule goes to the end of [rules]. *)
Definition booked rule t : tree_info Tr V := used_rule_mask_incr (get_rule_mask 2 rule) (ti_push_rule rule t).

(** A rule that is new for the classifier is new for each tree. *)
Lemma admitted_tree c n rs rule ti t :
  classifier_ok c n rs → infos c !! ti = Some t → admitted rs rule → admitted (rules t) rule.
Proof.
  intros Hc Ht. apply admitted_sub. intros r Hr. rewrite <- (co_rules _ _ _ Hc), elem_of_concat.
  exists (rules t). split; [done|]. apply list_elem_of_fmap_2. by eapply list_elem_of_lookup_2.
Qed.

(** What [try_insert_to_tree_without_collisions] does before it compares the
    priorities. *)
Lemma place_ok f c n rs rule ti t :
  classifier_ok c (S n) rs → admitted rs rule → infos c !! ti = Some t →
  fits (tree_dimension_order (tree t)) (rules t) rule →
  ∃ tr u a,
    (∀ X (k : M (Classifier A Tr V) X), (upd_info ti (ti_push_rule rule);; rule_to_tree_set rule ti;;
     upd_info ti (used_rule_mask_incr (get_rule_mask 2 rule));;
     t ← get_info ti;
     (if (length (rules t) <? TREE_FIXATION_THRESHOLD)%nat
      then update_dimension_order KEY_SIZE D MAX_TREE_CNT TREE_FIXATION_THRESHOLD f ti (Some rule)
      else
        (if (used_dim_cnt t <? D)%nat then use_new_dims KEY_SIZE D ti rule else mret tt);;
        c ← info_colides ti rule;
        assert_ (negb c);;
        info_insert ti rule);; k) c
    = k (put_info ti (ti_set_tree tr (ti_set_used_dim_cnt u (booked rule t)))
           (set_alloc a (set_rule_to_tree (map_with rule ti c) c))))
    ∧ tree_holds a n (<[ti := (tr, rules t ++ [rule])]> (stored_trees c))
    ∧ ∀ p b, max_priority t ≤ p → priority (rvalue rule) ≤ p →
        info_ok (mkTreeInfo tr p u (rules t ++ [rule]) b (used_rule_masks (booked rule t))).
Proof.
  intros Hc Hadm Ht Hf. pose proof (co_info _ _ _ Hc ti t Ht) as Hinfo.
  pose proof (ad_ok _ _ Hadm) as Hr. pose proof (admitted_tree c _ rs rule ti t Hc Ht Hadm) as Hadm'.
  pose proof (co_trees _ _ _ Hc) as Hh. pose proof (stored_trees_lookup c ti t Ht) as Hst.
  set (c1 := set_rule_to_tree (map_with rule ti c) (put_info ti (ti_push_rule rule t) c)).
  assert (infos c1 !! ti = Some (ti_push_rule rule t)) as Ht1 by (by eapply put_info_eq).
  unfold booked. set (t2 := used_rule_mask_incr _ _).
  set (c2 := put_info ti t2 c1). assert (infos c2 !! ti = Some t2) as Ht2 by (by eapply put_info_eq).
  assert (<[ti := (tree t, rules t)]> (stored_trees c2) = stored_trees c) as Hst2.
  { unfold stored_trees in *. cbn. rewrite !list_fmap_insert, !list_insert_insert_eq. by apply list_insert_id. }
  destruct (use_new_dims_ok c2 ti t2 rule (rules t) (S n)) as (tr & u & Hrun & Hh' & Ho & Hu & Hw & Hf' & Hk);
    [done|change (tree t2) with (tree t); by rewrite Hst2|apply Hinfo|apply Hinfo|apply Hinfo|apply Hinfo|done|done|].
  set (t3 := ti_set_used_dim_cnt u (ti_set_tree tr t2)) in *. set (c3 := put_info ti t3 c2) in *.
  assert (infos c3 !! ti = Some t3) as Ht3 by (by eapply put_info_eq).
  assert (<[ti := (tree t3, rules t)]> (stored_trees c3) = <[ti := (tr, rules t)]> (stored_trees c2)) as Hst3.
  { unfold stored_trees. cbn. by rewrite !list_fmap_insert, !list_insert_insert_eq. }
  destruct (info_colides_ok c3 ti t3 rule (S n) (rules t)) as (b & Hb & Hiff); [done|by rewrite Hst3|done|apply Hadm|].
  destruct (info_insert_ok c3 ti t3 rule n (rules t)) as (tr' & a & Hi & Ho' & Hh''); [done|by rewrite Hst3|done..|].
  exists tr', u, a. split_and!.
  - intros X k. run_ok by (by apply upd_info_ok). unfold rule_to_tree_set. run_steps. fold c1.
    run_ok by (by apply upd_info_ok). fold t2 c2. run_ok by (by apply get_info_ok).
    rewrite (proj2 (Nat.ltb_ge _ _)) by (cbn; rewrite length_app; cbn; lia).
    run_ok by exact Hrun. run_ok by exact Hb. rewrite (proj2 Hiff Hf'). cbn [negb].
    rewrite !bind_assoc, bind_assert by done. run_ok by exact Hi. f_equal. unfold c3, c2, c1, put_info, set_infos, set_alloc, set_rule_to_tree. cbn. by rewrite !list_insert_insert_eq.
  - revert Hh''. unfold stored_trees, c3, c2, c1. cbn. by rewrite !list_fmap_insert, !list_insert_insert_eq.
  - intros p b' Hp Hp'. change (tree_dimension_order (tree t3)) with (tree_dimension_order tr) in Ho'.
    rewrite <- Ho' in Ho, Hw, Hf', Hk.
    by apply (info_ok_snoc t).
Qed.

Lemma try_ok f c n rs rule i :
  classifier_ok c (S n) rs → admitted rs rule → (i < tree_cnt c)%nat →
  ∃ b c', try_insert_to_tree_without_collisions KEY_SIZE D MAX_TREE_CNT TREE_FIXATION_THRESHOLD (S f) rule
            (get_rule_mask 2 rule) i c = (Ok b, c')
    ∧ if b then classifier_ok c' n (rule :: rs) else c' = c.
Proof.
  intros Hc Hr Hi. pose proof (co_cnt _ _ _ Hc) as [Hcnt Hcnt']. pose proof (trees_length _ _ _ Hc) as Hlen.
  destruct (tree_info_at c _ rs i Hc) as (ti & t & Hti & Ht); [lia|].
  cbn [try_insert_to_tree_without_collisions]. rewrite bind_assert by (apply Nat.ltb_lt; lia).
  run_ok by (by apply tree_at_ok).
  destruct (info_colides_ok c ti t rule (S n) (rules t)) as (b & Hb & Hiff); [done| |apply Hr|apply Hr|].
  { rewrite list_insert_id by (by apply stored_trees_lookup). apply Hc. }
  run_ok by exact Hb. destruct b; [by exists false, c|]. pose proof (proj1 Hiff eq_refl) as Hf.
  destruct (place_ok f c n rs rule ti t Hc Hr Ht Hf) as (tr & u & a & Hrun & Hh & Hinfo).
  rewrite Hrun. set (t1 := ti_set_tree tr (ti_set_used_dim_cnt u (booked rule t))).
  set (c1 := put_info _ _ _). assert (infos c1 !! ti = Some t1) as Ht1 by (by eapply put_info_eq).
  run_ok by (by apply get_info_ok). exists true.
  change (max_priority t1) with (max_priority t). rewrite Z.gtb_ltb.
  assert (∀ t2 x, x ≠ ti → max_priority_getter (infos (put_info ti t2 c1)) x = max_priority_getter (infos c) x) as Hkey.
  { intros t2 x Hne. unfold c1. rewrite put_info_put. by rewrite max_priority_put. }
  destruct (Z.ltb_spec (max_priority t) (priority (rvalue rule))) as [Hlt|Hge].
  - set (t2 := ti_set_max_priority (priority (rvalue rule)) t1).
    run_ok by (by apply upd_info_ok). fold t2. unfold c1. rewrite put_info_put.
    set (c2 := put_info ti t2 _).
    assert (infos c2 !! ti = Some t2) as Ht2 by (by eapply put_info_eq).
    destruct (resort_ok c2 i ti t2) as (l & Hl & Hp & Hs & Hd);
      [exact (trees_NoDup _ _ _ Hc)|done|done|by cbn; destruct (rules t)|cbn; lia|cbn; lia| |].
    { apply (descending_ext (max_priority_getter (infos c))).
      - intros x Hx. symmetry. specialize (Hkey t2). unfold c1 in Hkey. rewrite put_info_put in Hkey.
        apply Hkey. intros ->. exact (not_in_delete _ _ _ _ (trees_NoDup _ _ _ Hc) Hti Hx).
      - by apply (descending_delete _ _ _ ti); [|cbn|apply Hc]. }
    run_ok by exact Hl. eexists. split; [done|].
    eapply (stored_ok c n rs ti t t2 a rule l (tree_cnt c) i); try done; [by apply Hinfo; lia|lia].
  - rewrite bind_ret. eexists. split; [done|].
    eapply (stored_ok c n rs ti t t1 a rule (trees c) (tree_cnt c) i); try done; [apply (Hinfo (max_priority t)); lia|lia|].
    apply (descending_ext (max_priority_getter (infos c))); [|apply Hc].
    intros x _. destruct (decide (x = ti)) as [->|Hne]; [|by specialize (Hkey t1 x Hne); unfold c1 in Hkey; rewrite put_info_put in Hkey].
    unfold max_priority_getter. rewrite Ht, list_lookup_insert_eq by (by eapply lookup_lt_Some). done.
Qed.

(** ** Into a new tree *)

(** The order the resolver finds for one rule puts its wildcards last. *)
Lemma resolve_one rule oo c :
  rule_ok16 rule → oo ≡ₚ seq 0 D →
  ∃ order u, resolve KEY_SIZE D [rule] oo c = (Ok (order, u), c) ∧ order ≡ₚ seq 0 D ∧ (u ≤ D)%nat
    ∧ wild_from order u rule.
Proof.
  intros [[Hl _] _] Hoo. destruct (resolve_ok KEY_SIZE D [rule] oo c) as (used & unused & Hres & Hp & _ & Hun & _);
    [by constructor|done|].
  exists (used ++ unused), (length used). split_and!; [done|done| |].
  - apply Permutation_length in Hp. rewrite length_app, length_seq in Hp. lia.
  - intros i d Hi Hd. rewrite lookup_app_r in Hd by done. apply list_elem_of_lookup_2 in Hd.
    rewrite Hun in Hd. apply list_elem_of_filter in Hd as [Hm Hd]. rewrite Hoo, elem_of_seq in Hd.
    destruct (lookup_lt_is_Some_2 (fields rule) d) as [k Hk]; [lia|]. exists k. split; [done|].
    unfold dim_mask in Hm. cbn in Hm. rewrite Hk, HK in Hm. by destruct (is_wildcard 2 k).
Qed.

(** What [insert] does with the first unused tree before it counts it. *)
Lemma start_tree_ok c n rs rule ti t :
  classifier_ok c (S n) rs → admitted rs rule → infos c !! ti = Some t → rules t = [] →
  ∃ tr u a,
    (∀ X (k : M (Classifier A Tr V) X), (upd_info ti (ti_set_max_priority (priority (rvalue rule)));;
      t ← get_info ti;
      (if (length (rules t) =? 0)%nat then
         dor ← resolve KEY_SIZE D [rule] (tree_dimension_order (tree t));
         upd_info ti (λ t, ti_set_used_dim_cnt dor.2
           (ti_set_tree (tree_set_dimension_order dor.1 (tree t)) t))
       else mret tt);;
      info_insert ti rule;; upd_info ti (ti_push_rule rule);; rule_to_tree_set rule ti;;
      upd_info ti (used_rule_mask_incr (get_rule_mask 2 rule));; k) c
    = k (put_info ti (ti_set_tree tr (ti_set_used_dim_cnt u (ti_set_max_priority (priority (rvalue rule)) (booked rule t))))
           (set_alloc a (set_rule_to_tree (map_with rule ti c) c))))
    ∧ tree_holds a n (<[ti := (tr, [rule])]> (stored_trees c))
    ∧ ∀ b, info_ok (mkTreeInfo tr (priority (rvalue rule)) u [rule] b (used_rule_masks (booked rule t))).
Proof.
  intros Hc Hadm Ht Hemp. pose proof (ad_ok _ _ Hadm) as Hr. pose proof (co_info _ _ _ Hc ti t Ht) as Hinfo. pose proof (co_trees _ _ _ Hc) as Hh.
  pose proof (stored_trees_lookup c ti t Ht) as Hst. rewrite Hemp in Hst.
  set (t1 := ti_set_max_priority (priority (rvalue rule)) t). set (c1 := put_info ti t1 c).
  assert (infos c1 !! ti = Some t1) as Ht1 by (by eapply put_info_eq).
  destruct (resolve_one rule (tree_dimension_order (tree t)) c1) as (order & u & Hres & Hp & Hu & Hw); [done|apply Hinfo|].
  destruct (law_reorder _ _ _ ti (tree t) [] 0 order Hh) as [Hh2 Ho]; [done|by rewrite Hp, (io_order _ Hinfo)|done|done|].
  set (tr1 := tree_set_dimension_order order (tree t)) in *.
  set (t2 := ti_set_used_dim_cnt u (ti_set_tree tr1 t1)). set (c2 := put_info ti t2 c1).
  assert (infos c2 !! ti = Some t2) as Ht2 by (by eapply put_info_eq).
  assert (<[ti := (tree t2, [])]> (stored_trees c2) = <[ti := (tr1, [])]> (stored_trees c)) as Hst2.
  { unfold stored_trees. cbn. by rewrite !list_fmap_insert, !list_insert_insert_eq. }
  destruct (info_insert_ok c2 ti t2 rule n []) as (tr & a & Hi & Ho' & Hh3);
    [done|by rewrite Hst2|by eapply admitted_sub; [intros r ?%elem_of_nil|]|by intros r ?%elem_of_nil|].
  exists tr, u, a. split_and!.
  - intros X k. run_ok by (by apply upd_info_ok). fold t1 c1. run_ok by (by apply get_info_ok).
    change (rules t1) with (rules t). rewrite Hemp. cbn [length Nat.eqb].
    run_ok by exact Hres. cbn [fst snd]. run_ok by (by apply upd_info_ok). fold tr1 t2 c2. run_ok by exact Hi.
    run_ok by (apply upd_info_ok; by eapply put_info_eq). unfold rule_to_tree_set. run_steps.
    run_ok by (apply upd_info_ok with (t := ti_push_rule rule (ti_set_tree tr t2)); cbn;
      apply list_lookup_insert_eq; rewrite ?length_insert; by eapply lookup_lt_Some). f_equal.
    unfold c2, c1, put_info, set_infos, set_alloc, set_rule_to_tree. cbn. by rewrite !list_insert_insert_eq.
  - revert Hh3. unfold stored_trees, c2, c1. cbn. by rewrite !list_fmap_insert, !list_insert_insert_eq.
  - intros b. change (tree_dimension_order (tree t2)) with (tree_dimension_order tr1) in Ho'. rewrite Ho in Ho'.
    pose proof (info_ok_snoc (ti_set_max_priority (priority (rvalue rule)) t) rule tr u (priority (rvalue rule)) b) as Hsnoc.
    cbn [rules ti_set_max_priority max_priority tree] in Hsnoc. rewrite Hemp in Hsnoc. cbn [app] in Hsnoc. rewrite Ho' in Hsnoc.
    apply Hsnoc; [|done|done|done|by constructor|by intros r ?%elem_of_nil|by intros r ?%elem_of_nil|lia|lia].
    destruct Hinfo. split; cbn [tree max_priority used_dim_cnt rules used_rule_masks ti_set_max_priority]; try done.
    by rewrite Hemp.
Qed.

(** ** The whole insertion *)

Notation insert_fuel f := (Classifier.insert KEY_SIZE D MAX_TREE_CNT TREE_FIXATION_THRESHOLD (S (S f))).

(** The loops over the trees either store the rule or change nothing. *)
Definition tried n rs rule c (b : bool) (s : Classifier A Tr V) : Prop :=
  if b then classifier_ok s n (rule :: rs) else s = c.

Lemma insert_step_ok f c n rs rule :
  classifier_ok c (S n) rs → admitted rs rule →
  (∃ c', insert_fuel f rule c = (Ok tt, c') ∧ classifier_ok c' n (rule :: rs))
  ∨ tree_cnt c = MAX_TREE_CNT
    ∧ insert_fuel f rule c = (Err (runtime_error "all tress used (need to implement tree merging)"), c).
Proof.
  intros Hc Hr. pose proof (co_cnt _ _ _ Hc) as [Hcnt Hcnt'].
  assert (for_each (fields rule) (λ k, assert_ (low k <=? high k)) c = (Ok tt, c)) as Hassert.
  { destruct (ad_ok _ _ Hr) as [[_ Hle] _]. induction Hle as [|k ks Hk _ IH]; [done|]. cbn [for_each].
    rewrite bind_assert by (by apply Z.leb_le). done. }
  cbn [Classifier.insert]. replace (get_rule_mask KEY_SIZE rule) with (get_rule_mask 2 rule) by (by rewrite HK).
  run_ok by exact Hassert. run_steps.
  match goal with |- context [fold_each _ (false, []) ?body] =>
    destruct (fold_each_up body (λ acc s, tried n rs rule c acc.1 s) 0 (tree_cnt c) (false, []) c)
      as ([ins tr] & s1 & H1 & HI1); [done| |run_ok by exact H1] end.
  { intros i [b l] s Hi Hs. cbn [fst snd] in *. destruct b; [by exists (true, l), s|].
    cbn in Hs. subst s. destruct (tree_info_at c _ rs i Hc) as (ti & t & Hti & Ht); [lia|].
    run_ok by (by apply tree_at_ok). run_ok by (by apply get_info_ok).
    case_bool_decide; [|by eexists (false, l), c].
    destruct (try_ok f c n rs rule i Hc Hr) as (b & c' & Hb & Hc'); [lia|].
    run_ok by exact Hb. by eexists (b, _), c'. }
  destruct ins; cbn in HI1; [left; by exists s1|subst s1].
  match goal with |- context [fold_each _ false ?body] =>
    destruct (fold_each_up body (tried n rs rule c) 0 (tree_cnt c) false c)
      as (ins & s2 & H2 & HI2); [done| |run_ok by exact H2] end.
  { intros i b s Hi Hs. destruct b; [by exists true, s|]. cbn in Hs. subst s.
    case_bool_decide; [by exists false, c|].
    destruct (try_ok f c n rs rule i Hc Hr) as (b & c' & Hb & Hc'); [lia|]. by exists b, c'. }
  destruct ins; cbn in HI2; [left; by exists s2|subst s2].
  run_steps. destruct (Nat.ltb_spec (tree_cnt c) MAX_TREE_CNT) as [Hlt|Hge]; [left|right; split; [lia|done]].
  destruct (tree_info_at c _ rs (tree_cnt c) Hc Hlt) as (ti & t & Hti & Ht).
  pose proof (co_idle _ _ _ Hc (tree_cnt c) ti t ltac:(done) Hti Ht) as Hemp.
  destruct (start_tree_ok c n rs rule ti t Hc Hr Ht Hemp) as (tr1 & u & a & Hrun & Hh & Hinfo).
  run_ok by (by apply tree_at_ok). rewrite Hrun. set (t1 := ti_set_tree _ _). set (c1 := put_info _ _ _).
  assert (infos c1 !! ti = Some t1) as Ht1 by (by eapply put_info_eq).
  assert (rules t1 = [rule]) as Hrules by (cbn; by rewrite Hemp).
  run_ok by (by apply get_info_ok). rewrite Hrules. cbn [length Nat.ltb Nat.leb]. run_steps.
  set (c2 := set_tree_cnt _ c1). cbn [tree_cnt c2 set_tree_cnt]. rewrite Nat.sub_succ, Nat.sub_0_r.
  change (tree_cnt c1) with (tree_cnt c).
  assert (take (tree_cnt c) (take (tree_cnt c) (trees c) ++ drop (S (tree_cnt c)) (trees c))
          = take (tree_cnt c) (trees c)) as Htake.
  { rewrite take_app_le by (rewrite length_take, (trees_length _ _ _ Hc); lia). by rewrite take_take, Nat.min_id. }
  destruct (resort_ok c2 (tree_cnt c) ti t1) as (l & Hl & Hp & Hs & Hd); [exact (trees_NoDup _ _ _ Hc)|done|done|
    by rewrite Hrules|cbn; rewrite (trees_length _ _ _ Hc); lia|cbn; lia| |].
  { cbn [c2 c1 set_tree_cnt put_info set_infos set_alloc set_rule_to_tree trees tree_cnt infos].
    rewrite Nat.sub_succ, Nat.sub_0_r, Htake. apply (descending_ext (max_priority_getter (infos c))); [|apply Hc].
    intros x Hx. unfold max_priority_getter. rewrite list_lookup_insert_ne; [done|]. intros <-.
    rewrite <- Htake in Hx. by eapply not_in_delete; [eapply trees_NoDup| |]. }
  rewrite Hl. eexists. split; [done|].
  eapply (stored_ok c n rs ti t t1 a rule l (S (tree_cnt c)) (tree_cnt c)); try done;
    [|by rewrite Hrules|lia..].
  change t1 with (mkTreeInfo tr1 (priority (rvalue rule)) u (rules t ++ [rule]) (update_pending t) (used_rule_masks (booked rule t))).
  rewrite Hemp. apply Hinfo.
Qed.

(** ** The lookup after insertions *)

Lemma classified_ext rs rs' v (w : V) : (∀ r, r ∈ rs ↔ r ∈ rs') → classified rs v w → classified rs' v w.
Proof.
  intros He. unfold classified. destruct (is_valid w).
  - intros [(r & Hr & Hm) Hbest]. split; [exists r; by rewrite <- He|]. intros r'. rewrite <- He. by apply Hbest.
  - intros [-> Hno]. split; [done|]. intros r. rewrite <- He. by apply Hno.
Qed.

(** The rules of a tree with the greatest priority. *)
Definition active_rules c ti : Z * list (rule_spec_t V) :=
  (max_priority_getter (infos c) ti, default [] (rules <$> infos c !! ti)).

Lemma active_rules_elem c n rs r :
  classifier_ok c n rs → r ∈ concat (active_rules c <$> take (tree_cnt c) (trees c)).*2 ↔ r ∈ rs.
Proof.
  intros Hc. rewrite <- (co_rules _ _ _ Hc), !elem_of_concat. split.
  - intros (l & Hr & (a & -> & (ti & -> & Hti)%list_elem_of_fmap)%list_elem_of_fmap).
    cbn in Hr. destruct (infos c !! ti) as [t|] eqn:Ht; [|by apply elem_of_nil in Hr].
    exists (rules t). split; [done|]. apply list_elem_of_fmap_2. by eapply list_elem_of_lookup_2.
  - intros (l & Hr & (t & -> & [ti Ht]%list_elem_of_lookup)%list_elem_of_fmap).
    assert (ti ∈ trees c) as [i Hi]%list_elem_of_lookup.
    { rewrite (co_perm _ _ _ Hc), elem_of_seq. apply lookup_lt_Some in Ht. rewrite (co_infos _ _ _ Hc) in Ht. lia. }
    destruct (decide (tree_cnt c ≤ i)%nat) as [Hle|Hlt].
    { rewrite (co_idle _ _ _ Hc i ti t Hle Hi Ht) in Hr. by apply elem_of_nil in Hr. }
    exists (rules t). split; [done|]. apply list_elem_of_fmap. exists (active_rules c ti).
    unfold active_rules at 1. rewrite Ht. split; [done|]. apply list_elem_of_fmap_2.
    apply list_elem_of_lookup. exists i. by rewrite lookup_take_lt by lia.
Qed.

Lemma search_ok c n rs v :
  classifier_ok c n rs → Forall (λ r, is_valid (rvalue r) = true) rs → NoDup (fields <$> rs) →
  length v = D → Forall (λ x, 0 ≤ x < 65536) v →
  ∃ w, Classifier.search v c = (Ok w, c) ∧ classified rs v w.
Proof.
  intros Hc Hval Hsame Hl Hv. rewrite Forall_forall in Hval.
  destruct (search_classified c (active_rules c <$> take (tree_cnt c) (trees c)) v) as (w & Hw & Hcl).
  - rewrite length_fmap, length_take, (trees_length _ _ _ Hc). pose proof (co_cnt _ _ _ Hc). lia.
  - intros i mp rs' Hi. rewrite list_lookup_fmap in Hi. apply fmap_Some in Hi as (ti & Hi & He).
    apply lookup_take_Some in Hi as [Hi Hlt]. pose proof (co_cnt _ _ _ Hc).
    destruct (tree_info_at c n rs i Hc) as (ti' & t & Hti' & Ht); [lia|]. simplify_eq.
    unfold active_rules, max_priority_getter in He. rewrite Ht in He. injection He as -> ->.
    pose proof (co_info _ _ _ Hc ti t Ht) as Hinfo. exists ti, t. split_and!; [done..| | |apply Hinfo].
    + apply (law_search _ n (stored_trees c) ti); [apply Hc|by apply stored_trees_lookup|done..].
    + assert (∀ r, r ∈ rules t → r ∈ rs) as Hin.
      { intros r Hr. rewrite <- (co_rules _ _ _ Hc), elem_of_concat. exists (rules t). split; [done|].
        apply list_elem_of_fmap_2. by eapply list_elem_of_lookup_2. }
      pose proof (io_rules _ Hinfo) as Hok. rewrite Forall_forall in Hok.
      apply (linear_search_spec (tree_dimension_order (tree t))); [apply Hinfo|done|done| |done].
      split; [apply Hinfo|apply Forall_forall; intros r Hr; by apply Hval, Hin|apply Hinfo|].
      intros r r' Hr Hr' Hk. f_equal. apply (NoDup_fmap_elem fields rs); [done|by apply Hin..|].
      eapply rule_keys_fields; [apply Hinfo|by apply Hok..|done].
  - assert (∀ l, descending (max_priority_getter (infos c)) l → StronglySorted (λ a b, b.1 ≤ a.1) (active_rules c <$> l)) as Hs.
    { intros l Hs. eapply StronglySorted_fmap; [|exact Hs]. done. }
    apply Hs, Hc.
  - exists w. split; [done|]. eapply classified_ext; [|exact Hcl]. intros r. by eapply active_rules_elem.
Qed.

Lemma ctor_ok a n :
  tree_dimension_order tree_new ≡ₚ seq 0 D → tree_holds a n (replicate MAX_TREE_CNT (tree_new, [])) →
  classifier_ok (PartitionSortClassifer_ctor MAX_TREE_CNT a) n [].
Proof.
  intros Ho Hh. split; cbn [alloc infos trees tree_cnt rule_to_tree PartitionSortClassifer_ctor length take].
  - unfold stored_trees. cbn. by rewrite fmap_replicate.
  - by rewrite length_replicate.
  - done.
  - lia.
  - constructor.
  - intros ti t [-> _]%lookup_replicate. split; cbn; try done; [lia|by intros r r' ?%elem_of_nil].
  - by intros i ti t _ _ [-> _]%lookup_replicate.
  - rewrite fmap_replicate. cbn [rules new_tree_info]. clear. by induction MAX_TREE_CNT.
  - by intros r ti ?%elem_of_nil.
Qed.

(** A sequence of insertions of rules with new ranges stops only when all trees
    are in use. *)
Lemma insert_all_ok f m rs c stored :
  classifier_ok c (length rs + m) stored → Forall rule_ok16 rs → Forall law_rule rs →
  Forall (λ r, is_valid (rvalue r) = true) rs → NoDup (fields <$> rs ++ stored) →
  ∃ k c' m', (k ≤ length rs)%nat ∧ (k = length rs ∨ tree_cnt c' = MAX_TREE_CNT)
    ∧ for_each rs (insert_fuel f) c
      = (if decide (k = length rs) then Ok tt
         else Err (runtime_error "all tress used (need to implement tree merging)"), c')
    ∧ classifier_ok c' m' (reverse (take k rs) ++ stored).
Proof.
  revert c stored. induction rs as [|r rs IH]; intros c stored Hc Hrs Hlaw Hval Hnd.
  { exists 0%nat, c, m. split_and!; [done|by left|done|done]. }
  apply Forall_cons in Hrs as [Hr Hrs], Hlaw as [Hlr Hlaw], Hval as [Hvr Hval].
  cbn [for_each length Nat.add app fmap list_fmap] in *. pose proof Hnd as [Hnr Hnd']%NoDup_cons.
  assert (admitted stored r) as Hadm.
  { split; [done..|]. intros r' Hr' He. apply Hnr. rewrite <- He. apply list_elem_of_fmap_2, elem_of_app. by right. }
  destruct (insert_step_ok f c _ stored r Hc Hadm) as [(c1 & H1 & Hc1)|[Hcnt H1]].
  - destruct (IH c1 (r :: stored) Hc1 Hrs Hlaw Hval) as (k & c' & m' & Hk & Hor & Hrun & Hc').
    { rewrite fmap_app. cbn [fmap list_fmap]. by rewrite <- Permutation_middle, <- fmap_app. }
    rewrite (bind_ok _ _ _ _ _ H1), Hrun. exists (S k), c', m'. cbn [take]. rewrite reverse_cons, <- app_assoc.
    split_and!; [lia|destruct Hor; [left; lia|by right]| |done].
    f_equal. repeat case_decide; done || lia.
  - exists 0%nat, c, (S (length rs + m)). split_and!; [lia|by right| |done].
    rewrite decide_False by lia. unfold mbind, M_bind. by rewrite H1.
Qed.

(** Rules inserted one after the other into a new classifier. *)
Lemma classifier_insert_search_ok f a rs :
  tree_holds a (length rs) (replicate MAX_TREE_CNT (tree_new, [])) →
  Forall rule_ok16 rs → Forall law_rule rs → Forall (λ r, is_valid (rvalue r) = true) rs → NoDup (fields <$> rs) →
  ∃ k c, (k ≤ length rs)%nat ∧ (length rs ≤ MAX_TREE_CNT → k = length rs)%nat
    ∧ for_each rs (insert_fuel f) (PartitionSortClassifer_ctor MAX_TREE_CNT a)
      = (if decide (k = length rs) then Ok tt
         else Err (runtime_error "all tress used (need to implement tree merging)"), c)
    ∧ ∀ v, length v = D → Forall (λ x, 0 ≤ x < 65536) v →
        ∃ w, Classifier.search v c = (Ok w, c) ∧ classified (take k rs) v w.
Proof.
  intros Hh Hrs Hlaw Hval Hnd. pose proof (ctor_ok a (length rs) law_new Hh) as Hc.
  rewrite <- (Nat.add_0_r (length rs)) in Hc.
  destruct (insert_all_ok f 0 rs _ [] Hc Hrs Hlaw Hval) as (k & c & m & Hk & Hor & Hrun & Hc'); [by rewrite app_nil_r|].
  rewrite app_nil_r in Hc'.
  exists k, c. split_and!; [done| |done|].
  - intros Hlen. destruct Hor as [|Hfull]; [done|]. pose proof (co_cnt _ _ _ Hc') as [_ Hcnt].
    rewrite Hfull, length_reverse, length_take in Hcnt. lia.
  - assert (∀ r, r ∈ reverse (take k rs) → r ∈ rs) as Hin.
    { intros r (i & Hi & _)%elem_of_reverse%elem_of_take. by eapply list_elem_of_lookup_2. }
    intros v Hl Hv. rewrite Forall_forall in Hval.
    destruct (search_ok c m _ v Hc') as (w & Hw & Hcl); [apply Forall_forall; intros r Hr; by apply Hval, Hin| |done..|].
    { rewrite reverse_Permutation. rewrite <- (take_drop k rs), fmap_app in Hnd. by apply NoDup_app in Hnd as [? _]. }
    exists w. split; [done|]. eapply classified_ext; [|exact Hcl]. intros r. by rewrite elem_of_reverse.
Qed.

(** C3. Rules with pairwise different ranges, inserted one after the other into
    a new classifier over trees that keep the promises of [TREE_LAWS], are all
    stored, unless all trees are in use, which takes more rules than trees;
    every packet is then answered with a matching rule of the greatest priority
    among the stored ones, or with the default value when none matches. *)
Theorem classifier_insert_search f a rs :
  tree_holds a (length rs) (replicate MAX_TREE_CNT (tree_new, [])) →
  Forall rule_ok16 rs → Forall law_rule rs → Forall (λ r, is_valid (rvalue r) = true) rs → NoDup (fields <$> rs) →
  ∃ k c, (k ≤ length rs)%nat ∧ (length rs ≤ MAX_TREE_CNT → k = length rs)%nat
    ∧ for_each rs (insert_fuel f) (PartitionSortClassifer_ctor MAX_TREE_CNT a)
      = (if decide (k = length rs) then Ok tt
         else Err (runtime_error "all tress used (need to implement tree merging)"), c)
    ∧ ∀ v, length v = D → Forall (λ x, 0 ≤ x < 65536) v →
        ∃ w, Classifier.search v c = (Ok w, c) ∧ classified (take k rs) v w.
Proof. apply classifier_insert_search_ok. Qed.
End insert.
