(* ===== verification/ListTree.v ===== *)
(** * A tree as a list of rules

    The plainest tree that keeps the promises of [TREE_LAWS]: the list of its
    rules beside the order of its dimensions; the allocator counts the rules
    that still fit.  The classifier is run over it. *)
From S2P Require Import Prelude Range RuleValue Node Build BuildSpec Schedule DimOrder Common BTreeImpl TreeInterface Classifier ClassifierSpec ClassifierInsert.
Local Open Scope Z_scope.

Section ListTree.
Context `{cfg : !BTreeCfg} {V : Type} `{!RuleValue V, !RuleValueLaws V}.
Implicit Types (rs : list (rule_spec_t V)).

Record ListTree : Type := mkListTree {
  lt_order : list nat;
  lt_rules : list (rule_spec_t V);
}.

#[export] Instance ListTree_TREE_T : TREE_T nat ListTree V := {|
  tree_new := mkListTree (seq 0 D) [];
  tree_insert t r := n ← gets id;
    match n with
    | O => throw (runtime_error "full")
    | S n => modify (λ _, n);; mret (mkListTree (lt_order t) (lt_rules t ++ [r]))
    end;
  tree_remove t r := mret (mkListTree (lt_order t) (filter (λ r', fields r' ≠ fields r) (lt_rules t)));
  tree_does_rule_colide t r := mret (negb (bool_decide
    (Forall (λ r', compatible (rule_keys (lt_order t) r') (rule_keys (lt_order t) r)) (lt_rules t))));
  tree_search t v := mret (linear_search (lt_rules t) v);
  tree_clear t := mret (mkListTree (lt_order t) []);
  tree_dimension_order := lt_order;
  tree_set_dimension_order o t := mkListTree o (lt_rules t);
|}.

(** The allocator has room for [n] rules, and the trees hold their rules. *)
Definition lists_hold (a n : nat) (ts : list (ListTree * list (rule_spec_t V))) : Prop :=
  (n ≤ a)%nat ∧ Forall (λ x, lt_rules x.1 = x.2) ts.

Lemma lists_hold_set a a' n n' i t rs ts :
  lists_hold a n ts → (n' ≤ a')%nat → lt_rules t = rs → lists_hold a' n' (<[i := (t, rs)]> ts).
Proof. intros [_ Hts] Hn Ht. split; [done|]. by apply Forall_insert. Qed.

#[export] Program Instance ListTree_TREE_LAWS : TREE_LAWS (A := nat) (Tr := ListTree) (V := V) := {|
  law_rule r := True;
  tree_holds := lists_hold;
|}.
Next Obligation. done. Qed.
Next Obligation.
  intros a n ts i t rs r [_ Hts] Hi Hr _. pose proof (Forall_lookup_1 _ _ _ _ Hts Hi) as Ht. cbn in Ht. subst rs. cbn.
  eexists. split; [done|]. rewrite negb_false_iff, bool_decide_eq_true, Forall_forall. done.
Qed.
Next Obligation.
  intros a n ts i t rs r Hh Hi Hr _ _ Hf _. pose proof (Forall_lookup_1 _ _ _ _ (proj2 Hh) Hi) as Ht. cbn in Ht.
  destruct a as [|a]; [destruct Hh; lia|]. eexists (mkListTree _ _), a. split; [done|]. split; [done|].
  eapply lists_hold_set; [done|destruct Hh; lia|]. cbn. by rewrite Ht.
Qed.
Next Obligation.
  intros a n ts i t rs u order Hh Hi _ _ _. pose proof (Forall_lookup_1 _ _ _ _ (proj2 Hh) Hi) as Ht.
  split; [|done]. by eapply lists_hold_set; [|apply Hh|].
Qed.
Next Obligation.
  intros a n ts i t rs v [_ Hts] Hi _ _. pose proof (Forall_lookup_1 _ _ _ _ Hts Hi) as Ht. cbn in Ht. by subst rs.
Qed.
End ListTree.
Arguments ListTree V : clear implicits.

Module ListExample.
#[local] Instance cfg3 : BTreeCfg := mkCfg 2 3 1000 4 true.
#[local] Existing Instance insertion_StdSort.

(** The second rule collides with the first; the fourth finds no tree. *)
Definition four_rules : list (rule_spec_t RuleValueInt) :=
  [mkRule [mkRange 1 1; mkRange 0 65535; mkRange 0 65535] (RuleValueInt_ctor 10 1);
   mkRule [mkRange 0 5; mkRange 2 2; mkRange 0 65535] (RuleValueInt_ctor 20 2);
   mkRule [mkRange 2 2; mkRange 0 65535; mkRange 7 9] (RuleValueInt_ctor 30 3);
   mkRule [mkRange 0 3; mkRange 0 4; mkRange 8 9] (RuleValueInt_ctor 5 4)].

Lemma classifier_insert_search_witness :
  (∃ k c, (k ≤ 4)%nat ∧ (4 ≤ 2 → k = 4)%nat
    ∧ for_each four_rules (Classifier.insert (A := nat) (Tr := ListTree RuleValueInt) 2 3 2 1 2)
        (PartitionSortClassifer_ctor 2 4%nat)
      = (if decide (k = 4%nat) then Ok tt
         else Err (runtime_error "all tress used (need to implement tree merging)"), c)
    ∧ ∀ v, length v = D → Forall (λ x, 0 ≤ x < 65536) v →
        ∃ w, Classifier.search v c = (Ok w, c) ∧ classified (take k four_rules) v w)
  ∧ (for_each (take 3 four_rules) (Classifier.insert (A := nat) (Tr := ListTree RuleValueInt) 2 3 2 1 2);;
     Classifier.search [2; 2; 8]) (PartitionSortClassifer_ctor 2 4%nat)
    = (Ok (RuleValueInt_ctor 30 3),
       ((for_each (take 3 four_rules) (Classifier.insert (A := nat) (Tr := ListTree RuleValueInt) 2 3 2 1 2))
          (PartitionSortClassifer_ctor 2 4%nat)).2).
Proof.
  split; [|vm_compute; reflexivity].
  apply (classifier_insert_search (A := nat) (Tr := ListTree RuleValueInt) (cfg := cfg3) eq_refl 2 1
    ltac:(apply Nat.leb_le; reflexivity) ltac:(lia) ltac:(lia) 0 4%nat four_rules).
  - split; [apply Nat.leb_le; reflexivity|repeat constructor].
  - repeat (constructor; [repeat split; repeat constructor; done|]). constructor.
  - repeat constructor.
  - repeat (constructor; [reflexivity|]). constructor.
  - refine (bool_decide_unpack _ _). vm_compute. exact I.
Defined.
End ListExample.
