(* ===== verification/BTreeLaws.v ===== *)
(** * The B-trees of the classifier

    The B-trees over one pool of nodes keep the promises of [TREE_LAWS] for
    rules of at most two ranges that are prefixes and not wildcards: then no
    compressed node lies behind a layer, the overlap test of ranges is exact
    and a rule is stored at the last level.  The classifier over them answers
    like the linear search for the best rule. *)
From S2P Require Import Prelude Range RuleValue Mempool Node NodeLemmas Schedule Search Layer LayerSearch Trie TrieSearch Footprint Slots Insert Chain InsertLayer InsertRoot InsertNext InsertWalk InsertAct TrieInsert InsertSpec Build BuildSpec DimOrder Common BTreeImpl Destroy Remove Rotate RemoveSpec RemoveRule CollisionSpec TreeInterface Classifier ClassifierSpec ClassifierInsert.
Local Open Scope Z_scope.

(** ** Prefixes *)

(** The ranges of a prefix: [2 ^ w] values from a multiple of [2 ^ w] on. *)
Definition is_prefix (k : Range1d) : Prop :=
  ∃ m w, 0 ≤ w ∧ low k = m * 2 ^ w ∧ high k = (m + 1) * 2 ^ w - 1.

(** Two prefixes are nested or disjoint. *)
Lemma prefix_exact k e :
  is_prefix k → is_prefix e → low k < low e → high k < high e → high k < low e.
Proof.
  intros (m1 & w1 & Hw1 & -> & ->) (m2 & w2 & Hw2 & -> & ->) Hl Hh.
  destruct (Z.le_ge_cases w1 w2) as [Hw|Hw].
  - assert (2 ^ w2 = 2 ^ (w2 - w1) * 2 ^ w1) as He by (rewrite <- Z.pow_add_r by lia; f_equal; lia).
    pose proof (Z.pow_pos_nonneg 2 w1 ltac:(lia) Hw1). rewrite He, Z.mul_assoc in *.
    apply Z.mul_lt_mono_pos_r in Hl; [|done].
    assert ((m1 + 1) * 2 ^ w1 ≤ m2 * 2 ^ (w2 - w1) * 2 ^ w1) by (apply Z.mul_le_mono_nonneg_r; lia). lia.
  - assert (2 ^ w1 = 2 ^ (w1 - w2) * 2 ^ w2) as He by (rewrite <- Z.pow_add_r by lia; f_equal; lia).
    pose proof (Z.pow_pos_nonneg 2 w2 ltac:(lia) Hw2). rewrite He, Z.mul_assoc in *.
    assert ((m1 + 1) * 2 ^ (w1 - w2) < m2 + 1) by (apply (Z.mul_lt_mono_pos_r (2 ^ w2)); lia).
    assert ((m1 + 1) * 2 ^ (w1 - w2) * 2 ^ w2 ≤ m2 * 2 ^ w2) by (apply Z.mul_le_mono_nonneg_r; lia). lia.
Qed.

(** ** The trie of the rules *)

Section trie.
Context {V : Type} `{!RuleValue V}.
Implicit Types (ks : list Range1d) (tr : option (trie V)).

Lemma no_overlap_compatible ks tr ks' w : no_overlap ks tr → stored tr ks' w → compatible ks' ks.
Proof.
  intros Hno Hs. revert ks Hno. induction Hs as [es k v nl Hin|es k v nl ks' w Hin _ IH]; intros [|k0 ks] Hno; try done.
  - cbn in *. destruct Hno as [Hno _]. rewrite Forall_forall in Hno. specialize (Hno _ Hin). cbn in Hno. tauto.
  - cbn in *. destruct Hno as [Hno Hn]. rewrite Forall_forall in Hno.
    destruct (Hno _ Hin) as [He|Hd]; [left|by right]. split; [done|]. by apply IH, (Hn _ Hin).
Qed.

Lemma exact_overlaps_stored ks tr :
  Forall is_prefix ks → (∀ ks' w, stored tr ks' w → Forall is_prefix ks') → exact_overlaps ks tr.
Proof.
  intros Hks. revert tr. induction Hks as [|k ks Hk _ IH]; intros [[es]|] Hs; try done. split.
  - apply Forall_forall. intros [[k' v] nl] Hin. cbn. apply prefix_exact; [done|].
    pose proof (Hs _ _ (stored_here _ _ _ _ Hin)) as Hp. by apply Forall_cons in Hp as [? _].
  - intros [[k' v] nl] Hin _. apply IH. intros ks' w Hs'.
    pose proof (Hs _ _ (stored_next _ _ _ _ _ _ Hin Hs')) as Hp. by apply Forall_cons in Hp as [_ ?].
Qed.

(** An insertion adds one entry for each range at most. *)
Lemma new_trie_size ks v : o_size (new_trie ks v) = length ks.
Proof.
  induction ks as [|k ks IH]; [done|]. cbn [new_trie length]. unfold o_size at 1.
  rewrite t_size_entries. cbn [sum_list_with snd]. rewrite IH. lia.
Qed.

Lemma insert_entry_size e (es : list (Range1d * V * option (trie V))) :
  t_size (Entries (insert_entry e es)) = (1 + o_size e.2 + t_size (Entries es))%nat.
Proof.
  rewrite !t_size_entries. induction es as [|e' es IH]; cbn [insert_entry]; [cbn [sum_list_with]; lia|].
  case_match; cbn [sum_list_with] in *; lia.
Qed.

Lemma update_entry_size (es : list (Range1d * V * option (trie V))) j e e' :
  es !! j = Some e → (t_size (Entries (<[j := e']> es)) + o_size e.2 = t_size (Entries es) + o_size e'.2)%nat.
Proof.
  intros Hj. pose proof (lookup_lt_Some _ _ _ Hj). rewrite !t_size_entries, (insert_take_drop es j) by done.
  rewrite <- (take_drop_middle es j e Hj) at 3. rewrite !sum_list_with_app. cbn. lia.
Qed.

Lemma t_insert_size n ks v tr : (o_size (t_insert n ks v tr) ≤ length ks + o_size tr)%nat.
Proof.
  revert n tr. induction ks as [|k ks IH]; intros n [[es]|]; cbn [t_insert]; try (rewrite new_trie_size, length_take; lia).
  - cbn. lia.
  - destruct (find_key k es) as [[j [[k' v0] nl]]|] eqn:Hf; cbn [o_size length].
    + apply find_key_Some in Hf as [Hj _].
      match goal with |- context [<[j := ?x]> es] => set (e' := x) end.
      pose proof (update_entry_size es j _ e' Hj) as Hs. cbn [snd] in Hs.
      assert (o_size e'.2 ≤ length ks + o_size nl)%nat; [|lia].
      subst e'. destruct (_ || _); cbn [snd]; [apply IH|lia].
    + rewrite insert_entry_size. cbn [snd]. rewrite new_trie_size, length_take. lia.
Qed.
End trie.

Section plain.
Context `{cfg : !BTreeCfg} {V : Type} `{!RuleValue V}.
Implicit Types (p : Heap V) (g : gtrie V).

Lemma layered_nexts t nexts : (∀ g, Some g ∈ nexts → layered g) → layered (GLayer t nexts).
Proof.
  cbn. induction nexts as [|o nexts IH]; intros Hn; [done|]. split.
  - destruct o as [g|]; [|done]. apply Hn. by left.
  - apply IH. intros g Hg. apply Hn. by right.
Qed.

Lemma layer_next_rep p H order level t nexts g :
  g_rep p H order level (GLayer t nexts) → Some g ∈ nexts → g_rep p H order (S level) g.
Proof.
  intros (_ & _ & _ & Hn)%g_rep_layer [i Hi]%list_elem_of_lookup.
  by destruct (Forall2_lookup_r _ _ _ _ _ Hn Hi) as (x & _ & _ & Hg).
Qed.

(** A compressed node takes two levels: with two dimensions it is the root. *)
Lemma two_levels_layered p H order g level :
  g_rep p H order level g → (length order ≤ 2)%nat → (1 ≤ level)%nat → layered g.
Proof.
  intros Hg Hl. revert level Hg. induction g as [t nexts IH|a c cs nl IH] using gtrie_ind'; intros level Hg Hle.
  - apply layered_nexts. intros g Hin. apply (IH g Hin (S level)); [by eapply layer_next_rep|lia].
  - pose proof Hg as ((nd & _ & Hc) & Hcs & _)%g_rep_chain. destruct cs as [|c1 cs]; [done|].
    destruct (cr_dims _ _ _ _ Hc 1) as (d & Hd%lookup_lt_Some & _); [cbn; lia|]. lia.
Qed.

Lemma two_levels_plain p fl H order o : stores p fl H order o → (length order ≤ 2)%nat → plain o.
Proof.
  intros [_ Hg _ _] Hl. destruct o as [[t nexts|a c cs nl]|]; [| |done]; specialize (Hg _ eq_refl).
  - apply (layered_nexts t). intros g Hin. by eapply two_levels_layered; [eapply layer_next_rep| |].
  - destruct nl as [g|]; [|done].
    apply (two_levels_layered p H order _ (0 + length (c :: cs))); [by eapply chain_last_rep|done|cbn; lia].
Qed.
End plain.

(** ** The trees of one pool *)

Section laws.
Context `{cfg : !BTreeCfg, Hok : !CfgOk} {V : Type} `{!RuleValue V, !RuleValueLaws V}.
(** The greatest height of a layer and number of entries of a tree. *)
Context (fuel Hmax Smax : nat).
Hypothesis HPC : PATH_COMPRESSION = true.
Hypothesis HK : KEY_SIZE = 2%nat.
Hypothesis HD : (1 ≤ D ≤ 2)%nat.
Hypothesis Hfuel : (insert_fuel Hmax (seq 0 D) ≤ fuel)%nat.
Hypothesis Hfuel2 : (Smax + 2 * Hmax ≤ fuel)%nat.
Implicit Types (p : Heap V) (t : BTree) (r : rule_spec_t V) (rs : list (rule_spec_t V)) (o : option (gtrie V)).

#[local] Instance ops : TREE_T (Heap V) BTree V := BTree_TREE_T fuel.

(** A rule all of whose ranges are prefixes and not wildcards. *)
Definition prefix_rule r : Prop := Forall (λ k, is_prefix k ∧ is_wildcard 2 k = false) (fields r).

(** The tree [t] stores the rules [rs] in the nodes of [o]; [n] more fit. *)
Record tree_stored p (fl : list nat) (n : nat) (t : BTree) rs o : Prop := {
  ts_order : bt_dimension_order t ≡ₚ seq 0 D;
  ts_position : bt_in_packet_position t = default_in_packet_position;
  ts_root : g_addr <$> o = root t;
  ts_height : ∃ H, (1 ≤ H)%nat ∧ (H + n ≤ Hmax)%nat ∧ stores p fl H (bt_dimension_order t) o;
  ts_size : (o_size (abs <$> o) + D * n ≤ Smax)%nat;
  ts_trie : trie_of (bt_dimension_order t) rs (abs <$> o);
  ts_ok : Forall rule_ok16 rs;
  ts_prefix : Forall prefix_rule rs;
  ts_valid : Forall (λ r, is_valid (rvalue r) = true) rs;
  ts_compatible : ∀ r r', r ∈ rs → r' ∈ rs →
    compatible (rule_keys (bt_dimension_order t) r) (rule_keys (bt_dimension_order t) r');
}.

(** The trees are stored in nodes of their own. *)
Definition trees_stored p (n : nat) (ts : list (BTree * list (rule_spec_t V))) : Prop :=
  ∃ fl os, Forall2 (λ x o, tree_stored p fl n x.1 x.2 o) ts os
    ∧ NoDup (concat (o_addrs <$> os)) ∧ (n * (Hmax + D + 10) ≤ length fl)%nat.

(** *** Rules without wildcards *)

Lemma order_D order : order ≡ₚ seq 0 D → length order = D ∧ Forall (λ d, (d < D)%nat) order.
Proof. intros Hp. by destruct (order_facts order Hp) as (? & ? & _). Qed.

Lemma prefix_rule_keys order r :
  order ≡ₚ seq 0 D → rule_ok r → prefix_rule r →
  Forall (λ k, is_prefix k ∧ is_wildcard 2 k = false) (rule_keys order r).
Proof.
  intros Hp Hr Hpre. destruct (order_D order Hp) as [Hlo Hod]. destruct (rule_keys_ok order r Hr Hod) as [Hks _].
  unfold prefix_rule in Hpre. rewrite Forall_lookup in Hpre. apply Forall_lookup. intros i k Hk.
  destruct (Forall2_lookup_r _ _ _ _ _ Hks Hk) as (d & _ & Hd). by apply (Hpre d).
Qed.

(** Such a rule is stored at the last level. *)
Lemma prefix_rule_levels order r :
  order ≡ₚ seq 0 D → rule_ok r → prefix_rule r → levels order r = D.
Proof.
  intros Hp Hr Hpre. destruct (order_D order Hp) as [Hlo Hod]. unfold levels, total_levels_required_cnt.
  destruct (rule_keys_lookup HK order Hlo (proj1 HD) Hod r (D - 1) Hr) as (d & k & Hd & Hf & _); [lia|].
  rewrite Hlo. replace D with (S (D - 1)) at 1 by lia. cbn [total_levels_required_loop]. rewrite Hd. cbn. rewrite Hf. cbn.
  unfold prefix_rule in Hpre. rewrite Forall_lookup in Hpre. destruct (Hpre _ _ Hf) as [_ Hw].
  rewrite HK, Hw. cbn. lia.
Qed.

Lemma prefix_rule_trim order r :
  order ≡ₚ seq 0 D → rule_ok r → prefix_rule r → trim order r = rule_keys order r.
Proof.
  intros Hp Hr Hpre. destruct (order_D order Hp) as [Hlo _]. unfold trim.
  rewrite prefix_rule_levels by done. apply take_ge. by rewrite rule_keys_length, Hlo.
Qed.

(** *** The operations of one tree *)

Section tree.
Context p fl (n : nat) t rs o (Hst : tree_stored p fl n t rs o).

Lemma stored_path_of ks w :
  stored (abs <$> o) ks w → ∃ r, r ∈ rs ∧ ks `prefix_of` rule_keys (bt_dimension_order t) r.
Proof.
  intros Hs. destruct (to_paths _ _ _ (ts_trie _ _ _ _ _ _ Hst) _ _ Hs) as (r & Hr & Hp). exists r. split; [done|].
  etrans; [exact Hp|apply prefix_take].
Qed.

Lemma rule_stored r : r ∈ rs → ∃ w, stored (abs <$> o) (rule_keys (bt_dimension_order t) r) w.
Proof.
  intros Hr. pose proof Hst as [Ho _ _ _ _ Ht Hrs Hpre Hval _]. rewrite Forall_forall in Hrs, Hpre, Hval.
  destruct (last_value_some (bt_dimension_order t) rs r Hr) as [w Hw]. exists w.
  rewrite <- (prefix_rule_trim _ r) by (done || apply Hrs, Hr || apply Hpre, Hr).
  apply (to_values _ _ _ Ht); [|done]. destruct (last_value_in _ _ _ _ Hw) as (r' & Hr' & _ & <-). by apply Hval.
Qed.

(** No overlap with the stored paths is what it takes to fit. *)
Lemma fits_no_overlap r :
  rule_ok16 r → fits (bt_dimension_order t) rs r ↔ no_overlap (rule_keys (bt_dimension_order t) r) (abs <$> o).
Proof.
  intros [Hr _]. destruct (order_D _ (ts_order _ _ _ _ _ _ Hst)) as [Hlo Hod].
  destruct (rule_keys_ok _ r Hr Hod) as [_ Hv]. split.
  - intros Hf. apply no_overlap_stored; [done|]. intros ks w (r' & Hr' & Hp)%stored_path_of.
    by eapply compatible_prefix; [|apply Hf].
  - intros Hno r' [w Hw]%rule_stored. by eapply no_overlap_compatible.
Qed.

Lemma colide_run r :
  rule_ok16 r → prefix_rule r →
  ∃ b, btree_does_rule_colide fuel t r p = (Ok b, p) ∧ (b = false ↔ fits (bt_dimension_order t) rs r).
Proof.
  intros Hr Hpre. pose proof (fits_no_overlap r Hr) as Hfit. pose proof Hst as [Ho _ Hroot (H & HH & HHn & Hs) Hsize _ Hrs Hprs _ _].
  destruct (order_D _ Ho) as [Hlo Hod]. destruct (rule_keys_ok _ r (proj1 Hr) Hod) as [Hks Hv].
  pose proof Hs as [Hp Hg Hnd Hne].
  exists (t_collides (rule_keys (bt_dimension_order t) r) (abs <$> o)). split.
  - unfold btree_does_rule_colide. rewrite <- Hroot.
    eapply (does_rule_colide_ok p fl H); [done..| |done|lia]. eapply two_levels_plain; [exact Hs|lia].
  - rewrite Hfit. apply t_collides_no_overlap; [| |done|].
    + destruct o as [g|]; [by eapply abs_disjoint, Hg|constructor].
    + destruct o as [g|]; [by eapply abs_valid, Hg|constructor].
    + apply exact_overlaps_stored.
      * eapply Forall_impl; [by apply prefix_rule_keys; [|apply Hr|]|]. by intros k [? _].
      * intros ks w (r' & Hr' & Hpk)%stored_path_of. rewrite Forall_forall in Hrs, Hprs.
        assert (Forall is_prefix (rule_keys (bt_dimension_order t) r')) as Hk.
        { eapply Forall_impl; [apply (prefix_rule_keys _ r'); [done|apply Hrs, Hr'|by apply Hprs]|]. by intros k [? _]. }
        destruct Hpk as [l Hl]. rewrite Hl in Hk. by apply Forall_app in Hk as [? _].
Qed.

Lemma search_run v :
  length v = D → Forall (λ x, 0 ≤ x < 65536) v → btree_search fuel t v p = (Ok (linear_search rs v), p).
Proof.
  intros Hl Hv. pose proof Hst as [Ho Hpos Hroot (H & HH & HHn & Hs) _ Ht Hrs _ Hval Hc].
  destruct (order_D _ Ho) as [Hlo _]. unfold btree_search. rewrite Hpos, <- Hroot.
  apply (stored_lookup p fl H); try done; [lia|]. etrans; [|exact Hfuel].
  unfold insert_fuel, fuel_bound. rewrite Hlo, length_seq.
  assert (S (S H) * D ≤ S (S Hmax) * D)%nat by (apply Nat.mul_le_mono_r; lia). lia.
Qed.
End tree.

Lemma insert_fuel_le H order : (H ≤ Hmax)%nat → length order = D → (insert_fuel H order ≤ fuel)%nat.
Proof.
  intros HH Hlo. etrans; [|exact Hfuel]. unfold insert_fuel, fuel_bound. rewrite Hlo, length_seq.
  assert (S (S H) * D ≤ S (S Hmax) * D)%nat by (apply Nat.mul_le_mono_r; lia). lia.
Qed.

(** A rule with new ranges has a path that is not stored yet. *)
Lemma new_rule_matched p fl n t rs o r :
  tree_stored p fl n t rs o → rule_ok16 r → (∀ r', r' ∈ rs → fields r' ≠ fields r) →
  (matched (rule_keys (bt_dimension_order t) r) (abs <$> o) < D)%nat.
Proof.
  intros Hst Hr Hnew. destruct (order_D _ (ts_order _ _ _ _ _ _ Hst)) as [Hlo Hod].
  apply (full_paths_matched _ (rule_keys (bt_dimension_order t) <$> rs)); [done|lia| |].
  - intros ks w (r' & Hr' & Hp)%(stored_path_of _ _ _ _ _ _ Hst) Hl.
    rewrite (prefix_length_eq _ _ Hp) by (by rewrite Hl, rule_keys_length, Hlo). by apply list_elem_of_fmap_2.
  - intros (r' & He & Hr')%list_elem_of_fmap. apply (Hnew r' Hr').
    pose proof (ts_ok _ _ _ _ _ _ Hst) as Hrs. rewrite Forall_forall in Hrs.
    symmetry. apply (rule_keys_fields (bt_dimension_order t));
      [apply (ts_order _ _ _ _ _ _ Hst)|apply Hr|apply Hrs, Hr'|done].
Qed.

Lemma insert_run p fl n t rs o r :
  tree_stored p fl (S n) t rs o → rule_ok16 r → prefix_rule r → is_valid (rvalue r) = true →
  fits (bt_dimension_order t) rs r → (∀ r', r' ∈ rs → fields r' ≠ fields r) → (Hmax + D + 10 ≤ length fl)%nat →
  ∃ p' t' g m, btree_insert fuel t r p = (Ok t', p') ∧ bt_dimension_order t' = bt_dimension_order t
    ∧ (m ≤ Hmax + D + 10)%nat ∧ tree_stored p' (drop m fl) n t' (rs ++ [r]) (Some g)
    ∧ modifies p p' (o_addrs o) (g_addrs g).
Proof.
  intros Hst Hr Hpre Hval Hf Hnew Hfl. pose proof (new_rule_matched _ _ _ _ _ _ _ Hst Hr Hnew) as Hm.
  pose proof (proj1 (fits_no_overlap _ _ _ _ _ _ Hst r Hr) Hf) as Hno.
  pose proof Hst as [Ho Hpos Hroot (H & HH & HHn & Hs) Hsize Ht Hrs Hprs Hvals Hc].
  destruct (order_D _ Ho) as [Hlo Hod]. destruct (rule_keys_ok _ r (proj1 Hr) Hod) as [Hks Hv].
  destruct (insert_rule_ok p fl H (bt_dimension_order t) o r (rule_keys (bt_dimension_order t) r) fuel) as
    (p' & g & req & m & Hrun & Hreq & Hmn & Hst' & Habs & Hmod); try done; [lia|lia|apply insert_fuel_le; [lia|done]|].
  assert (abs <$> Some g = t_insert_rule (bt_dimension_order t) (abs <$> o) r) as Habs'.
  { unfold t_insert_rule. rewrite Hreq. exact Habs. }
  exists p', (bt_set_root (Some (g_addr g)) t), g, m. split_and!; [|done|lia| |exact Hmod].
  - unfold btree_insert. rewrite <- Hroot. by run_ok by (exact Hrun).
  - assert (∀ r', r' ∈ rs → compatible (rule_keys (bt_dimension_order t) r) (rule_keys (bt_dimension_order t) r')) as Hcr.
    { intros r' Hr'. by apply compatible_sym, Hf. }
    split; cbn [bt_set_root bt_dimension_order bt_in_packet_position root]; try done.
    + exists (S H). split_and!; [lia|lia|done].
    + rewrite Habs'. unfold t_insert_rule. rewrite Hreq. cbn [default id].
      pose proof (t_insert_size req (rule_keys (bt_dimension_order t) r) (rvalue r) (abs <$> o)) as Hsz.
      rewrite rule_keys_length, Hlo in Hsz. lia.
    + rewrite Habs'. by apply (trie_of_step HK _ Hlo (proj1 HD) Hod); [apply default_invalid| | | |].
    + apply Forall_app. by split; [|constructor].
    + apply Forall_app. by split; [|constructor].
    + apply Forall_app. by split; [|constructor].
    + intros r1 r2. rewrite !elem_of_app, !list_elem_of_singleton. intros [H1| ->] [H2| ->];
        [by apply Hc|by apply Hf|by apply Hcr|apply compatible_refl].
Qed.

(** The other trees of the pool. *)
Lemma tree_stored_frame p p' fl fl' F F' n n' t rs o :
  tree_stored p fl n t rs o → heap_ok p' fl' → modifies p p' F F' → (∀ a, a ∈ o_addrs o → a ∉ F) → (n' ≤ n)%nat →
  tree_stored p' fl' n' t rs o.
Proof.
  intros [Ho Hpos Hroot (H & HH & HHn & [_ Hg Hnd Hsh]) Hsize Ht Hrs Hprs Hvals Hc] Hp' Hmod Hdis Hn.
  split; try done; [|assert (D * n' ≤ D * n)%nat by (apply Nat.mul_le_mono_l; lia); lia].
  exists H. split_and!; [done|lia|]. split; [done| |done|done].
  intros g Hog. eapply g_rep_modifies; [by apply Hg|exact Hmod| |done]. intros b Hb. apply Hdis. by rewrite Hog.
Qed.

Lemma trees_elem p n ts i t rs :
  trees_stored p n ts → ts !! i = Some (t, rs) → ∃ fl o, tree_stored p fl n t rs o.
Proof.
  intros (fl & os & Hts & _) Hi. destruct (Forall2_lookup_l _ _ _ _ _ Hts Hi) as (o & _ & Ho). by exists fl, o.
Qed.

Lemma trees_insert p n ts i t rs r :
  trees_stored p (S n) ts → ts !! i = Some (t, rs) → rule_ok16 r → prefix_rule r → is_valid (rvalue r) = true →
  fits (bt_dimension_order t) rs r → (∀ r', r' ∈ rs → fields r' ≠ fields r) →
  ∃ t' p', btree_insert fuel t r p = (Ok t', p') ∧ bt_dimension_order t' = bt_dimension_order t
    ∧ trees_stored p' n (<[i := (t', rs ++ [r])]> ts).
Proof.
  intros (fl & os & Hts & Hnd & Hfl) Hi Hr Hpre Hval Hf Hnew. cbn [Nat.mul] in Hfl.
  destruct (Forall2_lookup_l _ _ _ _ _ Hts Hi) as (o & Ho & Hst). cbn [fst snd] in Hst.
  destruct (insert_run p fl n t rs o r Hst Hr Hpre Hval Hf Hnew) as (p' & t' & g & m & Hrun & Hord & Hm & Hst' & Hmod);
    [lia|]. exists t', p'. split_and!; [done..|]. exists (drop m fl), (<[i := Some g]> os).
  assert (heap_ok p' (drop m fl)) as Hp' by (destruct (ts_height _ _ _ _ _ _ Hst') as (? & _ & _ & Hs); apply Hs).
  assert ((o_addrs <$> os) !! i = Some (o_addrs o)) as Hoi by (by rewrite list_lookup_fmap, Ho).
  pose proof (concat_lookup_perm _ _ _ Hoi) as Hperm. set (G := concat (take i _ ++ drop (S i) _)) in Hperm.
  split_and!.
  - apply Forall2_same_length_lookup. apply Forall2_same_length_lookup in Hts as [Hl Hts].
    split; [by rewrite !length_insert|]. intros j x o' Hx Ho'.
    apply list_lookup_insert_Some in Hx as [(<- & <- & _)|[Hij Hx]].
    + rewrite list_lookup_insert_eq in Ho' by (by eapply lookup_lt_Some). by injection Ho' as <-.
    + rewrite list_lookup_insert_ne in Ho' by done.
      eapply tree_stored_frame; [by apply (Hts j)|done|exact Hmod| |lia].
      intros a Ha Ha'. rewrite Hperm in Hnd. apply NoDup_app in Hnd as (_ & Hdis & _). apply (Hdis a Ha').
      unfold G. apply elem_of_concat. exists (o_addrs o'). split; [done|].
      assert ((o_addrs <$> os) !! j = Some (o_addrs o')) as Hj by (by rewrite list_lookup_fmap, Ho').
      apply elem_of_app. destruct (decide (j < i)%nat).
      * left. apply list_elem_of_lookup. exists j. by rewrite lookup_take_lt.
      * right. apply list_elem_of_lookup. exists (j - S i)%nat. rewrite lookup_drop.
        by replace (S i + (j - S i))%nat with j by lia.
  - assert (concat (o_addrs <$> <[i := Some g]> os) ≡ₚ g_addrs g ++ G) as ->.
    { apply (Permutation_app_inv_l (o_addrs o)). rewrite (insert_next_addrs os i o (Some g) Ho), Hperm.
      cbn [o_addrs]. solve_Permutation. }
    rewrite Hperm in Hnd. eapply modifies_NoDup; [exact Hmod|done| |].
    + destruct (ts_height _ _ _ _ _ _ Hst') as (? & _ & _ & Hs). apply (st_NoDup _ _ _ _ _ Hs).
    + intros b (l & Hb & Hl)%elem_of_concat. assert (l ∈ o_addrs <$> os) as (o' & -> & [j Hj]%list_elem_of_lookup)%list_elem_of_fmap.
      { apply elem_of_app in Hl as [(k & Hk & _)%elem_of_take|Hl]; [by eapply list_elem_of_lookup_2|].
        by eapply elem_of_drop_in. }
      destruct (Forall2_lookup_r _ _ _ _ _ Hts Hj) as (x & _ & Hx).
      destruct (ts_height _ _ _ _ _ _ Hx) as (H & _ & _ & [_ Hg _ _]). destruct o' as [g'|]; [|by apply elem_of_nil in Hb].
      by eapply g_rep_addrs_live; [apply Hg|].
  - rewrite length_drop. lia.
Qed.

(** *** The interface *)

(** Rules without wildcards leave no dimension to reorder. *)
Lemma prefix_rules_fixed order u r :
  order ≡ₚ seq 0 D → rule_ok r → prefix_rule r → wild_from order u r → (D ≤ u)%nat.
Proof.
  intros Hp [Hlr Hv] Hpre Hw. destruct (order_D order Hp) as [Hlo _].
  destruct (decide (D ≤ u)%nat) as [|Hu]; [done|exfalso].
  destruct (lookup_lt_is_Some_2 order u) as [d Hd]; [lia|]. destruct (Hw u d ltac:(done) Hd) as (k & Hk & Hkw).
  unfold prefix_rule in Hpre. rewrite Forall_lookup in Hpre. destruct (Hpre _ _ Hk) as [_ Hn]. by rewrite Hkw in Hn.
Qed.

Lemma tree_stored_reorder p fl n t rs o u order :
  tree_stored p fl n t rs o → order ≡ₚ bt_dimension_order t → take u order = take u (bt_dimension_order t) →
  Forall (wild_from (bt_dimension_order t) u) rs → tree_stored p fl n (bt_set_dimension_order order t) rs o.
Proof.
  intros Hst Hp Htake Hw. pose proof Hst as [Ho Hpos Hroot (H & HH & HHn & Hs) Hsize Ht Hrs Hprs Hvals Hc].
  destruct (order_D _ Ho) as [Hlo _]. destruct rs as [|r rs].
  - assert (o = None) as ->.
    { destruct o as [g|]; [exfalso|done]. pose proof Hs as [_ Hg _ Hsh].
      destruct (shaped_stored _ _ _ _ _ (Hg g eq_refl) Hsh) as (k & w & Hk).
      destruct (to_paths _ _ _ Ht _ _ Hk) as (r & Hr & _). by apply elem_of_nil in Hr. }
    split; cbn [bt_set_dimension_order bt_dimension_order bt_in_packet_position root]; try done.
    + by rewrite Hp.
    + exists H. split_and!; [done..|]. destruct Hs as [Hpk _ Hnd Hsh]. by split.
    + split; [constructor|intros ks w Hk; by apply stored_None in Hk|].
      intros ks w _. split; [intros Hk; by apply stored_None in Hk|done].
    + by intros r r' Hr%elem_of_nil.
  - apply Forall_cons in Hw as [Hw _], Hrs as [Hr _], Hprs as [Hpr _].
    pose proof (prefix_rules_fixed _ _ _ Ho (proj1 Hr) Hpr Hw) as Hu. rewrite !take_ge in Htake by (rewrite ?Hp; lia).
    subst order. by destruct t.
Qed.

Lemma trees_reorder p n ts i t rs u order :
  trees_stored p n ts → ts !! i = Some (t, rs) → order ≡ₚ bt_dimension_order t →
  take u order = take u (bt_dimension_order t) → Forall (wild_from (bt_dimension_order t) u) rs →
  trees_stored p n (<[i := (bt_set_dimension_order order t, rs)]> ts).
Proof.
  intros (fl & os & Hts & Hnd & Hfl) Hi Hp Htake Hw. exists fl, os. split; [|done].
  destruct (Forall2_lookup_l _ _ _ _ _ Hts Hi) as (o & Ho & Hst). rewrite <- (list_insert_id os i o Ho).
  apply Forall2_insert; [done|]. by eapply tree_stored_reorder.
Qed.

Definition BTree_TREE_LAWS : TREE_LAWS (A := Heap V) (Tr := BTree) (V := V).
Proof.
  refine {| law_rule := prefix_rule; tree_holds := trees_stored |}.
  - done.
  - intros p n ts i t rs r Hh Hi Hr Hpre. destruct (trees_elem _ _ _ _ _ _ Hh Hi) as (fl & o & Hst). by eapply colide_run.
  - intros p n ts i t rs r. apply trees_insert.
  - intros p n ts i t rs u order Hh Hi Hp Htake Hw. split; [|done]. by eapply trees_reorder.
  - intros p n ts i t rs v Hh Hi. destruct (trees_elem _ _ _ _ _ _ Hh Hi) as (fl & o & Hst). by eapply search_run.
Defined.
End laws.

(** ** The classifier over its B-trees *)

Section classifier.
Context {sort : StdSort} `{cfg : !BTreeCfg, Hok : !CfgOk} {V : Type} `{!RuleValue V, !RuleValueLaws V}.

(** The trees of a new classifier are empty. *)
Lemma new_trees_stored N m n :
  (1 < N)%nat → Z.of_nat N ≤ INVALID_INDEX → (n * (1 + n + D + 10) ≤ N)%nat →
  ∃ p, Pool.DynamicMempool_ctor (T := Node V) N = Ok p
    ∧ trees_stored (1 + n) (D * n) p n (replicate m (BTreeImp_ctor, [])).
Proof.
  intros HN Hfit Hneed. destruct (ctor_stores (V := V) N (seq 0 D) HN Hfit) as (p & Hp & Hst).
  exists p. split; [done|]. exists (seq 0 N), (replicate m None). split_and!.
  - apply Forall2_replicate. split; cbn; try done.
    + exists 1%nat. split_and!; [lia|lia|done].
    + split; [constructor|intros ks w Hk; by apply stored_None in Hk|].
      intros ks w _. split; [intros Hk; by apply stored_None in Hk|done].
    + by intros r r' Hr%elem_of_nil.
  - rewrite fmap_replicate. clear. induction m as [|m IH]; [constructor|done].
  - rewrite length_seq. lia.
Qed.

(** C4. The classifier over its own B-trees, for rules of at most two ranges
    that are prefixes and not wildcards, have valid values and differ in their
    ranges: the insertions into a new classifier whose trees are not rebuilt,
    over a new pool that is large enough, finish without an error, unless all
    trees are in use, which takes more rules than trees; every packet is then
    answered with a matching rule of the greatest priority among the stored
    ones, or with the default value when none matches. *)
Theorem btree_classifier_correct N MAX_TREE_CNT TREE_FIXATION_THRESHOLD fuel f rs :
  PATH_COMPRESSION = true → KEY_SIZE = 2%nat → (1 ≤ D ≤ 2)%nat →
  Z.of_nat MAX_TREE_CNT < 2 ^ 64 → (TREE_FIXATION_THRESHOLD ≤ 1)%nat →
  Forall rule_ok16 rs → Forall prefix_rule rs → Forall (λ r, is_valid (rvalue r) = true) rs →
  NoDup (fields <$> rs) →
  (1 < N)%nat → Z.of_nat N ≤ INVALID_INDEX → (length rs * (1 + length rs + D + 10) ≤ N)%nat →
  (insert_fuel (1 + length rs) (seq 0 D) ≤ fuel)%nat → (D * length rs + 2 * (1 + length rs) ≤ fuel)%nat →
  let tree_ops := BTree_TREE_T (V := V) fuel in
  ∃ p k c, Pool.DynamicMempool_ctor N = Ok p
    ∧ (k ≤ length rs)%nat ∧ (length rs ≤ MAX_TREE_CNT → k = length rs)%nat
    ∧ for_each rs (Classifier.insert KEY_SIZE D MAX_TREE_CNT TREE_FIXATION_THRESHOLD (S (S f)))
        (PartitionSortClassifer_ctor MAX_TREE_CNT p)
      = (if decide (k = length rs) then Ok tt
         else Err (runtime_error "all tress used (need to implement tree merging)"), c)
    ∧ ∀ v, length v = D → Forall (λ x, 0 ≤ x < 65536) v →
        ∃ w, Classifier.search v c = (Ok w, c) ∧ classified (take k rs) v w.
Proof using Hok RuleValueLaws0.
  intros HPC HK HD Hcnt Hthr Hrs Hpre Hval Hnd HN Hfit Hneed Hfuel Hfuel2 tree_ops.
  destruct (new_trees_stored N MAX_TREE_CNT (length rs) HN Hfit Hneed) as (p & Hp & Hh).
  pose (laws := BTree_TREE_LAWS fuel (1 + length rs) (D * length rs) HPC HK HD Hfuel Hfuel2).
  destruct (classifier_insert_search_ok (tree_laws := laws) HK MAX_TREE_CNT TREE_FIXATION_THRESHOLD
    (proj1 HD) Hcnt Hthr f p rs Hh Hrs Hpre Hval Hnd) as (k & c & Hk & Hall & Hrun & Hsearch).
  by exists p, k, c.
Qed.
End classifier.

Module BTreeExample.
#[local] Instance cfg2 : BTreeCfg := mkCfg 2 2 1000 4 true.
#[local] Existing Instance insertion_StdSort.

#[local] Instance cfg2_ok : CfgOk.
Proof. split; cbn; lia || done. Qed.

(** The second rule and the fourth get trees of their own; the third shares
    the tree of the second. *)
Definition prefix_rules : list (rule_spec_t RuleValueInt) :=
  [mkRule [mkRange 16 31; mkRange 7 7] (RuleValueInt_ctor 10 1);
   mkRule [mkRange 24 31; mkRange 4 7] (RuleValueInt_ctor 30 2);
   mkRule [mkRange 24 31; mkRange 8 9] (RuleValueInt_ctor 20 3);
   mkRule [mkRange 16 31; mkRange 0 7] (RuleValueInt_ctor 5 4)].

Lemma prefix_rules_prefix : Forall (prefix_rule (V := RuleValueInt)) prefix_rules.
Proof.
  assert (∀ m w l h, 0 ≤ w → l = m * 2 ^ w → h = (m + 1) * 2 ^ w - 1 → is_prefix (mkRange l h)) as Hp
    by (intros m w l h; by exists m, w).
  repeat (constructor; [constructor; [split; [|reflexivity]|constructor; [split; [|reflexivity]|constructor]]|]);
    [..|constructor].
  1: by apply (Hp 1 4). 1: by apply (Hp 7 0). 1: by apply (Hp 3 3). 1: by apply (Hp 1 2).
  1: by apply (Hp 3 3). 1: by apply (Hp 4 1). 1: by apply (Hp 1 4). by apply (Hp 0 3).
Qed.

Definition pool70 : Heap RuleValueInt :=
  Pool.mkPool ∅ (<[69%nat := None]> ((λ i, Some (S i)) <$> seq 0 70)) (Some 0%nat) false 70.

#[local] Instance ops2 : TREE_T (Heap RuleValueInt) BTree RuleValueInt := BTree_TREE_T 100.

Lemma btree_classifier_correct_witness :
  (∃ p k c, Pool.DynamicMempool_ctor 70 = Ok p
    ∧ (k ≤ 4)%nat ∧ (4 ≤ 4 → k = 4)%nat
    ∧ for_each prefix_rules (Classifier.insert 2 2 4 1 2) (PartitionSortClassifer_ctor 4 p)
      = (if decide (k = 4%nat) then Ok tt
         else Err (runtime_error "all tress used (need to implement tree merging)"), c)
    ∧ ∀ v, length v = D → Forall (λ x, 0 ≤ x < 65536) v →
        ∃ w, Classifier.search v c = (Ok w, c) ∧ classified (take k prefix_rules) v w)
  ∧ ((for_each prefix_rules (Classifier.insert 2 2 4 1 2);;
     v1 ← Classifier.search [25; 7]; v2 ← Classifier.search [17; 7]; v3 ← Classifier.search [24; 8];
     v4 ← Classifier.search [16; 3]; v5 ← Classifier.search [40; 3]; mret [v1; v2; v3; v4; v5])
       (PartitionSortClassifer_ctor 4 pool70)).1
    = Ok [RuleValueInt_ctor 30 2; RuleValueInt_ctor 10 1; RuleValueInt_ctor 20 3; RuleValueInt_ctor 5 4;
          RuleValueInt_default].
Proof.
  split; [|vm_compute; reflexivity].
  pose proof (btree_classifier_correct (cfg := cfg2) (V := RuleValueInt) 70 4 1 100 0 prefix_rules) as H.
  cbv zeta in H. specialize (H eq_refl eq_refl). change (BTree_TREE_T 100) with ops2 in H.
  change KEY_SIZE with 2%nat in H. change (length prefix_rules) with 4%nat in H. apply H; clear H.
  - split; apply Nat.leb_le; reflexivity.
  - done.
  - done.
  - repeat (constructor; [repeat split; repeat constructor; done|]). constructor.
  - exact prefix_rules_prefix.
  - repeat (constructor; [reflexivity|]). constructor.
  - refine (bool_decide_unpack _ _). vm_compute. exact I.
  - apply Nat.ltb_lt. reflexivity.
  - done.
  - apply Nat.leb_le. reflexivity.
  - apply Nat.leb_le. vm_compute. reflexivity.
  - apply Nat.leb_le. reflexivity.
Defined.
End BTreeExample.
