(* ===== verification/Rule.v ===== *)
(** * Rules and their arrays of 16-bit ranges
      ([include/pcv/rule_parser/rule.h], [src/rule_parser/rule.cpp])

    A parsed rule is a record of ranges of different widths.  The trees work on
    arrays of 16-bit ranges: wider fields are split into 16-bit parts, each
    with the range of the corresponding parts of the two ends.  [None] stands
    for a failed assertion of the constructor of a range. *)
From S2P Require Import Prelude Range.
Local Open Scope Z_scope.

(** ** [Rule_Ipv4_ACL] *)

Record Rule_Ipv4_ACL : Type := mkACL {
  sip : Range1d;     (* uint32_t *)
  dip : Range1d;     (* uint32_t *)
  sport : Range1d;   (* uint16_t *)
  dport : Range1d;   (* uint16_t *)
  proto : Range1d;   (* uint16_t *)
  acl_priority : Z;
  acl_tag : Z;
}.

Definition Rule_Ipv4_ACL_ctor : Rule_Ipv4_ACL :=
  mkACL (mkRange 0 (T_max 4)) (mkRange 0 (T_max 4)) (mkRange 0 (T_max 2))
    (mkRange 0 (T_max 2)) (mkRange 0 (T_max 2)) (-1) (-1).

Definition cummulative_prefix_len (r : Rule_Ipv4_ACL) : nat :=
  prefix_len_le 4 (sip r) + prefix_len_le 4 (dip r) + prefix_len_le 2 (sport r)
  + prefix_len_le 2 (dport r) + prefix_len_le 2 (proto r).

Definition max_cummulative_prefix_len (r : Rule_Ipv4_ACL) : nat :=
  max_prefix_len 4 + max_prefix_len 4 + max_prefix_len 2 + max_prefix_len 2
  + max_prefix_len 2.

Definition reverse_endianity (r : Rule_Ipv4_ACL) : Rule_Ipv4_ACL :=
  mkACL (to_be 4 (sip r)) (to_be 4 (dip r)) (to_be 2 (sport r)) (to_be 2 (dport r))
    (to_be 2 (proto r)) (acl_priority r) (acl_tag r).

(** ** [ipv6_t] *)

Record ipv6_t : Type := mkIpv6 { ip6_high : Z; ip6_low : Z }.

Definition u64 (v : Z) : Z := to_T 8 v.

Definition ipv6_of (low_ : Z) : ipv6_t := mkIpv6 0 low_.

Definition ipv6_eq (a other : ipv6_t) : bool :=
  (ip6_low a =? ip6_low other) && (ip6_high a =? ip6_high other).

Definition ipv6_ne (a other : ipv6_t) : bool := negb (ipv6_eq a other).

(** [operator<<=] and [operator>>=] for shifts of less than 63 bits. *)
Definition ipv6_shl (a : ipv6_t) (v : Z) : ipv6_t :=
  mkIpv6 (Z.lor (u64 (Z.shiftl (ip6_high a) v)) (Z.shiftr (ip6_low a) (64 - v - 1)))
         (u64 (Z.shiftl (ip6_low a) v)).

Definition ipv6_shr (a : ipv6_t) (v : Z) : ipv6_t :=
  mkIpv6 (Z.shiftr (ip6_high a) v)
         (Z.lor (Z.shiftr (ip6_low a) v) (Z.shiftr (ip6_high a) (64 - v - 1))).

Definition ipv6_or (a v : ipv6_t) : ipv6_t :=
  mkIpv6 (Z.lor (ip6_high a) (ip6_high v)) (Z.lor (ip6_low a) (ip6_low v)).

Definition ipv6_and (a other : ipv6_t) : ipv6_t :=
  mkIpv6 (Z.land (ip6_high a) (ip6_high other)) (Z.land (ip6_low a) (ip6_low other)).

(** [Range1d<ipv6_t>].  [std::numeric_limits<ipv6_t>] is not specialised: its
    [max()] is the default-constructed address. *)
Record Range1d_ipv6 : Type := mkRange6 { low6 : ipv6_t; high6 : ipv6_t }.

Definition numeric_limits_ipv6_max : ipv6_t := ipv6_of 0.

Definition set_wildcard_ipv6 : Range1d_ipv6 := mkRange6 (ipv6_of 0) numeric_limits_ipv6_max.

Definition is_wildcard_ipv6 (r : Range1d_ipv6) : bool :=
  ipv6_eq (low6 r) (ipv6_of 0) && ipv6_eq (high6 r) numeric_limits_ipv6_max.

(** ** [Rule_OF_1_5_1] *)

Record Rule_OF_1_5_1 : Type := mkRuleOF {
  of_in_port : Range1d;   (* uint32_t *)
  of_in_phy_port : Range1d;   (* uint32_t *)
  of_metadata : Range1d;   (* uint64_t *)
  of_eth_dst : Range1d;   (* eth_t *)
  of_eth_src : Range1d;   (* eth_t *)
  of_eth_type : Range1d;   (* uint16_t *)
  of_vlan_vid : Range1d;   (* uint16_t *)
  of_vlan_pcp : Range1d;   (* uint8_t *)
  of_ip_dscp : Range1d;   (* uint8_t *)
  of_ip_ecn : Range1d;   (* uint8_t *)
  of_ip_proto : Range1d;   (* uint8_t *)
  of_ipv4_src : Range1d;   (* uint32_t *)
  of_ipv4_dst : Range1d;   (* uint32_t *)
  of_tcp_src : Range1d;   (* uint16_t *)
  of_tcp_dst : Range1d;   (* uint16_t *)
  of_udp_src : Range1d;   (* uint16_t *)
  of_udp_dst : Range1d;   (* uint16_t *)
  of_sctp_src : Range1d;   (* uint16_t *)
  of_sctp_dst : Range1d;   (* uint16_t *)
  of_icmpv4_type : Range1d;   (* uint8_t *)
  of_icmpv4_code : Range1d;   (* uint8_t *)
  of_arp_op : Range1d;   (* uint16_t *)
  of_arp_spa : Range1d;   (* uint32_t *)
  of_arp_tpa : Range1d;   (* uint32_t *)
  of_arp_sha : Range1d;   (* eth_t *)
  of_arp_tha : Range1d;   (* eth_t *)
  of_ipv6_src : Range1d_ipv6;   (* ipv6_t *)
  of_ipv6_dst : Range1d_ipv6;   (* ipv6_t *)
  of_ipv6_flabel : Range1d;   (* uint32_t *)
  of_icmpv6_type : Range1d;   (* uint8_t *)
  of_icmpv6_code : Range1d;   (* uint8_t *)
  of_ipv6_nd_target : Range1d_ipv6;   (* ipv6_t *)
  of_ipv6_nd_sll : Range1d;   (* eth_t *)
  of_ipv6_nd_tll : Range1d;   (* eth_t *)
  of_mpls_label : Range1d;   (* uint32_t *)
  of_mpls_tc : Range1d;   (* uint8_t *)
  of_mpls_bos : Range1d;   (* uint8_t *)
  of_pbb_isid : Range1d;   (* uint24_t *)
  of_tunnel_id : Range1d;   (* uint64_t *)
  of_ipv6_exthdr : Range1d;   (* uint16_t *)
  of_pbb_uca : Range1d;   (* uint8_t *)
  of_tcp_flags : Range1d;   (* uint16_t *)
  of_actset_output : Range1d;   (* uint32_t *)
  of_packet_type : Range1d;   (* uint32_t *)
  of_priority : Z;
  of_tag : Z;
}.

Definition Rule_OF_1_5_1_ctor : Rule_OF_1_5_1 := {|
  of_in_port := set_wildcard 4;
  of_in_phy_port := set_wildcard 4;
  of_metadata := set_wildcard 8;
  of_eth_dst := set_wildcard 8;
  of_eth_src := set_wildcard 8;
  of_eth_type := set_wildcard 2;
  of_vlan_vid := set_wildcard 2;
  of_vlan_pcp := set_wildcard 1;
  of_ip_dscp := set_wildcard 1;
  of_ip_ecn := set_wildcard 1;
  of_ip_proto := set_wildcard 1;
  of_ipv4_src := set_wildcard 4;
  of_ipv4_dst := set_wildcard 4;
  of_tcp_src := set_wildcard 2;
  of_tcp_dst := set_wildcard 2;
  of_udp_src := set_wildcard 2;
  of_udp_dst := set_wildcard 2;
  of_sctp_src := set_wildcard 2;
  of_sctp_dst := set_wildcard 2;
  of_icmpv4_type := set_wildcard 1;
  of_icmpv4_code := set_wildcard 1;
  of_arp_op := set_wildcard 2;
  of_arp_spa := set_wildcard 4;
  of_arp_tpa := set_wildcard 4;
  of_arp_sha := set_wildcard 8;
  of_arp_tha := set_wildcard 8;
  of_ipv6_src := set_wildcard_ipv6;
  of_ipv6_dst := set_wildcard_ipv6;
  of_ipv6_flabel := set_wildcard 4;
  of_icmpv6_type := set_wildcard 1;
  of_icmpv6_code := set_wildcard 1;
  of_ipv6_nd_target := set_wildcard_ipv6;
  of_ipv6_nd_sll := set_wildcard 8;
  of_ipv6_nd_tll := set_wildcard 8;
  of_mpls_label := set_wildcard 4;
  of_mpls_tc := set_wildcard 1;
  of_mpls_bos := set_wildcard 1;
  of_pbb_isid := set_wildcard 4;
  of_tunnel_id := set_wildcard 8;
  of_ipv6_exthdr := set_wildcard 2;
  of_pbb_uca := set_wildcard 1;
  of_tcp_flags := set_wildcard 2;
  of_actset_output := set_wildcard 4;
  of_packet_type := set_wildcard 4;
  of_priority := -1;
  of_tag := -1;
|}.

(** ** Splitting into 16-bit parts *)

(** [(v >> (i * 16)) & m] *)
Definition word16 (v : Z) (i : nat) : Z := Z.land (Z.shiftr v (16 * Z.of_nat i)) 65535.

(** [R((low >> (i * 16)) & m, (high >> (i * 16)) & m)] *)
Definition range16 (l h : Z) (i : nat) : option Range1d :=
  Range1d_ctor (word16 l i) (word16 h i) false.

Definition fill_8 (val : Range1d) : option (list Range1d) :=
  let h := if high val =? T_max 1 then T_max 2 else high val in
  r ← Range1d_ctor (low val) h false;
  Some [r].

Definition fill_16 (val : Range1d) : option (list Range1d) := Some [val].

Definition fill_32 (val : Range1d) : option (list Range1d) :=
  mapM (range16 (low val) (high val)) [0; 1]%nat.

Definition fill_eth (val : Range1d) : option (list Range1d) :=
  mapM (range16 (low val) (high val)) [2; 1; 0]%nat.

Definition fill_64 (val : Range1d) : option (list Range1d) :=
  mapM (range16 (low val) (high val)) [0; 1; 2; 3]%nat.

Definition fill_ipv6 (val : Range1d_ipv6) : option (list Range1d) :=
  h ← mapM (range16 (ip6_high (low6 val)) (ip6_high (high6 val))) [0; 1; 2; 3]%nat;
  l ← mapM (range16 (ip6_low (low6 val)) (ip6_low (high6 val))) [0; 1; 2; 3]%nat;
  Some (h ++ l).

(** An array of [n] default-constructed ranges whose first items are written;
    [None] when there are more items than the array has. *)
Definition fill_array (n : nat) (items : list Range1d) : option (list Range1d) :=
  if (length items <=? n)%nat
  then Some (items ++ replicate (n - length items) Range1d_default) else None.

(** ** Conversions *)

Definition rule_to_array_16b (r : Rule_Ipv4_ACL) : option (list Range1d) :=
  s ← fill_32 (sip r);
  d ← fill_32 (dip r);
  Some (s ++ d ++ [sport r; dport r; proto r]).

(** [vec_build::pop_32] of a range, at the index [i]. *)
Definition pop_32_range (src : list Range1d) (i : nat) : option Range1d :=
  lo ← src !! i;
  hi ← src !! (i + 1)%nat;
  Range1d_ctor (Z.lor (Z.shiftl (low hi) 16) (low lo))
               (Z.lor (Z.shiftl (high hi) 16) (high lo)) false.

Definition rule_from_array (arr : list Range1d) : option Rule_Ipv4_ACL :=
  s ← pop_32_range arr 0;
  d ← pop_32_range arr 2;
  sp ← arr !! 4%nat;
  dp ← arr !! 5%nat;
  p ← arr !! 6%nat;
  Some (mkACL s d sp dp p (-1) (-1)).

(** [*((uint32_t* ) &a[i])] *)
Definition read_u32 (a : list Z) (i : nat) : option Z :=
  lo ← a !! i;
  hi ← a !! (i + 1)%nat;
  Some (Z.lor lo (Z.shiftl hi 16)).

Definition exact (v : Z) : Range1d := mkRange v v.

Definition exact_array_to_rule_le (a : list Z) : option Rule_Ipv4_ACL :=
  s ← read_u32 a 0;
  d ← read_u32 a 2;
  sp ← a !! 4%nat;
  dp ← a !! 5%nat;
  p ← a !! 6%nat;
  Some (mkACL (exact s) (exact d) (exact sp) (exact dp) (exact p) (-1) (-1)).

Definition exact_array_to_rule_be (a : list Z) : option Rule_Ipv4_ACL :=
  reverse_endianity <$> exact_array_to_rule_le a.

Definition rule_to_array_16b_OF (r : Rule_OF_1_5_1) : option (list Range1d) :=
  in_port_ ← fill_32 (of_in_port r);
  in_phy_port_ ← fill_32 (of_in_phy_port r);
  metadata_ ← fill_64 (of_metadata r);
  eth_dst_ ← fill_eth (of_eth_dst r);
  eth_src_ ← fill_eth (of_eth_src r);
  eth_type_ ← fill_16 (of_eth_type r);
  vlan_vid_ ← fill_16 (of_vlan_vid r);
  vlan_pcp_ ← fill_8 (of_vlan_pcp r);
  ip_dscp_ ← fill_8 (of_ip_dscp r);
  ip_ecn_ ← fill_8 (of_ip_ecn r);
  ip_proto_ ← fill_8 (of_ip_proto r);
  ipv4_src_ ← fill_32 (of_ipv4_src r);
  ipv4_dst_ ← fill_32 (of_ipv4_dst r);
  tcp_src_ ← fill_16 (of_tcp_src r);
  tcp_dst_ ← fill_16 (of_tcp_dst r);
  udp_src_ ← fill_16 (of_udp_src r);
  udp_dst_ ← fill_16 (of_udp_dst r);
  sctp_src_ ← fill_16 (of_sctp_src r);
  sctp_dst_ ← fill_16 (of_sctp_dst r);
  icmpv4_type_ ← fill_8 (of_icmpv4_type r);
  icmpv4_code_ ← fill_8 (of_icmpv4_code r);
  arp_op_ ← fill_16 (of_arp_op r);
  arp_spa_ ← fill_32 (of_arp_spa r);
  arp_tpa_ ← fill_32 (of_arp_tpa r);
  arp_sha_ ← fill_64 (of_arp_sha r);
  arp_tha_ ← fill_64 (of_arp_tha r);
  ipv6_src_ ← fill_ipv6 (of_ipv6_src r);
  ipv6_dst_ ← fill_ipv6 (of_ipv6_dst r);
  ipv6_flabel_ ← fill_32 (of_ipv6_flabel r);
  icmpv6_type_ ← fill_8 (of_icmpv6_type r);
  icmpv6_code_ ← fill_8 (of_icmpv6_code r);
  ipv6_nd_target_ ← fill_ipv6 (of_ipv6_nd_target r);
  ipv6_nd_sll_ ← fill_64 (of_ipv6_nd_sll r);
  ipv6_nd_tll_ ← fill_64 (of_ipv6_nd_tll r);
  mpls_label_ ← fill_32 (of_mpls_label r);
  mpls_tc_ ← fill_8 (of_mpls_tc r);
  mpls_bos_ ← fill_8 (of_mpls_bos r);
  pbb_isid_ ← fill_32 (of_pbb_isid r);
  tunnel_id_ ← fill_64 (of_tunnel_id r);
  ipv6_exthdr_ ← fill_16 (of_ipv6_exthdr r);
  pbb_uca_ ← fill_8 (of_pbb_uca r);
  tcp_flags_ ← fill_16 (of_tcp_flags r);
  actset_output_ ← fill_32 (of_actset_output r);
  packet_type_ ← fill_32 (of_packet_type r);
    fill_array 177 (in_port_ ++ in_phy_port_ ++ metadata_ ++ eth_dst_ ++ eth_src_ ++ eth_type_
    ++ vlan_vid_ ++ vlan_pcp_ ++ ip_dscp_ ++ ip_ecn_ ++ ip_proto_ ++ ipv4_src_ ++ ipv4_dst_ ++
    tcp_src_ ++ tcp_dst_ ++ udp_src_ ++ udp_dst_ ++ sctp_src_ ++ sctp_dst_ ++ icmpv4_type_ ++
    icmpv4_code_ ++ arp_op_ ++ arp_spa_ ++ arp_tpa_ ++ arp_sha_ ++ arp_tha_ ++ ipv6_src_ ++
    ipv6_dst_ ++ ipv6_flabel_ ++ icmpv6_type_ ++ icmpv6_code_ ++ ipv6_nd_target_ ++
    ipv6_nd_sll_ ++ ipv6_nd_tll_ ++ mpls_label_ ++ mpls_tc_ ++ mpls_bos_ ++ pbb_isid_ ++
    tunnel_id_ ++ ipv6_exthdr_ ++ pbb_uca_ ++ tcp_flags_ ++ actset_output_ ++ packet_type_).

(** ** The 16-bit parts of a value *)

Lemma word16_0 (v : Z) : word16 v 0 = v mod 65536.
Proof.
  unfold word16. rewrite Z.shiftr_0_r. change 65535 with (2 ^ 16 - 1).
  by rewrite land_ones_mod.
Qed.

Lemma word16_1 (v : Z) : 0 ≤ v < 2 ^ 32 → word16 v 1 = v / 65536.
Proof.
  intros Hv. unfold word16. change 65535 with (2 ^ 16 - 1).
  rewrite land_ones_mod, Z.shiftr_div_pow2 by lia. apply Z.mod_small.
  change (2 ^ (16 * Z.of_nat 1)) with 65536.
  pose proof (Z.div_mod v 65536). pose proof (Z.mod_pos_bound v 65536). lia.
Qed.

(** The facts [lia] needs about the parts of a 32-bit value. *)
Lemma words32 (v : Z) :
  0 ≤ v < 2 ^ 32 →
  v = 65536 * word16 v 1 + word16 v 0 ∧ 0 ≤ word16 v 0 < 65536 ∧ 0 ≤ word16 v 1 < 65536.
Proof.
  intros Hv. rewrite word16_0, word16_1 by done.
  pose proof (Z.div_mod v 65536). pose proof (Z.mod_pos_bound v 65536). lia.
Qed.

Lemma words32_join (v : Z) :
  0 ≤ v < 2 ^ 32 → Z.lor (Z.shiftl (word16 v 1) 16) (word16 v 0) = v.
Proof.
  intros Hv. destruct (words32 v Hv) as (He & H0 & H1).
  rewrite lor_shiftl_add by lia. lia.
Qed.

Lemma words32_of (h l : Z) :
  0 ≤ l < 65536 → 0 ≤ h < 65536 →
  word16 (65536 * h + l) 0 = l ∧ word16 (65536 * h + l) 1 = h.
Proof.
  intros Hl Hh. destruct (words32 (65536 * h + l)) as (He & H0 & H1); [lia|]. lia.
Qed.

(** A range of a 32-bit unsigned integer. *)
Definition range32_ok (r : Range1d) : Prop := 0 ≤ low r ≤ high r ∧ high r < 2 ^ 32.

Definition lo_part (r : Range1d) : Range1d := mkRange (word16 (low r) 0) (word16 (high r) 0).

Definition hi_part (r : Range1d) : Range1d := mkRange (word16 (low r) 1) (word16 (high r) 1).

Lemma fill_32_eq (r : Range1d) :
  range32_ok r →
  fill_32 r = if low (lo_part r) <=? high (lo_part r) then Some [lo_part r; hi_part r] else None.
Proof.
  intros [Hl Hh]. unfold fill_32. cbn [mapM]. unfold range16, Range1d_ctor. cbn [orb].
  change (word16 (low r) 0) with (low (lo_part r)).
  change (word16 (high r) 0) with (high (lo_part r)).
  destruct (Z.leb_spec (low (lo_part r)) (high (lo_part r))) as [Hle|]; [|done].
  destruct (words32 (low r)) as (? & ? & ?); [lia|].
  destruct (words32 (high r)) as (? & ? & ?); [lia|].
  assert (word16 (low r) 1 <=? word16 (high r) 1 = true) as -> by lia. done.
Qed.

Lemma pop_fill_32 (r : Range1d) (pre post l : list Range1d) :
  range32_ok r → fill_32 r = Some l →
  pop_32_range (pre ++ l ++ post) (length pre) = Some r.
Proof.
  intros Hok Hl. rewrite fill_32_eq in Hl by done.
  destruct (_ <=? _); [|done]. simplify_eq. destruct Hok as [Hr Hh].
  unfold pop_32_range. cbn [app]. rewrite (list_lookup_middle pre _ _ (length pre)) by done.
  cbn [mbind option_bind].
  rewrite lookup_app_r by lia. replace (length pre + 1 - length pre)%nat with 1%nat by lia.
  cbn [app lookup list_lookup mbind option_bind low high lo_part hi_part].
  rewrite !words32_join by lia. unfold Range1d_ctor. cbn [orb].
  rewrite (proj2 (Z.leb_le _ _)) by lia. by destruct r.
Qed.

Definition acl_ok (r : Rule_Ipv4_ACL) : Prop := range32_ok (sip r) ∧ range32_ok (dip r).

(** C33. The array of a rule gives the rule back: whenever the conversion to
    the seven ranges succeeds, the conversion from them returns the same five
    ranges (with the default priority and tag).  It succeeds exactly when the
    lower halves of the ends of both addresses are ordered. *)
Theorem rule_array_roundtrip (r : Rule_Ipv4_ACL) :
  acl_ok r →
  (∀ a, rule_to_array_16b r = Some a →
     length a = 7%nat
     ∧ rule_from_array a = Some (mkACL (sip r) (dip r) (sport r) (dport r) (proto r) (-1) (-1)))
  ∧ (is_Some (rule_to_array_16b r) ↔
     word16 (low (sip r)) 0 ≤ word16 (high (sip r)) 0
     ∧ word16 (low (dip r)) 0 ≤ word16 (high (dip r)) 0).
Proof.
  intros [Hs Hd]. unfold rule_to_array_16b. split.
  - intros a Ha. destruct (fill_32 (sip r)) as [s|] eqn:Es; [|done].
    destruct (fill_32 (dip r)) as [d|] eqn:Ed; [|done].
    assert (length s = 2%nat ∧ length d = 2%nat) as [Ls Ld].
    { rewrite fill_32_eq in Es, Ed by done.
      by destruct (_ <=? _), (_ <=? _); simplify_eq. }
    cbn in Ha. simplify_eq. unfold rule_from_array. rewrite !length_app, Ls, Ld. split; [done|].
    pose proof (pop_fill_32 (sip r) [] (d ++ [sport r; dport r; proto r]) s Hs Es) as H1.
    pose proof (pop_fill_32 (dip r) s [sport r; dport r; proto r] d Hd Ed) as H2.
    cbn [app length] in H1. rewrite Ls in H2. rewrite H1, H2. cbn [mbind option_bind].
    destruct s as [|? [|? [|? ?]]]; try done. by destruct d as [|? [|? [|? ?]]].
  - rewrite !fill_32_eq by done. cbn [low high lo_part].
    destruct (Z.leb_spec (word16 (low (sip r)) 0) (word16 (high (sip r)) 0)),
      (Z.leb_spec (word16 (low (dip r)) 0) (word16 (high (dip r)) 0)); cbn;
      (split; [try (by intros [? ?]); intros _; lia|intros; try lia; by eexists]).
Qed.

(** Matching by parts, for a range that survives the split. *)
Lemma fill_32_match (r : Range1d) (v : Z) :
  range32_ok r → 0 ≤ v < 2 ^ 32 →
  low (hi_part r) = high (hi_part r) ∨ low (lo_part r) = 0 ∧ high (lo_part r) = 65535 →
  in_range r v = in_range (lo_part r) (word16 v 0) && in_range (hi_part r) (word16 v 1).
Proof.
  intros [Hr Hh] Hv. destruct (words32 (low r)) as (El & Hl0 & Hl1); [lia|].
  destruct (words32 (high r)) as (Eh & Hh0 & Hh1); [lia|].
  destruct (words32 v Hv) as (Ev & Hv0 & Hv1).
  unfold in_range. cbn [low high lo_part hi_part]. lia.
Qed.

(** C34. Which ranges survive the split: matching the two 16-bit parts of a
    value separately is the same as matching the value, for all values,
    exactly when the two ends agree on the upper part or the lower part is
    unrestricted. *)
Theorem fill_32_exact (r a b : Range1d) :
  range32_ok r → fill_32 r = Some [a; b] →
  (∀ v, 0 ≤ v < 2 ^ 32 →
     in_range r v = in_range a (word16 v 0) && in_range b (word16 v 1))
  ↔ (low b = high b ∨ low a = 0 ∧ high a = 65535).
Proof.
  intros Hok Hf. rewrite fill_32_eq in Hf by done.
  destruct (Z.leb_spec (low (lo_part r)) (high (lo_part r))) as [Hle|]; [|done].
  simplify_eq. pose proof Hok as [Hr Hh]. cbn [low high lo_part hi_part] in *.
  destruct (words32 (low r)) as (El & Hl0 & Hl1); [lia|].
  destruct (words32 (high r)) as (Eh & Hh0 & Hh1); [lia|].
  split.
  - intros H. destruct (Z.eq_dec (word16 (low r) 1) (word16 (high r) 1)) as [|Hne]; [by left|].
    right. destruct (words32_of (word16 (high r) 1) 0) as [Ha Hb]; [lia..|].
    destruct (words32_of (word16 (low r) 1) 65535) as [Hc Hd]; [lia..|].
    pose proof (H (65536 * word16 (high r) 1 + 0) ltac:(lia)) as H1.
    pose proof (H (65536 * word16 (low r) 1 + 65535) ltac:(lia)) as H2.
    rewrite Ha, Hb in H1. rewrite Hc, Hd in H2. unfold in_range in H1, H2.
    cbn [low high lo_part hi_part] in H1, H2. lia.
  - intros Hcase v Hv. by apply fill_32_match.
Qed.

(** ** Matching *)

(** A packet as the five values of its header fields, and the same as the
    seven 16-bit values the trees look at. *)
Record acl_packet : Type := mkPacket {
  p_sip : Z; p_dip : Z; p_sport : Z; p_dport : Z; p_proto : Z;
}.

Definition acl_matches (r : Rule_Ipv4_ACL) (p : acl_packet) : bool :=
  in_range (sip r) (p_sip p) && in_range (dip r) (p_dip p) && in_range (sport r) (p_sport p)
  && in_range (dport r) (p_dport p) && in_range (proto r) (p_proto p).

Definition packet_words (p : acl_packet) : list Z :=
  [word16 (p_sip p) 0; word16 (p_sip p) 1; word16 (p_dip p) 0; word16 (p_dip p) 1;
   p_sport p; p_dport p; p_proto p].

Definition array_matches (a : list Range1d) (ws : list Z) : bool :=
  forallb (λ x, in_range x.1 x.2) (zip a ws).

(** A block of addresses with a common prefix: [k] free low bits. *)
Definition is_prefix32 (r : Range1d) : Prop :=
  ∃ k q, 0 ≤ k ≤ 32 ∧ low r = q * 2 ^ k ∧ high r = low r + 2 ^ k - 1.

Lemma prefix32_parts (r : Range1d) :
  range32_ok r → is_prefix32 r →
  fill_32 r = Some [lo_part r; hi_part r]
  ∧ (low (hi_part r) = high (hi_part r) ∨ low (lo_part r) = 0 ∧ high (lo_part r) = 65535).
Proof.
  intros Hok (k & q & Hk & Hl & Hh). pose proof Hok as [Hr Hr'].
  assert (low (hi_part r) = high (hi_part r) ∧ low (lo_part r) ≤ high (lo_part r)
          ∨ low (lo_part r) = 0 ∧ high (lo_part r) = 65535) as Hcase.
  { cbn [low high lo_part hi_part]. rewrite !word16_0, !word16_1 by lia.
    destruct (Z.le_gt_cases k 16).
    - left. assert (65536 = 2 ^ k * 2 ^ (16 - k)) as ->
        by (change 65536 with (2 ^ 16); rewrite <- Z.pow_add_r by lia; f_equal; lia).
      assert (0 < 2 ^ k) by (apply Z.pow_pos_nonneg; lia).
      assert (0 < 2 ^ (16 - k)) by (apply Z.pow_pos_nonneg; lia).
      assert (high r = q * 2 ^ k + (2 ^ k - 1)) as Hh' by lia.
      rewrite <- !Z.div_div by lia.
      rewrite !Z.rem_mul_r by lia. rewrite Hh', Hl.
      assert ((q * 2 ^ k + (2 ^ k - 1)) / 2 ^ k = q) as ->
        by (rewrite Z.div_add_l, Z.div_small by lia; lia).
      assert ((q * 2 ^ k + (2 ^ k - 1)) mod 2 ^ k = 2 ^ k - 1) as ->
        by (rewrite Z.add_comm, Z.mod_add, Z.mod_small by lia; lia).
      rewrite Z.div_mul, Z.mod_mul by lia. lia.
    - right. assert (2 ^ k = 2 ^ (k - 16) * 65536) as He
        by (change 65536 with (2 ^ 16); rewrite <- Z.pow_add_r by lia; f_equal; lia).
      rewrite Hl, He in *. rewrite Z.mul_assoc, Z.mod_mul by lia. split; [done|].
      rewrite Hh. replace (q * (2 ^ (k - 16) * 65536) + 2 ^ (k - 16) * 65536 - 1)
        with (65535 + (q * 2 ^ (k - 16) + 2 ^ (k - 16) - 1) * 65536) by lia.
      rewrite Z.mod_add by lia. done. }
  rewrite fill_32_eq by done.
  destruct (words32 (low r)) as (_ & ? & _); [lia|]. split; [|tauto].
  rewrite (proj2 (Z.leb_le _ _)); [done|]. cbn [low high lo_part hi_part] in *. lia.
Qed.

(** C32. A rule whose addresses are prefixes can always be converted, and its
    seven ranges match the seven words of a packet exactly when the rule
    matches the packet. *)
Theorem acl_prefix_match (r : Rule_Ipv4_ACL) (p : acl_packet) :
  acl_ok r → is_prefix32 (sip r) → is_prefix32 (dip r) →
  0 ≤ p_sip p < 2 ^ 32 → 0 ≤ p_dip p < 2 ^ 32 →
  ∃ a, rule_to_array_16b r = Some a ∧ array_matches a (packet_words p) = acl_matches r p.
Proof.
  intros [Hs Hd] Ps Pd Hsip Hdip.
  destruct (prefix32_parts _ Hs Ps) as [Es Cs]. destruct (prefix32_parts _ Hd Pd) as [Ed Cd].
  unfold rule_to_array_16b. rewrite Es, Ed. eexists. split; [done|].
  unfold array_matches, acl_matches, packet_words. cbn [app zip zip_with forallb fst snd].
  rewrite (fill_32_match _ _ Hs Hsip Cs), (fill_32_match _ _ Hd Hdip Cd).
  by rewrite andb_true_r, <- !andb_assoc.
Qed.

(** ** Wildcards of an OpenFlow rule *)

(** The positions of the array that belong to an IPv6 address, and the number
    of positions the conversion writes. *)
Definition ipv6_position (i : nat) : bool :=
  ((45 <=? i) && (i <? 61) || (65 <=? i) && (i <? 73))%nat.

Definition of_written : nat := 98.

(** The array of a default OpenFlow rule is not a wildcard everywhere: the
    words of the three IPv6 addresses and the 79 words behind the 98 written
    ones are the range [0-0], which matches only the value 0; all the others
    are unrestricted. *)
Theorem of_default_array :
  ∃ a, rule_to_array_16b_OF Rule_OF_1_5_1_ctor = Some a
    ∧ length a = 177%nat
    ∧ ∀ i x, a !! i = Some x →
        x = if (ipv6_position i || (of_written <=? i)%nat)%bool
            then mkRange 0 0 else mkRange 0 65535.
Proof.
  eexists. split; [vm_compute; reflexivity|]. split; [done|].
  intros i x Hx. pose proof (lookup_lt_Some _ _ _ Hx) as Hi. cbn [length] in Hi.
  do 177 (destruct i as [|i]; [by injection Hx as <-|]). lia.
Qed.

(** The left shift of an IPv6 address by [v] bits takes one bit too many
    from the lower word: the bit below the ones that leave it appears in the
    upper word, where the 128-bit shift has none. *)
Theorem ipv6_shl_extra_bit (v : Z) :
  0 < v < 63 →
  let a := mkIpv6 0 (2 ^ (63 - v)) in
  ip6_high (ipv6_shl a v) = 1
  ∧ Z.shiftl (ip6_low a) v < 2 ^ 64.
Proof.
  intros Hv a. subst a. unfold ipv6_shl, u64, to_T. cbn [ip6_high ip6_low].
  rewrite Z.shiftl_0_l, Z.mod_0_l by lia. split.
  - replace (64 - v - 1) with (63 - v) by lia. rewrite Z.shiftr_div_pow2 by lia.
    rewrite Z.div_same by (apply Z.pow_nonzero; lia). done.
  - rewrite Z.shiftl_mul_pow2, <- Z.pow_add_r by lia.
    apply Z.pow_lt_mono_r; lia.
Qed.

(** ** Instances *)

Definition acl_example : Rule_Ipv4_ACL :=
  mkACL (mkRange 3232235520 3232301055) (mkRange 167772161 167772161) (mkRange 0 65535)
    (mkRange 80 90) (mkRange 6 6) 3 0.

Lemma acl_example_ok : acl_ok acl_example.
Proof. unfold acl_ok, range32_ok. cbn. lia. Qed.

Lemma rule_array_roundtrip_witness :
  ∃ a, rule_to_array_16b acl_example = Some a ∧ length a = 7%nat.
Proof.
  eexists. split; [vm_compute; reflexivity|].
  exact (proj1 (proj1 (rule_array_roundtrip acl_example acl_example_ok) _ eq_refl)).
Defined.

Lemma fill_32_exact_witness :
  (∀ v, 0 ≤ v < 2 ^ 32 →
     in_range (mkRange 0 98304) v
     = in_range (mkRange 0 32768) (word16 v 0) && in_range (mkRange 0 1) (word16 v 1))
  ↔ (0 = 1 ∨ 0 = 0 ∧ 32768 = 65535).
Proof.
  apply (fill_32_exact (mkRange 0 98304) (mkRange 0 32768) (mkRange 0 1)).
  - unfold range32_ok. cbn. lia.
  - reflexivity.
Defined.

Lemma acl_prefix_match_witness :
  ∃ a, rule_to_array_16b acl_example = Some a
    ∧ array_matches a (packet_words (mkPacket 3232235777 167772161 1000 80 6)) = true.
Proof.
  destruct (acl_prefix_match acl_example (mkPacket 3232235777 167772161 1000 80 6))
    as (a & Ha & Hm).
  - apply acl_example_ok.
  - exists 16, 49320. cbn. lia.
  - exists 0, 167772161. cbn. lia.
  - cbn. lia.
  - cbn. lia.
  - exists a. split; [exact Ha|]. rewrite Hm. vm_compute. reflexivity.
Defined.

Lemma ipv6_shl_extra_bit_witness :
  ip6_high (ipv6_shl (mkIpv6 0 (2 ^ 62)) 1) = 1 ∧ Z.shiftl (2 ^ 62) 1 < 2 ^ 64.
Proof. apply (ipv6_shl_extra_bit 1). lia. Defined.
