(* ===== verification/Trace.v ===== *)
(** * Synthetic packet traces ([src/rule_parser/trace_tools.cpp])

    Packets drawn from the corners of the rules.  The state is the engine
    [std::mt19937]; its construction from a seed and the numbers of
    [std::uniform_int_distribution], which the standard leaves to the library,
    are parameters: a number lies between the bounds of the distribution.  A
    word of a packet that has not been written is [None].  The parameters [a]
    and [b] of the Pareto distribution are the rational values of the floats. *)
From Stdlib Require Import QArith Qround.
From S2P Require Import Prelude Range Rule.
Local Open Scope Z_scope.

Module Trace.

Section generator.
Context {rand : Type} (mt19937 : Z → rand) (uniform : Z → Z → rand → Z * rand).

(** [std::array<uint16_t, 7>] *)
Definition packet_t : Type := list (option Z).
Definition packet_uninit : packet_t := replicate 7 None.

(** A draw from [std::uniform_int_distribution<>(lo, hi)]. *)
Definition draw (lo hi : Z) : M rand Z := λ r, let '(x, r') := uniform lo hi r in (Ok x, r').

(** [packet[i] = v] *)
Definition set_word (packet : packet_t) (i : nat) (v : Z) : M rand packet_t :=
  _ ← or_ub (packet !! i);
  mret (<[i := Some (to_T 2 v)]> packet).

Definition ramdom_corner_push_value_32 (packet : packet_t) (byte_offset : nat) (val : Range1d)
    (use_low big_endian : bool) : M rand (packet_t * nat) :=
  assert_ (byte_offset mod 2 =? 0)%nat;;
  let v := if use_low then low val else high val in
  let v := if big_endian then bswap 4 v else v in
  let p0 := to_T 2 v in
  let p1 := to_T 2 (Z.shiftr v 16) in
  packet ← set_word packet (byte_offset / 2) p0;
  packet ← set_word packet (byte_offset / 2 + 1) p1;
  mret (packet, (byte_offset + 4)%nat).

Definition ramdom_corner_push_value_16 (packet : packet_t) (byte_offset : nat) (val : Range1d)
    (use_low big_endian : bool) : M rand (packet_t * nat) :=
  let v := if use_low then low val else high val in
  let v := if big_endian then bswap 2 v else v in
  packet ← set_word packet (byte_offset / 2) v;
  mret (packet, (byte_offset + 2)%nat).

(** [p < 0.5] for the number [p] of a draw. *)
Definition below_half (p : Z) : bool := 2 * p <? 1.

Definition random_corner (rule : Rule_Ipv4_ACL) (new_hdr : packet_t) (big_endian : bool) : M rand packet_t :=
  p ← draw 0 1;
  s ← ramdom_corner_push_value_32 new_hdr 0 (sip rule) (below_half p) big_endian;
  p ← draw 0 1;
  s ← ramdom_corner_push_value_32 s.1 s.2 (dip rule) (below_half p) big_endian;
  p ← draw 0 1;
  s ← ramdom_corner_push_value_16 s.1 s.2 (sport rule) (below_half p) big_endian;
  p ← draw 0 1;
  s ← ramdom_corner_push_value_16 s.1 s.2 (dport rule) (below_half p) big_endian;
  p ← draw 0 1;
  s ← ramdom_corner_push_value_16 s.1 s.2 (proto rule) (below_half p) big_endian;
  mret s.1.

(** [pow(1 - p, 1 / a)] for [p] 0 or 1: one, or a power of zero, which is
    infinite ([None]) for a negative exponent. *)
Definition pow_1_p (p : Z) (a : Q) : option Q :=
  if p =? 0 then Some 1%Q else if Qle_bool 0 a then Some 0%Q else None.

(** [size_t(ceil(b / x))]: the conversion of an infinite value or of one out
    of range is undefined. *)
Definition ceil_quotient (b : Q) (x : option Q) : option Z :=
  match x with
  | None => Some 0
  | Some x =>
      if Qeq_bool x 0 then None
      else let c := Qceiling (b / x) in
           if (0 <=? c) && (c <? 2 ^ 64) then Some c else None
  end.

Definition pareto_distrib (a b : Q) : M rand Z :=
  if Qeq_bool b 0 then mret 1
  else
    p ← draw 0 1;
    or_ub (ceil_quotient b (pow_1_p p a)).

(** A value converted to [int]. *)
Definition to_int (v : Z) : Z := (v + 2 ^ 31) mod 2 ^ 32 - 2 ^ 31.

Fixpoint header_gen_loop (fuel : nat) (filters : list Rule_Ipv4_ACL) (a b : Q) (threshold : Z)
    (big_endian : bool) (num_headers : Z) (temp_packets : list packet_t) : M rand (list packet_t) :=
  if num_headers <? threshold then
    match fuel with
    | O => throw no_fuel
    | S fuel =>
        fi ← draw 0 (to_int (Z.of_nat (length filters)) - 1);
        rule ← or_ub (if 0 <=? fi then filters !! Z.to_nat fi else None);
        new_hdr ← random_corner rule packet_uninit big_endian;
        copies_n ← pareto_distrib a b;
        header_gen_loop fuel filters a b threshold big_endian (to_int (num_headers + copies_n))
          (temp_packets ++ replicate (Z.to_nat copies_n) new_hdr)
    end
  else mret temp_packets.

Definition header_gen (fuel : nat) (filters : list Rule_Ipv4_ACL) (a b : Q) (threshold : Z)
    (big_endian : bool) : M rand (list packet_t) :=
  temp_packets ← header_gen_loop fuel filters a b threshold big_endian 0 [];
  or_ub (if (0 <=? threshold) && (threshold <=? Z.of_nat (length temp_packets))
         then Some (take (Z.to_nat threshold) temp_packets) else None).

(** The float [0.1f]. *)
Definition float_0_1 : Q := 13421773 # 134217728.

Definition generate_packets_from_ruleset (fuel : nat) (filters : list Rule_Ipv4_ACL)
    (num_packets seed : Z) (big_endian : bool) : result (list packet_t) :=
  if bool_decide (filters = []) then Err (runtime_error "can not generate packets from empty rule set")
  else (header_gen fuel filters 1 float_0_1 (to_int num_packets) big_endian (mt19937 seed)).1.

(** ** Properties *)

(** The words of a packet in memory. *)
Definition words32 (big_endian : bool) (v : Z) : list Z :=
  let v := if big_endian then bswap 4 v else v in [to_T 2 v; to_T 2 (Z.shiftr v 16)].

Definition words16 (big_endian : bool) (v : Z) : list Z := [to_T 2 (if big_endian then bswap 2 v else v)].

Definition trace_words (big_endian : bool) (p : acl_packet) : list Z :=
  words32 big_endian (p_sip p) ++ words32 big_endian (p_dip p) ++ words16 big_endian (p_sport p)
  ++ words16 big_endian (p_dport p) ++ words16 big_endian (p_proto p).

Definition corner_of (use_low : bool) (r : Range1d) : Z := if use_low then low r else high r.

(** The draws from the engine: the state after [k] bits, the [k]-th bit, the
    filter, and the state after one iteration, which draws the filter, the five
    bits of the corner and the bit of the Pareto sample. *)
Definition bits_engine (k : nat) (r : rand) : rand := Nat.iter k (λ r, (uniform 0 1 r).2) r.
Definition bit (k : nat) (r : rand) : Z := (uniform 0 1 (bits_engine k r)).1.
Definition filter_draw (fsize : Z) (r : rand) : Z * rand := uniform 0 (fsize - 1) r.
Definition next_engine (fsize : Z) (r : rand) : rand := bits_engine 6 (filter_draw fsize r).2.

(** The state before the iteration [i], the filter it draws, the packet it
    makes of a rule and the number of its Pareto sample. *)
Definition engine_at (fsize : Z) (i : nat) (r : rand) : rand := Nat.iter i (next_engine fsize) r.
Definition filter_at (fsize : Z) (i : nat) (r : rand) : Z := (filter_draw fsize (engine_at fsize i r)).1.
Definition pareto_at (fsize : Z) (i : nat) (r : rand) : Z := bit 5 (filter_draw fsize (engine_at fsize i r)).2.

Definition drawn_packet (rule : Rule_Ipv4_ACL) (r : rand) : acl_packet :=
  mkPacket (corner_of (bit 0 r =? 0) (sip rule)) (corner_of (bit 1 r =? 0) (dip rule))
    (corner_of (bit 2 r =? 0) (sport rule)) (corner_of (bit 3 r =? 0) (dport rule))
    (corner_of (bit 4 r =? 0) (proto rule)).

Definition packet_at (rule : Rule_Ipv4_ACL) (fsize : Z) (i : nat) (r : rand) : acl_packet :=
  drawn_packet rule (filter_draw fsize (engine_at fsize i r)).2.

(** Every field is one of the ends of the range of the rule. *)
Definition corner (r : Rule_Ipv4_ACL) (p : acl_packet) : Prop :=
  ∃ b1 b2 b3 b4 b5, p = mkPacket (corner_of b1 (sip r)) (corner_of b2 (dip r)) (corner_of b3 (sport r))
    (corner_of b4 (dport r)) (corner_of b5 (proto r)).

Definition range16_ok (r : Range1d) : Prop := 0 ≤ low r ≤ high r ∧ high r < 2 ^ 16.

Definition acl_valid (r : Rule_Ipv4_ACL) : Prop :=
  acl_ok r ∧ range16_ok (sport r) ∧ range16_ok (dport r) ∧ range16_ok (proto r).

Lemma to_T_twice sz v : to_T sz (to_T sz v) = to_T sz v.
Proof. unfold to_T. apply Z.mod_mod. lia. Qed.

Lemma to_T_16 v : 0 ≤ v < 2 ^ 16 → to_T 2 v = v.
Proof. apply Z.mod_small. Qed.

Lemma words32_le v : words32 false v = [word16 v 0; word16 v 1].
Proof.
  unfold words32, word16, to_T. change 65535 with (2 ^ 16 - 1). rewrite !land_ones_mod by lia.
  by rewrite Z.shiftr_0_r.
Qed.

Lemma corner_words r p : corner r p → acl_valid r → trace_words false p = packet_words p.
Proof.
  intros (b1 & b2 & b3 & b4 & b5 & ->) (_ & Hs & Hd & Hp). unfold trace_words. rewrite !words32_le.
  unfold range16_ok in *. unfold words16, packet_words. cbn.
  rewrite !to_T_16 by (unfold corner_of; case_match; lia). done.
Qed.

Lemma corner_matches r p : corner r p → acl_valid r → acl_matches r p = true.
Proof.
  intros (b1 & b2 & b3 & b4 & b5 & ->) ([H1 H2] & H3 & H4 & H5). unfold acl_matches. cbn.
  unfold range32_ok, range16_ok in *. rewrite !andb_true_iff. unfold in_range.
  split_and!; apply andb_true_iff; rewrite !Z.leb_le; unfold corner_of; case_match; lia.
Qed.

Section laws.
Hypothesis uniform_bounds : ∀ lo hi r, lo ≤ hi → lo ≤ (uniform lo hi r).1 ≤ hi.

Lemma draw_run lo hi r : draw lo hi r = (Ok (uniform lo hi r).1, (uniform lo hi r).2).
Proof. unfold draw. by destruct (uniform lo hi r). Qed.

Lemma bit_bounds k r : 0 ≤ bit k r ≤ 1.
Proof using uniform_bounds. apply uniform_bounds. lia. Qed.

Lemma bit_below_half k r : below_half (bit k r) = (bit k r =? 0).
Proof using uniform_bounds.
  pose proof (bit_bounds k r). unfold below_half. destruct (Z.eqb_spec (bit k r) 0) as [->|]; [done|].
  apply Z.ltb_ge. lia.
Qed.

Lemma draw_bit k r : draw 0 1 (bits_engine k r) = (Ok (bit k r), bits_engine (S k) r).
Proof. apply draw_run. Qed.

Lemma push_32_ok packet off val ul be r :
  (off mod 2 = 0)%nat → (off / 2 + 1 < length packet)%nat →
  ramdom_corner_push_value_32 packet off val ul be r
  = (Ok (list_inserts (off / 2) (Some <$> words32 be (corner_of ul val)) packet, (off + 4)%nat), r).
Proof.
  intros Hm Hl. unfold ramdom_corner_push_value_32. rewrite bind_assert by (by apply Nat.eqb_eq). cbv zeta.
  assert (∀ packet i v, (i < length packet)%nat → set_word packet i v r = (Ok (<[i := Some (to_T 2 v)]> packet), r)) as Hset.
  { intros q i v [x Hx]%lookup_lt_is_Some. unfold set_word. by rewrite (bind_some _ _ _ _ Hx). }
  run_ok by (apply Hset; lia). run_ok by (apply Hset; rewrite length_insert; lia).
  unfold words32, corner_of. cbn [fmap list_fmap list_inserts]. rewrite !to_T_twice. f_equal. f_equal. f_equal.
  rewrite list_insert_insert_ne by lia. by rewrite Nat.add_1_r.
Qed.

Lemma push_16_ok packet off val ul be r :
  (off / 2 < length packet)%nat →
  ramdom_corner_push_value_16 packet off val ul be r
  = (Ok (list_inserts (off / 2) (Some <$> words16 be (corner_of ul val)) packet, (off + 2)%nat), r).
Proof. intros [x Hx]%lookup_lt_is_Some. unfold ramdom_corner_push_value_16, set_word.
  rewrite bind_assoc, (bind_some _ _ _ _ Hx). reflexivity. Qed.

Lemma random_corner_ok rule be r :
  random_corner rule packet_uninit be r = (Ok (Some <$> trace_words be (drawn_packet rule r)), bits_engine 5 r).
Proof using uniform_bounds.
  unfold random_corner. change r with (bits_engine 0 r) at 1.
  run_ok by (apply draw_bit). run_ok by (apply push_32_ok; [done|cbn; lia]).
  run_ok by (apply draw_bit). run_ok by (apply push_32_ok; [done|cbn; lia]).
  run_ok by (apply draw_bit). run_ok by (apply push_16_ok; cbn; lia).
  run_ok by (apply draw_bit). run_ok by (apply push_16_ok; cbn; lia).
  run_ok by (apply draw_bit). run_ok by (apply push_16_ok; cbn; lia).
  unfold drawn_packet. rewrite !bit_below_half. reflexivity.
Qed.

Lemma drawn_corner rule r : corner rule (drawn_packet rule r).
Proof. by eexists _, _, _, _, _. Qed.

(** The number of copies of a packet: one, or undefined. *)
Lemma pareto_spec k r :
  pareto_distrib 1 float_0_1 (bits_engine k r)
  = (if bit k r =? 0 then Ok 1 else Err undefined_behaviour, bits_engine (S k) r).
Proof.
  unfold pareto_distrib. replace (Qeq_bool float_0_1 0) with false by done. run_ok by (apply draw_bit).
  unfold pow_1_p. destruct (bit k r =? 0); reflexivity.
Qed.

Lemma to_int_id v : - 2 ^ 31 ≤ v < 2 ^ 31 → to_int v = v.
Proof. intros H. unfold to_int. rewrite Z.mod_small by lia. lia. Qed.

(** The packet [pk] is the one of the iteration [i]: a corner of the filter
    drawn there. *)
Definition iteration_packet (filters : list Rule_Ipv4_ACL) (be : bool) (r : rand) (i : nat) (pk : packet_t) : Prop :=
  let fsize := Z.of_nat (length filters) in
  ∃ rule, filters !! Z.to_nat (filter_at fsize i r) = Some rule
    ∧ pk = Some <$> trace_words be (packet_at rule fsize i r).

(** The result of a trace of [n] packets from the engine [r]. *)
Definition trace_result (filters : list Rule_Ipv4_ACL) (be : bool) (r : rand) (n : nat) (res : result (list packet_t)) : Prop :=
  match res with
  | Ok ps =>
      (∀ i, (i < n)%nat → pareto_at (Z.of_nat (length filters)) i r = 0)
      ∧ length ps = n ∧ ∀ i pk, ps !! i = Some pk → iteration_packet filters be r i pk
  | Err e => e = undefined_behaviour ∧ ∃ i, (i < n)%nat ∧ pareto_at (Z.of_nat (length filters)) i r = 1
  end.

Lemma engine_shift fsize i r : engine_at fsize i (next_engine fsize r) = engine_at fsize (S i) r.
Proof. unfold engine_at. by rewrite Nat.iter_succ_r. Qed.

(** One iteration in front of a trace. *)
Lemma trace_result_cons filters be r n pk res :
  iteration_packet filters be r 0 pk → pareto_at (Z.of_nat (length filters)) 0 r = 0 →
  trace_result filters be (next_engine (Z.of_nat (length filters)) r) n res →
  trace_result filters be r (S n) (match res with Ok ps => Ok (pk :: ps) | Err e => Err e end).
Proof.
  intros Hpk H0. destruct res as [ps|e]; cbn [trace_result].
  - intros (Hp & Hl & Hi). split_and!.
    + intros [|i] Hlt; [done|]. unfold pareto_at. rewrite <- engine_shift. apply Hp. lia.
    + cbn. by rewrite Hl.
    + intros [|i] pk' Hpk'; cbn in Hpk'; [by injection Hpk' as <-|].
      unfold iteration_packet, filter_at, packet_at. rewrite <- engine_shift. by apply Hi.
  - intros (-> & i & Hi & Hp). split; [done|]. exists (S i). split; [lia|].
    unfold pareto_at. by rewrite <- engine_shift.
Qed.

(** The packets collected before do not matter. *)
Definition prepend (ps : list packet_t) (res : result (list packet_t)) : result (list packet_t) :=
  match res with Ok ps' => Ok (ps ++ ps') | Err e => Err e end.

(** Every iteration adds one packet, or its Pareto sample is undefined. *)
Lemma loop_ok filters be fuel n ps r :
  filters ≠ [] → Z.of_nat (length filters) < 2 ^ 31 → Z.of_nat (length ps + n) < 2 ^ 31 → (n ≤ fuel)%nat →
  ∃ res, (header_gen_loop fuel filters 1 float_0_1 (Z.of_nat (length ps + n)) be (Z.of_nat (length ps)) ps r).1
      = prepend ps res
    ∧ trace_result filters be r n res.
Proof using uniform_bounds.
  intros Hne Hfs. revert n ps r. induction fuel as [|fuel IH]; intros n ps r Hth Hfuel.
  { assert (n = 0%nat) as -> by lia. cbn [header_gen_loop]. rewrite (proj2 (Z.ltb_ge _ _)) by lia.
    exists (Ok []). cbn. rewrite app_nil_r. split; [done|]. split; [intros; lia|done]. }
  cbn [header_gen_loop]. destruct n as [|n].
  { rewrite (proj2 (Z.ltb_ge _ _)) by lia. exists (Ok []). cbn. rewrite app_nil_r.
    split; [done|]. split; [intros; lia|done]. }
  rewrite (proj2 (Z.ltb_lt _ _)) by lia. set (fsize := Z.of_nat (length filters)) in *.
  assert (0 < fsize) as Hpos by (subst fsize; destruct filters; [done|cbn; lia]).
  rewrite (to_int_id fsize) by lia. run_ok by (apply draw_run).
  pose proof (uniform_bounds 0 (fsize - 1) r ltac:(lia)) as Hb.
  rewrite (proj2 (Z.leb_le _ _)) by lia.
  destruct (lookup_lt_is_Some_2 filters (Z.to_nat (uniform 0 (fsize - 1) r).1)) as [rule Hrule]; [subst fsize; lia|].
  rewrite Hrule. cbn [or_ub]. rewrite bind_ret. run_ok by (apply random_corner_ok).
  pose proof (pareto_spec 5 (uniform 0 (fsize - 1) r).2) as Hpar.
  pose proof (bit_bounds 5 (uniform 0 (fsize - 1) r).2) as Hbit.
  set (pk := Some <$> trace_words be (drawn_packet rule (uniform 0 (fsize - 1) r).2)) in *.
  destruct (Z.eqb_spec (bit 5 (uniform 0 (fsize - 1) r).2) 0) as [H0|H1].
  2: { rewrite (bind_err _ _ _ _ _ Hpar). exists (Err undefined_behaviour). split; [done|]. split; [done|].
       exists 0%nat. split; [lia|]. change (bit 5 (uniform 0 (fsize - 1) r).2 = 1). lia. }
  run_ok by (exact Hpar). rewrite to_int_id by lia. change (replicate (Z.to_nat 1) pk) with [pk].
  destruct (IH n (ps ++ [pk]) (next_engine fsize r)) as (res & Hrun & Hres);
    [rewrite length_app; cbn [length]; lia|lia|].
  rewrite length_app in Hrun. cbn [length] in Hrun.
  replace (length ps + 1 + n)%nat with (length ps + S n)%nat in Hrun by lia.
  replace (Z.of_nat (length ps + 1)) with (Z.of_nat (length ps) + 1) in Hrun by lia.
  eexists. split; [etrans; [exact Hrun|]|apply (trace_result_cons _ _ _ _ pk); [by exists rule|done|exact Hres]].
  destruct res as [ps'|e]; cbn; [|done]. by rewrite <- app_assoc.
Qed.

(** C26. A trace has as many packets as asked for: the packet of each iteration
    is the corner, given by five bits of the engine, of the filter drawn there,
    and the filter matches it; the words of a little-endian trace are those the
    trees look up.  The trace is undefined exactly when the Pareto sample of
    one of the iterations draws 1, and an empty rule set is refused. *)
Theorem trace_corners filters num seed be fuel :
  Z.of_nat (length filters) < 2 ^ 31 → (num < 2 ^ 31)%Z → 0 ≤ num ≤ Z.of_nat fuel → Forall acl_valid filters →
  let fsize := Z.of_nat (length filters) in
  let r := mt19937 seed in
  match generate_packets_from_ruleset fuel filters num seed be with
  | Ok ps =>
      filters ≠ []
      ∧ (∀ i, Z.of_nat i < num → pareto_at fsize i r = 0)
      ∧ Z.of_nat (length ps) = num
      ∧ ∀ i pk, ps !! i = Some pk →
          ∃ rule, filters !! Z.to_nat (filter_at fsize i r) = Some rule
            ∧ pk = Some <$> trace_words be (packet_at rule fsize i r)
            ∧ acl_matches rule (packet_at rule fsize i r) = true
            ∧ (be = false → trace_words be (packet_at rule fsize i r) = packet_words (packet_at rule fsize i r))
  | Err e =>
      if bool_decide (filters = []) then e = runtime_error "can not generate packets from empty rule set"
      else e = undefined_behaviour ∧ ∃ i, Z.of_nat i < num ∧ pareto_at fsize i r = 1
  end.
Proof using uniform_bounds.
  intros Hfs Hnum Hfuel Hvalid fsize r. unfold generate_packets_from_ruleset. case_bool_decide as Hne; [done|].
  unfold header_gen. rewrite to_int_id by lia. fold r.
  destruct (loop_ok filters be fuel (Z.to_nat num) [] r Hne Hfs ltac:(cbn [length Nat.add]; lia) ltac:(lia)) as (res & Hrun & Hres).
  cbn [length Nat.add] in Hrun. change (Z.of_nat 0) with 0 in Hrun. rewrite Z2Nat.id in Hrun by lia.
  destruct (header_gen_loop fuel filters 1 float_0_1 num be 0 [] r) as [out r'] eqn:Hloop. cbn [fst] in Hrun. subst out.
  destruct res as [ps|e]; cbn [prepend app trace_result] in *.
  2: { rewrite (bind_err _ _ _ _ _ Hloop). destruct Hres as (-> & i & Hi & Hp). split; [done|].
       exists i. split; [lia|done]. }
  rewrite (bind_ok _ _ _ _ _ Hloop). destruct Hres as (Hp & Hl & Hi).
  rewrite !(proj2 (Z.leb_le _ _)) by lia. rewrite take_ge by lia. cbn [andb or_ub mret M_ret fst].
  split_and!; [done|intros i Hlt; apply Hp; lia|lia|]. intros i pk (rule & Hrule & ->)%Hi.
  pose proof (drawn_corner rule (filter_draw fsize (engine_at fsize i r)).2) as Hc.
  rewrite Forall_forall in Hvalid. pose proof (Hvalid rule (list_elem_of_lookup_2 _ _ _ Hrule)) as Hv.
  exists rule. split_and!; [done|done|by apply corner_matches|]. intros ->. by apply (corner_words rule).
Qed.
End laws.
End generator.

(** An engine that reads its numbers from a tape. *)
Definition tape_uniform (lo hi : Z) (r : list Z) : Z * list Z :=
  match r with
  | [] => (lo, [])
  | x :: r' => (lo + x mod (hi - lo + 1), r')
  end.

Lemma tape_bounds lo hi r : lo ≤ hi → lo ≤ (tape_uniform lo hi r).1 ≤ hi.
Proof. intros H. destruct r as [|x r]; cbn; [lia|]. pose proof (Z.mod_pos_bound x (hi - lo + 1)). lia. Qed.

(** The second filter, then the first one; the Pareto samples are zero. *)
Definition tape : list Z := [1; 0; 0; 0; 0; 0; 0; 0; 0; 1; 0; 1; 0; 0].

Lemma acl_example_valid : acl_valid acl_example.
Proof. unfold acl_valid, range16_ok. split_and!; [exact acl_example_ok|..]; cbn; lia. Qed.

(** Two rules: the second one takes another port. *)
Definition two_filters : list Rule_Ipv4_ACL :=
  [acl_example; mkACL (sip acl_example) (dip acl_example) (sport acl_example) (mkRange 443 443) (proto acl_example) 3 0].

Lemma two_filters_valid : Forall acl_valid two_filters.
Proof.
  constructor; [exact acl_example_valid|]. constructor; [|constructor].
  unfold acl_valid, range16_ok. split_and!; [exact acl_example_ok|..]; cbn; lia.
Qed.

(** Two packets, one of each rule. *)
Lemma trace_corners_witness :
  let fsize := 2 in
  ∃ p0 p1,
    generate_packets_from_ruleset (λ _, tape) tape_uniform 2 two_filters 2 0 false = Ok [p0; p1]
    ∧ p0 !! 5%nat = Some (Some 443) ∧ p1 !! 5%nat = Some (Some 90)
    ∧ ∀ i pk, [p0; p1] !! i = Some pk →
        ∃ rule, two_filters !! Z.to_nat (filter_at tape_uniform fsize i tape) = Some rule
          ∧ pk = Some <$> trace_words false (packet_at tape_uniform rule fsize i tape)
          ∧ acl_matches rule (packet_at tape_uniform rule fsize i tape) = true
          ∧ (false = false → trace_words false (packet_at tape_uniform rule fsize i tape)
                             = packet_words (packet_at tape_uniform rule fsize i tape)).
Proof.
  eexists _, _.
  match goal with |- ?G ∧ _ => assert G as Hrun by (vm_compute; reflexivity) end.
  split; [exact Hrun|]. split; [reflexivity|]. split; [reflexivity|].
  pose proof (trace_corners (λ _, tape) tape_uniform tape_bounds two_filters 2 0 false 2 ltac:(cbn; lia) ltac:(lia)
    ltac:(cbn; lia) two_filters_valid) as H. cbv zeta in H.
  rewrite Hrun in H. apply H.
Defined.

(** A Pareto sample of 1 in the first iteration. *)
Example trace_undefined :
  generate_packets_from_ruleset (λ _, [0; 0; 0; 0; 0; 0; 1]) tape_uniform 2 two_filters 2 0 false
  = Err undefined_behaviour.
Proof. vm_compute. reflexivity. Qed.
End Trace.
