(* ===== verification/RuleVec.v ===== *)
(** * Writing and reading of arrays of 16-bit fields
      ([include/pcv/rule_parser/rule_vec_utils.h])

    The functions that put a field of a packet or of a rule at the current
    position of an array and read it back.  The state is the array and the
    position; the [_v] functions work on arrays of values, the others on
    arrays of ranges made of a value and a mask.  A value of several bytes is
    the integer its memory holds on a little-endian machine. *)
From S2P Require Import Prelude Range Rule.
Local Open Scope Z_scope.

(** ** Cursors *)

Record vec (A : Type) : Type := mkVec { pos : nat; arr : list A }.
Arguments mkVec {A} _ _.
Arguments pos {A} _.
Arguments arr {A} _.

Notation VM A X := (M (vec A) X).

Section cursor.
Context {A : Type}.

(** [dst[i++] = x;] *)
Definition push_one (x : A) : VM A unit :=
  s ← gets id;
  _ ← or_ub (arr s !! pos s);
  modify (λ s, mkVec (S (pos s)) (<[pos s := x]> (arr s))).

(** [src[i + k]] *)
Definition peek (k : nat) : VM A A :=
  s ← gets id;
  or_ub (arr s !! (pos s + k)%nat).

(** [i += k;] *)
Definition advance (k : nat) : VM A unit :=
  modify (λ s : vec A, mkVec (pos s + k) (arr s)).

(** [src[i++]] *)
Definition pop_one : VM A A := x ← peek 0; advance 1;; mret x.
End cursor.

Definition swab16 (v : Z) : Z := bswap 2 v.

Definition swab32 (v : Z) : Z := bswap 4 v.

Definition bswap_64 (v : Z) : Z := bswap 8 v.

(** [R::from_mask] and the checked constructor of a range. *)
Definition R_from_mask (v m : Z) : VM Range1d Range1d :=
  match from_mask 2 v m with Some r => mret r | None => throw assert_failed end.

Definition checked_range {A} (l h : Z) : VM A Range1d :=
  match Range1d_ctor l h false with Some r => mret r | None => throw assert_failed end.

Definition push_masked (vm : Z * Z) : VM Range1d unit :=
  r ← R_from_mask vm.1 vm.2;
  push_one r.

(** ** Bytes *)

Definition push_8 (v m : Z) : VM Range1d unit := push_masked (v, m).

Definition pop_8 : VM Range1d (Z * Z) :=
  s ← peek 0;
  r ← checked_range (to_T 1 (low s)) (to_T 1 (high s));
  advance 1;;
  mret (low r, get_mask_le 1 r).

Definition push_8_v (v : Z) : VM Z unit := push_one v.

Definition pop_8_v : VM Z Z := x ← pop_one; mret (to_T 1 x).

(** ** 16-bit words *)

Definition push_16 (v m : Z) : VM Range1d unit := push_masked (v, m).

(** The two ends go through a [uint8_t]. *)
Definition pop_16 : VM Range1d (Z * Z) :=
  s ← peek 0;
  r ← checked_range (to_T 1 (low s)) (to_T 1 (high s));
  advance 1;;
  mret (low r, get_mask_le 2 r).

Definition push_16be (v m : Z) : VM Range1d unit := push_masked (swab16 v, swab16 m).

(** The position is not advanced. *)
Definition pop_16be : VM Range1d (Z * Z) :=
  s ← peek 0;
  let s := to_be 2 s in
  mret (low s, get_mask_be 2 s).

Definition push_16_v (v : Z) : VM Z unit := push_one v.

Definition pop_16_v : VM Z Z := pop_one.

Definition push_16be_v (v : Z) : VM Z unit := push_one (swab16 v).

Definition pop_16be_v : VM Z Z := x ← pop_one; mret (swab16 x).

(** ** 32-bit words *)

Definition push_32 (v m : Z) : VM Range1d unit :=
  for_each [1; 0]%nat (λ i2, push_masked (word16 v i2, word16 m i2)).

Definition pop_32 : VM Range1d (Z * Z) :=
  s1 ← peek 1;
  s0 ← peek 0;
  res ← checked_range (Z.lor (Z.shiftl (low s1) 16) (low s0))
                      (Z.lor (Z.shiftl (high s1) 16) (high s0));
  advance 2;;
  mret (low res, get_mask_le 4 res).

Definition push_32be (v m : Z) : VM Range1d unit :=
  let _v := swab32 v in
  let _m := swab32 m in
  for_each [0; 1]%nat (λ i2, push_masked (word16 _v i2, word16 _m i2)).

Definition pop_32be : VM Range1d (Z * Z) :=
  s0 ← peek 0;
  s1 ← peek 1;
  res ← checked_range (Z.lor (Z.shiftl (low s0) 16) (low s1))
                      (Z.lor (Z.shiftl (high s0) 16) (high s1));
  let res := to_be 4 res in
  advance 2;;
  mret (low res, get_mask_be 4 res).

Definition push_32_v (v : Z) : VM Z unit :=
  for_each [Z.land v 65535; to_T 2 (Z.shiftr v 16)] (λ x, push_one x).

Definition pop_32_v : VM Z Z :=
  a ← pop_one;
  b ← pop_one;
  mret (Z.lor (to_T 4 (Z.shiftl a 16)) b).

Definition push_32be_v (v : Z) : VM Z unit :=
  let _v := swab32 v in
  for_each [0; 1]%nat (λ i2, push_one (word16 _v i2)).

Definition pop_32be_v : VM Z Z :=
  a ← pop_one;
  b ← pop_one;
  mret (swab32 (Z.lor (to_T 4 (Z.shiftl a 16)) b)).

(** ** Ethernet addresses *)

Definition push_eth_addr (v m : Z) : VM Range1d unit :=
  for_each [2; 1; 0]%nat (λ i2, push_masked (swab16 (word16 v i2), swab16 (word16 m i2))).

(** The first six bytes of the word. *)
Definition pop_eth_addr : VM Range1d (Z * Z) :=
  '(l, h) ← fold_each [0; 1; 2]%nat (0, 0) (λ acc _,
    s ← pop_one;
    mret (to_T 8 (Z.shiftl (Z.lor acc.1 (low s)) 16),
          to_T 8 (Z.shiftl (Z.lor acc.2 (high s)) 16)));
  r ← checked_range l h;
  let r := to_be 8 r in
  mret (to_T 6 (low r), to_T 6 (get_mask_be 8 r)).

Definition push_eth_addr_v (v : Z) : VM Z unit :=
  for_each [2; 1; 0]%nat (λ i2, push_one (swab16 (word16 v i2))).

Definition pop_eth_addr_v : VM Z Z :=
  l ← fold_each [0; 1; 2]%nat 0 (λ l _,
    s ← pop_one;
    mret (to_T 8 (Z.shiftl (Z.lor l s) 16)));
  mret (to_T 6 (bswap_64 l)).

(** ** 64-bit words *)

Definition push_64be (v m : Z) : VM Range1d unit :=
  let _v := bswap_64 v in
  let _m := bswap_64 m in
  for_each [0; 1; 2; 3]%nat (λ i2, push_masked (word16 _v i2, word16 _m i2)).

Definition pop_64be : VM Range1d (Z * Z) :=
  '(l, h) ← fold_each [0; 1; 2; 3]%nat (0, 0) (λ acc i2,
    s ← peek i2;
    mret (Z.lor (to_T 8 (Z.shiftl acc.1 16)) (low s),
          Z.lor (to_T 8 (Z.shiftl acc.2 16)) (high s)));
  res ← checked_range l h;
  let res := to_be 8 res in
  advance 4;;
  mret (low res, get_mask_be 8 res).

Definition push_64be_v (v : Z) : VM Z unit :=
  let _v := bswap_64 v in
  for_each [0; 1; 2; 3]%nat (λ i2, push_one (word16 _v i2)).

Definition pop_64be_v : VM Z Z :=
  l ← fold_each [0; 1; 2; 3]%nat 0 (λ l _,
    s ← pop_one;
    mret (Z.lor (to_T 8 (Z.shiftl l 16)) s));
  mret (bswap_64 l).

(** ** 128-bit words *)

(** [((uint16_t* ) &v)[i] = x;] *)
Definition set_word16 (v : Z) (i : nat) (x : Z) : Z :=
  Z.lor (Z.ldiff v (Z.shiftl 65535 (16 * Z.of_nat i))) (Z.shiftl x (16 * Z.of_nat i)).

Definition push_128be (v m : Z) : VM Range1d unit :=
  for_each (seq 0 8) (λ i2, push_masked (swab16 (word16 v i2), swab16 (word16 m i2))).

Definition pop_128be (v m : Z) : VM Range1d (Z * Z) :=
  fold_each (seq 0 8) (v, m) (λ vm i2,
    r ← pop_one;
    let r := to_be 2 r in
    mret (set_word16 vm.1 i2 (low r), set_word16 vm.2 i2 (get_mask_be 2 r))).

Definition push_128 (v m : Z) : VM Range1d unit :=
  for_each (range_down 0 8) (λ i2, push_masked (word16 v i2, word16 m i2)).

Definition pop_128 (v m : Z) : VM Range1d (Z * Z) :=
  fold_each (range_down 0 8) (v, m) (λ vm i2,
    r ← pop_one;
    mret (set_word16 vm.1 i2 (low r), set_word16 vm.2 i2 (get_mask_le 2 r))).

Definition push_128be_v (v : Z) : VM Z unit :=
  for_each (seq 0 8) (λ i2, push_one (swab16 (word16 v i2))).

Definition pop_128be_v (v : Z) : VM Z Z :=
  fold_each (seq 0 8) v (λ v i2, x ← pop_one; mret (set_word16 v i2 (swab16 x))).

Definition push_128_v (v : Z) : VM Z unit :=
  for_each (range_down 0 8) (λ i2, push_one (word16 v i2)).

Definition pop_128_v (v : Z) : VM Z Z :=
  fold_each (range_down 0 8) v (λ v i2, x ← pop_one; mret (set_word16 v i2 x)).

(** ** Values as lists of 16-bit words *)

(** The value of a list of words, the least significant first. *)
Fixpoint le16 (ws : list Z) : Z :=
  match ws with
  | [] => 0
  | w :: ws => Z.lor w (Z.shiftl (le16 ws) 16)
  end.

Definition is_word (w : Z) : Prop := 0 ≤ w < 65536.

Lemma word_high_bits (w k : Z) : is_word w → 16 ≤ k → Z.testbit w k = false.
Proof.
  intros Hw Hk. destruct (Z.eq_dec w 0) as [->|]; [apply Z.bits_0|].
  apply Z.bits_above_log2; [apply Hw|]. apply Z.log2_lt_pow2; [unfold is_word in Hw; lia|].
  eapply Z.lt_le_trans; [apply Hw|]. change 65536 with (2 ^ 16). apply Z.pow_le_mono_r; lia.
Qed.

(** The word a bit lies in, and its place there. *)
Lemma le16_testbit ws k :
  Forall is_word ws → 0 ≤ k →
  Z.testbit (le16 ws) k = Z.testbit (nth (Z.to_nat (k / 16)) ws 0) (k mod 16).
Proof.
  intros Hws. revert k. induction Hws as [|w ws Hw Hws IH]; intros k Hk; cbn [le16].
  { destruct (Z.to_nat (k / 16)); cbn [nth]; by rewrite !Z.bits_0. }
  rewrite Z.lor_spec, Z.shiftl_spec by done.
  pose proof (Z.div_mod k 16). pose proof (Z.mod_pos_bound k 16).
  destruct (Z.lt_ge_cases k 16) as [Hlt|Hge].
  - rewrite (Z.testbit_neg_r _ (k - 16)), orb_false_r by lia.
    by rewrite Z.div_small, Z.mod_small by lia.
  - rewrite word_high_bits, orb_false_l, IH by (done || lia).
    replace (k - 16) with (k + (-1) * 16) by lia.
    rewrite Z.div_add, Z.mod_add by lia.
    assert (1 ≤ k / 16) by (apply Z.div_le_lower_bound; lia).
    replace (Z.to_nat (k / 16)) with (S (Z.to_nat (k / 16 + -1))) by lia. done.
Qed.

Lemma word16_testbit v i k :
  0 ≤ k → Z.testbit (word16 v i) k = (k <? 16) && Z.testbit v (k + 16 * Z.of_nat i).
Proof.
  intros Hk. unfold word16. change 65535 with (Z.ones 16).
  rewrite Z.land_spec, Z.testbit_ones_nonneg, Z.shiftr_spec, andb_comm by lia. done.
Qed.

Lemma nth_is_word ws i : Forall is_word ws → is_word (nth i ws 0).
Proof.
  intros Hws. revert i. induction Hws as [|w ws Hw _ IH]; intros [|i]; cbn; try done;
    unfold is_word; try lia; apply IH.
Qed.

Lemma le16_word16 ws i : Forall is_word ws → word16 (le16 ws) i = nth i ws 0.
Proof.
  intros Hws. apply Z.bits_inj'. intros k Hk. rewrite word16_testbit by done.
  destruct (Z.ltb_spec k 16); cbn [andb].
  - rewrite le16_testbit by (done || lia).
    rewrite Z.mul_comm, Z.div_add, Z.mod_add, Z.div_small, Z.mod_small by lia.
    by rewrite Z.add_0_l, Nat2Z.id.
  - symmetry. apply word_high_bits; [by apply nth_is_word|lia].
Qed.

Lemma le16_cons w ws : is_word w → le16 (w :: ws) = w + 65536 * le16 ws.
Proof.
  intros Hw. cbn [le16]. rewrite Z.lor_comm, lor_shiftl_add; [|lia|apply Hw].
  change (2 ^ 16) with 65536. lia.
Qed.

Lemma le16_bound ws : Forall is_word ws → 0 ≤ le16 ws < 2 ^ (16 * Z.of_nat (length ws)).
Proof.
  induction 1 as [|w ws Hw _ IH]; [cbn; lia|].
  rewrite le16_cons by done. cbn [length]. unfold is_word in Hw.
  replace (16 * Z.of_nat (S (length ws))) with (16 * Z.of_nat (length ws) + 16) by lia.
  rewrite Z.pow_add_r by lia. change (2 ^ 16) with 65536. lia.
Qed.

Lemma le16_snoc ws w :
  Forall is_word ws → is_word w →
  le16 (ws ++ [w]) = le16 ws + 2 ^ (16 * Z.of_nat (length ws)) * w.
Proof.
  intros Hws Hw. induction Hws as [|x ws Hx _ IH]; cbn [app].
  { rewrite le16_cons by done. cbn. lia. }
  rewrite !le16_cons, IH by done. cbn [length].
  replace (16 * Z.of_nat (S (length ws))) with (16 * Z.of_nat (length ws) + 16) by lia.
  rewrite Z.pow_add_r by lia. change (2 ^ 16) with 65536. lia.
Qed.

(** *** Byte order *)

Lemma byte_of_0 v : byte_of v 0 = v mod 256.
Proof.
  unfold byte_of. rewrite Z.shiftr_0_r. change 255 with (2 ^ 8 - 1). by apply land_ones_mod.
Qed.

Lemma bswap_bound n v : 0 ≤ bswap n v < 2 ^ (8 * Z.of_nat n).
Proof.
  revert v. induction n as [|n IH]; intros v; cbn [bswap]; [cbn; lia|].
  specialize (IH (Z.shiftr v 8)). rewrite lor_shiftl_add by lia. rewrite byte_of_0.
  pose proof (Z.mod_pos_bound v 256).
  replace (8 * Z.of_nat (S n)) with (8 * Z.of_nat n + 8) by lia.
  rewrite Z.pow_add_r by lia. change (2 ^ 8) with 256. nia.
Qed.

Lemma bswap_step n v : bswap (S n) v = (v mod 256) * 2 ^ (8 * Z.of_nat n) + bswap n (v / 256).
Proof.
  cbn [bswap]. rewrite lor_shiftl_add; [|lia|apply bswap_bound].
  by rewrite byte_of_0, Z.shiftr_div_pow2 by lia.
Qed.

Lemma swab16_eq w : is_word w → swab16 w = (w mod 256) * 256 + w / 256.
Proof.
  intros Hw. unfold swab16. rewrite !bswap_step. cbn [bswap].
  change (2 ^ (8 * Z.of_nat 1)) with 256. change (2 ^ (8 * Z.of_nat 0)) with 1.
  rewrite (Z.mod_small (w / 256)); [lia|]. unfold is_word in Hw.
  split; [apply Z.div_pos; lia|apply Z.div_lt_upper_bound; lia].
Qed.

Lemma swab16_word w : is_word (swab16 w).
Proof. unfold is_word, swab16. apply (bswap_bound 2). Qed.

Lemma swab16_swab16 w : is_word w → swab16 (swab16 w) = w.
Proof.
  intros Hw. pose proof (swab16_word w) as Hs.
  rewrite (swab16_eq (swab16 w)), swab16_eq by done.
  unfold is_word in Hw. pose proof (Z.div_mod w 256).
  pose proof (Z.mod_pos_bound w 256).
  assert (0 ≤ w / 256 < 256)
    by (split; [apply Z.div_pos; lia|apply Z.div_lt_upper_bound; lia]).
  rewrite (Z.add_comm (w mod 256 * 256)), Z.mod_add, (Z.mod_small (w / 256)) by lia.
  rewrite Z.div_add, (Z.div_small (w / 256)) by lia. lia.
Qed.

(** Swapping the bytes of a sequence of words reverses the words and swaps
    each. *)
Lemma bswap_le16 ws :
  Forall is_word ws → bswap (2 * length ws) (le16 ws) = le16 (reverse (swab16 <$> ws)).
Proof.
  induction 1 as [|w ws Hw Hws IH]; [done|].
  cbn [length]. replace (2 * S (length ws))%nat with (S (S (2 * length ws))) by lia.
  rewrite !bswap_step, le16_cons by done. rewrite fmap_cons, reverse_cons.
  rewrite le16_snoc; [|by apply Forall_reverse, Forall_fmap, Forall_true; intros; apply swab16_word
                      |apply swab16_word].
  rewrite <- IH, length_reverse, length_fmap, swab16_eq by done.
  replace (w + 65536 * le16 ws) with (w + 256 * le16 ws * 256) by lia.
  rewrite Z.mod_add, Z.div_add by lia.
  replace (w / 256 + 256 * le16 ws) with (w / 256 + le16 ws * 256) by lia.
  assert (0 ≤ w / 256 < 256) by (unfold is_word in Hw;
    split; [apply Z.div_pos; lia|apply Z.div_lt_upper_bound; lia]).
  rewrite Z.mod_add, Z.div_add, (Z.mod_small (w / 256)), (Z.div_small (w / 256)), Z.add_0_l
    by lia.
  replace (8 * Z.of_nat (S (2 * length ws))) with (16 * Z.of_nat (length ws) + 8) by lia.
  replace (8 * Z.of_nat (2 * length ws)) with (16 * Z.of_nat (length ws)) by lia.
  rewrite Z.pow_add_r by lia. change (2 ^ 8) with 256. lia.
Qed.

(** *** Replacing a word *)

Lemma nth_insert_word ws i j x :
  (i < length ws)%nat → nth j (<[i := x]> ws) 0 = if (j =? i)%nat then x else nth j ws 0.
Proof.
  intros Hi. rewrite !nth_lookup. destruct (Nat.eqb_spec j i) as [->|].
  - by rewrite list_lookup_insert_eq.
  - by rewrite list_lookup_insert_ne.
Qed.

Lemma set_word16_le16 ws i x :
  Forall is_word ws → is_word x → (i < length ws)%nat →
  set_word16 (le16 ws) i x = le16 (<[i := x]> ws).
Proof.
  intros Hws Hx Hi. assert (Forall is_word (<[i:=x]> ws)) as Hws' by by apply Forall_insert.
  apply Z.bits_inj'. intros k Hk. unfold set_word16. change 65535 with (Z.ones 16).
  rewrite (le16_testbit _ k Hws'), nth_insert_word by done.
  rewrite Z.lor_spec, Z.ldiff_spec, !Z.shiftl_spec, (le16_testbit ws) by done.
  pose proof (Z.div_mod k 16). pose proof (Z.mod_pos_bound k 16).
  assert (0 ≤ k / 16) by (apply Z.div_pos; lia).
  destruct (Nat.eqb_spec (Z.to_nat (k / 16)) i) as [He|Hne].
  - replace (k - 16 * Z.of_nat i) with (k mod 16) by lia.
    rewrite Z.testbit_ones_nonneg by lia. rewrite (proj2 (Z.ltb_lt _ _)) by lia.
    by rewrite andb_false_r.
  - destruct (Z.lt_ge_cases k (16 * Z.of_nat i)).
    + by rewrite !(Z.testbit_neg_r _ (k - 16 * Z.of_nat i)), orb_false_r, andb_true_r by lia.
    + rewrite Z.testbit_ones_nonneg by lia. rewrite (proj2 (Z.ltb_ge _ _)) by lia.
      by rewrite (word_high_bits x), orb_false_r, andb_true_r by (done || lia).
Qed.

(** ** Writing and reading back *)

(** Write at the current position, go back to it and read. *)
Definition reread {A X} (push : VM A unit) (pop : VM A X) : VM A X :=
  i ← gets pos;
  push;;
  modify (λ s, mkVec i (arr s));;
  pop.

Section cursor_rules.
Context {A : Type}.
Implicit Types (a l : list A).

Lemma push_one_ok x i a :
  (i < length a)%nat → push_one x (mkVec i a) = (Ok tt, mkVec (S i) (<[i := x]> a)).
Proof.
  intros Hi. unfold push_one. rewrite bind_gets.
  destruct (lookup_lt_is_Some_2 a i Hi) as [y Hy]. by erewrite bind_some by exact Hy.
Qed.

(** Writing a list of items. *)
Lemma push_list {B} (f : B → A) (l : list B) i a :
  (i + length l ≤ length a)%nat →
  for_each l (λ x, push_one (f x)) (mkVec i a)
  = (Ok tt, mkVec (i + length l) (take i a ++ (f <$> l) ++ drop (i + length l) a)).
Proof.
  revert i a. induction l as [|x l IH]; intros i a Hi; cbn [for_each length] in *.
  { rewrite Nat.add_0_r. cbn [fmap list_fmap app]. by rewrite take_drop. }
  run_ok by (apply push_one_ok; lia). rewrite IH by (rewrite length_insert; lia).
  do 2 f_equal; [lia|]. rewrite fmap_cons.
  assert (take (S i) (<[i := f x]> a) = take i a ++ [f x]) as ->.
  { rewrite (take_S_r _ i (f x)) by (apply list_lookup_insert_eq; lia).
    by rewrite take_insert_ge. }
  rewrite drop_insert_lt by lia. rewrite <- app_assoc. cbn [app].
  do 3 f_equal. f_equal. lia.
Qed.

Lemma peek_ok i k a x :
  a !! (i + k)%nat = Some x → peek k (mkVec i a) = (Ok x, mkVec i a).
Proof. intros H. unfold peek. rewrite bind_gets. cbn [id pos arr]. by rewrite H. Qed.

Lemma pop_one_ok i a x :
  a !! i = Some x → pop_one (mkVec i a) = (Ok x, mkVec (S i) a).
Proof.
  intros H. unfold pop_one. run_ok by (apply peek_ok; by rewrite Nat.add_0_r).
  unfold advance. run_steps. by rewrite Nat.add_1_r.
Qed.

(** Reading one item of a list that was written. *)
Lemma pop_middle (pre : list A) x post :
  pop_one (mkVec (length pre) (pre ++ x :: post))
  = (Ok x, mkVec (length (pre ++ [x])) ((pre ++ [x]) ++ post)).
Proof.
  erewrite pop_one_ok by by apply list_lookup_middle.
  rewrite length_app, Nat.add_1_r, <- app_assoc. done.
Qed.

Lemma reread_list {B X} (f : B → A) (l : list B) (pop : VM A X) i a r s :
  (i + length l ≤ length a)%nat →
  (∀ pre post : list A, pop (mkVec (length pre) (pre ++ (f <$> l) ++ post)) =
     (Ok r, mkVec (length (pre ++ (f <$> l))) ((pre ++ (f <$> l)) ++ post))) →
  s = mkVec (i + length l) (take i a ++ (f <$> l) ++ drop (i + length l) a) →
  reread (for_each l (λ x, push_one (f x))) pop (mkVec i a) = (Ok r, s).
Proof.
  intros Hi Hpop ->. unfold reread. run_steps. run_ok by by apply push_list.
  run_steps. cbn [arr pos].
  specialize (Hpop (take i a) (drop (i + length l) a)). rewrite length_take, Nat.min_l in Hpop by lia.
  rewrite Hpop. rewrite length_app, length_take, length_fmap, Nat.min_l, app_assoc by lia. done.
Qed.
End cursor_rules.

(** *** The readers *)

(** A loop that reads one item per iteration. *)
Lemma pop_fold {A B I} (g : B → I → A → B) (is_ : list I) (acc : B) (pre xs post : list A) :
  length is_ = length xs →
  fold_each is_ acc (λ v i, x ← pop_one; mret (g v i x))
    (mkVec (length pre) (pre ++ xs ++ post))
  = (Ok (foldl (λ v p, g v p.1 p.2) acc (zip is_ xs)),
     mkVec (length (pre ++ xs)) ((pre ++ xs) ++ post)).
Proof.
  revert acc pre is_. induction xs as [|x xs IH]; intros acc pre [|i is_] Hl; try done.
  - cbn. by rewrite app_nil_r.
  - cbn [fold_each app zip zip_with foldl]. rewrite bind_assoc.
    run_ok by apply pop_middle. rewrite bind_ret, IH by (cbn in Hl; lia).
    by rewrite <- !app_assoc.
Qed.

Definition words (n : nat) (ws : list Z) : Prop := length ws = n ∧ Forall is_word ws.

Lemma shiftl_le16 ws :
  Forall is_word ws → (length ws < 4)%nat → to_T 8 (Z.shiftl (le16 ws) 16) = Z.shiftl (le16 ws) 16.
Proof.
  intros Hws Hl. unfold to_T. apply Z.mod_small. pose proof (le16_bound ws Hws) as Hb.
  rewrite Z.shiftl_mul_pow2 by lia.
  assert (2 ^ (16 * Z.of_nat (length ws)) ≤ 2 ^ 48) by (apply Z.pow_le_mono_r; lia).
  change (2 ^ (8 * Z.of_nat 8)) with (2 ^ 48 * 2 ^ 16). nia.
Qed.

(** The accumulation of the big-endian readers. *)
Lemma foldl_words {I} (is_ : list I) (ws xs : list Z) :
  Forall is_word ws → Forall is_word xs → length is_ = length xs →
  (length ws + length xs ≤ 4)%nat →
  foldl (λ l p, Z.lor (to_T 8 (Z.shiftl l 16)) p.2) (le16 ws) (zip is_ xs)
  = le16 (reverse xs ++ ws).
Proof.
  intros Hws Hxs. revert ws is_ Hws. induction Hxs as [|x xs Hx Hxs IH];
    intros ws [|i is_] Hws Hi Hl; try done. cbn [zip zip_with foldl snd].
  cbn in Hi, Hl. rewrite shiftl_le16 by (done || lia). rewrite Z.lor_comm.
  change (Z.lor x (Z.shiftl (le16 ws) 16)) with (le16 (x :: ws)).
  rewrite IH by (try (by constructor); cbn; lia). by rewrite reverse_cons, <- app_assoc.
Qed.

Lemma foldl_words_eth {I} (is_ : list I) (ws xs : list Z) :
  Forall is_word ws → Forall is_word xs → length is_ = length xs →
  (length ws + length xs ≤ 3)%nat →
  foldl (λ l p, to_T 8 (Z.shiftl (Z.lor l p.2) 16)) (le16 (0 :: ws)) (zip is_ xs)
  = le16 (0 :: reverse xs ++ ws).
Proof.
  intros Hws Hxs. revert ws is_ Hws. induction Hxs as [|x xs Hx Hxs IH];
    intros ws [|i is_] Hws Hi Hl; try done. cbn [zip zip_with foldl snd].
  cbn in Hi, Hl. assert (Z.lor (le16 (0 :: ws)) x = le16 (x :: ws)) as ->
    by (cbn [le16]; by rewrite Z.lor_0_l, Z.lor_comm).
  rewrite shiftl_le16 by (try (by constructor); cbn; lia).
  change (Z.shiftl (le16 (x :: ws)) 16) with (le16 (0 :: x :: ws)).
  rewrite IH by (try (by constructor); cbn; lia). by rewrite reverse_cons, <- app_assoc.
Qed.

Lemma map_swab_words ws : Forall is_word (swab16 <$> ws).
Proof. apply Forall_fmap, Forall_true. intros x. apply swab16_word. Qed.

Lemma map_swab_swab ws : Forall is_word ws → swab16 <$> (swab16 <$> ws) = ws.
Proof.
  induction 1 as [|w ws Hw _ IH]; [done|]. by rewrite !fmap_cons, swab16_swab16, IH by done.
Qed.

(** The words of a value as the writers enumerate them. *)
Lemma word16_seq ws : Forall is_word ws → word16 (le16 ws) <$> seq 0 (length ws) = ws.
Proof.
  intros Hws. apply list_eq. intros i. rewrite list_lookup_fmap.
  destruct (decide (i < length ws)%nat) as [Hi|Hi].
  - rewrite lookup_seq_lt by done. cbn. rewrite le16_word16 by done.
    destruct (lookup_lt_is_Some_2 ws i Hi) as [w Hw]. by rewrite nth_lookup, Hw.
  - rewrite lookup_seq_ge, lookup_ge_None_2 by lia. done.
Qed.

(** *** One write and one read *)

Lemma shiftl_word w : is_word w → to_T 4 (Z.shiftl w 16) = Z.shiftl w 16.
Proof.
  intros Hw. unfold to_T. apply Z.mod_small. unfold is_word in Hw.
  rewrite Z.shiftl_mul_pow2 by lia. change (2 ^ (8 * Z.of_nat 4)) with (65536 * 2 ^ 16). nia.
Qed.

(** Two words read in the order they were written. *)
Lemma pop_two (w0 w1 : Z) (pre post : list Z) (f : Z → Z) :
  is_word w0 → is_word w1 →
  (a ← pop_one; b ← pop_one; mret (f (Z.lor (to_T 4 (Z.shiftl a 16)) b)))
    (mkVec (length pre) (pre ++ [w0; w1] ++ post))
  = (Ok (f (le16 [w1; w0])), mkVec (length (pre ++ [w0; w1])) ((pre ++ [w0; w1]) ++ post)).
Proof.
  intros H0 H1. cbn [app]. run_ok by apply pop_middle. run_ok by apply pop_middle.
  rewrite bind_ret || idtac. rewrite shiftl_word by done.
  unfold le16. rewrite Z.shiftl_0_l, Z.lor_0_r, Z.lor_comm, <- !app_assoc. done.
Qed.

Section reread.
Context (i : nat) (a : list Z).
Hypothesis Hroom : (i + 8 ≤ length a)%nat.

(** The result of writing and reading back, the position behind the field. *)
Definition rereads {X} (push : VM Z unit) (pop : VM Z X) (r : X) : Prop :=
  (reread push pop (mkVec i a)).1 = Ok r.

Lemma rereads_list (l : list nat) (f : nat → Z) {X} (pop : VM Z X) r :
  (length l ≤ 8)%nat →
  (∀ pre post : list Z, pop (mkVec (length pre) (pre ++ (f <$> l) ++ post)) =
     (Ok r, mkVec (length (pre ++ (f <$> l))) ((pre ++ (f <$> l)) ++ post))) →
  rereads (for_each l (λ x, push_one (f x))) pop r.
Proof.
  intros Hl Hpop. unfold rereads. erewrite reread_list; [done|lia|done|done].
Qed.

Lemma reread_32 ws : words 2 ws → rereads (push_32_v (le16 ws)) pop_32_v (le16 (reverse ws)).
Proof.
  intros [Hl Hws]. pose proof (word16_seq ws Hws) as Hseq. rewrite Hl in Hseq.
  unfold rereads, push_32_v.
  assert ([Z.land (le16 ws) 65535; to_T 2 (Z.shiftr (le16 ws) 16)] = ws) as ->.
  { replace (Z.land (le16 ws) 65535) with (word16 (le16 ws) 0)
      by (unfold word16; by rewrite Z.shiftr_0_r).
    replace (to_T 2 (Z.shiftr (le16 ws) 16)) with (word16 (le16 ws) 1); [exact Hseq|].
    unfold word16, to_T. change 65535 with (2 ^ 16 - 1). by rewrite land_ones_mod by lia. }
  destruct ws as [|w0 [|w1 [|]]]; try done. inversion_clear Hws as [|?? H0 Hws'].
  inversion_clear Hws' as [|?? H1 _].
  erewrite reread_list; [done|cbn; lia| |done].
  intros pre post. apply (pop_two w0 w1 pre post (λ x, x)); done.
Qed.

(** The words of a value with swapped bytes. *)
Lemma swapped_words ws n m :
  words n ws → m = (2 * n)%nat →
  word16 (bswap m (le16 ws)) <$> seq 0 n = reverse (swab16 <$> ws).
Proof.
  intros [<- Hws] ->. rewrite bswap_le16 by done.
  rewrite <- (length_fmap swab16 ws), <- (length_reverse (swab16 <$> ws)).
  apply word16_seq, Forall_reverse, map_swab_words.
Qed.

Lemma reread_32be ws :
  words 2 ws → rereads (push_32be_v (le16 ws)) pop_32be_v (le16 (reverse ws)).
Proof.
  intros Hw. pose proof (swapped_words ws 2 4 Hw eq_refl) as Hs. destruct Hw as [Hl Hws].
  unfold push_32be_v, swab32. cbv zeta. apply rereads_list; [cbn; lia|].
  change [0; 1]%nat with (seq 0 2). rewrite Hs.
  destruct ws as [|w0 [|w1 [|]]]; try done. intros pre post.
  change (reverse (swab16 <$> [w0; w1])) with [swab16 w1; swab16 w0].
  unfold pop_32be_v. rewrite (pop_two (swab16 w1) (swab16 w0)) by apply swab16_word.
  do 2 f_equal. change [swab16 w0; swab16 w1] with (swab16 <$> [w0; w1]).
  pose proof (bswap_le16 (swab16 <$> [w0; w1]) (map_swab_words _)) as Hb.
  change (2 * length (swab16 <$> [w0; w1]))%nat with 4%nat in Hb.
  unfold swab32. by rewrite Hb, map_swab_swab.
Qed.

Lemma reread_64be ws :
  words 4 ws → rereads (push_64be_v (le16 ws)) pop_64be_v (le16 (reverse ws)).
Proof.
  intros Hw. pose proof (swapped_words ws 4 8 Hw eq_refl) as Hs. destruct Hw as [Hl Hws].
  unfold push_64be_v, bswap_64. cbv zeta. apply rereads_list; [cbn; lia|].
  change [0; 1; 2; 3]%nat with (seq 0 4). rewrite Hs. intros pre post. unfold pop_64be_v.
  run_ok by (apply (pop_fold (λ l _ s, Z.lor (to_T 8 (Z.shiftl l 16)) s));
             by rewrite length_reverse, length_fmap, Hl).
  change 0 with (le16 []).
  rewrite foldl_words; try (by constructor);
    [|apply Forall_reverse, map_swab_words|by rewrite length_reverse, length_fmap, Hl
     |rewrite length_reverse, length_fmap, Hl; cbn; lia].
  rewrite reverse_involutive, app_nil_r. unfold bswap_64.
  pose proof (bswap_le16 (swab16 <$> ws) (map_swab_words ws)) as Hb.
  rewrite map_swab_swab, length_fmap, Hl in Hb by done.
  change (2 * 4)%nat with 8%nat in Hb. by rewrite Hb.
Qed.

Lemma reread_eth ws :
  words 3 ws → rereads (push_eth_addr_v (le16 ws)) pop_eth_addr_v (le16 (reverse ws)).
Proof.
  intros [Hl Hws]. unfold push_eth_addr_v.
  apply (rereads_list [2; 1; 0]%nat (λ i2, swab16 (word16 (le16 ws) i2))); [cbn; lia|].
  assert ((λ i2, swab16 (word16 (le16 ws) i2)) <$> [2; 1; 0]%nat = reverse (swab16 <$> ws)) as ->.
  { pose proof (word16_seq ws Hws) as Hseq. rewrite Hl in Hseq.
    transitivity (reverse (swab16 <$> (word16 (le16 ws) <$> seq 0 3))); [done|].
    by rewrite Hseq. }
  intros pre post. unfold pop_eth_addr_v.
  run_ok by (apply (pop_fold (λ l _ s, to_T 8 (Z.shiftl (Z.lor l s) 16)));
             by rewrite length_reverse, length_fmap, Hl).
  change 0 with (le16 (0 :: [])) at 1.
  rewrite foldl_words_eth; try (by constructor);
    [|apply Forall_reverse, map_swab_words|by rewrite length_reverse, length_fmap, Hl
     |rewrite length_reverse, length_fmap, Hl; cbn; lia].
  rewrite reverse_involutive, app_nil_r. unfold bswap_64.
  assert (Forall is_word (0 :: (swab16 <$> ws))) as Hw0
    by (constructor; [unfold is_word; lia|apply map_swab_words]).
  pose proof (bswap_le16 _ Hw0) as Hb. rewrite fmap_cons, map_swab_swab in Hb by done.
  cbn [length] in Hb. rewrite length_fmap, Hl in Hb. cbn [Nat.mul Nat.add] in Hb.
  rewrite Hb, reverse_cons. change (swab16 0) with 0.
  rewrite le16_snoc, Z.mul_0_r, Z.add_0_r by (try (by apply Forall_reverse); unfold is_word; lia).
  assert (to_T 6 (le16 (reverse ws)) = le16 (reverse ws)) as ->; [|done].
  unfold to_T. apply Z.mod_small.
  pose proof (le16_bound (reverse ws) ltac:(by apply Forall_reverse)) as Hbd.
  rewrite length_reverse, Hl in Hbd. exact Hbd.
Qed.

Lemma reread_128 ws old :
  words 8 ws → words 8 old → rereads (push_128_v (le16 ws)) (pop_128_v (le16 old)) (le16 ws).
Proof.
  intros [Hl Hws] [Hlo Hold]. unfold push_128_v.
  apply (rereads_list (range_down 0 8)); [cbn; lia|].
  pose proof (word16_seq ws Hws) as Hseq. rewrite Hl in Hseq.
  assert (word16 (le16 ws) <$> range_down 0 8 = reverse ws) as ->.
  { unfold range_down. rewrite fmap_reverse. cbn [Nat.sub]. by rewrite Hseq. }
  intros pre post. unfold pop_128_v.
  rewrite (pop_fold (λ v i2 x, set_word16 v i2 x)) by (by rewrite length_reverse, Hl).
  do 2 f_equal. destruct ws as [|w0 [|w1 [|w2 [|w3 [|w4 [|w5 [|w6 [|w7 [|]]]]]]]]]; try done.
  rewrite !Forall_cons in Hws.
  change (range_down 0 8) with [7; 6; 5; 4; 3; 2; 1; 0]%nat.
  cbn [reverse rev_append zip zip_with foldl fst snd].
  rewrite !set_word16_le16
    by first [rewrite ?length_insert; lia | tauto | repeat (apply Forall_insert; [|tauto]); done].
  by destruct old as [|o0 [|o1 [|o2 [|o3 [|o4 [|o5 [|o6 [|o7 [|]]]]]]]]].
Qed.

Lemma reread_128be ws old :
  words 8 ws → words 8 old →
  rereads (push_128be_v (le16 ws)) (pop_128be_v (le16 old)) (le16 ws).
Proof.
  intros [Hl Hws] [Hlo Hold]. unfold push_128be_v.
  apply (rereads_list (seq 0 8) (λ i2, swab16 (word16 (le16 ws) i2))); [cbn; lia|].
  pose proof (word16_seq ws Hws) as Hseq. rewrite Hl in Hseq.
  assert ((λ i2, swab16 (word16 (le16 ws) i2)) <$> seq 0 8 = swab16 <$> ws) as ->.
  { transitivity (swab16 <$> (word16 (le16 ws) <$> seq 0 8)); [done|]. by rewrite Hseq. }
  intros pre post. unfold pop_128be_v.
  rewrite (pop_fold (λ v i2 x, set_word16 v i2 (swab16 x))) by (by rewrite length_fmap, Hl).
  do 2 f_equal. destruct ws as [|w0 [|w1 [|w2 [|w3 [|w4 [|w5 [|w6 [|w7 [|]]]]]]]]]; try done.
  rewrite !Forall_cons in Hws. cbn [seq fmap list_fmap zip zip_with foldl fst snd].
  rewrite !swab16_swab16 by tauto.
  rewrite !set_word16_le16
    by first [rewrite ?length_insert; lia | tauto | repeat (apply Forall_insert; [|tauto]); done].
  by destruct old as [|o0 [|o1 [|o2 [|o3 [|o4 [|o5 [|o6 [|o7 [|]]]]]]]]].
Qed.

Lemma reread_one (f g : Z → Z) (x : Z) :
  g (f x) = x → rereads (push_one (f x)) (y ← pop_one; mret (g y)) x.
Proof.
  intros Hgf. unfold rereads, reread. run_steps. run_ok by (apply push_one_ok; cbn; lia).
  run_steps. cbn [arr pos].
  run_ok by (apply pop_one_ok, list_lookup_insert_eq; lia). by rewrite Hgf.
Qed.

(** C35. Reading a field back right after writing it, with values: 8-bit and
    16-bit fields and the 128-bit ones come back unchanged, in both byte
    orders; 32-bit and 64-bit fields and Ethernet addresses come back with
    their 16-bit words in reverse order. *)
Theorem values_reread :
  (∀ v, 0 ≤ v < 256 → rereads (push_8_v v) pop_8_v v)
  ∧ (∀ w, is_word w → rereads (push_16_v w) pop_16_v w
                      ∧ rereads (push_16be_v w) pop_16be_v w)
  ∧ (∀ ws, words 2 ws → rereads (push_32_v (le16 ws)) pop_32_v (le16 (reverse ws))
                        ∧ rereads (push_32be_v (le16 ws)) pop_32be_v (le16 (reverse ws)))
  ∧ (∀ ws, words 3 ws → rereads (push_eth_addr_v (le16 ws)) pop_eth_addr_v (le16 (reverse ws)))
  ∧ (∀ ws, words 4 ws → rereads (push_64be_v (le16 ws)) pop_64be_v (le16 (reverse ws)))
  ∧ (∀ ws old, words 8 ws → words 8 old →
       rereads (push_128_v (le16 ws)) (pop_128_v (le16 old)) (le16 ws)
       ∧ rereads (push_128be_v (le16 ws)) (pop_128be_v (le16 old)) (le16 ws)).
Proof.
  split; [|split; [|split; [|split; [|split]]]].
  - intros v Hv. apply (reread_one id (to_T 1)). by apply Z.mod_small.
  - intros w Hw. split.
    + unfold rereads, reread, push_16_v, pop_16_v. run_steps.
      run_ok by (apply push_one_ok; cbn; lia). run_steps. cbn [arr pos].
      by erewrite pop_one_ok by (apply list_lookup_insert_eq; cbn; lia).
    + apply (reread_one swab16 swab16). by apply swab16_swab16.
  - intros ws Hw. split; [by apply reread_32|by apply reread_32be].
  - apply reread_eth.
  - apply reread_64be.
  - intros ws old Hw Ho. split; [by apply reread_128|by apply reread_128be].
Qed.
End reread.

Lemma values_reread_witness :
  rereads 1 (replicate 10 0) (push_32_v (le16 [13124; 4386])) pop_32_v (le16 [4386; 13124]).
Proof.
  assert (1 + 8 ≤ length (replicate 10 0))%nat as H by (cbn; lia).
  assert (words 2 [13124; 4386]) as Hw.
  { split; [done|]. repeat constructor; unfold is_word; lia. }
  exact (proj1 (proj1 (proj2 (proj2 (values_reread 1 (replicate 10 0) H))) [13124; 4386] Hw)).
Defined.

(** An exact 8-bit value is stored as a range that contains every 8-bit
    value from it on, not only the value: the mask is complemented as a 16-bit
    number. *)
Theorem push_8_too_wide (v : Z) (i : nat) (a : list Range1d) :
  0 ≤ v < 256 → (i < length a)%nat →
  ∃ r, push_8 v 255 (mkVec i a) = (Ok tt, mkVec (S i) (<[i := r]> a))
    ∧ ∀ w, 0 ≤ w < 256 → in_range r w = (v <=? w).
Proof.
  intros Hv Hi. exists (mkRange v (65280 + v)). split.
  - unfold push_8, push_masked, R_from_mask, from_mask. cbn [fst snd].
    assert (to_T 2 (Z.lor v (Z.lnot 255)) = 65280 + v) as ->.
    { unfold to_T. change (Z.lnot 255) with (Z.shiftl (-1) 8).
      rewrite Z.lor_comm, lor_shiftl_add by (cbn; lia).
      change (2 ^ (8 * Z.of_nat 2)) with 65536. symmetry.
      apply (Z.mod_unique _ _ (-1)); lia. }
    unfold Range1d_ctor. cbn [orb]. rewrite (proj2 (Z.leb_le _ _)) by lia.
    rewrite bind_ret. by apply push_one_ok.
  - intros w Hw. unfold in_range. cbn. lia.
Qed.

Lemma push_8_too_wide_witness :
  ∃ r, push_8 6 255 (mkVec 0 [Range1d_default]) = (Ok tt, mkVec 1 [r])
    ∧ ∀ w, 0 ≤ w < 256 → in_range r w = (6 <=? w).
Proof. apply (push_8_too_wide 6 0 [Range1d_default]); [lia|cbn; lia]. Defined.
