(* ===== verification/RuleParser.v ===== *)
(** * Reading and printing of rule files
      ([include/pcv/rule_parser/classbench_rule_parser.h],
       [src/rule_parser/classbench_rule_parser.cpp])

    The parsers of the ClassBench, MSU and OpenFlow formats and the printers
    of rules.  A file is the list of its lines, each ended by a newline, [None]
    when it cannot be opened; a string is indexed as [std::string] is: the position behind the
    last character holds the null character, reading beyond it is undefined.
    Numbers are converted as the C++ streams and [std::stoul] do. *)
From Stdlib Require Import Ascii.
From S2P Require Import Prelude Range Rule Schedule.
Local Open Scope string_scope.
Local Open Scope list_scope.
Local Open Scope Z_scope.

(** A computation that can fail and has no state. *)
Notation PM A := (M unit A).

(** ** Characters and numbers *)

Definition code (c : ascii) : Z := Z.of_nat (Ascii.nat_of_ascii c).

Definition isspace (c : ascii) : bool :=
  let k := code c in (k =? 32) || (9 <=? k) && (k <=? 13).

Definition isdigit (c : ascii) : bool := (48 <=? code c) && (code c <=? 57).

Definition isalnum (c : ascii) : bool :=
  isdigit c || (65 <=? code c) && (code c <=? 90) || (97 <=? code c) && (code c <=? 122).

(** The value of a digit in a base up to 16. *)
Definition digit_val (c : ascii) : option Z :=
  let k := code c in
  if (48 <=? k) && (k <=? 57) then Some (k - 48)
  else if (65 <=? k) && (k <=? 70) then Some (k - 55)
  else if (97 <=? k) && (k <=? 102) then Some (k - 87)
  else None.

(** The longest prefix of digits, accumulated on [acc]; whether there was a
    digit. *)
Fixpoint read_digits (base acc : Z) (seen : bool) (s : string) : Z * bool :=
  match s with
  | EmptyString => (acc, seen)
  | String c s' =>
      match digit_val c with
      | Some d => if d <? base then read_digits base (base * acc + d) true s' else (acc, seen)
      | None => (acc, seen)
      end
  end.

Fixpoint skip_spaces (s : string) : string :=
  match s with
  | String c s' => if isspace c then skip_spaces s' else s
  | EmptyString => EmptyString
  end.

Definition read_sign (s : string) : bool * string :=
  match s with
  | String "-" s' => (true, s')
  | String "+" s' => (false, s')
  | _ => (false, s)
  end.

(** The digit character of a value below 16. *)
Definition digit_char (upper : bool) (d : Z) : ascii :=
  Ascii.ascii_of_nat (Z.to_nat
    (if d <? 10 then 48 + d else if upper then 55 + d else 87 + d)).

(** [str << n] in a base; the fuel bounds the number of digits. *)
Fixpoint print_digits (fuel : nat) (base : Z) (upper : bool) (n : Z) (acc : string) : string :=
  match fuel with
  | O => acc
  | S fuel =>
      let acc := String (digit_char upper (n mod base)) acc in
      if n / base =? 0 then acc else print_digits fuel base upper (n / base) acc
  end.

(** Sixty-four digits are enough for the integers of the source. *)
Definition print_dec (n : Z) : string := print_digits 64 10 false n "".

Definition print_hex (upper : bool) (n : Z) : string := print_digits 64 16 upper n "".

(** [std::setfill('0') << std::setw(2)] *)
Definition pad2 (s : string) : string :=
  match String.length s with
  | O => "00"
  | S O => "0" +:+ s
  | _ => s
  end.

(** ** Printing *)

(** The loop of [print_ipv4]. *)
Fixpoint ipv4_prefix_len (ip : Range1d) (prefix_len : nat) : nat :=
  match prefix_len with
  | O => O
  | S p =>
      let m := Z.shiftl 1 (32 - Z.of_nat prefix_len) in
      if Z.land (low ip) m =? Z.land (high ip) m then prefix_len
      else ipv4_prefix_len ip p
  end.

Definition print_ipv4 (ip : Range1d) : string :=
  let byte i := print_dec (byte_of (low ip) i) in
  byte 3%nat +:+ "." +:+ byte 2%nat +:+ "." +:+ byte 1%nat +:+ "." +:+ byte 0%nat
  +:+ "/" +:+ print_dec (Z.of_nat (ipv4_prefix_len ip 32)).

Definition print_range (range : Range1d) (hex : bool) : string :=
  if hex then
    let prefix_mask := if negb (low range =? high range) then 0 else 255 in
    "0x" +:+ pad2 (print_hex true (low range)) +:+ "/0x" +:+ pad2 (print_hex true prefix_mask)
  else print_dec (low range) +:+ " : " +:+ print_dec (high range).

Definition tab : string := String (Ascii.ascii_of_nat 9) "".

Definition print_Rule_Ipv4_ACL (r : Rule_Ipv4_ACL) : string :=
  "@" +:+ print_ipv4 (sip r) +:+ tab +:+ print_ipv4 (dip r) +:+ tab
  +:+ print_range (sport r) false +:+ tab +:+ print_range (dport r) false +:+ tab
  +:+ print_range (proto r) true.

(** The 16 bytes of an address in memory: the upper word comes first. *)
Definition ipv6_mem (a : ipv6_t) : Z := Z.lor (ip6_high a) (Z.shiftl (ip6_low a) 64).

Definition print_ipv6 (r : ipv6_t) : string :=
  String.concat ":" ((λ i, print_hex false (byte_of (ipv6_mem r) i)) <$> seq 0 16).

(** [str << v] for an unsigned integer of [sz] bytes: a [uint8_t] is printed
    as a character. *)
Definition print_uint (sz : nat) (hex : bool) (v : Z) : string :=
  if (sz =? 1)%nat then String (Ascii.ascii_of_nat (Z.to_nat v)) ""
  else if hex then print_hex false v else print_dec v.

(** [OF_range_printer::print]; the stream is the string written so far. *)
Definition of_print (sz : nat) (str val_name : string) (val : Range1d)
    (something_was_before : bool) : string * bool :=
  if is_wildcard sz val then (str, something_was_before)
  else
    let str := str +:+ (if negb something_was_before then " " else ", ") +:+ val_name +:+ "=" in
    if high val =? low val then (str +:+ print_uint sz false (low val), true)
    else (str +:+ "0x" +:+ print_uint sz true (low val) +:+ "/0x"
          +:+ print_uint sz true (get_mask_le sz val), true).

Definition of_print_ipv6 (str val_name : string) (val : Range1d_ipv6)
    (something_was_before : bool) : string * bool :=
  if is_wildcard_ipv6 val then (str, something_was_before)
  else
    let str := str +:+ (if negb something_was_before then " " else ", ") +:+ val_name +:+ "=" in
    if ipv6_eq (high6 val) (low6 val) then (str +:+ print_ipv6 (low6 val), true)
    else
      let m := get_mask_le 16 (mkRange (ipv6_mem (low6 val)) (ipv6_mem (high6 val))) in
      (str +:+ "0x" +:+ print_ipv6 (low6 val) +:+ "/0x"
       +:+ print_ipv6 (mkIpv6 (to_T 8 m) (Z.shiftr m 64)), true).

Definition print_Rule_OF (r : Rule_OF_1_5_1) : string :=
  let '(s, f) := of_print 4 "" "in_port" (of_in_port r) false in
  let '(s, f) := of_print 4 s "in_phy_port" (of_in_phy_port r) f in
  let '(s, f) := of_print 8 s "metadata" (of_metadata r) f in
  let '(s, f) := of_print 8 s "eth_dst" (of_eth_dst r) f in
  let '(s, f) := of_print 8 s "eth_src" (of_eth_src r) f in
  let '(s, f) := of_print 2 s "eth_type" (of_eth_type r) f in
  let '(s, f) := of_print 2 s "vlan_vid" (of_vlan_vid r) f in
  let '(s, f) := of_print 1 s "vlan_pcp" (of_vlan_pcp r) f in
  let '(s, f) := of_print 1 s "ip_dscp" (of_ip_dscp r) f in
  let '(s, f) := of_print 1 s "ip_ecn" (of_ip_ecn r) f in
  let '(s, f) := of_print 1 s "ip_proto" (of_ip_proto r) f in
  let '(s, f) := of_print 4 s "ipv4_src" (of_ipv4_src r) f in
  let '(s, f) := of_print 4 s "ipv4_dst" (of_ipv4_dst r) f in
  let '(s, f) := of_print 2 s "tcp_src" (of_tcp_src r) f in
  let '(s, f) := of_print 2 s "tcp_dst" (of_tcp_dst r) f in
  let '(s, f) := of_print 2 s "udp_src" (of_udp_src r) f in
  let '(s, f) := of_print 2 s "udp_dst" (of_udp_dst r) f in
  let '(s, f) := of_print 2 s "sctp_src" (of_sctp_src r) f in
  let '(s, f) := of_print 2 s "sctp_dst" (of_sctp_dst r) f in
  let '(s, f) := of_print 1 s "icmpv4_type" (of_icmpv4_type r) f in
  let '(s, f) := of_print 1 s "icmpv4_code" (of_icmpv4_code r) f in
  let '(s, f) := of_print 2 s "arp_op" (of_arp_op r) f in
  let '(s, f) := of_print 4 s "arp_spa" (of_arp_spa r) f in
  let '(s, f) := of_print 4 s "arp_tpa" (of_arp_tpa r) f in
  let '(s, f) := of_print 8 s "arp_sha" (of_arp_sha r) f in
  let '(s, f) := of_print 8 s "arp_tha" (of_arp_tha r) f in
  let '(s, f) := of_print_ipv6 s "ipv6_src" (of_ipv6_src r) f in
  let '(s, f) := of_print_ipv6 s "ipv6_dst" (of_ipv6_dst r) f in
  let '(s, f) := of_print 4 s "ipv6_flabel" (of_ipv6_flabel r) f in
  let '(s, f) := of_print 1 s "icmpv6_type" (of_icmpv6_type r) f in
  let '(s, f) := of_print 1 s "icmpv6_code" (of_icmpv6_code r) f in
  let '(s, f) := of_print_ipv6 s "ipv6_nd_target" (of_ipv6_nd_target r) f in
  let '(s, f) := of_print 8 s "ipv6_nd_sll" (of_ipv6_nd_sll r) f in
  let '(s, f) := of_print 8 s "ipv6_nd_tll" (of_ipv6_nd_tll r) f in
  let '(s, f) := of_print 4 s "mpls_label" (of_mpls_label r) f in
  let '(s, f) := of_print 1 s "mpls_tc" (of_mpls_tc r) f in
  let '(s, f) := of_print 1 s "mpls_bos" (of_mpls_bos r) f in
  let '(s, f) := of_print 4 s "pbb_isid" (of_pbb_isid r) f in
  let '(s, f) := of_print 8 s "tunnel_id" (of_tunnel_id r) f in
  let '(s, f) := of_print 2 s "ipv6_exthdr" (of_ipv6_exthdr r) f in
  let '(s, f) := of_print 1 s "pbb_uca" (of_pbb_uca r) f in
  let '(s, f) := of_print 2 s "tcp_flags" (of_tcp_flags r) f in
  let '(s, f) := of_print 4 s "actset_output" (of_actset_output r) f in
  let '(s, f) := of_print 4 s "packet_type" (of_packet_type r) f in
  s.

(** The formatters of the 16-bit parts ([rule_vec_format]). *)
Definition rule_vec_format_default (k : Range1d) : string :=
  print_dec (low k) +:+ "-" +:+ print_dec (high k).

Definition rule_vec_format_ipv4_part (k : Range1d) : string :=
  print_dec (Z.shiftr (low k) 8) +:+ "." +:+ print_dec (Z.land (low k) 255) +:+ "/"
  +:+ print_dec (Z.of_nat (prefix_len_le 2 k)).

Definition rule_vec_format_ipv6_part (k : Range1d) : string :=
  print_hex false (Z.shiftr (low k) 8) +:+ ":" +:+ print_hex false (Z.land (low k) 255) +:+ "/"
  +:+ print_dec (Z.of_nat (prefix_len_le 2 k)).

Definition rule_vec_format_eth_part (k : Range1d) : string := rule_vec_format_ipv6_part k.

Definition Rule_Ipv4_ACL_formaters : list (Range1d → string) :=
  [rule_vec_format_ipv4_part; rule_vec_format_ipv4_part; rule_vec_format_ipv4_part;
   rule_vec_format_ipv4_part; rule_vec_format_default; rule_vec_format_default;
   rule_vec_format_default].

Definition Rule_Ipv4_ACL_names : list string :=
  ["sip-low"; "sip-high"; "dip-low"; "dip-high"; "sport"; "dport"; "proto"].

(** ** Splitting *)

(** [reader >> val] for an unsigned integer.  [None]: the stream is at its
    end, the variable stays uninitialised. *)
Definition atoui (in_ : string) : option Z :=
  match skip_spaces in_ with
  | EmptyString => None
  | s =>
      let '(neg, s) := read_sign s in
      let '(v, seen) := read_digits 10 0 false s in
      if negb seen then Some 0
      else if v >? T_max 4 then Some (T_max 4)
      else Some (if neg : bool then to_T 4 (- v) else v)
  end.

(** [std::stoul(s, nullptr, 16)] *)
Definition stoul16 (s : string) : PM Z :=
  let '(neg, s) := read_sign (skip_spaces s) in
  let s := match s with
           | String "0" (String "x" (String c s')) | String "0" (String "X" (String c s')) =>
               match digit_val c with Some _ => String c s' | None => s end
           | _ => s
           end in
  let '(v, seen) := read_digits 16 0 false s in
  if negb seen then throw invalid_argument
  else if v >? T_max 8 then throw out_of_range
  else mret (if neg : bool then to_T 8 (- v) else v).

(** [std::getline] in a loop; [cur] is the item read so far. *)
Fixpoint split_go (s : string) (delim : ascii) (cur : string) : list string :=
  match s with
  | EmptyString => if bool_decide (cur = "") then [] else [cur]
  | String c s' =>
      if Ascii.eqb c delim then cur :: split_go s' delim ""
      else split_go s' delim (cur +:+ String c "")
  end.

Definition split (s : string) (delim : ascii) : list string := split_go s delim "".

(** [istream_iterator<string>]: the words between spaces. *)
Fixpoint tokens_go (s : string) (cur : string) : list string :=
  match s with
  | EmptyString => if bool_decide (cur = "") then [] else [cur]
  | String c s' =>
      if isspace c then
        if bool_decide (cur = "") then tokens_go s' "" else cur :: tokens_go s' ""
      else tokens_go s' (cur +:+ String c "")
  end.

Definition tokens (s : string) : list string := tokens_go s "".

(** ** ClassBench *)

(** [v <<= 8; v += x;] on 32 bits. *)
Definition push_byte (v x : Z) : Z := to_T 4 (to_T 4 (Z.shiftl v 8) + x).

Definition join_bytes (p : list Z) : Z := foldl push_byte 0 p.

(** The first and the last address of the block: [masklit1] whole bytes and
    [masklit2] bits of the next one are free. *)
Definition ip_block (ptrange : list Z) (masklit1 masklit2 : Z) : PM Range1d :=
  (* a longer loop leaves the array *)
  or_ub (if masklit1 <=? 4 then Some tt else None);;
  let n := Z.to_nat masklit1 in
  let ptrange := take (4 - n) ptrange ++ replicate n 0 in
  ptrange ← (if masklit2 =? 0 then mret ptrange
             else
               x ← or_ub (if (n <? 4)%nat then ptrange !! (3 - n)%nat else None);
               let masklit3 := to_T 4 (Z.lnot (Z.shiftl 1 masklit2 - 1)) in
               mret (<[(3 - n)%nat := Z.land x masklit3]> ptrange));
  let low_ := join_bytes ptrange in
  let ptrange := take (4 - n) ptrange ++ replicate n 255 in
  ptrange ← (if masklit2 =? 0 then mret ptrange
             else
               x ← or_ub (ptrange !! (3 - n)%nat);
               let masklit3 := Z.shiftl 1 masklit2 - 1 in
               mret (<[(3 - n)%nat := Z.lor x masklit3]> ptrange));
  mret (mkRange low_ (join_bytes ptrange)).

Definition parse_IPRange (token : string) : PM Range1d :=
  let split_slash := split token "/" in
  s0 ← or_ub (split_slash !! 0%nat);
  let split_ip := split s0 "." in
  ptrange ← or_ub (mapM (λ i, split_ip !! i ≫= atoui) [0; 1; 2; 3]%nat);
  mask ← or_ub (split_slash !! 1%nat ≫= atoui);
  let mask := to_T 4 (32 - mask) in
  ip_block ptrange (mask / 8) (mask mod 8).

Definition parse_port (from to : string) : PM Range1d :=
  f ← or_ub (atoui from);
  t ← or_ub (atoui to);
  mret (mkRange (to_T 2 f) (to_T 2 t)).

Definition parse_protocol (last_token : string) : PM Range1d :=
  let split_slash := split last_token "/" in
  s1 ← or_ub (split_slash !! 1%nat);
  if negb (bool_decide (s1 = "0xFF")) then mret (mkRange 0 (T_max 2))
  else
    s0 ← or_ub (split_slash !! 0%nat);
    v ← stoul16 s0;
    mret (mkRange (to_T 2 v) (to_T 2 v)).

Definition parse (toks : list string) (cost : Z) : PM Rule_Ipv4_ACL :=
  let tok i : PM string := or_ub (toks !! i) in
  t0 ← tok 0%nat;
  match t0 with
  | EmptyString => throw out_of_range
  | String c rest =>
      if negb (Ascii.eqb c "@") then throw (runtime_error ("not a valid rule format" +:+ t0))
      else
        sip ← parse_IPRange rest;
        t1 ← tok 1%nat;
        dip ← parse_IPRange t1;
        t2 ← tok 2%nat;
        t4 ← tok 4%nat;
        sport ← parse_port t2 t4;
        t5 ← tok 5%nat;
        t7 ← tok 7%nat;
        dport ← parse_port t5 t7;
        t8 ← tok 8%nat;
        proto ← parse_protocol t8;
        mret (mkACL sip dip sport dport proto cost (-1))
  end.

(** [parse_rules(ifstream &)]: one rule per line, numbered. *)
Definition parse_rule_lines (lines : list string) : PM (list Rule_Ipv4_ACL) :=
  rs ← fold_each lines ([], 0) (λ s content,
    r ← parse (tokens content) s.2;
    mret (s.1 ++ [r], s.2 + 1));
  mret rs.1.

Definition acl_set_priority (p : Z) (r : Rule_Ipv4_ACL) : Rule_Ipv4_ACL :=
  mkACL (sip r) (dip r) (sport r) (dport r) (proto r) p (acl_tag r).

Definition parse_classbench (file : option (list string)) : PM (list Rule_Ipv4_ACL) :=
  match file with
  | None => throw (ios_failure "Couldnt open filter set file")
  | Some lines =>
      rules ← parse_rule_lines lines;
      let max_pri := Z.of_nat (length rules) - 1 in
      mret (imap (λ i r, acl_set_priority (max_pri - Z.of_nat i) r) rules)
  end.

(** [parse_packets]: [dim] numbers per line. *)
Definition parse_packets (dim : nat) (filename : string) (file : option (list string))
    : PM (list (list Z)) :=
  match file with
  | None => throw (runtime_error ("Couldnt open packet set file " +:+ filename))
  | Some lines =>
      fold_each lines [] (λ packets content,
        let toks := tokens content in
        p ← or_ub (mapM (λ i, toks !! i ≫= atoui) (seq 0 dim));
        mret (packets ++ [p]))
  end.

(** ** Prefixes *)

Definition IsPower2 (x : Z) : bool := Z.land (to_T 4 (x - 1)) x =? 0.

Definition IsPrefix (low_ high_ : Z) : bool :=
  let diff := to_T 4 (high_ - low_) in
  (Z.land low_ high_ =? low_) && IsPower2 (to_T 4 (diff + 1)).

(** The number of iterations of [for (; x; x >>= 1)] on a 32-bit value. *)
Fixpoint bit_count (fuel : nat) (x : Z) : Z :=
  match fuel with
  | O => 0
  | S fuel => if x =? 0 then 0 else 1 + bit_count fuel (Z.shiftr x 1)
  end.

Definition PrefixLength (low_ high_ : Z) : Z := 32 - bit_count 32 (to_T 4 (high_ - low_)).

(** ** MSU *)

Definition parse_range (text : string) : PM Range1d :=
  let split_colon := split text ":" in
  l ← or_ub (split_colon !! 0%nat ≫= atoui);
  h ← or_ub (split_colon !! 1%nat ≫= atoui);
  if l >? h
  then throw (runtime_error ("Problematic range:" +:+ print_dec l +:+ "-" +:+ print_dec h))
  else mret (mkRange l h).

(** [atoi]: the value as an [int], when it fits. *)
Definition atoi (s : string) : Z :=
  let '(neg, s) := read_sign (skip_spaces s) in
  let '(v, _) := read_digits 10 0 false s in
  if neg : bool then - v else v.

Definition acl_set_sip (x : Range1d) (r : Rule_Ipv4_ACL) : Rule_Ipv4_ACL :=
  mkACL x (dip r) (sport r) (dport r) (proto r) (acl_priority r) (acl_tag r).

Definition acl_set_tag (t : Z) (r : Rule_Ipv4_ACL) : Rule_Ipv4_ACL :=
  mkACL (sip r) (dip r) (sport r) (dport r) (proto r) (acl_priority r) t.

(** One line: every range but the last item is read into [sip]; with no item
    at all the bound of the loop wraps around and the first access fails. *)
Definition parse_MSU_line (content : string) (priority : Z) : PM Rule_Ipv4_ACL :=
  let split_comma := split content "," in
  match split_comma with
  | [] => throw undefined_behaviour
  | _ =>
      r ← fold_each (take (length split_comma - 1) split_comma) Rule_Ipv4_ACL_ctor (λ r x,
        s ← parse_range x;
        mret (acl_set_sip s r));
      t ← or_ub (last split_comma);
      mret (acl_set_tag (atoi t) (acl_set_priority priority r))
  end.

(** The result: the rules and the new [dim].  The third line holds the bounds
    of the dimensions, which are checked and not used. *)
Definition parser_MSU (filename : string) (file : option (list string))
    : PM (list Rule_Ipv4_ACL * nat) :=
  match file with
  | None => throw (ios_failure ("Couldnt open filter set file " +:+ filename))
  | Some lines =>
      let line i := default "" (lines !! i) in
      (* a failed [getline] leaves an empty string *)
      let dim := length (split (line 1%nat) ",") in
      for_each (split (line 2%nat) ",") (λ x, _ ← parse_range x; mret tt);;
      rs ← fold_each (drop 3 lines) ([], 0) (λ s content,
        r ← parse_MSU_line content s.2;
        mret (s.1 ++ [r], s.2 + 1));
      let rules := rs.1 in
      mret ((λ r, acl_set_priority (Z.of_nat (length rules) - acl_priority r) r) <$> rules, dim)
  end.

(** ** OpenFlow *)

Definition of_set_in_port (v : Range1d) (r : Rule_OF_1_5_1) : Rule_OF_1_5_1 :=
  mkRuleOF v (of_in_phy_port r) (of_metadata r) (of_eth_dst r) (of_eth_src r) (of_eth_type
    r) (of_vlan_vid r) (of_vlan_pcp r) (of_ip_dscp r) (of_ip_ecn r) (of_ip_proto r)
    (of_ipv4_src r) (of_ipv4_dst r) (of_tcp_src r) (of_tcp_dst r) (of_udp_src r) (of_udp_dst
    r) (of_sctp_src r) (of_sctp_dst r) (of_icmpv4_type r) (of_icmpv4_code r) (of_arp_op r)
    (of_arp_spa r) (of_arp_tpa r) (of_arp_sha r) (of_arp_tha r) (of_ipv6_src r) (of_ipv6_dst
    r) (of_ipv6_flabel r) (of_icmpv6_type r) (of_icmpv6_code r) (of_ipv6_nd_target r)
    (of_ipv6_nd_sll r) (of_ipv6_nd_tll r) (of_mpls_label r) (of_mpls_tc r) (of_mpls_bos r)
    (of_pbb_isid r) (of_tunnel_id r) (of_ipv6_exthdr r) (of_pbb_uca r) (of_tcp_flags r)
    (of_actset_output r) (of_packet_type r) (of_priority r) (of_tag r).

Definition of_set_eth_type (v : Range1d) (r : Rule_OF_1_5_1) : Rule_OF_1_5_1 :=
  mkRuleOF (of_in_port r) (of_in_phy_port r) (of_metadata r) (of_eth_dst r) (of_eth_src r) v
    (of_vlan_vid r) (of_vlan_pcp r) (of_ip_dscp r) (of_ip_ecn r) (of_ip_proto r)
    (of_ipv4_src r) (of_ipv4_dst r) (of_tcp_src r) (of_tcp_dst r) (of_udp_src r) (of_udp_dst
    r) (of_sctp_src r) (of_sctp_dst r) (of_icmpv4_type r) (of_icmpv4_code r) (of_arp_op r)
    (of_arp_spa r) (of_arp_tpa r) (of_arp_sha r) (of_arp_tha r) (of_ipv6_src r) (of_ipv6_dst
    r) (of_ipv6_flabel r) (of_icmpv6_type r) (of_icmpv6_code r) (of_ipv6_nd_target r)
    (of_ipv6_nd_sll r) (of_ipv6_nd_tll r) (of_mpls_label r) (of_mpls_tc r) (of_mpls_bos r)
    (of_pbb_isid r) (of_tunnel_id r) (of_ipv6_exthdr r) (of_pbb_uca r) (of_tcp_flags r)
    (of_actset_output r) (of_packet_type r) (of_priority r) (of_tag r).

Definition of_set_eth_src (v : Range1d) (r : Rule_OF_1_5_1) : Rule_OF_1_5_1 :=
  mkRuleOF (of_in_port r) (of_in_phy_port r) (of_metadata r) (of_eth_dst r) v (of_eth_type
    r) (of_vlan_vid r) (of_vlan_pcp r) (of_ip_dscp r) (of_ip_ecn r) (of_ip_proto r)
    (of_ipv4_src r) (of_ipv4_dst r) (of_tcp_src r) (of_tcp_dst r) (of_udp_src r) (of_udp_dst
    r) (of_sctp_src r) (of_sctp_dst r) (of_icmpv4_type r) (of_icmpv4_code r) (of_arp_op r)
    (of_arp_spa r) (of_arp_tpa r) (of_arp_sha r) (of_arp_tha r) (of_ipv6_src r) (of_ipv6_dst
    r) (of_ipv6_flabel r) (of_icmpv6_type r) (of_icmpv6_code r) (of_ipv6_nd_target r)
    (of_ipv6_nd_sll r) (of_ipv6_nd_tll r) (of_mpls_label r) (of_mpls_tc r) (of_mpls_bos r)
    (of_pbb_isid r) (of_tunnel_id r) (of_ipv6_exthdr r) (of_pbb_uca r) (of_tcp_flags r)
    (of_actset_output r) (of_packet_type r) (of_priority r) (of_tag r).

Definition of_set_eth_dst (v : Range1d) (r : Rule_OF_1_5_1) : Rule_OF_1_5_1 :=
  mkRuleOF (of_in_port r) (of_in_phy_port r) (of_metadata r) v (of_eth_src r) (of_eth_type
    r) (of_vlan_vid r) (of_vlan_pcp r) (of_ip_dscp r) (of_ip_ecn r) (of_ip_proto r)
    (of_ipv4_src r) (of_ipv4_dst r) (of_tcp_src r) (of_tcp_dst r) (of_udp_src r) (of_udp_dst
    r) (of_sctp_src r) (of_sctp_dst r) (of_icmpv4_type r) (of_icmpv4_code r) (of_arp_op r)
    (of_arp_spa r) (of_arp_tpa r) (of_arp_sha r) (of_arp_tha r) (of_ipv6_src r) (of_ipv6_dst
    r) (of_ipv6_flabel r) (of_icmpv6_type r) (of_icmpv6_code r) (of_ipv6_nd_target r)
    (of_ipv6_nd_sll r) (of_ipv6_nd_tll r) (of_mpls_label r) (of_mpls_tc r) (of_mpls_bos r)
    (of_pbb_isid r) (of_tunnel_id r) (of_ipv6_exthdr r) (of_pbb_uca r) (of_tcp_flags r)
    (of_actset_output r) (of_packet_type r) (of_priority r) (of_tag r).

Definition of_set_ip_proto (v : Range1d) (r : Rule_OF_1_5_1) : Rule_OF_1_5_1 :=
  mkRuleOF (of_in_port r) (of_in_phy_port r) (of_metadata r) (of_eth_dst r) (of_eth_src r)
    (of_eth_type r) (of_vlan_vid r) (of_vlan_pcp r) (of_ip_dscp r) (of_ip_ecn r) v
    (of_ipv4_src r) (of_ipv4_dst r) (of_tcp_src r) (of_tcp_dst r) (of_udp_src r) (of_udp_dst
    r) (of_sctp_src r) (of_sctp_dst r) (of_icmpv4_type r) (of_icmpv4_code r) (of_arp_op r)
    (of_arp_spa r) (of_arp_tpa r) (of_arp_sha r) (of_arp_tha r) (of_ipv6_src r) (of_ipv6_dst
    r) (of_ipv6_flabel r) (of_icmpv6_type r) (of_icmpv6_code r) (of_ipv6_nd_target r)
    (of_ipv6_nd_sll r) (of_ipv6_nd_tll r) (of_mpls_label r) (of_mpls_tc r) (of_mpls_bos r)
    (of_pbb_isid r) (of_tunnel_id r) (of_ipv6_exthdr r) (of_pbb_uca r) (of_tcp_flags r)
    (of_actset_output r) (of_packet_type r) (of_priority r) (of_tag r).

Definition of_set_ipv4_src (v : Range1d) (r : Rule_OF_1_5_1) : Rule_OF_1_5_1 :=
  mkRuleOF (of_in_port r) (of_in_phy_port r) (of_metadata r) (of_eth_dst r) (of_eth_src r)
    (of_eth_type r) (of_vlan_vid r) (of_vlan_pcp r) (of_ip_dscp r) (of_ip_ecn r)
    (of_ip_proto r) v (of_ipv4_dst r) (of_tcp_src r) (of_tcp_dst r) (of_udp_src r)
    (of_udp_dst r) (of_sctp_src r) (of_sctp_dst r) (of_icmpv4_type r) (of_icmpv4_code r)
    (of_arp_op r) (of_arp_spa r) (of_arp_tpa r) (of_arp_sha r) (of_arp_tha r) (of_ipv6_src
    r) (of_ipv6_dst r) (of_ipv6_flabel r) (of_icmpv6_type r) (of_icmpv6_code r)
    (of_ipv6_nd_target r) (of_ipv6_nd_sll r) (of_ipv6_nd_tll r) (of_mpls_label r)
    (of_mpls_tc r) (of_mpls_bos r) (of_pbb_isid r) (of_tunnel_id r) (of_ipv6_exthdr r)
    (of_pbb_uca r) (of_tcp_flags r) (of_actset_output r) (of_packet_type r) (of_priority r)
    (of_tag r).

Definition of_set_ipv4_dst (v : Range1d) (r : Rule_OF_1_5_1) : Rule_OF_1_5_1 :=
  mkRuleOF (of_in_port r) (of_in_phy_port r) (of_metadata r) (of_eth_dst r) (of_eth_src r)
    (of_eth_type r) (of_vlan_vid r) (of_vlan_pcp r) (of_ip_dscp r) (of_ip_ecn r)
    (of_ip_proto r) (of_ipv4_src r) v (of_tcp_src r) (of_tcp_dst r) (of_udp_src r)
    (of_udp_dst r) (of_sctp_src r) (of_sctp_dst r) (of_icmpv4_type r) (of_icmpv4_code r)
    (of_arp_op r) (of_arp_spa r) (of_arp_tpa r) (of_arp_sha r) (of_arp_tha r) (of_ipv6_src
    r) (of_ipv6_dst r) (of_ipv6_flabel r) (of_icmpv6_type r) (of_icmpv6_code r)
    (of_ipv6_nd_target r) (of_ipv6_nd_sll r) (of_ipv6_nd_tll r) (of_mpls_label r)
    (of_mpls_tc r) (of_mpls_bos r) (of_pbb_isid r) (of_tunnel_id r) (of_ipv6_exthdr r)
    (of_pbb_uca r) (of_tcp_flags r) (of_actset_output r) (of_packet_type r) (of_priority r)
    (of_tag r).

Definition of_set_tp_dst (v : Range1d) (v2 : Range1d) (r : Rule_OF_1_5_1) : Rule_OF_1_5_1 :=
  mkRuleOF (of_in_port r) (of_in_phy_port r) (of_metadata r) (of_eth_dst r) (of_eth_src r)
    (of_eth_type r) (of_vlan_vid r) (of_vlan_pcp r) (of_ip_dscp r) (of_ip_ecn r)
    (of_ip_proto r) (of_ipv4_src r) (of_ipv4_dst r) (of_tcp_src r) v (of_udp_src r) v2
    (of_sctp_src r) (of_sctp_dst r) (of_icmpv4_type r) (of_icmpv4_code r) (of_arp_op r)
    (of_arp_spa r) (of_arp_tpa r) (of_arp_sha r) (of_arp_tha r) (of_ipv6_src r) (of_ipv6_dst
    r) (of_ipv6_flabel r) (of_icmpv6_type r) (of_icmpv6_code r) (of_ipv6_nd_target r)
    (of_ipv6_nd_sll r) (of_ipv6_nd_tll r) (of_mpls_label r) (of_mpls_tc r) (of_mpls_bos r)
    (of_pbb_isid r) (of_tunnel_id r) (of_ipv6_exthdr r) (of_pbb_uca r) (of_tcp_flags r)
    (of_actset_output r) (of_packet_type r) (of_priority r) (of_tag r).

Definition of_set_tp_src (v : Range1d) (v2 : Range1d) (r : Rule_OF_1_5_1) : Rule_OF_1_5_1 :=
  mkRuleOF (of_in_port r) (of_in_phy_port r) (of_metadata r) (of_eth_dst r) (of_eth_src r)
    (of_eth_type r) (of_vlan_vid r) (of_vlan_pcp r) (of_ip_dscp r) (of_ip_ecn r)
    (of_ip_proto r) (of_ipv4_src r) (of_ipv4_dst r) v (of_tcp_dst r) v2 (of_udp_dst r)
    (of_sctp_src r) (of_sctp_dst r) (of_icmpv4_type r) (of_icmpv4_code r) (of_arp_op r)
    (of_arp_spa r) (of_arp_tpa r) (of_arp_sha r) (of_arp_tha r) (of_ipv6_src r) (of_ipv6_dst
    r) (of_ipv6_flabel r) (of_icmpv6_type r) (of_icmpv6_code r) (of_ipv6_nd_target r)
    (of_ipv6_nd_sll r) (of_ipv6_nd_tll r) (of_mpls_label r) (of_mpls_tc r) (of_mpls_bos r)
    (of_pbb_isid r) (of_tunnel_id r) (of_ipv6_exthdr r) (of_pbb_uca r) (of_tcp_flags r)
    (of_actset_output r) (of_packet_type r) (of_priority r) (of_tag r).

Definition of_set_vlan_vid (v : Range1d) (r : Rule_OF_1_5_1) : Rule_OF_1_5_1 :=
  mkRuleOF (of_in_port r) (of_in_phy_port r) (of_metadata r) (of_eth_dst r) (of_eth_src r)
    (of_eth_type r) v (of_vlan_pcp r) (of_ip_dscp r) (of_ip_ecn r) (of_ip_proto r)
    (of_ipv4_src r) (of_ipv4_dst r) (of_tcp_src r) (of_tcp_dst r) (of_udp_src r) (of_udp_dst
    r) (of_sctp_src r) (of_sctp_dst r) (of_icmpv4_type r) (of_icmpv4_code r) (of_arp_op r)
    (of_arp_spa r) (of_arp_tpa r) (of_arp_sha r) (of_arp_tha r) (of_ipv6_src r) (of_ipv6_dst
    r) (of_ipv6_flabel r) (of_icmpv6_type r) (of_icmpv6_code r) (of_ipv6_nd_target r)
    (of_ipv6_nd_sll r) (of_ipv6_nd_tll r) (of_mpls_label r) (of_mpls_tc r) (of_mpls_bos r)
    (of_pbb_isid r) (of_tunnel_id r) (of_ipv6_exthdr r) (of_pbb_uca r) (of_tcp_flags r)
    (of_actset_output r) (of_packet_type r) (of_priority r) (of_tag r).

(** [line[pos]] *)
Definition char_at (line : string) (pos : nat) : PM ascii :=
  if (pos =? String.length line)%nat then mret Ascii.zero
  else or_ub (String.get pos line).

(** A scan over the characters of a line from [pos] while [p] holds, with the
    characters read; the null character at the end stops it. *)
Fixpoint scan_while (fuel : nat) (p : ascii → bool) (line : string) (pos : nat) (acc : string)
    : PM (string * nat) :=
  match fuel with
  | O => throw no_fuel
  | S fuel =>
      c ← char_at line pos;
      if p c then scan_while fuel p line (S pos) (acc +:+ String c "") else mret (acc, pos)
  end.

Definition line_fuel (line : string) : nat := S (S (String.length line)).

Definition skip_space_and_comas (line : string) (pos : nat) : PM nat :=
  '(_, pos) ← scan_while (line_fuel line)
    (λ c, Ascii.eqb c " " || Ascii.eqb c ",") line pos "";
  mret pos.

Definition read_id (line : string) (pos : nat) : PM (string * nat) :=
  scan_while (line_fuel line) (λ c, isalnum c || Ascii.eqb c "_") line pos "".

(** [stol(n, 0, base)] of a string of decimal digits. *)
Definition stol_digits (base : Z) (n : string) : PM Z :=
  let '(v, seen) := read_digits base 0 false n in
  if negb seen then throw invalid_argument
  else if v >? 2 ^ 63 - 1 then throw out_of_range
  else mret v.

Definition read_int (line : string) (pos : nat) (base : Z) : PM (Z * nat) :=
  '(n, pos) ← scan_while (line_fuel line) isdigit line pos "";
  v ← stol_digits base n;
  mret (v, pos).

(** [std::stoi] *)
Definition stoi (s : string) : PM Z :=
  let '(neg, s) := read_sign (skip_spaces s) in
  let '(v, seen) := read_digits 10 0 false s in
  let v := if neg : bool then - v else v in
  if negb seen then throw invalid_argument
  else if (v >? 2 ^ 31 - 1) || (v <? - 2 ^ 31) then throw out_of_range
  else mret v.

(** [line.substr(pos, n)] *)
Definition substr (line : string) (pos n : nat) : PM string :=
  if (String.length line <? pos)%nat then throw out_of_range
  else mret (String.substring pos n line).

Definition read_eth_mac (line : string) (pos : nat) : PM (Range1d * nat) :=
  '(val, pos) ← fold_each (seq 0 6) (0, pos) (λ s _,
    n ← substr line s.2 (s.2 + 2);
    x ← stoi n;
    c ← char_at line (s.2 + 3);
    if Ascii.eqb c "/" then throw (runtime_error "not implemented mask of the eth mac")
    else mret (to_T 8 (Z.lor (Z.shiftl s.1 8) x), (s.2 + 3)%nat));
  mret (mkRange val val, pos).

Definition read_ipv4 (line : string) (pos : nat) : PM (Range1d * nat) :=
  '(addr, pos) ← fold_each (seq 0 4) (0, pos) (λ s _,
    '(x, p) ← read_int line s.2 10;
    mret (to_T 4 (Z.lor (Z.shiftl s.1 8) x), S p));
  mret (mkRange addr addr, pos).

Definition read_ipv6 : PM unit := throw (runtime_error "ipv6 parsing not implemented").

(** The three characters are looked at behind the position reached so far. *)
Definition read_ip (line : string) (pos : nat) (ipv4 : Range1d) : PM (Range1d * nat) :=
  fold_each (seq 0 3) (ipv4, pos) (λ s i,
    c ← char_at line (s.2 + i);
    if Ascii.eqb c ":" then read_ipv6;; mret s
    else if Ascii.eqb c "." then read_ipv4 line s.2
    else mret s).

Definition read_range (line : string) (pos : nat) : PM (Range1d * nat) :=
  '(a, pos) ← read_int line pos 10;
  let a := to_T 2 a in
  x ← (if a =? 0 then c ← char_at line pos; mret (Ascii.eqb c "x") else mret false);
  if x : bool then
    '(a, pos) ← read_int line (S pos) 16;
    let a := to_T 2 a in
    '(m, pos) ← read_int line (pos + 3) 16;
    let h := to_T 2 (a + Z.lnot (to_T 2 m)) in
    match Range1d_ctor a h false with
    | Some r => mret (r, pos)
    | None => throw assert_failed
    end
  else mret (mkRange a a, pos).

(** [while (isalnum(line[pos]) or line[pos] == '_') pos--;] *)
Fixpoint back_over_id (line : string) (pos : nat) : PM nat :=
  c ← char_at line pos;
  if isalnum c || Ascii.eqb c "_" then
    match pos with
    | O => throw undefined_behaviour
    | S p => back_over_id line p
    end
  else mret pos.

(** [while (pos < line.size() and line[pos] != '=') pos++;] *)
Fixpoint find_equals (n : nat) (line : string) (pos : nat) : nat :=
  match n with
  | O => pos
  | S n =>
      match String.get pos line with
      | None => pos
      | Some c => if Ascii.eqb c "=" then pos else find_equals n line (S pos)
      end
  end.

Definition read_value (line : string) (pos : nat) : PM (string * nat) :=
  c ← char_at line pos;
  if negb (Ascii.eqb c "=") then mret ("", pos)
  else
    let start := S pos in
    let pos := find_equals (line_fuel line) line start in
    if (pos <? String.length line)%nat then
      pos ← back_over_id line (pos - 1);
      (* a negative count is the largest one *)
      s ← substr line start (if (pos <? start)%nat then String.length line else pos - start);
      mret (s, pos)
    else s ← substr line start (String.length line); mret (s, pos).

(** The value of one known key, with the position behind its [=]. *)
Definition parse_of_field (line id : string) (i : nat) (r : Rule_OF_1_5_1)
    : PM (Rule_OF_1_5_1 * nat) :=
  if bool_decide (id = "in_port") then
    '(d, i) ← read_int line (S i) 10;
    let d := to_T 4 d in mret (of_set_in_port (mkRange d d) r, i)
  else if bool_decide (id = "eth_type") then
    '(d, i) ← read_int line (S i) 10;
    let d := to_T 2 d in mret (of_set_eth_type (mkRange d d) r, i)
  else if bool_decide (id = "dl_src") then
    '(m, i) ← read_eth_mac line (S i); mret (of_set_eth_src m r, i)
  else if bool_decide (id = "dl_dst") then
    '(m, i) ← read_eth_mac line (S i); mret (of_set_eth_dst m r, i)
  else if bool_decide (id = "nw_proto") then
    '(d, i) ← read_int line (S i) 10;
    let d := to_T 1 d in mret (of_set_ip_proto (mkRange d d) r, i)
  else if bool_decide (id = "nw_src") then
    '(ip, i) ← read_ip line (S i) (of_ipv4_src r); mret (of_set_ipv4_src ip r, i)
  else if bool_decide (id = "nw_dst") then
    '(ip, i) ← read_ip line (S i) (of_ipv4_dst r); mret (of_set_ipv4_dst ip r, i)
  else if bool_decide (id = "tp_dst") then
    '(d, i) ← read_range line (S i); mret (of_set_tp_dst d d r, i)
  else if bool_decide (id = "tp_src") then
    '(d, i) ← read_range line (S i); mret (of_set_tp_src d d r, i)
  else if bool_decide (id = "dl_vlan" ∨ id = "vlan_vid") then
    '(d, i) ← read_range line (S i); mret (of_set_vlan_vid d r, i)
  else '(_, i) ← read_value line i; mret (r, i).

(** The loop over the keys of a line. *)
Fixpoint parse_of_line (fuel : nat) (line : string) (i : nat) (r : Rule_OF_1_5_1)
    : PM Rule_OF_1_5_1 :=
  match fuel with
  | O => throw no_fuel
  | S fuel =>
      i ← skip_space_and_comas line i;
      '(id, i) ← read_id line i;
      if bool_decide (id = "") then mret r
      else
        '(r, i) ← parse_of_field line id i r;
        parse_of_line fuel line i r
  end.

Definition parse_openflow (filename : string) (file : option (list string))
    : PM (list Rule_OF_1_5_1) :=
  match file with
  | None => throw (ios_failure ("Couldn't open filter set file " +:+ filename))
  | Some lines =>
      fold_each (drop 1 lines) [] (λ rules line,
        if (String.length line =? 0)%nat || bool_decide (String.get 0 line = Some "#"%char)
        then mret rules
        else
          r ← parse_of_line (line_fuel line) line 0 Rule_OF_1_5_1_ctor;
          mret (rules ++ [r]))
  end.

(** ** The reader *)

(** The state of a [RuleReader]. *)
Record RuleReader : Type := mkReader { dim : nat; reps : nat }.

Definition RuleReader_ctor : RuleReader := mkReader 5 1.

(** A rule of one of the two kinds behind an [iParsedRule *]. *)
Inductive iParsedRule : Type :=
| parsed_ACL (r : Rule_Ipv4_ACL)
| parsed_OF (r : Rule_OF_1_5_1).

Definition of_header : string := "NXST_FLOW reply".

Definition unknown_format (content : string) : string :=
  "unknown input format please use either MSU format or ClassBench format (content[0]=='"
  +:+ String.substring 0 1 content +:+ "')".

Definition parse_rules (rd : RuleReader) (filename : string) (file : option (list string))
    : PM (RuleReader * list iParsedRule) :=
  match file with
  | None =>
      throw (ios_failure ("Couldn't open filter set file " +:+ String (Ascii.ascii_of_nat 34) ""
        +:+ filename +:+ String (Ascii.ascii_of_nat 34) ""))
  | Some lines =>
      let content := default "" (lines !! 0%nat) in
      let toks := tokens content in
      match content with
      | EmptyString => throw (ios_failure "File is empty")
      | String c _ =>
          if Ascii.eqb c "!" then
            t ← or_ub (last toks);
            s ← or_ub (last (split t ";"));
            let reps := Z.to_nat (Z.quot (atoi s + 1) 5) in
            '(rs, dim) ← parser_MSU filename file;
            mret (mkReader dim reps, parsed_ACL <$> rs)
          else if Ascii.eqb c "@" then
            let reps := if (length toks mod 9 =? 0)%nat then (length toks / 9)%nat else reps rd in
            rs ← parse_classbench file;
            mret (mkReader (reps * 5) reps, parsed_ACL <$> rs)
          else if ((String.length of_header <? String.length content)%nat
                   && bool_decide (String.substring 0 (String.length of_header) content
                                   = of_header)) then
            rs ← parse_openflow filename file;
            mret (rd, parsed_OF <$> rs)
          else throw (ios_failure (unknown_format content))
      end
  end.

(** [parse_ruleset_file]: the rules by descending prefix length, with their
    priorities.  A rule that is not a [Rule_Ipv4_ACL] is read through a
    pointer of the wrong type. *)
Definition parse_ruleset_file {sort : StdSort} (filename : string) (file : option (list string))
    : PM (list (Rule_Ipv4_ACL * nat)) :=
  '(_, _rules) ← parse_rules RuleReader_ctor filename file;
  rules ← or_ub (mapM (λ r, match r with parsed_ACL r => Some r | parsed_OF _ => None end) _rules);
  let rules :=
    std_sort (λ a b, (cummulative_prefix_len b <? cummulative_prefix_len a)%nat) rules in
  mret (imap (λ i r, (r, length rules - i)%nat) rules).
