(* ===== verification/ParserSpec.v ===== *)
(** * Correctness of the ClassBench reader and printer

    Numbers and words are read back as they are printed; an address with a
    prefix length becomes the block of addresses with that prefix; a printed
    rule is parsed to the rule. *)
From Stdlib Require Import Ascii.
From S2P Require Import Prelude Range Rule Schedule RuleParser.
Local Open Scope string_scope.
Local Open Scope list_scope.
Local Open Scope Z_scope.

#[local] Arguments String.append : simpl nomatch.

(** ** Strings *)

Fixpoint all_chars (p : ascii → bool) (s : string) : bool :=
  match s with
  | EmptyString => true
  | String c s' => p c && all_chars p s'
  end.

Lemma str_app_assoc (a b c : string) : (a +:+ b) +:+ c = a +:+ (b +:+ c).
Proof. induction a as [|x a IH]; [done|]. simpl. by rewrite IH. Qed.

Lemma str_app_nil_r (a : string) : a +:+ "" = a.
Proof. induction a as [|x a IH]; [done|]. simpl. by rewrite IH. Qed.

Lemma str_app_cons (a : string) c s : a +:+ String c s = (a +:+ String c "") +:+ s.
Proof. by rewrite str_app_assoc. Qed.

Lemma all_chars_app p a b : all_chars p (a +:+ b) = all_chars p a && all_chars p b.
Proof. induction a as [|c a IH]; [done|]. simpl. by rewrite IH, andb_assoc. Qed.

Lemma all_chars_impl (p q : ascii → bool) s :
  (∀ c, p c = true → q c = true) → all_chars p s = true → all_chars q s = true.
Proof.
  intros Hpq. induction s as [|c s IH]; [done|]. cbn.
  intros [Hc Hs]%andb_true_iff. rewrite (Hpq c Hc). by apply IH.
Qed.

(** A word without separators moves to the current item. *)
Lemma tokens_go_word w s cur :
  all_chars (λ c, negb (isspace c)) w = true → tokens_go (w +:+ s) cur = tokens_go s (cur +:+ w).
Proof.
  revert cur. induction w as [|c w IH]; intros cur Hw; [by rewrite str_app_nil_r|].
  cbn in Hw |- *. apply andb_true_iff in Hw as [Hc Hw].
  destruct (isspace c); [done|]. rewrite IH by done. by rewrite (str_app_cons cur c w).
Qed.

Lemma tokens_go_sep c s cur :
  isspace c = true → cur ≠ "" → tokens_go (String c s) cur = cur :: tokens_go s "".
Proof. intros Hc Hcur. cbn. rewrite Hc. by rewrite bool_decide_false. Qed.

Lemma tokens_go_end cur : cur ≠ "" → tokens_go "" cur = [cur].
Proof. intros H. cbn. by rewrite bool_decide_false. Qed.

Lemma split_go_word w s d cur :
  all_chars (λ c, negb (Ascii.eqb c d)) w = true →
  split_go (w +:+ s) d cur = split_go s d (cur +:+ w).
Proof.
  revert cur. induction w as [|c w IH]; intros cur Hw; [by rewrite str_app_nil_r|].
  cbn in Hw |- *. apply andb_true_iff in Hw as [Hc Hw].
  destruct (Ascii.eqb c d); [done|]. rewrite IH by done. by rewrite (str_app_cons cur c w).
Qed.

Lemma split_go_sep s d cur : split_go (String d s) d cur = cur :: split_go s d "".
Proof. cbn. by rewrite Ascii.eqb_refl. Qed.

Lemma split_go_end d cur : cur ≠ "" → split_go "" d cur = [cur].
Proof. intros H. cbn. by rewrite bool_decide_false. Qed.

(** ** Numbers *)

Lemma digit_val_char upper d : 0 ≤ d < 16 → digit_val (digit_char upper d) = Some d.
Proof.
  intros Hd. assert (d ∈ seqZ 0 16) as Hin by (apply elem_of_seqZ; lia).
  clear Hd. revert d Hin. apply Forall_forall. destruct upper; repeat constructor.
Qed.

(** Reading what was printed, on top of the digits behind it. *)
Lemma read_print fuel base upper n s seen :
  2 ≤ base ≤ 16 → 0 ≤ n < base ^ Z.of_nat fuel → (0 < fuel)%nat →
  read_digits base 0 seen (print_digits fuel base upper n s) = read_digits base n true s.
Proof.
  intros Hb. revert n s seen. induction fuel as [|fuel IH]; intros n s seen Hn Hf; [lia|].
  cbn [print_digits]. pose proof (Z.mod_pos_bound n base) as Hm.
  pose proof (Z.div_mod n base) as Hdm.
  assert (∀ acc sn, read_digits base acc sn (String (digit_char upper (n mod base)) s)
                    = read_digits base (base * acc + n mod base) true s) as Hstep.
  { intros acc sn. cbn [read_digits]. rewrite digit_val_char by lia.
    by rewrite (proj2 (Z.ltb_lt _ _)) by lia. }
  destruct (Z.eqb_spec (n / base) 0) as [Hz|Hz].
  - rewrite Hstep. f_equal. lia.
  - assert (0 ≤ n / base) by (apply Z.div_pos; lia).
    assert (n / base < base ^ Z.of_nat fuel).
    { apply Z.div_lt_upper_bound; [lia|]. rewrite <- Z.pow_succ_r by lia.
      replace (Z.succ (Z.of_nat fuel)) with (Z.of_nat (S fuel)) by lia. apply Hn. }
    destruct fuel as [|fuel]; [cbn in *; lia|].
    rewrite IH by lia. rewrite Hstep. f_equal. lia.
Qed.

Lemma print_digits_chars (p : ascii → bool) fuel base upper n s :
  0 < base ≤ 16 → (∀ d, 0 ≤ d < base → p (digit_char upper d) = true) →
  all_chars p s = true → all_chars p (print_digits fuel base upper n s) = true.
Proof.
  intros Hb Hp. revert n s. induction fuel as [|fuel IH]; intros n s Hs; [done|].
  cbn [print_digits]. assert (all_chars p (String (digit_char upper (n mod base)) s) = true) as Hs'.
  { cbn. rewrite Hp, Hs; [done|]. apply Z.mod_pos_bound. lia. }
  destruct (_ =? 0); [done|]. by apply IH.
Qed.

(** Digits are only put in front. *)
Lemma print_digits_app fuel base upper n s :
  ∃ w, print_digits fuel base upper n s = w +:+ s ∧ ((0 < fuel)%nat → w ≠ "").
Proof.
  revert n s. induction fuel as [|fuel IH]; intros n s; cbn [print_digits].
  { exists "". split; [done|lia]. }
  destruct (_ =? 0).
  - by exists (String (digit_char upper (n mod base)) "").
  - destruct (IH (n / base) (String (digit_char upper (n mod base)) s)) as (w & -> & _).
    exists (w +:+ String (digit_char upper (n mod base)) ""). rewrite str_app_cons.
    split; [done|]. by destruct w.
Qed.

Lemma print_dec_nonempty n : print_dec n ≠ "".
Proof.
  unfold print_dec. destruct (print_digits_app 64 10 false n "") as (w & -> & Hw).
  rewrite str_app_nil_r. apply Hw. lia.
Qed.

Lemma print_hex_nonempty up n : print_hex up n ≠ "".
Proof.
  unfold print_hex. destruct (print_digits_app 64 16 up n "") as (w & -> & Hw).
  rewrite str_app_nil_r. apply Hw. lia.
Qed.

(** The characters of a printed number. *)
Definition hex_digit (c : ascii) : bool := match digit_val c with Some _ => true | None => false end.

Lemma print_dec_chars n : all_chars hex_digit (print_dec n) = true.
Proof.
  apply print_digits_chars; [lia| |done]. intros d Hd. unfold hex_digit.
  by rewrite digit_val_char by lia.
Qed.

Lemma print_hex_chars up n : all_chars hex_digit (print_hex up n) = true.
Proof.
  apply print_digits_chars; [lia| |done]. intros d Hd. unfold hex_digit.
  by rewrite digit_val_char by lia.
Qed.

(** A digit is none of the separators. *)
Lemma hex_digit_not_space c : hex_digit c = true → negb (isspace c) = true.
Proof.
  unfold hex_digit, digit_val, isspace. generalize (code c). intros k.
  destruct (_ && _) eqn:E1; [lia|]. destruct ((65 <=? k) && _) eqn:E2; [lia|].
  destruct ((97 <=? k) && _) eqn:E3; [lia|done].
Qed.

Lemma hex_digit_not d c : hex_digit d = false → hex_digit c = true → negb (Ascii.eqb c d) = true.
Proof. intros Hd Hc. destruct (Ascii.eqb_spec c d) as [->|]; [congruence|done]. Qed.

(** Neither a space nor a sign starts a printed number. *)
Lemma hex_digit_start s :
  s ≠ "" → all_chars hex_digit s = true → skip_spaces s = s ∧ read_sign s = (false, s).
Proof.
  destruct s as [|c s]; [done|]. intros _ H. cbn in H. apply andb_true_iff in H as [Hc _].
  split.
  - cbn. pose proof (hex_digit_not_space c Hc) as Hs. by destruct (isspace c).
  - destruct c as [[] [] [] [] [] [] [] []]; done.
Qed.

Lemma atoui_print n : 0 ≤ n ≤ T_max 4 → atoui (print_dec n) = Some n.
Proof.
  intros Hn. unfold atoui.
  destruct (hex_digit_start (print_dec n) (print_dec_nonempty n) (print_dec_chars n)) as [-> Hsg].
  pose proof (read_print 64 10 false n "" false) as Hr. fold (print_dec n) in Hr.
  destruct (print_dec n) as [|c s] eqn:E; [by destruct (print_dec_nonempty n)|].
  rewrite Hsg, Hr by (change (T_max 4) with 4294967295 in Hn; lia). cbn [read_digits negb].
  by rewrite Z.gtb_ltb, (proj2 (Z.ltb_ge _ _)) by lia.
Qed.

(** A leading zero does not change the value. *)
Lemma read_digits_pad2 up n :
  0 ≤ n < 16 ^ 64 → read_digits 16 0 false (pad2 (print_hex up n)) = (n, true).
Proof.
  intros Hn. pose proof (λ sn, read_print 64 16 up n "" sn) as Hr. fold (print_hex up n) in Hr.
  cbn [read_digits] in Hr. unfold pad2.
  destruct (String.length (print_hex up n)) as [|[|k]] eqn:E.
  - pose proof (print_hex_nonempty up n). by destruct (print_hex up n).
  - change ("0" +:+ print_hex up n) with (String "0" (print_hex up n)).
    cbn [read_digits]. change (digit_val "0") with (Some 0). cbn [Z.ltb Z.compare].
    change (16 * 0 + 0) with 0. apply Hr; lia.
  - apply Hr; lia.
Qed.

Lemma pad2_chars up n : all_chars hex_digit (pad2 (print_hex up n)) = true ∧ pad2 (print_hex up n) ≠ "".
Proof.
  pose proof (print_hex_chars up n) as Hc. pose proof (print_hex_nonempty up n) as Hne.
  unfold pad2. destruct (String.length (print_hex up n)) as [|[|k]]; done.
Qed.

Lemma stoul16_print n : 0 ≤ n ≤ T_max 2 →
  stoul16 ("0x" +:+ pad2 (print_hex true n)) tt = (Ok n, tt).
Proof.
  intros Hn. change (T_max 2) with 65535 in Hn. destruct (pad2_chars true n) as [Hc Hne].
  pose proof (read_digits_pad2 true n ltac:(lia)) as Hr.
  destruct (pad2 (print_hex true n)) as [|c s]; [done|]. cbn in Hc.
  apply andb_true_iff in Hc as [Hc _]. unfold hex_digit in Hc.
  unfold stoul16. change ("0x" +:+ String c s) with (String "0" (String "x" (String c s))).
  cbn [skip_spaces isspace read_sign]. change (isspace "0") with false. cbv iota.
  cbn [read_sign]. destruct (digit_val c); [|done]. rewrite Hr. cbn [negb].
  by rewrite Z.gtb_ltb, (proj2 (Z.ltb_ge _ _)) by (change (T_max 8) with (2 ^ 64 - 1); lia).
Qed.

(** ** Fields *)

Lemma split_two a b d :
  all_chars (λ c, negb (Ascii.eqb c d)) a = true →
  all_chars (λ c, negb (Ascii.eqb c d)) b = true → b ≠ "" →
  split (a +:+ String d "" +:+ b) d = [a; b].
Proof.
  intros Ha Hb Hne. unfold split. rewrite split_go_word by done. cbn [String.append].
  change (String.append (String d "") b) with (String d b).
  rewrite split_go_sep. f_equal. rewrite <- (str_app_nil_r b) at 1.
  rewrite split_go_word by done. by apply split_go_end.
Qed.

Lemma dec_no_sep n d : hex_digit d = false →
  all_chars (λ c, negb (Ascii.eqb c d)) (print_dec n) = true.
Proof.
  intros Hd. eapply all_chars_impl; [|apply print_dec_chars]. intros c. by apply hex_digit_not.
Qed.

Lemma parse_port_print l h :
  0 ≤ l ≤ T_max 2 → 0 ≤ h ≤ T_max 2 →
  parse_port (print_dec l) (print_dec h) tt = (Ok (mkRange l h), tt).
Proof.
  change (T_max 2) with 65535. intros Hl Hh. unfold parse_port.
  rewrite !atoui_print by (change (T_max 4) with 4294967295; lia).
  cbn [or_ub]. rewrite !bind_ret. unfold to_T. rewrite !Z.mod_small by lia. done.
Qed.

Lemma parse_protocol_print r :
  (∃ v, 0 ≤ v ≤ T_max 2 ∧ r = mkRange v v) ∨ r = mkRange 0 (T_max 2) →
  parse_protocol (print_range r true) tt = (Ok r, tt).
Proof.
  intros Hr. unfold parse_protocol, print_range.
  set (m := if negb (low r =? high r) then 0 else 255).
  assert (split ("0x" +:+ pad2 (print_hex true (low r)) +:+ "/0x" +:+ pad2 (print_hex true m)) "/"
          = ["0x" +:+ pad2 (print_hex true (low r)); "0x" +:+ pad2 (print_hex true m)]) as ->.
  { destruct (pad2_chars true (low r)) as [Hc1 _]. destruct (pad2_chars true m) as [Hc2 _].
    change ("/0x" +:+ pad2 (print_hex true m))
      with (String "/" "" +:+ ("0x" +:+ pad2 (print_hex true m))).
    rewrite <- str_app_assoc. apply split_two; [| |done]; rewrite all_chars_app; cbn [all_chars];
      (eapply all_chars_impl; [|eassumption]); intros c; by apply hex_digit_not. }
  cbn [lookup list_lookup or_ub]. rewrite bind_ret.
  destruct Hr as [(v & Hv & ->)| ->]; cbn [low high] in m; subst m.
  - rewrite Z.eqb_refl. cbn [negb].
    change ("0x" +:+ pad2 (print_hex true 255)) with "0xFF".
    rewrite bool_decide_true by done. cbn [negb].
    rewrite bind_ret. run_ok by (by apply stoul16_print).
    change (T_max 2) with 65535 in Hv.
    cbn [low]. assert (to_T 2 v = v) as -> by (apply Z.mod_small; cbn; lia). done.
  - change (negb (0 =? T_max 2)) with true. cbv iota.
    change ("0x" +:+ pad2 (print_hex true 0)) with "0x00".
    by rewrite bool_decide_false by done.
Qed.

(** ** Addresses *)

Lemma push_byte_eq v x : 0 ≤ v < 16777216 → 0 ≤ x < 256 → push_byte v x = v * 256 + x.
Proof.
  intros Hv Hx. unfold push_byte, to_T. change (2 ^ (8 * Z.of_nat 4)) with 4294967296.
  rewrite Z.shiftl_mul_pow2 by lia. change (2 ^ 8) with 256.
  rewrite (Z.mod_small (v * 256)) by lia. apply Z.mod_small. lia.
Qed.

Lemma join_bytes_eq a b c d :
  0 ≤ a < 256 → 0 ≤ b < 256 → 0 ≤ c < 256 → 0 ≤ d < 256 →
  join_bytes [a; b; c; d] = a * 16777216 + b * 65536 + c * 256 + d.
Proof.
  intros Ha Hb Hc Hd. unfold join_bytes. cbn [foldl].
  rewrite (push_byte_eq 0 a), (push_byte_eq _ b), (push_byte_eq _ c), (push_byte_eq _ d) by lia.
  lia.
Qed.

(** Clearing and setting the [r] low bits of a byte, checked for all bytes. *)
Definition low_bits_ok (x r : Z) : bool :=
  (Z.land x (to_T 4 (Z.lnot (Z.shiftl 1 r - 1))) =? x - x mod 2 ^ r)
  && (Z.lor (x - x mod 2 ^ r) (Z.shiftl 1 r - 1) =? x - x mod 2 ^ r + 2 ^ r - 1).

Lemma low_bits_all : forallb (λ x, forallb (low_bits_ok x) (seqZ 0 8)) (seqZ 0 256) = true.
Proof. vm_compute. reflexivity. Qed.

Lemma low_bits x r : 0 ≤ x < 256 → 0 ≤ r < 8 → low_bits_ok x r = true.
Proof.
  intros Hx Hr. pose proof low_bits_all as H. rewrite forallb_forall in H.
  assert (In x (seqZ 0 256)) as Hin by (apply list_elem_of_In, elem_of_seqZ; lia).
  specialize (H x Hin). rewrite forallb_forall in H.
  apply H, list_elem_of_In, elem_of_seqZ. lia.
Qed.

Lemma clear_low_bits x r :
  0 ≤ x < 256 → 0 ≤ r < 8 → Z.land x (to_T 4 (Z.lnot (Z.shiftl 1 r - 1))) = x - x mod 2 ^ r.
Proof. intros Hx Hr. by pose proof (low_bits x r Hx Hr) as [?%Z.eqb_eq _]%andb_true_iff. Qed.

Lemma set_low_bits x r :
  0 ≤ x < 256 → 0 ≤ r < 8 →
  Z.lor (x - x mod 2 ^ r) (Z.shiftl 1 r - 1) = x - x mod 2 ^ r + 2 ^ r - 1.
Proof. intros Hx Hr. by pose proof (low_bits x r Hx Hr) as [_ ?%Z.eqb_eq]%andb_true_iff. Qed.

(** [d.d.d.d/len] *)
Definition print_prefix (b3 b2 b1 b0 len : Z) : string :=
  (print_dec b3 +:+ "." +:+ print_dec b2 +:+ "." +:+ print_dec b1 +:+ "." +:+ print_dec b0)
  +:+ "/" +:+ print_dec len.

Lemma split_four a b c e d :
  (∀ x, x = a ∨ x = b ∨ x = c ∨ x = e → all_chars (λ c, negb (Ascii.eqb c d)) x = true) →
  e ≠ "" →
  split (a +:+ String d "" +:+ b +:+ String d "" +:+ c +:+ String d "" +:+ e) d = [a; b; c; e].
Proof.
  intros H Hne. unfold split.
  rewrite split_go_word by auto. cbn [String.append]. rewrite split_go_sep.
  rewrite split_go_word by auto. rewrite split_go_sep.
  rewrite split_go_word by auto. rewrite split_go_sep.
  rewrite <- (str_app_nil_r e), split_go_word by auto. rewrite split_go_end by done.
  by rewrite str_app_nil_r.
Qed.

Lemma split_prefix b3 b2 b1 b0 len :
  split (print_prefix b3 b2 b1 b0 len) "/" =
    [print_dec b3 +:+ "." +:+ print_dec b2 +:+ "." +:+ print_dec b1 +:+ "." +:+ print_dec b0;
     print_dec len].
Proof.
  apply split_two; [|by apply dec_no_sep|apply print_dec_nonempty].
  rewrite !all_chars_app, !dec_no_sep by done. done.
Qed.

Definition address (b3 b2 b1 b0 : Z) : Z := b3 * 16777216 + b2 * 65536 + b1 * 256 + b0.

(** The block of the addresses that share all but the [k] low bits. *)
Definition block (a k : Z) : Range1d := mkRange (a - a mod 2 ^ k) (a - a mod 2 ^ k + 2 ^ k - 1).

Definition is_byte (b : Z) : Prop := 0 ≤ b < 256.

(** The lemma below for one concrete [k]. *)
Ltac ip_block_case :=
  lazymatch goal with
  | |- ip_block _ (?k / 8) (?k mod 8) tt = _ =>
      let n := eval vm_compute in (k / 8) in
      let r := eval vm_compute in (k mod 8) in
      let p := eval vm_compute in (2 ^ k) in
      let q := eval vm_compute in (2 ^ r) in
      change (k / 8) with n; change (k mod 8) with r;
      unfold block, address; change (2 ^ k) with p;
      let m := eval vm_compute in (Z.to_nat n) in
      unfold ip_block; change (Z.to_nat n) with m;
      let b := eval vm_compute in (r =? 0) in
      change (r =? 0) with b;
      cbn [or_ub Z.leb Z.compare Pos.compare Pos.compare_cont Nat.sub take replicate app
           Nat.ltb Nat.leb lookup list_lookup insert list_insert];
      repeat (first [rewrite bind_assoc | rewrite bind_ret];
              cbn [or_ub Nat.sub take replicate app lookup list_lookup insert list_insert]);
      rewrite ?clear_low_bits by lia; rewrite ?set_low_bits by lia;
      change (2 ^ r) with q
  end.

Lemma ip_block_ok b3 b2 b1 b0 k :
  is_byte b3 → is_byte b2 → is_byte b1 → is_byte b0 → 0 ≤ k ≤ 32 →
  ip_block [b3; b2; b1; b0] (k / 8) (k mod 8) tt = (Ok (block (address b3 b2 b1 b0) k), tt).
Proof.
  unfold is_byte. intros H3 H2 H1 H0 Hk.
  assert (k ∈ seqZ 0 33) as Hin by (apply elem_of_seqZ; lia). clear Hk. revert k Hin.
  apply Forall_forall.
  let l := eval vm_compute in (seqZ 0 33) in change (seqZ 0 33) with l.
  repeat (apply Forall_cons; split); [..|constructor].
  all: ip_block_case; rewrite !join_bytes_eq by (Z.to_euclidean_division_equations; lia);
    unfold mret, M_ret; do 3 f_equal; Z.to_euclidean_division_equations; lia.
Qed.

Lemma parse_IPRange_ok b3 b2 b1 b0 len :
  is_byte b3 → is_byte b2 → is_byte b1 → is_byte b0 → 0 ≤ len ≤ 32 →
  parse_IPRange (print_prefix b3 b2 b1 b0 len) tt
  = (Ok (block (address b3 b2 b1 b0) (32 - len)), tt).
Proof.
  unfold is_byte. intros H3 H2 H1 H0 Hlen. unfold parse_IPRange. rewrite split_prefix.
  cbn [lookup list_lookup or_ub]. rewrite bind_ret.
  rewrite split_four; [|intros x Hx; destruct_or!; subst; by apply dec_no_sep
                       |apply print_dec_nonempty].
  cbn [mapM lookup list_lookup mbind option_bind].
  rewrite !atoui_print by (change (T_max 4) with 4294967295; lia).
  cbn [mbind option_bind mret option_ret or_ub]. rewrite !bind_ret.
  assert (to_T 4 (32 - len) = 32 - len) as -> by (apply Z.mod_small; cbn; lia).
  apply ip_block_ok; unfold is_byte; lia.
Qed.

(** C29. A dotted address with a prefix length is read as the block of all
    addresses that agree with it on the prefix, whether or not its low bits
    are zero. *)
Theorem parse_IPRange_spec b3 b2 b1 b0 len v :
  is_byte b3 → is_byte b2 → is_byte b1 → is_byte b0 → 0 ≤ len ≤ 32 →
  ∃ r, parse_IPRange (print_prefix b3 b2 b1 b0 len) tt = (Ok r, tt)
    ∧ (in_range r v = true ↔
       v / 2 ^ (32 - len) = address b3 b2 b1 b0 / 2 ^ (32 - len)).
Proof.
  intros H3 H2 H1 H0 Hlen. eexists. split; [by apply parse_IPRange_ok|].
  rewrite in_range_spec. cbn [low high block]. set (a := address b3 b2 b1 b0).
  assert (0 < 2 ^ (32 - len)) as Hp by (apply Z.pow_pos_nonneg; lia).
  set (p := 2 ^ (32 - len)) in *. pose proof (Z.div_mod a p) as Ha.
  pose proof (Z.mod_pos_bound v p Hp) as Hm. pose proof (Z.div_mod v p) as Hv. split.
  - intros Hr. symmetry. apply (Z.div_unique_pos _ _ _ (v - p * (a / p))); lia.
  - intros He. rewrite He in Hv. lia.
Qed.

(** ** A whole rule *)

Lemma address_bytes v :
  0 ≤ v < 2 ^ 32 → address (byte_of v 3) (byte_of v 2) (byte_of v 1) (byte_of v 0) = v.
Proof.
  intros Hv. unfold address. rewrite !byte_of_div.
  change (2 ^ (8 * Z.of_nat 3)) with 16777216. change (2 ^ (8 * Z.of_nat 2)) with 65536.
  change (2 ^ (8 * Z.of_nat 1)) with 256. change (2 ^ (8 * Z.of_nat 0)) with 1.
  Z.to_euclidean_division_equations. lia.
Qed.

Lemma land_bit_eqb x y j : 0 ≤ j →
  (Z.land x (Z.shiftl 1 j) =? Z.land y (Z.shiftl 1 j)) = Bool.eqb (Z.testbit x j) (Z.testbit y j).
Proof.
  intros Hj. assert (∀ z, Z.land z (Z.shiftl 1 j) = if Z.testbit z j then 2 ^ j else 0) as Hl.
  { intros z. rewrite Z.shiftl_1_l. apply Z.bits_inj'. intros i Hi.
    rewrite Z.land_spec, Z.pow2_bits_eqb by done.
    destruct (Z.eqb_spec j i) as [->|]; rewrite ?andb_true_r, ?andb_false_r.
    - destruct (Z.testbit z i); [by rewrite Z.pow2_bits_true|by rewrite Z.bits_0].
    - destruct (Z.testbit z j); [by rewrite Z.pow2_bits_false|by rewrite Z.bits_0]. }
  rewrite !Hl. assert (0 < 2 ^ j) by (apply Z.pow_pos_nonneg; lia).
  destruct (Z.testbit x j), (Z.testbit y j); cbn [Bool.eqb]; lia.
Qed.

(** The loop of the printer finds the length of the prefix. *)
Lemma ipv4_prefix_len_ok r k q :
  0 ≤ k ≤ 32 → low r = q * 2 ^ k → high r = low r + 2 ^ k - 1 →
  ∀ j, 0 ≤ j ≤ k → ipv4_prefix_len r (Z.to_nat (32 - j)) = Z.to_nat (32 - k).
Proof.
  intros Hk Hl Hh.
  assert (high r = Z.lor (Z.shiftl q k) (Z.ones k)) as Hh'.
  { rewrite lor_shiftl_add; rewrite ?Z.ones_equiv;
      pose proof (Z.pow_pos_nonneg 2 k); lia. }
  assert (∀ i, 0 ≤ i < k → Z.testbit (low r) i = false ∧ Z.testbit (high r) i = true) as Hlow.
  { intros i Hi. rewrite Hl, Hh', Z.mul_pow2_bits_low by lia. split; [done|].
    by rewrite Z.lor_spec, Z.ones_spec_low, orb_true_r by lia. }
  assert (Z.testbit (low r) k = Z.testbit (high r) k) as Hbit.
  { rewrite Hl, Hh', Z.lor_spec, Z.ones_spec_high, orb_false_r, Z.shiftl_mul_pow2 by lia. done. }
  intros j. remember (Z.to_nat (k - j)) as m eqn:Hm. revert j Hm.
  induction m as [|m IH]; intros j Hm Hj.
  - replace j with k by lia. destruct (Z.to_nat (32 - k)) as [|p] eqn:E; [done|].
    cbn [ipv4_prefix_len]. replace (32 - Z.of_nat (S p)) with k by lia.
    by rewrite land_bit_eqb, Hbit, Bool.eqb_reflx by lia.
  - destruct (Z.to_nat (32 - j)) as [|p] eqn:E; [lia|].
    cbn [ipv4_prefix_len]. replace (32 - Z.of_nat (S p)) with j by lia.
    destruct (Hlow j ltac:(lia)) as [H1 H2]. rewrite land_bit_eqb, H1, H2 by lia.
    cbn [Bool.eqb]. rewrite <- (IH (j + 1)) by lia. f_equal. lia.
Qed.

Lemma parse_print_ipv4 r :
  range32_ok r → is_prefix32 r → parse_IPRange (print_ipv4 r) tt = (Ok r, tt).
Proof.
  intros [Hr Hr'] (k & q & Hk & Hl & Hh).
  pose proof (ipv4_prefix_len_ok r k q Hk Hl Hh 0 ltac:(lia)) as Hp.
  change (Z.to_nat (32 - 0)) with 32%nat in Hp.
  assert (print_ipv4 r = print_prefix (byte_of (low r) 3) (byte_of (low r) 2)
            (byte_of (low r) 1) (byte_of (low r) 0) (32 - k)) as ->.
  { unfold print_ipv4, print_prefix. rewrite Hp, Z2Nat.id by lia.
    by rewrite !str_app_assoc. }
  pose proof (byte_of_range (low r)) as Hb.
  rewrite parse_IPRange_ok by (unfold is_byte; auto || lia).
  rewrite address_bytes by lia. replace (32 - (32 - k)) with k by lia.
  unfold block. rewrite Hl, Z.mod_mul by (apply Z.pow_nonzero; lia).
  destruct r as [l h]. cbn [low high] in *. subst. rewrite Z.sub_0_r. done.
Qed.

Definition is_word (w : string) : Prop := all_chars (λ c, negb (isspace c)) w = true ∧ w ≠ "".

Lemma tokens_cons w c s : is_word w → isspace c = true → tokens (w +:+ String c s) = w :: tokens s.
Proof.
  intros [Hw Hne] Hc. unfold tokens. rewrite tokens_go_word by done.
  by rewrite tokens_go_sep.
Qed.

Lemma tokens_colon s : tokens (String ":" (String " " s)) = ":" :: tokens s.
Proof. by apply (tokens_cons ":" " " s). Qed.

Lemma tokens_last w : is_word w → tokens w = [w].
Proof.
  intros [Hw Hne]. unfold tokens. rewrite <- (str_app_nil_r w), tokens_go_word by done.
  rewrite tokens_go_end by (by destruct w). by rewrite !str_app_nil_r.
Qed.

Lemma word_app a b : is_word a → is_word b → is_word (a +:+ b).
Proof. intros [Ha Hae] [Hb _]. split; [by rewrite all_chars_app, Ha, Hb|by destruct a]. Qed.

Lemma word_digits s : all_chars hex_digit s = true → s ≠ "" → is_word s.
Proof.
  intros Hs. split; [|done]. eapply all_chars_impl; [|exact Hs]. apply hex_digit_not_space.
Qed.

Lemma word_dec n : is_word (print_dec n).
Proof. apply word_digits; [apply print_dec_chars|apply print_dec_nonempty]. Qed.

Lemma word_ipv4 r : is_word (print_ipv4 r).
Proof. unfold print_ipv4. repeat apply word_app; try apply word_dec; done. Qed.

Lemma word_pad2 up n : is_word (pad2 (print_hex up n)).
Proof. apply word_digits; apply pad2_chars. Qed.

(** The words of a printed rule. *)
Lemma tokens_print r :
  tokens (print_Rule_Ipv4_ACL r) =
    ["@" +:+ print_ipv4 (sip r); print_ipv4 (dip r);
     print_dec (low (sport r)); ":"; print_dec (high (sport r));
     print_dec (low (dport r)); ":"; print_dec (high (dport r));
     print_range (proto r) true].
Proof.
  unfold print_Rule_Ipv4_ACL. set (p := print_range (proto r) true).
  rewrite <- (str_app_assoc "@"). set (w := "@" +:+ print_ipv4 (sip r)).
  assert (is_word w) as Hw by (apply word_app; [done|apply word_ipv4]).
  unfold print_range, tab. rewrite !str_app_assoc.
  change (Ascii.ascii_of_nat 9) with "009"%char.
  cbn [String.append]. rewrite tokens_cons by done.
  rewrite tokens_cons by first [done | apply word_ipv4].
  do 2 (rewrite tokens_cons by first [done | apply word_dec];
        rewrite tokens_colon;
        rewrite tokens_cons by first [done | apply word_dec]).
  rewrite tokens_last; [done|]. subst p. cbn [print_range].
  repeat apply word_app; try apply word_pad2; done.
Qed.

(** A rule of the ClassBench format: address prefixes, 16-bit ports, one
    protocol or all of them. *)
Record classbench_rule (r : Rule_Ipv4_ACL) : Prop := {
  cb_ok : acl_ok r;
  cb_sip : is_prefix32 (sip r);
  cb_dip : is_prefix32 (dip r);
  cb_sport : 0 ≤ low (sport r) ≤ T_max 2 ∧ 0 ≤ high (sport r) ≤ T_max 2;
  cb_dport : 0 ≤ low (dport r) ≤ T_max 2 ∧ 0 ≤ high (dport r) ≤ T_max 2;
  cb_proto : (∃ v, 0 ≤ v ≤ T_max 2 ∧ proto r = mkRange v v) ∨ proto r = mkRange 0 (T_max 2);
}.

Lemma parse_print_acl r cost :
  classbench_rule r →
  parse (tokens (print_Rule_Ipv4_ACL r)) cost tt
  = (Ok (mkACL (sip r) (dip r) (sport r) (dport r) (proto r) cost (-1)), tt).
Proof.
  intros [[Hs Hd] Hps Hpd [Hs1 Hs2] [Hd1 Hd2] Hp]. rewrite tokens_print. unfold parse.
  cbn [lookup list_lookup or_ub]. rewrite !bind_ret. cbn [String.append].
  rewrite Ascii.eqb_refl. cbn [negb].
  run_ok by (by apply parse_print_ipv4). rewrite bind_ret.
  run_ok by (by apply parse_print_ipv4). rewrite !bind_ret.
  run_ok by (by apply parse_port_print). rewrite !bind_ret.
  run_ok by (by apply parse_port_print). rewrite !bind_ret.
  run_ok by (by apply parse_protocol_print).
  by destruct (sport r), (dport r).
Qed.

(** ** A whole file *)

(** The rule as it is read from line [i] of a file of [n] rules. *)
Definition reread (n : nat) (i : nat) (r : Rule_Ipv4_ACL) : Rule_Ipv4_ACL :=
  mkACL (sip r) (dip r) (sport r) (dport r) (proto r)
    (Z.of_nat n - 1 - Z.of_nat i) (-1).

Definition numbered (i : nat) (r : Rule_Ipv4_ACL) : Rule_Ipv4_ACL :=
  mkACL (sip r) (dip r) (sport r) (dport r) (proto r) (Z.of_nat i) (-1).

Lemma parse_rule_lines_go rs acc k :
  Forall classbench_rule rs →
  fold_each (print_Rule_Ipv4_ACL <$> rs) (acc, Z.of_nat k) (λ s content,
    r ← parse (tokens content) s.2; mret (s.1 ++ [r], s.2 + 1)) tt
  = (Ok (acc ++ imap (λ i, numbered (k + i)) rs, Z.of_nat (k + length rs)), tt).
Proof.
  intros Hrs. revert acc k. induction Hrs as [|r rs Hr Hrs IH]; intros acc k.
  - cbn. by rewrite app_nil_r, Nat.add_0_r.
  - rewrite fmap_cons. cbn [fold_each]. rewrite bind_assoc. cbn [snd fst].
    run_ok by (by apply parse_print_acl). rewrite bind_ret.
    replace (Z.of_nat k + 1) with (Z.of_nat (S k)) by lia. rewrite IH.
    rewrite imap_cons, <- app_assoc. cbn [app length]. rewrite Nat.add_0_r.
    do 4 f_equal; [|lia]. f_equal. apply imap_ext. intros i x _. cbn. by rewrite Nat.add_succ_r.
Qed.

Lemma parse_classbench_print rs :
  Forall classbench_rule rs →
  parse_classbench (Some (print_Rule_Ipv4_ACL <$> rs)) tt
  = (Ok (imap (reread (length rs)) rs), tt).
Proof.
  intros Hrs. unfold parse_classbench, parse_rule_lines. rewrite bind_assoc.
  run_ok by (by apply (parse_rule_lines_go rs [] 0)). rewrite bind_ret. cbn [fst app Nat.add].
  unfold mret, M_ret. do 2 f_equal.
  rewrite length_imap. apply list_eq. intros i. rewrite !list_lookup_imap.
  by destruct (rs !! i).
Qed.

Lemma parse_rules_print rs filename :
  rs ≠ [] → Forall classbench_rule rs →
  parse_rules RuleReader_ctor filename (Some (print_Rule_Ipv4_ACL <$> rs)) tt
  = (Ok (mkReader 5 1, parsed_ACL <$> imap (reread (length rs)) rs), tt).
Proof.
  intros Hne Hrs. destruct rs as [|r rs]; [done|]. unfold parse_rules.
  change (default "" ((print_Rule_Ipv4_ACL <$> r :: rs) !! 0%nat)) with (print_Rule_Ipv4_ACL r).
  cbv zeta. rewrite tokens_print.
  assert (∃ s, print_Rule_Ipv4_ACL r = String "@" s) as [s ->] by (eexists; reflexivity).
  cbn [Ascii.eqb Bool.eqb length]. change (9 mod 9 =? 0)%nat with true.
  change (9 / 9)%nat with 1%nat. cbv iota beta.
  run_ok by (by apply parse_classbench_print). done.
Qed.

(** C27. A ClassBench file printed from a non-empty list of rules is read
    back completely by [parse_rules]: the same matches in the same order, and
    the first rule gets the highest priority, [n - 1], down to [0]. *)
Theorem parse_print_file rs filename :
  rs ≠ [] → Forall classbench_rule rs →
  parse_rules RuleReader_ctor filename (Some (print_Rule_Ipv4_ACL <$> rs)) tt
  = (Ok (mkReader 5 1, parsed_ACL <$> imap (reread (length rs)) rs), tt).
Proof. apply parse_rules_print. Qed.

(** Two rules of a file: a web server, and everything else. *)
Definition web_rule : Rule_Ipv4_ACL :=
  mkACL (mkRange 0 (2 ^ 32 - 1)) (mkRange 3232235520 3232235775) (mkRange 0 65535)
    (mkRange 80 80) (mkRange 6 6) 0 0.

Definition any_rule : Rule_Ipv4_ACL :=
  mkACL (mkRange 0 (2 ^ 32 - 1)) (mkRange 0 (2 ^ 32 - 1)) (mkRange 0 65535)
    (mkRange 0 65535) (mkRange 0 65535) 0 0.

Lemma web_rule_ok : classbench_rule web_rule.
Proof.
  constructor; [| exists 32, 0 | exists 8, 12625920 | | | left; exists 6]; cbn;
    unfold range32_ok, T_max; cbn; repeat split; cbn; try lia.
Qed.

Lemma any_rule_ok : classbench_rule any_rule.
Proof.
  constructor; [| exists 32, 0 | exists 32, 0 | | | right]; cbn;
    unfold range32_ok, T_max; cbn; repeat split; cbn; try lia.
Qed.

Lemma parse_print_file_witness :
  print_Rule_Ipv4_ACL <$> [web_rule; any_rule] =
    ["@0.0.0.0/0	192.168.0.0/24	0 : 65535	80 : 80	0x06/0xFF";
     "@0.0.0.0/0	0.0.0.0/0	0 : 65535	0 : 65535	0x00/0x00"]
  ∧ parse_rules RuleReader_ctor "rules" (Some (print_Rule_Ipv4_ACL <$> [web_rule; any_rule])) tt
    = (Ok (mkReader 5 1, parsed_ACL <$> imap (reread 2) [web_rule; any_rule]), tt).
Proof.
  split; [vm_compute; reflexivity|].
  apply (parse_print_file [web_rule; any_rule] "rules"); [discriminate|].
  constructor; [exact web_rule_ok|]. constructor; [exact any_rule_ok|constructor].
Defined.

Lemma parse_IPRange_spec_witness :
  ∃ r, parse_IPRange (print_prefix 192 168 7 1 16) tt = (Ok r, tt)
    ∧ (in_range r 3232238345 = true ↔ 3232238345 / 2 ^ 16 = address 192 168 7 1 / 2 ^ 16).
Proof.
  apply (parse_IPRange_spec 192 168 7 1 16 3232238345); unfold is_byte; lia.
Defined.

(** The comparison of [parse_ruleset_file]. *)
#[export] Instance longer_prefix_order :
  StrictWeakOrder (λ a b, (cummulative_prefix_len b <? cummulative_prefix_len a)%nat).
Proof.
  split; intros *; rewrite ?Nat.ltb_lt, ?Nat.ltb_ge; lia.
Qed.

Lemma mapM_parsed_ACL (rs : list Rule_Ipv4_ACL) :
  mapM (λ r, match r with parsed_ACL r => Some r | parsed_OF _ => None end) (parsed_ACL <$> rs)
  = Some rs.
Proof. apply mapM_Some. induction rs; constructor; done. Qed.

Lemma imap_snd_countdown {A} (l : list A) n :
  (imap (λ i r, (r, n - i)%nat) l).*2 = (λ i, n - i)%nat <$> seq 0 (length l).
Proof.
  apply list_eq. intros i. rewrite list_lookup_fmap, list_lookup_imap, list_lookup_fmap.
  destruct (l !! i) as [x|] eqn:E; cbn.
  - apply lookup_lt_Some in E. by rewrite lookup_seq_lt.
  - apply lookup_ge_None in E. by rewrite lookup_seq_ge.
Qed.

(** C28. [parse_ruleset_file] of a printed ClassBench file returns every rule
    exactly once, in an order of non-increasing cumulative prefix length, and
    gives the rules the priorities [n], [n - 1], ..., [1] in that order,
    whatever sorting algorithm [std::sort] is. *)
Theorem parse_ruleset_file_spec {sort : StdSort} rs filename :
  rs ≠ [] → Forall classbench_rule rs →
  ∃ out, parse_ruleset_file filename (Some (print_Rule_Ipv4_ACL <$> rs)) tt = (Ok out, tt)
    ∧ out.*1 ≡ₚ imap (reread (length rs)) rs
    ∧ StronglySorted (λ a b, cummulative_prefix_len b ≤ cummulative_prefix_len a)%nat out.*1
    ∧ out.*2 = (λ i, length rs - i)%nat <$> seq 0 (length rs).
Proof.
  intros Hne Hrs. unfold parse_ruleset_file.
  run_ok by (by apply parse_rules_print). cbv beta.
  rewrite mapM_parsed_ACL. run_steps. set (l := std_sort _ _).
  assert (l ≡ₚ imap (reread (length rs)) rs) as Hp by apply std_sort_permutation.
  assert (length l = length rs) as Hlen by (by rewrite Hp, length_imap).
  assert (∀ n, (imap (λ i r, (r, n - i)%nat) l).*1 = l) as Hfst.
  { intros n. apply list_eq. intros i. rewrite list_lookup_fmap, list_lookup_imap.
    by destruct (l !! i). }
  eexists. split; [done|]. rewrite Hfst. split_and!; [done| |].
  - eapply StronglySorted_weaken; [|apply (std_sort_sorted _ _ _ _)].
    intros x y. cbv beta. rewrite Nat.ltb_ge. lia.
  - rewrite imap_snd_countdown, Hlen. done.
Qed.

Lemma parse_ruleset_file_spec_witness :
  ∃ out, parse_ruleset_file (sort := insertion_StdSort) "rules"
           (Some (print_Rule_Ipv4_ACL <$> [any_rule; web_rule])) tt = (Ok out, tt)
    ∧ out.*1 ≡ₚ imap (reread 2) [any_rule; web_rule]
    ∧ StronglySorted (λ a b, cummulative_prefix_len b ≤ cummulative_prefix_len a)%nat out.*1
    ∧ out.*2 = (λ i, 2 - i)%nat <$> seq 0 2.
Proof.
  apply (parse_ruleset_file_spec (sort := insertion_StdSort) [any_rule; web_rule] "rules");
    [discriminate|].
  constructor; [exact any_rule_ok|]. constructor; [exact web_rule_ok|constructor].
Defined.
