(* ===== verification/Printer.v ===== *)
(** * Trees in the dot format ([b_tree_printer.h], [b_tree_impl.h])

    [print_to_stream] writes the subtree of a node and the layers below it; a
    stream is the text written to it.  On a stored tree it writes every node
    once, with its edges. *)
From S2P Require Import Prelude Range RuleValue Mempool Node NodeLemmas Search Layer LayerSearch Trie TrieCheck Footprint Slots Insert LookupSpec Split Chain InsertLayer InsertRoot Decompress Integrity InsertSpec Build Destroy BTreeImpl RuleParser ParserSpec.
Local Open Scope Z_scope.

Definition endl : string := String (Ascii.ascii_of_nat 10) "".

(** A double quote. *)
Definition dquote : string := String (Ascii.ascii_of_nat 34) "".

Section Printer.
Context `{cfg : !BTreeCfg} {V : Type} `{!RuleValue V} (rule_id : V → Z).
(** [formaters_t] and [names_t]: arrays with an entry for every dimension. *)
Context (formaters : list (Range1d → string)) (names : list string).

Notation print_nat n := (print_dec (Z.of_nat n)).

(** [std::array::at] *)
Definition array_at {A} (l : list A) (i : nat) : HM V A :=
  match l !! i with Some x => mret x | None => throw out_of_range end.

Definition print_dim (str : string) (d : nat) : HM V string :=
  name ← array_at names d;
  mret (str +:+ " D=" +:+ name +:+ "(" +:+ print_nat d +:+ ")").

(** The cell of one key: its range, and the rule that ends there. *)
Definition print_key (str : string) (n : ptr) (i : nat) : HM V string :=
  let str := str +:+ "{ <range" +:+ print_nat i +:+ ">" in
  d ← get_dim n i;
  k ← get_key n i;
  f ← array_at formaters d;
  let str := str +:+ f (key k) in
  nd ← load n;
  str ← (if is_compressed nd then print_dim str d else mret str);
  let str := str +:+ " | " in
  let str := if is_valid (kvalue k)
             then str +:+ "p" +:+ print_dec (priority (kvalue k)) +:+ " r" +:+ print_dec (rule_id (kvalue k))
             else str in
  mret (str +:+ "}").

(** The cells of all keys and places for keys. *)
Definition print_keys (str : string) (n : ptr) : HM V string :=
  nd ← load n;
  fold_each (range_up 0 MAX_DEGREE) str (λ str i,
    str ← (if (i <? key_cnt nd)%nat then print_key str n i else mret str);
    mret (if (i =? MAX_DEGREE - 1)%nat then str else str +:+ "|")).

(** The ports of the children. *)
Definition print_ports (str : string) : HM V string :=
  fold_each (range_up 0 (MAX_DEGREE + 1)) str (λ str i,
    let str := str +:+ "<ch" +:+ print_nat i +:+ "> ch" +:+ print_nat i in
    mret (if (i =? MAX_DEGREE)%nat then str else str +:+ " | ")).

(** The statement of the node itself. *)
Definition print_label (str : string) (n : ptr) : HM V string :=
  id ← Pool.getId n;
  let str := str +:+ "node" +:+ print_nat id +:+ " [label=" +:+ dquote +:+ "{ <label> " +:+ print_nat id +:+ " " in
  nd ← load n;
  str ← (match parent nd with
         | Some p => i ← Pool.getId p; mret (str +:+ "(parent:" +:+ print_nat i +:+ ")")
         | None => mret str
         end);
  let str := if is_leaf nd then str +:+ " leaf" else str in
  str ← (if is_compressed nd then mret (str +:+ " compressed ")
         else d ← get_dim n 0; print_dim str d);
  str ← print_keys (str +:+ "|{") n;
  str ← print_ports (str +:+ "}" +:+ endl +:+ "|{");
  mret (str +:+ "}" +:+ endl +:+ "}" +:+ dquote +:+ "];").

Definition child_edge (id i : nat) (c : Z) : string :=
  "    node" +:+ print_nat id +:+ ":ch" +:+ print_nat i +:+ " -> " +:+ "node" +:+ print_dec c +:+ ":label;" +:+ endl.

Definition layer_edge (id i : nat) (c : Z) : string :=
  "    node" +:+ print_nat id +:+ ":range" +:+ print_nat i +:+ " -> " +:+ "node" +:+ print_dec c +:+ ":label;" +:+ endl.

Fixpoint print_to_stream (fuel : nat) (str : string) (n : ptr) : HM V string :=
  match fuel with
  | O => throw no_fuel
  | S fuel =>
      id ← Pool.getId n;
      str ← print_label str n;
      nd ← load n;
      str ← (if is_leaf nd then mret str
             else
               str ← fold_each (range_up 0 (key_cnt nd + 1)) str (λ str i,
                 ch ← child n i;
                 c ← or_ub ch;
                 print_to_stream fuel str c);
               fold_each (range_up 0 (key_cnt nd + 1)) str (λ str i,
                 c ← get_child_index n i;
                 mret (str +:+ child_edge id i c)));
      str ← fold_each (range_up 0 (key_cnt nd)) str (λ str i,
        nl ← get_next_layer n i;
        match nl with
        | None => mret str
        | Some l =>
            str ← print_to_stream fuel str l;
            c ← or_ub (next_level nd !! i);
            mret (str +:+ layer_edge id i c)
        end);
      mret (str +:+ endl)
  end.

Definition print_top (fuel : nat) (str : string) (root : option ptr) : HM V string :=
  let str := str +:+ "digraph layered_btree {" +:+ endl +:+ "    " +:+ "node [shape=record];" +:+ endl in
  str ← (match root with Some r => print_to_stream fuel str r | None => mret str end);
  mret (str +:+ "}").

(** [operator std::string] *)
Definition btree_to_string (fuel : nat) (t : BTree) : HM V string := print_top fuel "" (root t).
End Printer.

(** [_default_formaters] and [_default_names] *)
Definition default_formaters `{cfg : !BTreeCfg} : list (Range1d → string) := replicate D rule_vec_format_default.

Definition default_names `{cfg : !BTreeCfg} : list string := (λ i, print_dec (Z.of_nat i)) <$> seq 0 D.

(** ** What a computation writes *)

(** The text of a list of pieces. *)
Definition text (ps : list string) : string := foldr String.append "" ps.

Lemma text_app ps qs : text (ps ++ qs) = text ps +:+ text qs.
Proof. induction ps as [|s ps IH]; [done|]. cbn [app text foldr]. fold (text (ps ++ qs)). by rewrite IH, str_app_assoc. Qed.

Lemma text_one s : text [s] = s.
Proof. apply str_app_nil_r. Qed.

Section writes.
Context {S : Type} (st : S).

(** The stream grows by the pieces; the state stays as it is. *)
Definition writes (m : string → M S string) (ps : list string) : Prop :=
  ∀ str, m str st = (Ok (str +:+ text ps), st).

Lemma writes_nil : writes mret [].
Proof. intros str. cbn [text foldr]. by rewrite str_app_nil_r. Qed.

Lemma writes_text s : writes (λ str, mret (str +:+ s)) [s].
Proof. intros str. by rewrite text_one. Qed.

Lemma writes_bind m1 m2 ps1 ps2 : writes m1 ps1 → writes m2 ps2 → writes (λ str, m1 str ≫= m2) (ps1 ++ ps2).
Proof. intros H1 H2 str. rewrite (bind_ok _ _ _ _ _ (H1 str)), H2. by rewrite text_app, str_app_assoc. Qed.

Lemma writes_ext m m' ps : (∀ str, m str st = m' str st) → writes m' ps → writes m ps.
Proof. intros He Hm str. by rewrite He, Hm. Qed.

(** A loop writes what its steps write, up to the order inside of a step. *)
Lemma writes_loop n (body : string → nat → M S string) (G : nat → list string) :
  (∀ i, (i < n)%nat → ∃ ps, ps ≡ₚ G i ∧ writes (λ str, body str i) ps) →
  ∃ ps, ps ≡ₚ concat (G <$> seq 0 n) ∧ writes (λ str, fold_each (range_up 0 n) str body) ps.
Proof.
  unfold range_up. rewrite Nat.sub_0_r. intros Hb.
  assert (Forall (λ i, ∃ ps, ps ≡ₚ G i ∧ writes (λ str, body str i) ps) (seq 0 n)) as Hall.
  { apply Forall_forall. intros i Hi%elem_of_seq. apply Hb. lia. }
  induction Hall as [|i l (ps & Hps & Hi) _ (qs & Hqs & Hl)]; [by exists []; split; [|apply writes_nil]|].
  exists (ps ++ qs). cbn. split; [by rewrite Hps, Hqs|]. by apply writes_bind.
Qed.
End writes.

(** ** One node *)

Section node.
Context `{cfg : !BTreeCfg, Hok : !CfgOk} {V : Type} `{!RuleValue V} (rule_id : V → Z).
Context (formaters : list (Range1d → string)) (names : list string).
Implicit Types (p : Heap V) (nd : Node V).
Context p (fl : list nat).
Hypothesis Hp : heap_ok p fl.
Hypothesis Hformaters : length formaters = D.
Hypothesis Hnames : length names = D.

(** What the printer needs of a node. *)
Record node_printable (a : ptr) nd : Prop := {
  np_at : node_at p a = Some nd;
  np_cnt : (0 < key_cnt nd ≤ MAX_DEGREE)%nat;
  np_keys : ∀ i, (i < key_cnt nd)%nat → ∃ x d, node_key nd i = Some x ∧ node_dim nd i = Some d ∧ (d < D)%nat;
  np_parent : ∀ b, parent nd = Some b → is_Some (node_at p b);
}.

Lemma array_at_ok {X} (l : list X) i : length l = D → (i < D)%nat → ∃ x, array_at (V := V) l i p = (Ok x, p).
Proof.
  intros Hl Hi. destruct (lookup_lt_is_Some_2 l i) as [x Hx]; [lia|]. exists x. unfold array_at. by rewrite Hx.
Qed.

Lemma dim_writes d : (d < D)%nat → ∃ s, writes p (λ str, print_dim names str d) [s].
Proof.
  intros Hd. destruct (array_at_ok names d) as [name Hname]; [done..|]. eexists. intros str.
  unfold print_dim. run_ok by exact Hname. by rewrite text_one.
Qed.

Lemma key_writes a nd i :
  node_printable a nd → (i < key_cnt nd)%nat → ∃ s, writes p (λ str, print_key rule_id formaters names str a i) [s].
Proof.
  intros [Ha Hcnt Hkeys _] Hi. destruct (Hkeys i Hi) as (x & d & Hx & Hd & Hlt).
  destruct (array_at_ok formaters d) as [f Hf]; [done..|]. destruct (dim_writes d Hlt) as [sd Hsd].
  assert (∀ str, (if is_compressed nd then print_dim names str d else mret str) p
            = (Ok (str +:+ if is_compressed nd then sd else ""), p)) as Hdim.
  { intros str. destruct (is_compressed nd); [by rewrite Hsd, text_one|by rewrite str_app_nil_r]. }
  eexists. intros str. unfold print_key. run_ok by (by eapply get_dim_ok).
  run_ok by (eapply get_key_ok; [done|done|lia]). run_ok by exact Hf. rewrite (bind_load _ _ _ _ Ha).
  run_ok by apply Hdim. rewrite text_one.
  transitivity (Ok (str +:+ ("{ <range" +:+ print_dec (Z.of_nat i) +:+ ">" +:+ f (key x)
    +:+ (if is_compressed nd then sd else "") +:+ " | "
    +:+ (if is_valid (kvalue x)
         then "p" +:+ print_dec (priority (kvalue x)) +:+ " r" +:+ print_dec (rule_id (kvalue x)) else "")
    +:+ "}")), p); [|reflexivity].
  destruct (is_valid (kvalue x)); by rewrite !str_app_assoc.
Qed.

Lemma keys_writes a nd : node_printable a nd → ∃ ps, writes p (λ str, print_keys rule_id formaters names str a) ps.
Proof.
  intros Hn. pose proof Hn as [Ha Hcnt _ _].
  assert (∀ i, ∃ s, writes p (λ str, if (i <? key_cnt nd)%nat then print_key rule_id formaters names str a i else mret str) s) as Hkey.
  { intros i. destruct (Nat.ltb_spec i (key_cnt nd)) as [Hi|Hi]; [|exists []; apply writes_nil].
    destruct (key_writes a nd i Hn Hi) as [s Hs]. by exists [s]. }
  assert (∀ i, ∃ s, writes p (λ str, mret (if (i =? MAX_DEGREE - 1)%nat then str else str +:+ "|")) s) as Hbar.
  { intros i. destruct (i =? MAX_DEGREE - 1)%nat; [exists []; apply writes_nil|eexists; apply writes_text]. }
  assert (∀ l : list nat, ∃ ps, writes p (λ str, fold_each l str (λ str i,
    str ← (if (i <? key_cnt nd)%nat then print_key rule_id formaters names str a i else mret str);
    mret (if (i =? MAX_DEGREE - 1)%nat then str else str +:+ "|"))) ps) as Hl.
  { induction l as [|i l [ps Hps]]; [exists []; apply writes_nil|].
    destruct (Hkey i) as [s1 H1], (Hbar i) as [s2 H2]. eexists. cbn [fold_each].
    apply writes_bind; [apply writes_bind|]; done. }
  destruct (Hl (range_up 0 MAX_DEGREE)) as [ps Hps]. exists ps.
  intros str. unfold print_keys. rewrite (bind_load _ _ _ _ Ha). apply Hps.
Qed.

Lemma ports_writes : ∃ ps, writes p (λ str, print_ports (V := V) str) ps.
Proof.
  unfold print_ports. induction (range_up 0 (MAX_DEGREE + 1)) as [|i l [ps Hps]]; [exists []; apply writes_nil|].
  set (c := "<ch" +:+ print_dec (Z.of_nat i) +:+ "> ch" +:+ print_dec (Z.of_nat i)).
  exists ([if (i =? MAX_DEGREE)%nat then c else c +:+ " | "] ++ ps). cbn [fold_each].
  apply writes_bind; [|exact Hps]. fold c.
  destruct (i =? MAX_DEGREE)%nat; intros str; by rewrite text_one, ?str_app_assoc.
Qed.

Lemma label_writes a nd : node_printable a nd → ∃ s, writes p (λ str, print_label rule_id formaters names str a) [s].
Proof.
  intros Hn. pose proof Hn as [Ha Hcnt Hkeys Hpar].
  destruct (keys_writes a nd Hn) as [ps Hps], ports_writes as [qs Hqs].
  assert (∃ s, writes p (λ str, match parent nd with
            | Some b => i ← Pool.getId b; mret (str +:+ "(parent:" +:+ print_dec (Z.of_nat i) +:+ ")")
            | None => mret str end) s) as [s1 H1].
  { destruct (parent nd) as [b|] eqn:Hb; [|exists []; apply writes_nil].
    destruct (Hpar b eq_refl) as [bd Hbd]. eexists. eapply writes_ext; [|apply writes_text].
    intros str. by run_ok by (by eapply getId_ok). }
  assert (∃ s, writes p (λ str, if is_compressed nd then mret (str +:+ " compressed ")
            else d ← get_dim a 0; print_dim names str d) s) as [s2 H2].
  { destruct (is_compressed nd); [eexists; apply writes_text|].
    destruct (Hkeys 0%nat) as (x & d & _ & Hd & Hlt); [lia|]. destruct (dim_writes d Hlt) as [s Hs].
    exists [s]. eapply writes_ext; [|exact Hs]. intros str. by run_ok by (by eapply get_dim_ok). }
  eexists. intros str. unfold print_label. run_ok by (by eapply getId_ok). rewrite (bind_load _ _ _ _ Ha).
  run_ok by apply H1. run_ok by apply H2. run_ok by apply Hps. run_ok by apply Hqs. rewrite text_one.
  set (id := print_dec (Z.of_nat a)).
  transitivity (Ok (str +:+ ("node" +:+ id +:+ " [label=" +:+ dquote +:+ "{ <label> " +:+ id +:+ " "
    +:+ text s1 +:+ (if is_leaf nd then " leaf" else "") +:+ text s2 +:+ "|{" +:+ text ps
    +:+ "}" +:+ endl +:+ "|{" +:+ text qs +:+ "}" +:+ endl +:+ "}" +:+ dquote +:+ "];")), p); [|reflexivity].
  destruct (is_leaf nd); by rewrite !str_app_assoc.
Qed.

(** The pieces of one node: its statement, the edges to its children and to
    the layers of its keys, and the end of the line. *)
Definition layer_edges (a : ptr) nd (i : nat) : list string :=
  if next_level nd !!! i =? INVALID_INDEX then [] else [layer_edge a i (next_level nd !!! i)].

Definition node_pieces (a : ptr) : list string :=
  match node_at p a, print_label rule_id formaters names "" a p with
  | Some nd, (Ok s, _) =>
      [s] ++ (if is_leaf nd then [] else (λ i, child_edge a i (child_index nd !!! i)) <$> seq 0 (S (key_cnt nd)))
      ++ concat (layer_edges a nd <$> seq 0 (key_cnt nd)) ++ [endl]
  | _, _ => []
  end.

Notation print fuel str a := (print_to_stream rule_id formaters names fuel str a).

(** The node has a statement. *)
Definition labelled (a : ptr) : Prop := ∃ s, print_label rule_id formaters names "" a p = (Ok s, p).

(** With [F] fuel the printer writes the pieces of the nodes [ls]. *)
Definition shows (F : nat) (a : ptr) (ls : list ptr) : Prop :=
  Forall labelled ls ∧
  ∀ fuel, (F ≤ fuel)%nat → ∃ ps, ps ≡ₚ concat (node_pieces <$> ls) ∧ writes p (λ str, print fuel str a) ps.

Lemma concat_fmap_app {A B} (f g : A → list B) (l : list A) :
  concat ((λ x, f x ++ g x) <$> l) ≡ₚ concat (f <$> l) ++ concat (g <$> l).
Proof. induction l as [|x l IH]; [done|]. cbn. rewrite IH. solve_Permutation. Qed.

Lemma concat_fmap_concat {A B C} (f : B → list C) (g : A → list B) (l : list A) :
  concat ((λ x, concat (f <$> g x)) <$> l) = concat (f <$> concat (g <$> l)).
Proof. induction l as [|x l IH]; [done|]. cbn. by rewrite IH, fmap_app, concat_app. Qed.

Lemma edges_write a nd :
  node_at p a = Some nd → node_wf nd → (key_cnt nd ≤ MAX_DEGREE)%nat →
  writes p (λ str, fold_each (range_up 0 (key_cnt nd + 1)) str (λ str i,
      c ← get_child_index a i; mret (str +:+ child_edge a i c)))
    ((λ i, child_edge a i (child_index nd !!! i)) <$> seq 0 (S (key_cnt nd))).
Proof.
  intros Ha Hw Hcnt. unfold range_up. rewrite Nat.sub_0_r, Nat.add_1_r.
  assert (∀ i, i ∈ seq 0 (S (key_cnt nd)) → (i < S MAX_DEGREE)%nat) as Hl by (intros i Hi%elem_of_seq; lia).
  induction (seq 0 (S (key_cnt nd))) as [|i l IH]; [apply writes_nil|]. cbn [fold_each fmap list_fmap].
  apply (writes_bind p _ _ [_]); [|apply IH; intros j Hj; apply Hl; by right].
  destruct (lookup_lt_is_Some_2 (child_index nd) i) as [c Hc]; [rewrite (wf_children _ Hw); apply Hl; by left|].
  intros str. unfold get_child_index. rewrite bind_assoc, (bind_load _ _ _ _ Ha), Hc. cbn [or_ub].
  rewrite bind_ret, text_one. by rewrite (list_lookup_total_correct _ _ _ Hc).
Qed.

(** A node whose children and next layers are written. *)
Lemma node_shows a nd (F : nat) (Ks : list ptr) (Ns : nat → list ptr) :
  node_printable a nd → node_wf nd →
  (∀ fuel, (F ≤ fuel)%nat → is_leaf nd = false → ∃ ks, ks ≡ₚ concat (node_pieces <$> Ks)
     ∧ writes p (λ str, fold_each (range_up 0 (key_cnt nd + 1)) str (λ str i,
         ch ← child a i; c ← or_ub ch; print fuel str c)) ks) →
  (is_leaf nd = true → Ks = []) → Forall labelled Ks →
  (∀ i, (i < key_cnt nd)%nat →
     next_level nd !! i = Some INVALID_INDEX ∧ Ns i = []
     ∨ ∃ l ld, next_level nd !! i = Some (to_index l) ∧ node_at p l = Some ld ∧ shows F l (Ns i)) →
  shows (S F) a (a :: Ks ++ concat (Ns <$> seq 0 (key_cnt nd))).
Proof.
  intros Hn Hw Hkids Hleaf Hlks Hnext. pose proof Hn as [Ha Hcnt _ _].
  destruct (label_writes a nd Hn) as [lbl Hlbl]. split.
  { constructor; [by exists ("" +:+ text [lbl])|]. apply Forall_app. split; [done|].
    apply Forall_concat, Forall_fmap, Forall_forall. intros i [_ Hi]%elem_of_seq.
    destruct (Hnext i Hi) as [[_ Hi0]|(l & ld & _ & _ & [Hl _])]; cbn; [by rewrite Hi0|done]. }
  intros [|fuel] Hf; [lia|].
  destruct (writes_loop p (key_cnt nd) (λ str i,
      nl ← get_next_layer a i;
      match nl with
      | None => mret str
      | Some l =>
          str ← print fuel str l; c ← or_ub (next_level nd !! i);
          mret (str +:+ layer_edge a i c)
      end) (λ i, concat (node_pieces <$> Ns i) ++ layer_edges a nd i)) as (ns & Hns & Hwn).
  { intros i Hi. unfold layer_edges. destruct (Hnext i Hi) as [[Hl ->]|(l & ld & Hl & Hld & Hsh)];
      rewrite (list_lookup_total_correct _ _ _ Hl).
    - rewrite Z.eqb_refl. exists []. split; [done|]. eapply writes_ext; [|apply writes_nil].
      intros str. by run_ok by (by eapply next_layer_none).
    - destruct (to_index_id _ _ _ _ Hp Hld) as [_ Hne]. rewrite (proj2 (Z.eqb_neq _ _)) by done.
      destruct (proj2 Hsh fuel) as (ps & Hps & Hwr); [lia|]. exists (ps ++ [layer_edge a i (to_index l)]).
      split; [by rewrite Hps|]. eapply writes_ext; [|apply writes_bind; [exact Hwr|apply writes_text]].
      intros str. run_ok by (by eapply next_layer_some). rewrite Hl. cbn [or_ub].
      unfold mbind, M_bind. destruct (print fuel str l p) as [[?|?] ?]; done. }
  assert (∃ ks, ks ≡ₚ concat (node_pieces <$> Ks)
      ++ (if is_leaf nd then [] else (λ i, child_edge a i (child_index nd !!! i)) <$> seq 0 (S (key_cnt nd)))
    ∧ writes p (λ str, if is_leaf nd then mret str
             else
               str ← fold_each (range_up 0 (key_cnt nd + 1)) str (λ str i,
                 ch ← child a i; c ← or_ub ch; print fuel str c);
               fold_each (range_up 0 (key_cnt nd + 1)) str (λ str i,
                 c ← get_child_index a i; mret (str +:+ child_edge a i c))) ks) as (ks & Hks & Hwk).
  { destruct (is_leaf nd) eqn:Hlf.
    - rewrite Hleaf by done. exists []. split; [done|apply writes_nil].
    - destruct (Hkids fuel) as (ks & Hks & Hwk); [lia|done|]. eexists. split; [by rewrite <- Hks|].
      apply writes_bind; [done|]. apply edges_write; [done|done|lia]. }
  exists ([lbl] ++ ks ++ ns ++ [endl]). split.
  - rewrite Hks, Hns, concat_fmap_app. cbn [fmap list_fmap concat]. unfold node_pieces at 3.
    rewrite Ha, (Hlbl ""), text_one. change ("" +:+ lbl) with lbl. rewrite fmap_app, concat_app.
    rewrite concat_fmap_concat. solve_Permutation.
  - intros str. cbn [print_to_stream]. run_ok by (by eapply getId_ok). run_ok by apply Hlbl.
    rewrite (bind_load _ _ _ _ Ha). run_ok by apply Hwk. run_ok by apply Hwn.
    by rewrite !text_app, !text_one, !str_app_assoc.
Qed.

Lemma shows_weaken F F' a ls ls' : shows F a ls → (F ≤ F')%nat → ls ≡ₚ ls' → shows F' a ls'.
Proof.
  intros [Hlab Hs] HF Hl. split; [by rewrite <- Hl|]. intros fuel Hf. destruct (Hs fuel) as (ps & Hps & Hw); [lia|]. exists ps. split; [|done].
  by rewrite Hps, Hl.
Qed.

(** ** A layer and the layers below *)

Context (H : nat) (order : list nat).
Hypothesis Horder : Forall (λ d, (d < D)%nat) order.

Lemma btree_shows (nx : KeyInfo V → option (gtrie V)) d level F t par :
  rep p d par t → t_nonempty t → (d < D)%nat → (∀ b, par = Some b → is_Some (node_at p b)) →
  (∀ x, x ∈ flat t → next_rep p H order level x (nx x)
     ∧ ∀ g, nx x = Some g → shows F (g_addr g) (g_addrs g)) →
  shows (height t + F) (addr t) (tree_addrs nx t).
Proof.
  revert par. induction t as [a its ts IH] using btree_ind'. rewrite Forall_forall in IH.
  intros par Hr Hne Hd Hpar Hx. pose proof Hr as [(nd & Ha & Hn) Hts]%rep_unfold.
  apply t_nonempty_unfold in Hne as [Hits Htne]. rewrite Forall_forall in Hts, Htne.
  pose proof (rep_arity _ _ _ _ _ Hn) as Hl. pose proof (nr_cnt _ _ _ _ _ Hn) as Hcnt.
  pose proof (nr_max _ _ _ _ _ Hn) as Hmax. set (h := (height (BNode a its ts) - 1)%nat).
  assert (height (BNode a its ts) = S h) as Hh by (unfold h; cbn; lia).
  rewrite Hh. apply (shows_weaken (S (h + F)) _ _ (a :: concat (tree_addrs nx <$> ts) ++
    concat ((λ i, from_option (λ x, o_addrs (nx x)) [] (its !! i)) <$> seq 0 (key_cnt nd)))); [|lia|].
  2: { rewrite Hcnt, parts_by_index, (tree_addrs_unfold nx a its ts Hl). solve_Permutation. }
  assert (∀ c, c ∈ ts → shows (height c + F) (addr c) (tree_addrs nx c)) as Hkids.
  { intros c Hcin. apply (IH c Hcin (Some a)); [by apply Hts|by apply Htne|done| |].
    - intros b [= <-]. by exists nd.
    - intros x Hxc. apply Hx. destruct Hl as [->|Hl]; [by apply elem_of_nil in Hcin|by eapply flat_kids]. }
  apply (node_shows a nd (h + F)); [split| | | | |].
  - done.
  - rewrite Hcnt. destruct its; [done|cbn in *; lia].
  - intros i Hi. destruct (lookup_lt_is_Some_2 its i) as [x Hxi]; [lia|]. exists x, d.
    split_and!; [by apply (nr_keys _ _ _ _ _ Hn)|apply (nr_dims _ _ _ _ _ Hn); lia|done].
  - by rewrite (nr_parent _ _ _ _ _ Hn).
  - apply (nr_wf _ _ _ _ _ Hn).
  - intros fuel Hf Hlf. destruct Hl as [->|Hl]; [by rewrite (nr_leaf _ _ _ _ _ Hn) in Hlf|].
    rewrite Hcnt, Nat.add_1_r, <- Hl.
    rewrite <- concat_fmap_concat, <- (parts_by_index (λ c, concat (node_pieces <$> tree_addrs nx c)) ts).
    apply writes_loop. intros i Hi. destruct (lookup_lt_is_Some_2 ts i Hi) as [c Hc].
    pose proof (list_elem_of_lookup_2 _ _ _ Hc) as Hcin. rewrite Hc. cbn [from_option].
    destruct (rep_kids_live _ _ _ _ _ _ Hr (addr c)) as (cd & Hcd & _); [by apply list_elem_of_fmap_2|].
    pose proof (height_kid a its ts c Hcin).
    destruct (proj2 (Hkids c Hcin) fuel) as (ps & Hps & Hw); [lia|].
    exists ps. split; [done|]. eapply writes_ext; [|exact Hw]. intros str.
    run_ok by (eapply child_some; [exact Hp|exact Ha| |exact Hcd];
      apply (nr_kids _ _ _ _ _ Hn); by rewrite list_lookup_fmap, Hc). done.
  - rewrite (nr_leaf _ _ _ _ _ Hn). intros Hlf%bool_decide_eq_true. by apply fmap_nil_inv in Hlf as ->.
  - apply Forall_concat, Forall_fmap, Forall_forall. intros c Hc. apply (Hkids c Hc).
  - intros i Hi. destruct (lookup_lt_is_Some_2 its i) as [x Hxi]; [lia|]. rewrite Hxi. cbn [from_option].
    destruct (Hx x) as [Ho Hsh]; [apply flat_items; [done|by eapply list_elem_of_lookup_2]|].
    destruct (node_key_inv nd i x) as [Hk _]. destruct Hk as (_ & _ & Hnl); [by apply (nr_keys _ _ _ _ _ Hn)|].
    destruct (nx x) as [g|]; cbn in Ho; [right|left; by rewrite Hnl, Ho].
    destruct Ho as [Hk Hg]. destruct (g_rep_live _ _ _ _ _ Hg) as [gd Hgd]. exists (g_addr g), gd.
    split_and!; [by rewrite Hnl, Hk|done|]. eapply shows_weaken; [by apply Hsh|lia|done].
Qed.

Lemma chain_shows a c cs o level F :
  g_rep p H order level (GChain a c cs o) → (∀ g, o = Some g → shows F (g_addr g) (g_addrs g)) →
  shows (S F) a (a :: o_addrs o).
Proof.
  intros Hg Ho. destruct (chain_parts _ _ _ _ _ _ _ _ Hg) as (nd & Ha & Hc & _ & [Hnone Hlast] & _).
  pose proof (cr_cnt _ _ _ _ Hc) as Hcnt. pose proof (cr_max _ _ _ _ Hc) as Hmax.
  set (Ns := λ i, if decide (i = length cs) then o_addrs o else []).
  apply (shows_weaken (S F) _ _ (a :: [] ++ concat (Ns <$> seq 0 (key_cnt nd)))); [|done|].
  2: { rewrite Hcnt. cbn [length app]. rewrite concat_last; unfold Ns.
       - by rewrite decide_True.
       - intros i Hi. by rewrite decide_False by lia. }
  apply node_shows; [split| | | | |].
  - done.
  - rewrite Hcnt. cbn [length] in *. lia.
  - intros i Hi. rewrite Hcnt in Hi. destruct (lookup_lt_is_Some_2 (c :: cs) i Hi) as [x Hx].
    destruct (cr_dims _ _ _ _ Hc i Hi) as (d & Hd & Hnd). exists x, d. rewrite Forall_forall in Horder.
    split_and!; [by apply (cr_keys _ _ _ _ Hc)|done|]. apply Horder. by eapply list_elem_of_lookup_2.
  - by rewrite (cr_parent _ _ _ _ Hc).
  - apply (cr_wf _ _ _ _ Hc).
  - by rewrite (cr_leaf _ _ _ _ Hc).
  - done.
  - constructor.
  - intros i Hi. rewrite Hcnt in Hi. destruct (lookup_lt_is_Some_2 (c :: cs) i Hi) as [x Hx]. unfold Ns.
    destruct (node_key_inv nd i x) as [Hk _]. destruct Hk as (_ & _ & Hnl); [by apply (cr_keys _ _ _ _ Hc)|].
    case_decide as He.
    + cbn [length] in *. specialize (Hlast x). rewrite He, Nat.sub_succ, Nat.sub_0_r in *.
      specialize (Hlast Hx). destruct o as [g|]; cbn in Hlast; [right|left; by rewrite Hnl, Hlast].
      destruct Hlast as [Hk Hgr]. destruct (g_rep_live _ _ _ _ _ Hgr) as [gd Hgd]. exists (g_addr g), gd.
      split_and!; [by rewrite Hnl, Hk|done|]. by apply Ho.
    + left. rewrite Hnl, (Hnone i x Hx); [done|cbn [length] in *; lia].
Qed.

Lemma tree_shows g level :
  g_rep p H order level g → g_shaped g → shows (S H * (length order - level)) (g_addr g) (g_addrs g).
Proof.
  revert level. induction g as [t nexts IH|a c cs o IH] using gtrie_ind'; intros level Hg Hne;
    pose proof (g_rep_level _ _ _ _ _ Hg) as Hlev.
  - apply g_rep_layer in Hg as ((d & Hd & Hr) & Hs & Hh & Hn). apply g_shaped_layer in Hne as [[Htne _] Hne].
    rewrite Forall_forall in Horder. pose proof (Horder d (list_elem_of_lookup_2 _ _ _ Hd)) as Hlt.
    eapply shows_weaken; [apply (btree_shows (next_of (flat t) nexts) d (S level) (S H * (length order - S level)) t None)| |];
      [done|done|done|done| | |].
    + intros x (j & Hx)%list_elem_of_lookup. destruct (Forall2_lookup_l _ _ _ _ _ Hn Hx) as (o & Ho & Hxo).
      rewrite (next_of_lookup _ _ _ _ _ Hs Hx Ho). split; [done|]. intros g ->.
      apply IH; [by eapply list_elem_of_lookup_2|apply Hxo|]. rewrite Forall_lookup in Hne. by apply (Hne j (Some g)).
    + replace (length order - level)%nat with (S (length order - S level)) by lia. lia.
    + unfold tree_addrs. rewrite g_addrs_layer. f_equiv.
      pose proof (next_of_map H order p (S level) (flat t) nexts Hs Hn) as Hmap.
      trans (concat (o_addrs <$> (next_of (flat t) nexts <$> flat t))); [by rewrite <- list_fmap_compose|by rewrite Hmap].
  - cbn [g_addr]. change (g_addrs (GChain a c cs o)) with (a :: o_addrs o).
    pose proof Hg as Hg'. destruct (chain_parts _ _ _ _ _ _ _ _ Hg') as (_ & _ & _ & _ & [_ Hlast] & _).
    eapply shows_weaken; [eapply (chain_shows a c cs o level (S H * (length order - S level))); [done|]| |done].
    + intros g ->. assert (g_rep p H order (level + length (c :: cs)) g) as Hgr.
      { destruct (lookup_lt_is_Some_2 (c :: cs) (length (c :: cs) - 1)) as [x Hx]; [cbn; lia|]. apply (Hlast x Hx). }
      eapply shows_weaken; [apply (IH g eq_refl _ Hgr)| |done].
      * exact Hne.
      * apply Nat.mul_le_mono_l. cbn [length]. lia.
    + replace (length order - level)%nat with (S (length order - S level)) by lia. lia.
Qed.
End node.

(** ** The whole tree *)

Section tree.
Context `{cfg : !BTreeCfg, Hok : !CfgOk} {V : Type} `{!RuleValue V} (rule_id : V → Z).
Context (formaters : list (Range1d → string)) (names : list string).

(** C16. Printing a stored tree returns and changes nothing; the text is the
    frame of the graph around the statement of every node, once, with the
    edges to its children and to the layers of its keys. *)
Theorem print_stored p fl H o (t : BTree) fuel :
  stores p fl H (bt_dimension_order t) o → g_addr <$> o = root t →
  Forall (λ d, (d < D)%nat) (bt_dimension_order t) → length formaters = D → length names = D →
  (S H * length (bt_dimension_order t) ≤ fuel)%nat →
  ∃ ps, ps ≡ₚ concat (node_pieces rule_id formaters names p <$> o_addrs o)
    ∧ Forall (labelled rule_id formaters names p) (o_addrs o)
    ∧ btree_to_string rule_id formaters names fuel t p
      = (Ok ("digraph layered_btree {" +:+ endl +:+ "    node [shape=record];" +:+ endl +:+ text ps +:+ "}"), p).
Proof using Hok.
  intros [Hp Hg _ Hne] Hroot Hod Hf Hn Hfuel. unfold btree_to_string, print_top. rewrite <- Hroot.
  destruct o as [g|]; cbn [fmap option_fmap option_map o_addrs]; [|by exists []].
  destruct (tree_shows rule_id formaters names p fl Hp Hf Hn H _ Hod g 0) as [Hl Hs]; [by apply Hg|done|].
  destruct (Hs fuel) as (ps & Hps & Hw); [by rewrite Nat.sub_0_r|]. exists ps. split_and!; [done|done|].
  run_ok by apply Hw. by rewrite !str_app_assoc.
Qed.
End tree.

Module PrinterExample.
Import LookupSpec.Example InsertSpec.InsertExample.
#[local] Existing Instance cfg3.

Definition tree9 : BTree := mkBTree (Some (g_addr built_tree)) [0; 1; 2]%nat default_in_packet_position.

Lemma print_stored_witness :
  ∃ ps, ps ≡ₚ concat (node_pieces rvi_rule_id default_formaters default_names built.2 <$> o_addrs (Some built_tree))
    ∧ Forall (labelled rvi_rule_id default_formaters default_names built.2) (o_addrs (Some built_tree))
    ∧ btree_to_string rvi_rule_id default_formaters default_names 40 tree9 built.2
      = (Ok ("digraph layered_btree {" +:+ endl +:+ "    node [shape=record];" +:+ endl +:+ text ps +:+ "}"), built.2).
Proof.
  apply (print_stored rvi_rule_id default_formaters default_names built.2 (seq 8 22) 9 (Some built_tree) tree9 40);
    [exact built_stores|reflexivity| |reflexivity|reflexivity|by apply Nat.leb_le].
  repeat (constructor; [by apply Nat.ltb_lt|]). constructor.
Defined.
End PrinterExample.
