(* ===== verification/Scenarios.v ===== *)
(** * Runs of the classifier on concrete rule sets

    The classifier over B-trees ([BTree_TREE_T]), evaluated: the lookup over
    several trees, and two histories that lose rules. *)
From S2P Require Import Prelude Range RuleValue Mempool Node NodeLemmas Schedule Search Layer Trie TrieCheck Footprint Insert Remove InsertRoot TrieInsert InsertSpec Build BuildSpec BTreeImpl TreeInterface Classifier ClassifierSpec ClassifierTrees.
Local Open Scope Z_scope.

Module Scenario.
#[local] Instance cfg3 : BTreeCfg := mkCfg 2 3 1000 4 true.
#[local] Existing Instance insertion_StdSort.

Definition ops : TREE_T (Heap RuleValueInt) BTree RuleValueInt := BTree_TREE_T 60.

Definition pool60 : Heap RuleValueInt :=
  Pool.mkPool ∅ (<[59%nat := None]> ((λ i, Some (S i)) <$> seq 0 60)) (Some 0%nat) false 60.

Definition any16 : Range1d := mkRange 0 65535.
Definition exact16 (v : Z) : Range1d := mkRange v v.

Definition rule3 (a b c : Range1d) (prio id : Z) : rule_spec_t RuleValueInt :=
  mkRule [a; b; c] (RuleValueInt_ctor prio id).

(** Five trees; a tree is rebuilt freely while it has fewer than ten rules. *)
Definition empty_classifier : Classifier (Heap RuleValueInt) BTree RuleValueInt :=
  PartitionSortClassifer_ctor (tree_ops := ops) 5 pool60.

Definition insert_all (rs : list (rule_spec_t RuleValueInt)) :=
  for_each rs (insert (tree_ops := ops) 2 3 5 10 30).

Definition lookup_packet (v : list Z) := search (tree_ops := ops) v.

(** ** Two trees *)

Definition two_rules : list (rule_spec_t RuleValueInt) :=
  [rule3 (exact16 1) any16 any16 10 1; rule3 (mkRange 0 5) any16 any16 20 2].

Definition two_trees : Classifier (Heap RuleValueInt) BTree RuleValueInt :=
  (insert_all two_rules empty_classifier).2.

Definition two_answers : list (Z * RuleValueInt) :=
  [(20, RuleValueInt_ctor 20 2); (10, RuleValueInt_ctor 10 1)].

Lemma two_answers_ok : answers (tree_ops := ops) two_trees [1; 2; 3] two_answers.
Proof.
  split; [vm_compute; reflexivity|].
  intros [|[|i]] mp r [= <- <-].
  - exists 1%nat. eexists. split; [vm_compute; reflexivity|].
    split; [vm_compute; reflexivity|]. split; vm_compute; reflexivity.
  - exists 0%nat. eexists. split; [vm_compute; reflexivity|].
    split; [vm_compute; reflexivity|]. split; vm_compute; reflexivity.
Qed.

Lemma search_best_witness :
  (insert_all two_rules empty_classifier).1 = Ok tt
  ∧ ∃ r, lookup_packet [1; 2; 3] two_trees = (Ok r, two_trees) ∧ best_answer two_answers r.
Proof.
  split; [vm_compute; reflexivity|].
  apply (search_best (tree_ops := ops) two_trees [1; 2; 3] two_answers two_answers_ok).
  - unfold trees_sorted, two_answers.
    constructor; [constructor; constructor|constructor; [cbn; lia|constructor]].
  - unfold bounded, two_answers.
    repeat (constructor; [intros _; vm_compute; discriminate|]). constructor.
Defined.

(** ** Removal *)

Definition tree0 : BTree := BTreeImp_ctor.

(** The tree after the insertions, the removal of a rule and a lookup. *)
Definition after_remove (rs : list (rule_spec_t RuleValueInt)) (r : rule_spec_t RuleValueInt)
    (v : list Z) : result RuleValueInt :=
  ((t ← fold_each rs tree0 (btree_insert 60);
    t ← btree_remove 60 t r;
    btree_search 60 t v) pool60).1.

Definition shared_prefix : list (rule_spec_t RuleValueInt) :=
  [rule3 (exact16 2) (exact16 3) any16 1 1; rule3 (exact16 2) (exact16 4) any16 1 2;
   rule3 (exact16 2) (exact16 6) any16 1 3].

(** A rule and a second one that is a prefix of it: one compressed node. *)
Definition with_prefix : list (rule_spec_t RuleValueInt) :=
  [rule3 (exact16 2) (exact16 3) (exact16 4) 1 1; rule3 (exact16 2) (exact16 3) any16 1 2].

(** Removing a rule from a tree can lose the others: after [(2, 3, any)] is
    removed neither of the rules that share its first field is found any
    more. *)
Example remove_loses_neighbours :
  after_remove shared_prefix (rule3 (exact16 9) any16 any16 1 9) [2; 4; 5]
    = Ok (RuleValueInt_ctor 1 2)
  ∧ after_remove shared_prefix (rule3 (exact16 2) (exact16 3) any16 1 1) [2; 4; 5]
    = Ok rv_default
  ∧ after_remove shared_prefix (rule3 (exact16 2) (exact16 3) any16 1 1) [2; 6; 5]
    = Ok rv_default.
Proof. vm_compute. repeat split. Qed.

(** It can also change one: after the prefix [(2, 3, any)] is removed from the
    compressed node of [(2, 3, 4)], that rule is found by packets with any
    second field. *)
Example remove_changes_chain :
  after_remove with_prefix (rule3 (exact16 9) any16 any16 1 9) [2; 77; 4] = Ok rv_default
  ∧ after_remove with_prefix (rule3 (exact16 2) (exact16 3) any16 1 2) [2; 77; 4] = Ok (RuleValueInt_ctor 1 1).
Proof. vm_compute. repeat split. Qed.

(** ** Reordering *)

(** What a lookup finds in a classifier built by insertions. *)
Definition found_after (rs : list (rule_spec_t RuleValueInt)) (v : list Z) : result RuleValueInt :=
  ((insert_all rs;; lookup_packet v) empty_classifier).1.

Definition two_fields : list (rule_spec_t RuleValueInt) :=
  [rule3 (exact16 1) any16 any16 1 1; rule3 (exact16 1) (exact16 2) any16 2 2;
   rule3 (exact16 1) (exact16 3) any16 2 3; rule3 (exact16 1) (exact16 4) any16 2 4;
   rule3 (exact16 1) (exact16 5) any16 2 5].

(** An insertion can hide a rule inserted before: the rule [(1, 5, any)]
    is found until [(2, any, 5)] is inserted, which matches no packet it
    matches; then its packets get the rule [(1, any, any)] of the lower
    priority. *)
Example insert_hides_rule :
  found_after two_fields [1; 5; 9] = Ok (RuleValueInt_ctor 2 5)
  ∧ found_after (two_fields ++ [rule3 (exact16 2) any16 (exact16 5) 2 7]) [1; 5; 9]
    = Ok (RuleValueInt_ctor 1 1).
Proof. vm_compute. auto. Qed.

(** The greatest priorities of the active trees, in the order of the array. *)
Definition tree_priorities (rs : list (rule_spec_t RuleValueInt)) : list Z :=
  let c := (insert_all rs empty_classifier).2 in
  max_priority_getter (infos c) <$> take (tree_cnt c) (trees c).

Definition seven_rules : list (rule_spec_t RuleValueInt) :=
  [rule3 (exact16 0) (mkRange 4 7) any16 11 1; rule3 any16 (exact16 3) any16 3 2; rule3 any16 any16 any16 2 3;
   rule3 any16 any16 (mkRange 0 1) 10 4; rule3 (exact16 0) (mkRange 4 5) any16 29 5;
   rule3 (mkRange 0 3) (exact16 2) any16 15 6; rule3 any16 any16 (mkRange 2 3) 16 7].

(** An insertion that rebuilds a tree can leave the array of trees
    unsorted: a nested insertion moves the trees, and the index of the tree is
    used after it.  The lookup then stops before the tree that holds the best
    rule: of the rules 6 and 7, which match the packet [(0, 2, 2)], it returns
    the one of the lower priority. *)
Example insert_unsorts_trees :
  (insert_all seven_rules empty_classifier).1 = Ok tt
  ∧ tree_priorities seven_rules = [29; 11; 29; 16]
  ∧ filter (λ r, rule_matches r [0; 2; 2] = true) seven_rules
    = [rule3 any16 any16 any16 2 3; rule3 (mkRange 0 3) (exact16 2) any16 15 6; rule3 any16 any16 (mkRange 2 3) 16 7]
  ∧ found_after seven_rules [0; 2; 2] = Ok (RuleValueInt_ctor 15 6).
Proof. vm_compute. repeat split; reflexivity. Qed.

(** ** The whole classifier

    Three rules in two trees: the packet [1, 2, 4] matches the second rule of
    the first tree and the rule of the second tree. *)

Definition three_rules : list (rule_spec_t RuleValueInt) :=
  [rule3 (exact16 1) (exact16 2) (exact16 3) 10 1; rule3 (exact16 1) (exact16 2) (exact16 4) 30 2;
   rule3 (mkRange 0 5) any16 any16 20 3].

Definition classifier3 : Classifier (Heap RuleValueInt) BTree RuleValueInt :=
  (insert_all three_rules empty_classifier).2.

(** The tree with the number [i] and its structure. *)
Definition tree3 (i : nat) : BTree :=
  match infos classifier3 !! i with Some t => tree t | None => tree0 end.
Definition gtree3 (i : nat) : gtrie RuleValueInt :=
  default (GChain 0 (mkKeyInfo any16 rv_default 0) [] None) (a ← root (tree3 i); g_read 9 (alloc classifier3) a).

Notation order3 := [0; 1; 2]%nat.

Lemma tree_rules_check rs :
  Forall rule_ok16 rs → Forall (λ r, is_valid (rvalue r) = true) rs →
  Forall (λ r, Forall (λ r', compatible (rule_keys order3 r) (rule_keys order3 r')
     ∧ (rule_keys order3 r = rule_keys order3 r' → rvalue r = rvalue r')) rs) rs →
  tree_rules order3 rs.
Proof.
  intros Hok Hv Hc. assert (∀ r r', r ∈ rs → r' ∈ rs → compatible (rule_keys order3 r) (rule_keys order3 r')
     ∧ (rule_keys order3 r = rule_keys order3 r' → rvalue r = rvalue r')) as Hc'.
  { intros r r' Hr Hr'. rewrite Forall_forall in Hc. specialize (Hc r Hr). rewrite Forall_forall in Hc. by apply Hc. }
  split; [done|done|intros r r' Hr Hr'; by apply Hc'|intros r r' Hr Hr'; by apply Hc'].
Qed.

Lemma tree_holds_check i rs :
  bt_dimension_order (tree3 i) = order3 → bt_in_packet_position (tree3 i) = default_in_packet_position →
  tree_rules order3 rs → Some (g_addr (gtree3 i)) = root (tree3 i) →
  stores_check (alloc classifier3) (seq 3 57) 9 order3 (gtree3 i) = true →
  Some (abs (gtree3 i)) = foldl (t_insert_rule order3) None rs →
  tree_holds 60 (alloc classifier3) (tree3 i) rs.
Proof.
  intros Ho Hpos Hr Hroot Hst Habs. split; [by rewrite Ho|done|by rewrite Ho|].
  exists (seq 3 57), 9%nat, (Some (gtree3 i)). rewrite Ho. split_and!; [by apply stores_check_sound|done| |apply Nat.leb_le; reflexivity].
  cbn [fmap option_fmap option_map]. rewrite Habs.
  apply trie_of_rules; [reflexivity|reflexivity|by apply Nat.leb_le| |done|apply Hr|apply Hr].
  by repeat (constructor; [by apply Nat.ltb_lt|]).
Qed.

Lemma three_rules_ok : Forall rule_ok16 three_rules.
Proof. repeat (constructor; [repeat split; repeat constructor; done|]). constructor. Qed.

Lemma tree3_rules : tree_rules order3 (take 2 three_rules) ∧ tree_rules order3 (drop 2 three_rules).
Proof.
  split; apply tree_rules_check.
  - apply Forall_take. exact three_rules_ok.
  - cbn [take three_rules]. repeat (constructor; [reflexivity|]). constructor.
  - cbn [take three_rules]. refine (bool_decide_unpack _ _). 
   vm_compute. exact I.
  - apply Forall_drop. exact three_rules_ok.
  - cbn [drop three_rules]. repeat (constructor; [reflexivity|]). constructor.
  - cbn [drop three_rules]. refine (bool_decide_unpack _ _). vm_compute. exact I.
Qed.

Lemma tree3_holds_0 : tree_holds 60 (alloc classifier3) (tree3 0) (take 2 three_rules).
Proof. apply tree_holds_check; [vm_compute; reflexivity..|apply tree3_rules| | |]; vm_compute; reflexivity. Qed.

Lemma tree3_holds_1 : tree_holds 60 (alloc classifier3) (tree3 1) (drop 2 three_rules).
Proof. apply tree_holds_check; [vm_compute; reflexivity..|apply tree3_rules| | |]; vm_compute; reflexivity. Qed.

(** The rules of the active trees with their [max_priority]. *)
Definition rules3 : list (Z * list (rule_spec_t RuleValueInt)) :=
  [(30, take 2 three_rules); (20, drop 2 three_rules)].

Lemma classifier_linear_witness :
  (insert_all three_rules empty_classifier).1 = Ok tt
  ∧ lookup_packet [1; 2; 4] classifier3 = (Ok (RuleValueInt_ctor 30 2), classifier3)
  ∧ ∃ w, Classifier.search (tree_ops := ClassifierTrees.tree_ops 60) [1; 2; 4] classifier3 = (Ok w, classifier3)
      ∧ classified (concat (rules3.*2)) [1; 2; 4] w.
Proof.
  split; [vm_compute; reflexivity|]. split; [vm_compute; reflexivity|].
  apply (classifier_linear 60 classifier3 rules3 [1; 2; 4]);
    [reflexivity|by apply Nat.leb_le|vm_compute; reflexivity| | |reflexivity|].
  - intros [|[|i]] mp rs [= <- <-].
    + exists 0%nat, (default (new_tree_info (tree_ops := ops)) (infos classifier3 !! 0%nat)).
      split_and!; [vm_compute; reflexivity..| |by repeat constructor]. exact tree3_holds_0.
    + exists 1%nat, (default (new_tree_info (tree_ops := ops)) (infos classifier3 !! 1%nat)).
      split_and!; [vm_compute; reflexivity..| |by repeat constructor]. exact tree3_holds_1.
  - repeat constructor; cbn; lia.
  - by repeat constructor.
Defined.
End Scenario.
